(* ===== verification/_CoqProject ===== *)
-Q . S2P
Prelude.v
Mem.v
Riscv.v
Str.v
Spinlock.v
Kalloc.v
Vm.v
PageTable.v
UserMem.v
Cow.v
UserCopy.v
VmDemo.v
GroupLock.v
Held.v
Sleeplock.v
FsState.v
Bio.v
View.v
Log.v
Txn.v
Fs.v
FsBlock.v
FsInode.v
FsFile.v
FsWrite.v
FsDemo.v
Pipe.v
Sh.v
ShRound.v
Grep.v
Proc.v
ProcInv.v
ProcSafe.v
ProcWait.v
Printf.v
Ring.v
Console.v
Uart.v
Virtio.v
VirtioInv.v
VirtioSafe.v
Umalloc.v
File.v
FileInv.v
FileSafe.v
