(* ===== verification/Prelude.v ===== *)
(** Prelude of the xv6-riscv development: header to be written. *)

From stdpp Require Export base tactics numbers list gmap strings.
From Stdlib Require Export ZArith Lia.

Declare Scope xv6_scope.
Delimit Scope xv6_scope with xv6.
Open Scope Z_scope.

(** ** Outcomes of kernel code

    A kernel routine started in a state either returns a value in a new state,
    calls [panic], or never returns: [Stuck] stands for undefined behaviour of
    the C program (an access outside an array) and for a loop that makes no
    progress (a spin on a lock that is never released). *)
Inductive result (S A : Type) : Type :=
| Ret (a : A) (s : S)
| Panic (msg : string)
| Stuck (why : string).
Arguments Ret {S A} _ _.
Arguments Panic {S A} _.
Arguments Stuck {S A} _.

(** Code over a state [S]: explicit state passing with the three outcomes. *)
Definition M (S A : Type) : Type := S -> result S A.

Definition ret {S A} (a : A) : M S A := fun s => Ret a s.
Definition bind {S A B} (m : M S A) (k : A -> M S B) : M S B :=
  fun s =>
    match m s with
    | Ret a s' => k a s'
    | Panic msg => Panic msg
    | Stuck why => Stuck why
    end.
Definition panic {S A} (msg : string) : M S A := fun _ => Panic msg.
Definition stuck {S A} (why : string) : M S A := fun _ => Stuck why.
Definition gets {S A} (f : S -> A) : M S A := fun s => Ret (f s) s.
Definition modify {S} (f : S -> S) : M S unit := fun s => Ret tt (f s).

Notation "x <- m ;; k" := (bind m (fun x => k))
  (at level 100, m at next level, k at level 200, right associativity) : xv6_scope.
Notation "m ;; k" := (bind m (fun _ => k))
  (at level 100, k at level 200, right associativity) : xv6_scope.
Open Scope xv6_scope.

(** [if (b) m;] *)
Definition when {S} (b : bool) (m : M S unit) : M S unit :=
  if b then m else ret tt.

(** [for (x in xs) body], for a loop whose bounds its body does not change. *)
Fixpoint for_each {S A} (xs : list A) (body : A -> M S unit) : M S unit :=
  match xs with
  | [] => ret tt
  | x :: xs' => body x ;; for_each xs' body
  end.

Section outcomes.
Context {S A B : Type}.
Implicit Types (m : M S A) (k : A -> M S B).

Lemma bind_ret m k s a s' : m s = Ret a s' -> bind m k s = k a s'.
Proof. unfold bind. by intros ->. Qed.

Lemma bind_panicked m k s msg : m s = Panic msg -> bind m k s = Panic msg.
Proof. unfold bind. by intros ->. Qed.

Lemma bind_inv m k s b s'' :
  bind m k s = Ret b s'' -> exists a s', m s = Ret a s' /\ k a s' = Ret b s''.
Proof. unfold bind. destruct (m s) eqn:E; [eauto|done..]. Qed.

Lemma ret_inv (a b : A) (s s' : S) : ret a s = Ret b s' -> a = b /\ s = s'.
Proof. unfold ret. by intros [= -> ->]. Qed.
End outcomes.

(** Symbolic execution of the combinators, as rewriting. *)
Section steps.
Context {S A B : Type}.

Lemma bind_ret_l (a : A) (k : A -> M S B) s : bind (ret a) k s = k a s.
Proof. done. Qed.
Lemma bind_gets (f : S -> A) (k : A -> M S B) s : bind (gets f) k s = k (f s) s.
Proof. done. Qed.
Lemma bind_modify (f : S -> S) (k : unit -> M S B) s : bind (modify f) k s = k tt (f s).
Proof. done. Qed.
Lemma bind_assoc {C} (m : M S A) (k : A -> M S B) (k' : B -> M S C) s :
  bind (bind m k) k' s = bind m (fun a => bind (k a) k') s.
Proof. unfold bind. by destruct (m s). Qed.
Lemma bind_panic_l (msg : string) (k : A -> M S B) s : bind (panic msg) k s = Panic msg.
Proof. done. Qed.
Lemma when_true (m : M S unit) : when true m = m.
Proof. done. Qed.
Lemma when_false (m : M S unit) : when false m = ret tt.
Proof. done. Qed.
End steps.

Create Rewrite HintDb msteps.
#[export] Hint Rewrite @bind_ret_l @bind_gets @bind_modify @bind_assoc @bind_panic_l
  @when_true @when_false : msteps.
Ltac mstep := autorewrite with msteps; cbv beta.

Lemma for_each_app {S A} (xs ys : list A) (body : A -> M S unit) s :
  for_each (xs ++ ys) body s = (for_each xs body ;; for_each ys body) s.
Proof.
  revert s; induction xs as [|x xs IH]; intros s; [done|]; simpl.
  unfold bind in *. destruct (body x s); [apply IH|done..].
Qed.

(** An invariant of every iteration is an invariant of the loop. *)
Lemma for_each_ind {S A} (P : list A -> S -> Prop) (body : A -> M S unit) :
  (forall done x s, P done s -> exists s', body x s = Ret tt s' /\ P (done ++ [x]) s') ->
  forall xs done s, P done s ->
    exists s', for_each xs body s = Ret tt s' /\ P (done ++ xs) s'.
Proof.
  intros Hstep xs. induction xs as [|x xs IH]; intros done s HP; simpl.
  - exists s. by rewrite app_nil_r.
  - destruct (Hstep done x s HP) as (s1 & E & HP1).
    destruct (IH _ _ HP1) as (s2 & E2 & HP2).
    exists s2. unfold bind. rewrite E. split; [done|]. by rewrite <- app_assoc in HP2.
Qed.

(** The same for [for(k = a; k < n; k++)], with an invariant of the index. *)
Lemma for_each_seq {S} (I : Z -> S -> Prop) (body : Z -> M S unit) a n s :
  (forall k s, a <= k < a + n -> I k s -> exists s', body k s = Ret tt s' /\ I (k + 1) s') ->
  I a s -> 0 <= n -> exists s', for_each (seqZ a n) body s = Ret tt s' /\ I (a + n) s'.
Proof.
  intros Hstep HI Hn. remember (Z.to_nat n) as m eqn:Em. revert a n s Em Hn Hstep HI.
  induction m as [|m IH]; intros a n s Em Hn Hstep HI.
  - assert (n = 0) as -> by lia. rewrite Z.add_0_r. exists s. done.
  - rewrite seqZ_cons by lia. simpl. destruct (Hstep a s) as (s1 & E1 & H1); [lia|done|].
    destruct (IH (Z.succ a) (Z.pred n) s1) as (s2 & E2 & H2); [lia|lia| |done|].
    + intros k s' Hk. apply Hstep. lia.
    + exists s2. unfold bind. rewrite E1, E2. split; [done|].
      by replace (a + n) with (Z.succ a + Z.pred n) by lia.
Qed.

(** Inversion of a run of monadic code that returned. *)
Ltac minv :=
  repeat match goal with
  | H : bind _ _ _ = Ret _ _ |- _ =>
      apply bind_inv in H; destruct H as (? & ? & ? & H)
  | H : ret _ _ = Ret _ _ |- _ => apply ret_inv in H; destruct H; subst
  | H : panic _ _ = Ret _ _ |- _ => discriminate H
  | H : stuck _ _ = Ret _ _ |- _ => discriminate H
  | H : Ret _ _ = Ret _ _ |- _ => injection H as ? ?; subst
  | H : Panic _ = Ret _ _ |- _ => discriminate H
  | H : Stuck _ = Ret _ _ |- _ => discriminate H
  | H : gets _ _ = Ret _ _ |- _ => unfold gets in H
  | H : modify _ _ = Ret _ _ |- _ => unfold modify in H
  end.

(** One step of symbolic execution by unfolding the combinators. *)
Ltac mrun := unfold bind, ret, gets, modify, when, panic, stuck; simpl.

(** ** Machine integers

    A C integer of width [w] is a [Z]; every operation that may leave the range
    of its type is followed by the wrap-around of that type. *)
Definition u8 (x : Z) : Z := x mod 2 ^ 8.
Definition u16 (x : Z) : Z := x mod 2 ^ 16.
Definition u32 (x : Z) : Z := x mod 2 ^ 32.
Definition u64 (x : Z) : Z := x mod 2 ^ 64.
Definition i16 (x : Z) : Z := (x + 2 ^ 15) mod 2 ^ 16 - 2 ^ 15.
Definition i32 (x : Z) : Z := (x + 2 ^ 31) mod 2 ^ 32 - 2 ^ 31.
Definition i64 (x : Z) : Z := (x + 2 ^ 63) mod 2 ^ 64 - 2 ^ 63.

Lemma u8_small x : 0 <= x < 256 -> u8 x = x.
Proof. intros. unfold u8. apply Z.mod_small. lia. Qed.
Lemma u16_small x : 0 <= x < 65536 -> u16 x = x.
Proof. intros. unfold u16. apply Z.mod_small. lia. Qed.
Lemma u32_small x : 0 <= x < 4294967296 -> u32 x = x.
Proof. intros. unfold u32. apply Z.mod_small. lia. Qed.
Lemma u64_small x : 0 <= x < 18446744073709551616 -> u64 x = x.
Proof. intros. unfold u64. apply Z.mod_small. lia. Qed.
Lemma i32_small x : -2147483648 <= x < 2147483648 -> i32 x = x.
Proof. intros. unfold i32. rewrite Z.mod_small; lia. Qed.

Lemma u8_range x : 0 <= u8 x < 256.
Proof. unfold u8. apply Z.mod_pos_bound. lia. Qed.
Lemma u32_range x : 0 <= u32 x < 4294967296.
Proof. unfold u32. apply Z.mod_pos_bound. lia. Qed.
Lemma u64_range x : 0 <= u64 x < 18446744073709551616.
Proof. unfold u64. apply Z.mod_pos_bound. lia. Qed.
Lemma i32_range x : -2147483648 <= i32 x < 2147483648.
Proof. unfold i32. pose proof (Z.mod_pos_bound (x + 2 ^ 31) (2 ^ 32)). lia. Qed.

(** The lemmas that remove a wrap-around whose argument is in range. *)
Create Rewrite HintDb width.
#[export] Hint Rewrite u8_small u16_small u32_small u64_small i32_small using lia : width.

Ltac unwrap := autorewrite with width.

(** ** Point update of an array modelled as a function of its index *)
Definition upd {A} (f : Z -> A) (i : Z) (v : A) : Z -> A :=
  fun j => if j =? i then v else f j.

Lemma upd_eq {A} (f : Z -> A) i v : upd f i v i = v.
Proof. unfold upd. by rewrite Z.eqb_refl. Qed.
Lemma upd_ne {A} (f : Z -> A) i j v : j <> i -> upd f i v j = f j.
Proof. unfold upd. intros. destruct (Z.eqb_spec j i); [done|reflexivity]. Qed.
Lemma upd_case {A} (f : Z -> A) i v j :
  upd f i v j = if decide (j = i) then v else f j.
Proof. unfold upd. destruct (Z.eqb_spec j i), (decide (j = i)); done. Qed.

#[global] Arguments upd : simpl never.

(** [lia] over divisions and remainders. *)
Ltac dlia := Z.to_euclidean_division_equations; lia.

(** Splits every boolean comparison of integers in the goal. *)
Ltac zcases :=
  repeat match goal with
  | |- context [?a =? ?b] => destruct (Z.eqb_spec a b)
  | |- context [?a <? ?b] => destruct (Z.ltb_spec a b)
  | |- context [?a <=? ?b] => destruct (Z.leb_spec a b)
  end.
