(* ===== verification/Mem.v ===== *)
(** Byte-addressed memory.

    Physical memory is a total function from addresses to bytes.  The kernel
    reads and writes it as bytes, as little-endian words ([pte_t], [struct run],
    [uint]) and as blocks ([memset], [memmove]); this file gives the word and
    block accesses and the lemmas that separate accesses to disjoint ranges. *)

From S2P Require Import Prelude.

Definition mem : Type := Z -> Z.

(** The [n]-byte little-endian word at [a]. *)
Fixpoint load (m : mem) (a : Z) (n : nat) : Z :=
  match n with
  | O => 0
  | S n' => u8 (m a) + 256 * load m (a + 1) n'
  end.

Fixpoint store (m : mem) (a : Z) (n : nat) (v : Z) : mem :=
  match n with
  | O => m
  | S n' => store (upd m a (u8 v)) (a + 1) n' (v / 256)
  end.

Definition load32 (m : mem) (a : Z) : Z := load m a 4.
Definition store32 (m : mem) (a v : Z) : mem := store m a 4 v.
Definition load16 (m : mem) (a : Z) : Z := load m a 2.
Definition store16 (m : mem) (a v : Z) : mem := store m a 2 v.
Definition load64 (m : mem) (a : Z) : Z := load m a 8.
Definition store64 (m : mem) (a v : Z) : mem := store m a 8 v.

(** [n] bytes from [dst] set to [c]; [n] bytes from [src] copied to [dst]. *)
Definition fill (m : mem) (dst n c : Z) : mem :=
  fun a => if (dst <=? a) && (a <? dst + n) then c else m a.
Definition copy (m : mem) (dst src n : Z) : mem :=
  fun a => if (dst <=? a) && (a <? dst + n) then m (src + (a - dst)) else m a.

(** The bytes [m] holds from [a] on. *)
Definition bytes (m : mem) (a : Z) (n : nat) : list Z :=
  (fun i => m (a + Z.of_nat i)) <$> seq 0 n.

Lemma load_ext m m' a n :
  (forall x, a <= x < a + Z.of_nat n -> m x = m' x) -> load m a n = load m' a n.
Proof.
  revert a; induction n as [|n IH]; intros a H; simpl; [done|].
  rewrite (H a), (IH (a + 1)); [done|intros; apply H|]; lia.
Qed.

Lemma load_range m a n : 0 <= load m a n < 256 ^ Z.of_nat n.
Proof.
  revert a; induction n as [|n IH]; intros a; simpl load; [lia|].
  pose proof (u8_range (m a)). specialize (IH (a + 1)).
  rewrite Nat2Z.inj_succ, Z.pow_succ_r by lia. lia.
Qed.

Lemma store_out m a n v x : x < a \/ a + Z.of_nat n <= x -> store m a n v x = m x.
Proof.
  revert m a v; induction n as [|n IH]; intros m a v H; simpl; [done|].
  rewrite IH by lia. apply upd_ne. lia.
Qed.

Lemma load_store_ne m a n v b k :
  b + Z.of_nat k <= a \/ a + Z.of_nat n <= b -> load (store m a n v) b k = load m b k.
Proof. intros. apply load_ext. intros. apply store_out. lia. Qed.

Lemma load_store_eq m a n v : load (store m a n v) a n = v mod 256 ^ Z.of_nat n.
Proof.
  revert m a v; induction n as [|n IH]; intros m a v; [by rewrite Z.mod_1_r|].
  cbn [load store]. rewrite IH, store_out by lia. rewrite upd_eq.
  rewrite Nat2Z.inj_succ, Z.pow_succ_r by lia.
  unfold u8. rewrite Z.mod_mod by lia.
  rewrite (Z.rem_mul_r v 256) by lia. reflexivity.
Qed.

Lemma fill_in m dst n c x : dst <= x < dst + n -> fill m dst n c x = c.
Proof. unfold fill. intros. zcases; simpl; lia. Qed.
Lemma fill_out m dst n c x : x < dst \/ dst + n <= x -> fill m dst n c x = m x.
Proof. unfold fill. intros. zcases; simpl; lia || done. Qed.
Lemma copy_in m dst src n x : dst <= x < dst + n -> copy m dst src n x = m (src + (x - dst)).
Proof. unfold copy. intros. zcases; simpl; lia || done. Qed.
Lemma copy_out m dst src n x : x < dst \/ dst + n <= x -> copy m dst src n x = m x.
Proof. unfold copy. intros. zcases; simpl; lia || done. Qed.

Lemma load_fill_ne m dst n c b k :
  b + Z.of_nat k <= dst \/ dst + n <= b -> load (fill m dst n c) b k = load m b k.
Proof. intros. apply load_ext. intros. apply fill_out. lia. Qed.

Lemma load_fill_zero m dst n b k :
  dst <= b -> b + Z.of_nat k <= dst + n -> load (fill m dst n 0) b k = 0.
Proof.
  revert b; induction k as [|k IH]; intros b ??; simpl; [done|].
  rewrite fill_in, IH by lia. done.
Qed.

Lemma load_copy_ne m dst src n b k :
  b + Z.of_nat k <= dst \/ dst + n <= b -> load (copy m dst src n) b k = load m b k.
Proof. intros. apply load_ext. intros. apply copy_out. lia. Qed.

(** ** 64-bit words *)
Lemma load64_range m a : 0 <= load64 m a < 2 ^ 64.
Proof. apply (load_range m a 8). Qed.
Lemma load64_eq m a v : load64 (store64 m a v) a = u64 v.
Proof. apply (load_store_eq m a 8). Qed.
Lemma load64_ne m a v b : b + 8 <= a \/ a + 8 <= b -> load64 (store64 m a v) b = load64 m b.
Proof. intros. apply (load_store_ne m a 8). lia. Qed.
Lemma load64_fill_ne m dst n c b :
  b + 8 <= dst \/ dst + n <= b -> load64 (fill m dst n c) b = load64 m b.
Proof. intros. apply (load_fill_ne m dst n c b 8). lia. Qed.
Lemma load64_fill_zero m dst n b :
  dst <= b -> b + 8 <= dst + n -> load64 (fill m dst n 0) b = 0.
Proof. intros. apply (load_fill_zero m dst n b 8); lia. Qed.
Lemma load64_ext m m' a :
  (forall x, a <= x < a + 8 -> m x = m' x) -> load64 m a = load64 m' a.
Proof. intros. apply (load_ext m m' a 8). intros; apply H; lia. Qed.
Lemma store64_out m a v x : x < a \/ a + 8 <= x -> store64 m a v x = m x.
Proof. intros. apply (store_out m a 8). lia. Qed.

Lemma length_bytes m a n : length (bytes m a n) = n.
Proof. unfold bytes. by rewrite length_fmap, length_seq. Qed.

Lemma lookup_bytes m a n i :
  (i < n)%nat -> bytes m a n !! i = Some (m (a + Z.of_nat i)).
Proof.
  intros. unfold bytes. rewrite list_lookup_fmap, lookup_seq_lt by done. done.
Qed.

Lemma bytes_ext m m' a a' n :
  (forall i, 0 <= i < Z.of_nat n -> m (a + i) = m' (a' + i)) -> bytes m a n = bytes m' a' n.
Proof.
  intros H. apply list_eq. intros i.
  destruct (decide (i < n)%nat).
  - rewrite !lookup_bytes by done. f_equal. apply H. lia.
  - rewrite !lookup_ge_None_2; [done|rewrite length_bytes; lia..].
Qed.

Lemma load32_range m a : 0 <= load32 m a < 2 ^ 32.
Proof. apply (load_range m a 4). Qed.
Lemma load32_eq m a v : load32 (store32 m a v) a = u32 v.
Proof. apply (load_store_eq m a 4). Qed.
Lemma load32_ne m a v b : b + 4 <= a \/ a + 4 <= b -> load32 (store32 m a v) b = load32 m b.
Proof. intros. apply (load_store_ne m a 4). lia. Qed.
Lemma load32_ext m m' a :
  (forall x, a <= x < a + 4 -> m x = m' x) -> load32 m a = load32 m' a.
Proof. intros. apply (load_ext m m' a 4). intros; apply H; lia. Qed.
Lemma store32_out m a v x : x < a \/ a + 4 <= x -> store32 m a v x = m x.
Proof. intros. apply (store_out m a 4). lia. Qed.
Lemma load32_fill_zero m dst n b : dst <= b -> b + 4 <= dst + n -> load32 (fill m dst n 0) b = 0.
Proof. intros. apply (load_fill_zero m dst n b 4); lia. Qed.

Lemma load16_range m a : 0 <= load16 m a < 2 ^ 16.
Proof. apply (load_range m a 2). Qed.
Lemma load16_eq m a v : load16 (store16 m a v) a = u16 v.
Proof. apply (load_store_eq m a 2). Qed.
Lemma load16_ext m m' a :
  (forall x, a <= x < a + 2 -> m x = m' x) -> load16 m a = load16 m' a.
Proof. intros. apply (load_ext m m' a 2). intros; apply H; lia. Qed.
Lemma store16_out m a v x : x < a \/ a + 2 <= x -> store16 m a v x = m x.
Proof. intros. apply (store_out m a 2). lia. Qed.

#[global] Opaque load64 store64 load32 store32 load16 store16.

(** ** User memory as the rest of the kernel sees it

    copyout and copyin of kernel/vm.c on the memory of a process by virtual
    address.  Both may fail part of the way. *)

(** [ucopyout m dst src n]: the memory after copying [src 0 .. src (n-1)] to [dst],
    and whether all of it is mapped and writable.  [ucopyin m src n d]: the
    destination [d] after copying [n] bytes from [src] to its start. *)
Class UserMem : Type := {
  ucopyout : mem -> Z -> (Z -> Z) -> Z -> mem * bool;
  ucopyin : mem -> Z -> Z -> (Z -> Z) -> (Z -> Z) * bool
}.

Class UserMemLaws `{U : UserMem} : Prop := {
  ucopyout_ok : forall m dst src n m', ucopyout m dst src n = (m', true) ->
    forall a, m' a = if (dst <=? a) && (a <? dst + n) then src (a - dst) else m a;
  ucopyin_ok : forall m src n d d', ucopyin m src n d = (d', true) ->
    forall i, d' i = if (0 <=? i) && (i <? n) then m (src + i) else d i
}.
