(* ===== verification/Riscv.v ===== *)
(** kernel/riscv.h, kernel/memlayout.h, kernel/param.h: the paging macros, the
    page-table-entry format and the address-space layout.

    The macros are translated with the bit operations of the source; the lemmas
    give their arithmetic meaning, on which the proofs about vm.c rest. *)

From S2P Require Import Prelude.

(** ** Pages (riscv.h) *)
Definition PGSIZE : Z := 4096.
Definition PGSHIFT : Z := 12.
Definition PGROUNDUP (sz : Z) : Z := Z.land (u64 (sz + PGSIZE - 1)) (Z.lnot (PGSIZE - 1)).
Definition PGROUNDDOWN (a : Z) : Z := Z.land a (Z.lnot (PGSIZE - 1)).

Definition PGSIZE_2M : Z := Eval cbv in 2 * 1024 * 1024.
Definition PGSHIFT_2M : Z := 21.
Definition PGROUNDUP_2M (sz : Z) : Z := Z.land (u64 (sz + PGSIZE_2M - 1)) (Z.lnot (PGSIZE_2M - 1)).
Definition PGROUNDDOWN_2M (a : Z) : Z := Z.land a (Z.lnot (PGSIZE_2M - 1)).

(** ** Page-table entries (riscv.h) *)
Definition PTE_V : Z := Eval cbv in Z.shiftl 1 0.
Definition PTE_R : Z := Eval cbv in Z.shiftl 1 1.
Definition PTE_W : Z := Eval cbv in Z.shiftl 1 2.
Definition PTE_X : Z := Eval cbv in Z.shiftl 1 3.
Definition PTE_U : Z := Eval cbv in Z.shiftl 1 4.
Definition PTE_COW : Z := Eval cbv in Z.shiftl 1 8.
Definition PA2PTE (pa : Z) : Z := Z.shiftl (Z.shiftr pa 12) 10.
Definition PTE2PA (pte : Z) : Z := u64 (Z.shiftl (Z.shiftr pte 10) 12).
Definition PTE_FLAGS (pte : Z) : Z := Z.land pte 1023.

Definition PXMASK : Z := 511.
Definition PXSHIFT (level : Z) : Z := PGSHIFT + 9 * level.
Definition PX (level va : Z) : Z := Z.land (Z.shiftr va (PXSHIFT level)) PXMASK.
Definition MAXVA : Z := Eval cbv in Z.shiftl 1 (9 + 9 + 9 + 12 - 1).

(** ** Physical and virtual layout (memlayout.h) *)
Definition UART0 : Z := 268435456.
Definition VIRTIO0 : Z := 268439552.
Definition PLIC : Z := 201326592.
Definition KERNBASE : Z := 2147483648.
Definition PHYSTOP : Z := Eval cbv in KERNBASE + 128 * 1024 * 1024.
Definition TRAMPOLINE : Z := Eval cbv in MAXVA - PGSIZE.
Definition KSTACK (p : Z) : Z := TRAMPOLINE - (p + 1) * 2 * PGSIZE.
Definition TRAPFRAME : Z := Eval cbv in TRAMPOLINE - PGSIZE.

(** ** Limits (param.h) *)
Definition NPROC : Z := 64.
Definition NCPU : Z := 8.
Definition NOFILE : Z := 16.
Definition NFILE : Z := 100.
Definition NINODE : Z := 50.
Definition NDEV : Z := 10.
Definition ROOTDEV : Z := 1.
Definition MAXARG : Z := 32.
Definition MAXOPBLOCKS : Z := 10.
Definition LOGSIZE : Z := Eval cbv in MAXOPBLOCKS * 3.
Definition NBUF : Z := Eval cbv in MAXOPBLOCKS * 3.
Definition FSSIZE : Z := 2000.
Definition MAXPATH : Z := 128.
Definition USERSTACK : Z := 1.

(** The symbols the linker script kernel.ld defines: the kernel's text is
    [KERNBASE, etext), it ends with the page of [trampoline], and the image ends
    at [kend] ([end] in the source). *)
Class KernelImage : Type := {
  etext : Z;
  trampoline : Z;
  kend : Z
}.

(** What kernel.ld guarantees of them. *)
Class ImageOk (I : KernelImage) : Prop := {
  etext_aligned : etext mod 4096 = 0;
  trampoline_etext : trampoline + 4096 = etext;
  text_in_ram : 2147483648 <= trampoline;
  etext_kend : etext <= kend;
  kend_ram : kend <= 2281701376
}.

Create HintDb consts.
#[export] Hint Unfold PGSIZE PGSHIFT PGSIZE_2M PGSHIFT_2M MAXVA KERNBASE PHYSTOP UART0 VIRTIO0
  PLIC TRAMPOLINE TRAPFRAME NPROC PTE_V PTE_R PTE_W PTE_X PTE_U PTE_COW : consts.

(** [lia] knowing the constants; [cdlia] also knows divisions. *)
Ltac unconst := autounfold with consts in *.
Ltac clia := unconst; lia.
Ltac cdlia := unconst; Z.to_euclidean_division_equations; lia.

(** ** Arithmetic meaning of the macros *)
Lemma land_lnot_ones a n : 0 <= n -> Z.land a (Z.lnot (Z.ones n)) = a - a mod 2 ^ n.
Proof.
  intros. rewrite <- Z.ldiff_land, Z.ldiff_ones_r by done.
  rewrite Z.shiftl_mul_pow2, Z.shiftr_div_pow2 by done.
  pose proof (Z.div_mod a (2 ^ n)). lia.
Qed.

Lemma PGROUNDDOWN_spec a : PGROUNDDOWN a = a - a mod 4096.
Proof. apply (land_lnot_ones a 12). lia. Qed.
Lemma PGROUNDDOWN_2M_spec a : PGROUNDDOWN_2M a = a - a mod 2097152.
Proof. apply (land_lnot_ones a 21). lia. Qed.
Lemma PGROUNDUP_wrap sz : PGROUNDUP sz = u64 (sz + 4095) - u64 (sz + 4095) mod 4096.
Proof.
  unfold PGROUNDUP, PGSIZE. replace (sz + 4096 - 1) with (sz + 4095) by lia.
  apply (land_lnot_ones _ 12). lia.
Qed.
(** Rounding up to a page gives the least page boundary not below [sz], as long
    as that boundary is representable. *)
Lemma PGROUNDUP_spec sz :
  0 <= sz -> sz + 4095 < 2 ^ 64 -> PGROUNDUP sz = (sz + 4095) / 4096 * 4096.
Proof. intros. rewrite PGROUNDUP_wrap. unwrap. dlia. Qed.

Lemma PX_spec level va : 0 <= level -> PX level va = (va / 2 ^ (12 + 9 * level)) mod 512.
Proof.
  intros. unfold PX, PXMASK, PXSHIFT, PGSHIFT. change 511 with (Z.ones 9).
  rewrite Z.land_ones, Z.shiftr_div_pow2 by lia. done.
Qed.
Lemma PX_range level va : 0 <= PX level va < 512.
Proof.
  unfold PX, PXMASK. change 511 with (Z.ones 9). rewrite Z.land_ones by lia.
  apply Z.mod_pos_bound. lia.
Qed.

Lemma PA2PTE_spec pa : PA2PTE pa = pa / 4096 * 1024.
Proof. unfold PA2PTE. rewrite Z.shiftl_mul_pow2, Z.shiftr_div_pow2 by lia. done. Qed.
Lemma PTE2PA_spec pte : PTE2PA pte = u64 (pte / 1024 * 4096).
Proof. unfold PTE2PA. rewrite Z.shiftl_mul_pow2, Z.shiftr_div_pow2 by lia. done. Qed.
Lemma PTE_FLAGS_spec pte : PTE_FLAGS pte = pte mod 1024.
Proof. unfold PTE_FLAGS. change 1023 with (Z.ones 10). by rewrite Z.land_ones by lia. Qed.

(** The physical-page number and the flags of an entry do not overlap. *)
Lemma lor_flags pa f : 0 <= f < 1024 -> Z.lor (PA2PTE pa) f = PA2PTE pa + f.
Proof.
  intros. rewrite PA2PTE_spec.
  assert (Hz : Z.land (pa / 4096 * 1024) f = 0).
  { apply Z.bits_inj'. intros i Hi. rewrite Z.land_spec, Z.bits_0.
    destruct (Z.ltb_spec i 10).
    - change 1024 with (2 ^ 10). rewrite Z.mul_pow2_bits_low by lia. done.
    - rewrite <- (Z.mod_small f (2 ^ 10)) by lia.
      rewrite Z.mod_pow2_bits_high by lia. apply andb_false_r. }
  by rewrite Z.add_nocarry_lor.
Qed.

Lemma lor_lt_pow2 a b n : 0 <= n -> 0 <= a < 2 ^ n -> 0 <= b < 2 ^ n -> 0 <= Z.lor a b < 2 ^ n.
Proof.
  intros. assert (0 <= Z.lor a b) by (apply Z.lor_nonneg; lia).
  split; [done|]. destruct (decide (Z.lor a b = 0)) as [->|]; [lia|].
  apply Z.log2_lt_pow2; [lia|]. rewrite Z.log2_lor by lia.
  destruct (decide (a = 0)) as [->|], (decide (b = 0)) as [->|].
  - by rewrite Z.lor_0_l in *.
  - rewrite Z.max_r; [apply Z.log2_lt_pow2; lia|]. change (Z.log2 0) with 0. apply Z.log2_nonneg.
  - rewrite Z.max_l; [apply Z.log2_lt_pow2; lia|]. change (Z.log2 0) with 0. apply Z.log2_nonneg.
  - apply Z.max_lub_lt; apply Z.log2_lt_pow2; lia.
Qed.

Lemma land_lt_pow2 a b n : 0 <= n -> 0 <= a < 2 ^ n -> 0 <= Z.land a b < 2 ^ n.
Proof.
  intros Hn Ha. assert (Z.land a b = Z.land a b mod 2 ^ n) as ->; [|apply Z.mod_pos_bound; lia].
  rewrite <- Z.land_ones by done. rewrite <- Z.land_assoc, (Z.land_comm b), Z.land_assoc.
  rewrite Z.land_ones, Z.mod_small by done. done.
Qed.

Lemma lor_V_range f : 0 <= f < 1024 -> 0 <= Z.lor f PTE_V < 1024.
Proof. intros. apply (lor_lt_pow2 f PTE_V 10); clia. Qed.

(** An entry built from a page-aligned physical address and flag bits. *)
Definition mkpte (pa f : Z) : Z := Z.lor (PA2PTE pa) f.

Section mkpte.
Context (pa f : Z).
Context (Hpa : 0 <= pa < 2 ^ 56) (Hal : pa mod 4096 = 0) (Hf : 0 <= f < 1024).

Lemma mkpte_add : mkpte pa f = pa / 4096 * 1024 + f.
Proof. unfold mkpte. rewrite lor_flags by done. by rewrite PA2PTE_spec. Qed.

Lemma mkpte_range : 0 <= mkpte pa f < 2 ^ 64.
Proof. rewrite mkpte_add. clear Hal. dlia. Qed.

(** The macros that pack an address into an entry and unpack it are inverse. *)
Lemma PTE2PA_mkpte : PTE2PA (mkpte pa f) = pa.
Proof.
  rewrite PTE2PA_spec, mkpte_add.
  replace ((pa / 4096 * 1024 + f) / 1024) with (pa / 4096) by dlia.
  rewrite u64_small; dlia.
Qed.

Lemma PTE_FLAGS_mkpte : PTE_FLAGS (mkpte pa f) = f.
Proof. rewrite PTE_FLAGS_spec, mkpte_add. clear Hpa Hal. dlia. Qed.
End mkpte.

(** Testing the flag bits of an entry looks at its low ten bits only. *)
Lemma land_PTE_FLAGS pte b : 0 <= b < 1024 -> Z.land pte b = Z.land (PTE_FLAGS pte) b.
Proof.
  intros. unfold PTE_FLAGS. rewrite <- Z.land_assoc. f_equal.
  change 1023 with (Z.ones 10). rewrite Z.land_comm, Z.land_ones by lia.
  symmetry. apply Z.mod_small. lia.
Qed.

(** ** Layout facts *)

(** Kernel stacks are page aligned, lie below the trampoline and are separated
    from one another by an unmapped guard page. *)
Lemma KSTACK_layout p q :
  0 <= p < NPROC -> 0 <= q < NPROC -> p <> q ->
  KSTACK p mod PGSIZE = 0 /\ 0 < KSTACK p /\ KSTACK p + 2 * PGSIZE <= TRAMPOLINE /\
  (KSTACK p + 2 * PGSIZE <= KSTACK q \/ KSTACK q + 2 * PGSIZE <= KSTACK p).
Proof.
  unfold KSTACK, TRAMPOLINE, NPROC, PGSIZE, MAXVA. simpl. intros.
  repeat split; dlia.
Qed.
