(* ===== verification/Str.v ===== *)
(** kernel/string.c: the block and string routines of the kernel, loop by loop.

    Each loop is a recursion on the number of iterations its counter leaves;
    [strlen] and the other loops that stop at a NUL take the bound as fuel and
    answer [None] when no NUL is met within it.  The theorems show that the loops
    compute the closed forms [fill] and [copy] of Mem.v, for overlapping ranges
    too, and what the string routines leave in the destination. *)

From S2P Require Import Prelude Mem.

(** ** memset *)
Fixpoint memset_loop (k : nat) (m : mem) (cdst i c : Z) : mem :=
  match k with
  | O => m
  | S k' => memset_loop k' (upd m (cdst + i) (u8 c)) cdst (i + 1) c
  end.
Definition memset (m : mem) (dst c n : Z) : mem :=
  memset_loop (Z.to_nat n) m dst 0 c.

(** ** memcmp *)
Fixpoint memcmp_loop (n : nat) (m : mem) (s1 s2 : Z) : Z :=
  match n with
  | O => 0
  | S n' =>
      if negb (u8 (m s1) =? u8 (m s2)) then u8 (m s1) - u8 (m s2)
      else memcmp_loop n' m (s1 + 1) (s2 + 1)
  end.
Definition memcmp (m : mem) (v1 v2 n : Z) : Z := memcmp_loop (Z.to_nat n) m v1 v2.

(** ** memmove, memcpy *)
Fixpoint memmove_down (n : nat) (m : mem) (d s : Z) : mem :=
  match n with
  | O => m
  | S n' => memmove_down n' (upd m (d - 1) (m (s - 1))) (d - 1) (s - 1)
  end.
Fixpoint memmove_up (n : nat) (m : mem) (d s : Z) : mem :=
  match n with
  | O => m
  | S n' => memmove_up n' (upd m d (m s)) (d + 1) (s + 1)
  end.
Definition memmove (m : mem) (dst src n : Z) : mem :=
  if n =? 0 then m
  else if (src <? dst) && (dst <? src + n)
       then memmove_down (Z.to_nat n) m (dst + n) (src + n)
       else memmove_up (Z.to_nat n) m dst src.
Definition memcpy (m : mem) (dst src n : Z) : mem := memmove m dst src n.

(** ** strncmp *)
Fixpoint strncmp_loop (n : nat) (m : mem) (p q : Z) : Z :=
  match n with
  | O => 0
  | S n' =>
      if negb (m p =? 0) && (m p =? m q) then strncmp_loop n' m (p + 1) (q + 1)
      else u8 (m p) - u8 (m q)
  end.
Definition strncmp (m : mem) (p q n : Z) : Z := strncmp_loop (Z.to_nat n) m p q.

(** ** strncpy *)
Fixpoint strncpy_copy (n : nat) (m : mem) (s t : Z) : mem * Z * nat :=
  match n with
  | O => (m, s, O)
  | S n' =>
      let m' := upd m s (m t) in
      if m t =? 0 then (m', s + 1, n') else strncpy_copy n' m' (s + 1) (t + 1)
  end.
Fixpoint strncpy_pad (n : nat) (m : mem) (s : Z) : mem :=
  match n with
  | O => m
  | S n' => strncpy_pad n' (upd m s 0) (s + 1)
  end.
Definition strncpy (m : mem) (s t n : Z) : mem :=
  let '(m', s', n') := strncpy_copy (Z.to_nat n) m s t in strncpy_pad n' m' s'.

(** ** safestrcpy *)
Fixpoint safestrcpy_loop (n : nat) (m : mem) (s t : Z) : mem * Z :=
  match n with
  | O => (m, s)
  | S n' =>
      let m' := upd m s (m t) in
      if m t =? 0 then (m', s + 1) else safestrcpy_loop n' m' (s + 1) (t + 1)
  end.
Definition safestrcpy (m : mem) (s t n : Z) : mem :=
  if n <=? 0 then m
  else let '(m', s') := safestrcpy_loop (Z.to_nat (n - 1)) m s t in upd m' s' 0.

(** ** strlen *)
Fixpoint strlen_loop (fuel : nat) (m : mem) (s n : Z) : option Z :=
  match fuel with
  | O => None
  | S fuel' => if m (s + n) =? 0 then Some n else strlen_loop fuel' m s (n + 1)
  end.
Definition strlen (fuel : nat) (m : mem) (s : Z) : option Z := strlen_loop fuel m s 0.

(** ** What the loops compute *)

(** The string at [s] that ends at its first NUL, within [n] bytes. *)
Fixpoint cstr (m : mem) (s : Z) (n : nat) : list Z :=
  match n with
  | O => []
  | S n' => if m s =? 0 then [] else m s :: cstr m (s + 1) n'
  end.

Lemma memset_loop_spec k m cdst i c x :
  memset_loop k m cdst i c x =
  if (cdst + i <=? x) && (x <? cdst + i + Z.of_nat k) then u8 c else m x.
Proof.
  revert m i; induction k as [|k IH]; intros m i; simpl memset_loop.
  - zcases; simpl; lia || done.
  - rewrite IH, upd_case. case_decide; zcases; simpl; lia || done.
Qed.

Lemma memmove_up_spec n m d s x :
  d <= s \/ s + Z.of_nat n <= d ->
  memmove_up n m d s x = copy m d s (Z.of_nat n) x.
Proof.
  revert m d s; induction n as [|n IH]; intros m d s H; simpl memmove_up.
  - unfold copy. zcases; simpl; lia || done.
  - rewrite IH by lia. unfold copy. rewrite !upd_case.
    repeat case_decide; zcases; simpl; try lia; f_equal; lia.
Qed.

Lemma memmove_down_spec n m d s x :
  s <= d \/ d + Z.of_nat n <= s ->
  memmove_down n m (d + Z.of_nat n) (s + Z.of_nat n) x = copy m d s (Z.of_nat n) x.
Proof.
  revert m d s x; induction n as [|n IH]; intros m d s x H; cbn [memmove_down].
  - unfold copy. zcases; simpl; lia || done.
  - replace (d + Z.of_nat (S n) - 1) with (d + Z.of_nat n) by lia.
    replace (s + Z.of_nat (S n) - 1) with (s + Z.of_nat n) by lia.
    rewrite IH by lia. unfold copy. rewrite !upd_case.
    repeat case_decide; zcases; simpl; try lia; f_equal; lia.
Qed.

(** memmove and memcpy leave in the destination the bytes the source held on
    entry, whether or not the two ranges overlap, and change nothing else. *)
Lemma memmove_copy (m : mem) (dst src n x : Z) :
  0 <= n -> memmove m dst src n x = copy m dst src n x.
Proof.
  intros Hn. unfold memmove.
  destruct (Z.eqb_spec n 0) as [->|].
  { unfold copy. zcases; simpl; lia || done. }
  destruct (_ && _) eqn:E.
  - rewrite <- (Z2Nat.id n) at 2 3 4 by lia.
    rewrite memmove_down_spec; [done|lia].
  - rewrite memmove_up_spec; [by rewrite Z2Nat.id by lia|].
    apply andb_false_iff in E. lia.
Qed.

Lemma memset_fill (m : mem) (dst c n x : Z) :
  0 <= n -> memset m dst c n x = fill m dst n (u8 c) x.
Proof.
  intros. unfold memset, fill. rewrite memset_loop_spec, Z2Nat.id by lia.
  by rewrite Z.add_0_r.
Qed.

Lemma memcmp_loop_zero n m s1 s2 :
  memcmp_loop n m s1 s2 = 0 <->
  forall i, 0 <= i < Z.of_nat n -> u8 (m (s1 + i)) = u8 (m (s2 + i)).
Proof.
  revert s1 s2; induction n as [|n IH]; intros s1 s2; simpl memcmp_loop.
  - split; [lia|done].
  - destruct (Z.eqb_spec (u8 (m s1)) (u8 (m s2))) as [E|E]; simpl.
    + rewrite IH. split; intros H i Hi.
      * destruct (decide (i = 0)) as [->|]; [by rewrite !Z.add_0_r|].
        specialize (H (i - 1)). replace (s1 + i) with (s1 + 1 + (i - 1)) by lia.
        replace (s2 + i) with (s2 + 1 + (i - 1)) by lia. apply H. lia.
      * rewrite <- !Z.add_assoc. apply H. lia.
    + split; [lia|]. intros H. specialize (H 0). rewrite !Z.add_0_r in H. lia.
Qed.

Lemma cstr_ext m m' s s' n :
  (forall i, 0 <= i < Z.of_nat n -> m (s + i) = m' (s' + i)) -> cstr m s n = cstr m' s' n.
Proof.
  revert s s'; induction n as [|n IH]; intros s s' H; simpl; [done|].
  assert (E : m s = m' s') by (specialize (H 0); rewrite !Z.add_0_r in H; apply H; lia).
  rewrite E. destruct (_ =? 0); [done|]. f_equal. apply IH. intros i Hi.
  rewrite <- !Z.add_assoc. apply H. lia.
Qed.

Lemma length_cstr m s n : (length (cstr m s n) <= n)%nat.
Proof. revert s; induction n; intros s; simpl; [lia|]. destruct (_ =? 0); simpl; [lia|]. specialize (IHn (s + 1)). lia. Qed.

Lemma strncpy_pad_spec n m s x :
  strncpy_pad n m s x = fill m s (Z.of_nat n) 0 x.
Proof.
  revert m s; induction n as [|n IH]; intros m s; cbn [strncpy_pad].
  - unfold fill. zcases; simpl; lia || done.
  - rewrite IH. unfold fill. rewrite upd_case. case_decide; zcases; simpl; lia || done.
Qed.

(** The [i]th byte of a field of [n] bytes holding the string [l], NUL padded. *)
Definition padded (l : list Z) (i : Z) : Z := nth (Z.to_nat i) l 0.

Lemma padded_cons c l i : 0 < i -> padded (c :: l) i = padded l (i - 1).
Proof. intros. unfold padded. replace (Z.to_nat i) with (S (Z.to_nat (i - 1))) by lia. done. Qed.

(** strncpy fills exactly the [n] bytes of the destination: the source string,
    cut at [n], followed by NULs. *)
Lemma strncpy_spec m s t n x :
  0 <= n -> s + n <= t \/ t + n <= s ->
  strncpy m s t n x =
  if (s <=? x) && (x <? s + n) then padded (cstr m t (Z.to_nat n)) (x - s) else m x.
Proof.
  intros Hn. unfold strncpy.
  assert (exists k, n = Z.of_nat k) as [k ->] by (exists (Z.to_nat n); lia).
  rewrite Nat2Z.id. clear Hn. revert m s t. induction k as [|k IH]; intros m s t Hd; cbn [strncpy_copy cstr].
  - cbn [strncpy_pad]. zcases; simpl; lia || done.
  - destruct (Z.eqb_spec (m t) 0) as [E|E].
    + rewrite strncpy_pad_spec. unfold fill. rewrite upd_case.
      unfold padded. case_decide; zcases; simpl; try lia; destruct (Z.to_nat _); done.
    + specialize (IH (upd m s (m t)) (s + 1) (t + 1)).
      destruct (strncpy_copy _ _ _ _) as [[m' s'] n']. rewrite IH by lia.
      rewrite (cstr_ext (upd m s (m t)) m (t + 1) (t + 1));
        [|intros; rewrite upd_ne by lia; done].
      rewrite upd_case. case_decide as Hx.
      * subst. rewrite Z.sub_diag. unfold padded. zcases; simpl; lia || done.
      * zcases; simpl; try lia; try done. rewrite padded_cons by lia. f_equal; lia.
Qed.

(** safestrcpy writes only inside the [n]-byte destination. *)
Lemma safestrcpy_out m s t n x :
  x < s \/ s + n <= x -> safestrcpy m s t n x = m x.
Proof.
  intros H. unfold safestrcpy. destruct (Z.leb_spec n 0) as [|Hn]; [done|].
  assert (exists k, n = Z.of_nat k + 1) as [k ->] by (exists (Z.to_nat (n - 1)); lia).
  rewrite Z.add_simpl_r, Nat2Z.id. clear Hn.
  revert m s t H; induction k as [|k IH]; intros m s t H; cbn [safestrcpy_loop].
  - apply upd_ne. lia.
  - destruct (m t =? 0).
    + rewrite !upd_ne by lia. done.
    + specialize (IH (upd m s (m t)) (s + 1) (t + 1)).
      destruct (safestrcpy_loop _ _ _ _) as [m' s']. rewrite IH by lia. apply upd_ne. lia.
Qed.

(** safestrcpy leaves a NUL-terminated string: the source cut at [n - 1]
    characters (unlike strncpy, there is always room for the NUL). *)
Lemma safestrcpy_cstr m s t n :
  0 < n -> s + n <= t \/ t + n <= s ->
  cstr (safestrcpy m s t n) s (Z.to_nat n) = cstr m t (Z.to_nat (n - 1)).
Proof.
  intros Hn Hd. unfold safestrcpy. destruct (Z.leb_spec n 0); [lia|].
  assert (exists k, n = Z.of_nat k + 1) as [k ->] by (exists (Z.to_nat (n - 1)); lia).
  replace (Z.to_nat (Z.of_nat k + 1)) with (S k) by lia.
  rewrite Z.add_simpl_r, Nat2Z.id. clear Hn H. revert m s t Hd; induction k as [|k IH]; intros m s t Hd; cbn [safestrcpy_loop cstr].
  - rewrite upd_eq. done.
  - destruct (Z.eqb_spec (m t) 0) as [E|E].
    + rewrite upd_ne, upd_eq, E by lia. done.
    + specialize (IH (upd m s (m t)) (s + 1) (t + 1)).
      pose proof (safestrcpy_out (upd m s (m t)) (s + 1) (t + 1) (Z.of_nat k + 1) s) as Ho.
      unfold safestrcpy in Ho. destruct (Z.leb_spec (Z.of_nat k + 1) 0); [lia|].
      rewrite Z.add_simpl_r, Nat2Z.id in Ho.
      destruct (safestrcpy_loop _ _ _ _) as [m' s'].
      rewrite Ho, upd_eq by lia. destruct (Z.eqb_spec (m t) 0); [done|].
      f_equal. cbn [cstr] in IH. rewrite IH by lia. apply cstr_ext.
      intros. rewrite upd_ne by lia. done.
Qed.

(** strncmp answers 0 exactly on equal strings of at most [n] characters. *)
Lemma strncmp_zero m p q n :
  (forall a, 0 <= m a < 256) ->
  strncmp m p q n = 0 <-> cstr m p (Z.to_nat n) = cstr m q (Z.to_nat n).
Proof.
  intros Hb. unfold strncmp. generalize (Z.to_nat n) as k. intros k.
  revert p q; induction k as [|k IH]; intros p q; simpl; [done|].
  pose proof (Hb p). pose proof (Hb q). rewrite !u8_small by lia.
  destruct (Z.eqb_spec (m p) 0), (Z.eqb_spec (m p) (m q)), (Z.eqb_spec (m q) 0);
    simpl; try lia; rewrite ?IH; split; try done; try lia; try congruence.
Qed.

(** strlen finds the NUL when there is one within the fuel. *)
Lemma strlen_spec fuel m s :
  strlen fuel m s =
  if decide (length (cstr m s fuel) < fuel)%nat
  then Some (Z.of_nat (length (cstr m s fuel))) else None.
Proof.
  unfold strlen.
  enough (H : forall n, strlen_loop fuel m s n =
     if decide (length (cstr m (s + n) fuel) < fuel)%nat
     then Some (n + Z.of_nat (length (cstr m (s + n) fuel))) else None).
  { rewrite H, Z.add_0_r. done. }
  induction fuel as [|fuel IH]; intros n; simpl; [done|].
  destruct (m (s + n) =? 0); simpl; [by rewrite Z.add_0_r|].
  rewrite IH, Z.add_assoc. repeat case_decide; try lia; f_equal; lia.
Qed.
