(* ===== verification/Spinlock.v ===== *)
(** kernel/spinlock.c and kernel/spinlock.h: spin locks and the nesting of
    interrupt-disabled sections.

    The routines run on one hart and one lock of a larger kernel state; the class
    [LockState] says how a state holds the hart's interrupt state and its locks,
    so that every component of the kernel uses the same [acquire] and [release].
    The second part interleaves the atomic steps of the two routines on several
    harts and proves mutual exclusion. *)

From S2P Require Import Prelude.

(** struct spinlock; [lcpu] is [None] for the null pointer. *)
Record spinlock : Type := mkspinlock {
  locked : Z;
  lname : string;
  lcpu : option Z
}.

(** The part of a hart the locks use: [hartid] is the tp register ([cpuid()]),
    [sie] the SIE bit of sstatus, [noff] and [intena] fields of struct cpu. *)
Record hart : Type := mkhart {
  hartid : Z;
  sie : bool;
  noff : Z;
  intena : bool
}.

#[export] Instance spinlock_eq_dec : EqDecision spinlock.
Proof. solve_decision. Defined.
#[export] Instance hart_eq_dec : EqDecision hart.
Proof. solve_decision. Defined.

(** A kernel state with the hart that runs the code and locks named by [L]. *)
Class LockState (S L : Type) : Type := {
  hart_of : S -> hart;
  put_hart : hart -> S -> S;
  lock_of : L -> S -> spinlock;
  put_lock : L -> spinlock -> S -> S
}.

Class LockLaws (S L : Type) `{LockState S L} : Prop := {
  hart_put_hart : forall h (s : S), hart_of (put_hart h s) = h;
  lock_put_lock : forall l k (s : S), lock_of l (put_lock l k s) = k;
  hart_put_lock : forall l k (s : S), hart_of (put_lock l k s) = hart_of s;
  lock_put_hart : forall l h (s : S), lock_of l (put_hart h s) = lock_of l s;
  put_hart_hart : forall h h' (s : S), put_hart h (put_hart h' s) = put_hart h s;
  put_lock_lock : forall l k k' (s : S), put_lock l k (put_lock l k' s) = put_lock l k s;
  put_lock_hart : forall l k h (s : S),
    put_lock l k (put_hart h s) = put_hart h (put_lock l k s)
}.

Definition initlock (name : string) : spinlock := mkspinlock 0 name None.

Section ops.
Context {S L : Type} `{LockState S L}.

(** riscv.h: intr_on, intr_off, intr_get. *)
Definition intr_set (b : bool) : M S unit :=
  modify (fun s => let h := hart_of s in
    put_hart (mkhart (hartid h) b (noff h) (intena h)) s).
Definition intr_on : M S unit := intr_set true.
Definition intr_off : M S unit := intr_set false.
Definition intr_get : M S bool := gets (fun s => sie (hart_of s)).

Definition set_noff (n : Z) : M S unit :=
  modify (fun s => let h := hart_of s in
    put_hart (mkhart (hartid h) (sie h) n (intena h)) s).
Definition set_intena (b : bool) : M S unit :=
  modify (fun s => let h := hart_of s in
    put_hart (mkhart (hartid h) (sie h) (noff h) b) s).

Definition push_off : M S unit :=
  old <- intr_get ;;
  intr_off ;;
  n <- gets (fun s => noff (hart_of s)) ;;
  when (n =? 0) (set_intena old) ;;
  set_noff (n + 1).

Definition pop_off : M S unit :=
  on <- intr_get ;;
  if (on : bool) then panic "pop_off - interruptible" else
  n <- gets (fun s => noff (hart_of s)) ;;
  if n <? 1 then panic "pop_off" else
  set_noff (n - 1) ;;
  ena <- gets (fun s => intena (hart_of s)) ;;
  when ((n - 1 =? 0) && ena) intr_on.

Definition holding (l : L) : M S bool :=
  gets (fun s => let k := lock_of l s in
    negb (locked k =? 0) && bool_decide (lcpu k = Some (hartid (hart_of s)))).

(** The spin on [__sync_lock_test_and_set] returns once the lock is free; in a
    run of one hart on its own, a lock that is taken stays taken. *)
Definition acquire (l : L) : M S unit :=
  push_off ;;
  b <- holding l ;;
  if (b : bool) then panic "acquire" else
  k <- gets (lock_of l) ;;
  if negb (locked k =? 0) then stuck "acquire: spinning" else
  modify (put_lock l (mkspinlock 1 (lname k) (lcpu k))) ;;
  modify (fun s =>
    put_lock l (mkspinlock 1 (lname k) (Some (hartid (hart_of s)))) s).

Definition release (l : L) : M S unit :=
  b <- holding l ;;
  if negb b then panic "release" else
  modify (fun s => let k := lock_of l s in
    put_lock l (mkspinlock (locked k) (lname k) None) s) ;;
  modify (fun s => let k := lock_of l s in
    put_lock l (mkspinlock 0 (lname k) (lcpu k)) s) ;;
  pop_off.
End ops.

(** ** What the routines do on one hart *)

(** Interrupts are on only outside every [push_off] section. *)
Definition hart_ok (h : hart) : Prop := 0 <= noff h /\ (sie h = true -> noff h = 0).

(** The hart after [push_off], and after a balanced [push_off]/[pop_off] pair. *)
Definition pushed (h : hart) : hart :=
  mkhart (hartid h) false (noff h + 1) (if noff h =? 0 then sie h else intena h).
Definition settle (h : hart) : hart :=
  mkhart (hartid h) (sie h) (noff h) (if noff h =? 0 then sie h else intena h).

Definition taken (k : spinlock) (h : hart) : spinlock :=
  mkspinlock 1 (lname k) (Some (hartid h)).
Definition freed (k : spinlock) : spinlock := mkspinlock 0 (lname k) None.

Lemma settle_settle h : settle (settle h) = settle h.
Proof. unfold settle; simpl. by destruct (noff h =? 0). Qed.
Lemma hart_ok_settle h : hart_ok h -> hart_ok (settle h).
Proof. done. Qed.
Lemma hart_ok_pushed h : hart_ok h -> hart_ok (pushed h).
Proof. unfold hart_ok, pushed; simpl. intros [??]. split; [lia|done]. Qed.
Lemma freed_freed k : freed (freed k) = freed k.
Proof. done. Qed.

Section spec.
Context {S L : Type} `{LockLaws S L}.
Implicit Types s : S.

Lemma push_off_spec s : push_off s = Ret tt (put_hart (pushed (hart_of s)) s).
Proof.
  unfold push_off, intr_get, intr_off, intr_set, set_intena, set_noff, pushed. mrun.
  rewrite !hart_put_hart; simpl.
  destruct (noff (hart_of s) =? 0); simpl;
    rewrite ?put_hart_hart, ?hart_put_hart; done.
Qed.

Lemma pop_off_pushed s h :
  hart_ok h -> hart_of s = pushed h -> pop_off s = Ret tt (put_hart (settle h) s).
Proof.
  intros [Hn Hs] Eh. unfold pop_off, intr_get, set_noff, intr_on, intr_set. mrun.
  rewrite Eh; simpl. rewrite Eh; simpl.
  destruct (Z.ltb_spec (noff h + 1) 1); [lia|]. rewrite Eh; simpl. rewrite !Z.add_simpl_r.
  rewrite hart_put_hart; simpl. unfold settle.
  destruct (Z.eqb_spec (noff h) 0) as [E|E]; simpl.
  - destruct (sie h) eqn:Es; simpl; [|done].
    rewrite hart_put_hart, put_hart_hart; simpl. done.
  - destruct (sie h) eqn:Es; [by rewrite Hs in E|done].
Qed.

(** [acquire] on a free lock takes it for this hart and raises the nesting
    depth of interrupt-disabled sections by one. *)
Lemma acquire_free l s :
  locked (lock_of l s) = 0 ->
  acquire l s =
  Ret tt (put_lock l (taken (lock_of l s) (hart_of s)) (put_hart (pushed (hart_of s)) s)).
Proof.
  intros E. unfold acquire, holding. mrun. rewrite push_off_spec.
  rewrite lock_put_hart, E; simpl. rewrite !lock_put_hart, E; simpl.
  rewrite hart_put_lock, hart_put_hart, put_lock_lock. done.
Qed.

(** [acquire] by the hart that already holds the lock panics. *)
Lemma acquire_held l s :
  locked (lock_of l s) <> 0 -> lcpu (lock_of l s) = Some (hartid (hart_of s)) ->
  acquire l s = Panic "acquire".
Proof.
  intros E C. unfold acquire, holding. mrun. rewrite push_off_spec.
  rewrite lock_put_hart, hart_put_hart. destruct (Z.eqb_spec (locked (lock_of l s)) 0); [done|].
  simpl. rewrite bool_decide_eq_true_2; done.
Qed.

(** [release] of the lock a matching [acquire] took frees it and restores the
    hart's interrupt state. *)
Lemma release_taken l s k h :
  hart_of s = pushed h -> lock_of l s = taken k h -> hart_ok h ->
  release l s = Ret tt (put_hart (settle h) (put_lock l (freed k) s)).
Proof.
  intros Eh El Hh. unfold release, holding. mrun. rewrite El, Eh; simpl.
  rewrite bool_decide_eq_true_2 by done; simpl.
  rewrite lock_put_lock, put_lock_lock, El; simpl.
  erewrite pop_off_pushed; [done|done|by rewrite hart_put_lock].
Qed.

(** The two lemmas in the form in which they run a critical section. *)
Lemma bind_acquire {A} l s (k : unit -> M S A) :
  locked (lock_of l s) = 0 ->
  bind (acquire l) k s =
  k tt (put_lock l (taken (lock_of l s) (hart_of s)) (put_hart (pushed (hart_of s)) s)).
Proof. intros. by rewrite (bind_ret _ _ _ tt _ (acquire_free l s H1)). Qed.

Lemma bind_release {A} l s lk h (k : unit -> M S A) :
  hart_of s = pushed h -> lock_of l s = taken lk h -> hart_ok h ->
  bind (release l) k s = k tt (put_hart (settle h) (put_lock l (freed lk) s)).
Proof. intros. by rewrite (bind_ret _ _ _ tt _ (release_taken l s lk h H1 H2 H3)). Qed.

(** [release] by anyone else panics. *)
Lemma release_not_held l s :
  locked (lock_of l s) = 0 \/ lcpu (lock_of l s) <> Some (hartid (hart_of s)) ->
  release l s = Panic "release".
Proof.
  intros Hn. unfold release, holding. mrun.
  destruct (Z.eqb_spec (locked (lock_of l s)) 0); simpl; [done|].
  rewrite bool_decide_eq_false_2 by tauto. done.
Qed.
End spec.

(** ** Several harts on one lock

    [acquire] and [release] are split at their atomic memory accesses: the swap
    of [__sync_lock_test_and_set], the store of [lk->cpu], and the two stores of
    [release].  A hart is at one of these points; the lock is shared. *)
Inductive lock_pc : Type :=
| Outside      (* not between acquire and release *)
| Spinning     (* about to execute the atomic swap *)
| Swapped      (* swap returned 0, lk->cpu not yet set *)
| Critical     (* acquire has returned *)
| Clearing.    (* lk->cpu cleared, lk->locked not yet *)

#[export] Instance lock_pc_eq_dec : EqDecision lock_pc.
Proof. solve_decision. Defined.

Record lock_machine : Type := mkmachine {
  the_lock : spinlock;
  pcs : Z -> lock_pc
}.

(** [holding(lk)] evaluated on hart [h]. *)
Definition holds (lm : lock_machine) (h : Z) : bool :=
  negb (locked (the_lock lm) =? 0) && bool_decide (lcpu (the_lock lm) = Some h).

(** One atomic step of hart [h]; [None] is the panic of the guard that fails. *)
Definition lock_step (h : Z) (lm : lock_machine) : option lock_machine :=
  let k := the_lock lm in
  match pcs lm h with
  | Outside =>
      if holds lm h then None else Some (mkmachine k (upd (pcs lm) h Spinning))
  | Spinning =>
      Some (mkmachine (mkspinlock 1 (lname k) (lcpu k))
              (upd (pcs lm) h (if locked k =? 0 then Swapped else Spinning)))
  | Swapped =>
      Some (mkmachine (mkspinlock (locked k) (lname k) (Some h)) (upd (pcs lm) h Critical))
  | Critical =>
      if holds lm h
      then Some (mkmachine (mkspinlock (locked k) (lname k) None) (upd (pcs lm) h Clearing))
      else None
  | Clearing =>
      Some (mkmachine (mkspinlock 0 (lname k) (lcpu k)) (upd (pcs lm) h Outside))
  end.

Inductive lock_reach (name : string) : lock_machine -> Prop :=
| lock_boot : lock_reach name (mkmachine (initlock name) (fun _ => Outside))
| lock_move lm h lm' :
    lock_reach name lm -> lock_step h lm = Some lm' -> lock_reach name lm'.

(** A hart between its swap and the final store owns the lock. *)
Definition owns (p : lock_pc) : bool :=
  match p with Swapped | Critical | Clearing => true | _ => false end.

(** The lock word says whether there is an owner, and [lk->cpu] names the owner
    exactly while it is between the end of [acquire] and the start of [release]. *)
Definition lock_inv (lm : lock_machine) : Prop :=
  exists owner : option Z,
    (forall h, owns (pcs lm h) = true <-> owner = Some h) /\
    locked (the_lock lm) = (match owner with Some _ => 1 | None => 0 end) /\
    (forall h, lcpu (the_lock lm) = Some h <-> pcs lm h = Critical).

(** The invariant after a step whose owner is [o]; leaves the cases that need
    the uniqueness of the owner. *)
Local Ltac lock_case o :=
  exists o; simpl; split_and!; [|done|]; intros ?h'; rewrite upd_case;
  case_decide; subst; simpl; try naive_solver.

Lemma lock_step_inv h lm lm' : lock_inv lm -> lock_step h lm = Some lm' -> lock_inv lm'.
Proof.
  intros (o & Ho & Hl & Hc) Hs. unfold lock_step, holds in Hs.
  pose proof (Ho h) as Hoh. pose proof (Hc h) as Hch.
  assert (Hcrit : forall h', pcs lm h' = Critical -> o = Some h')
    by (intros h' Hc'; apply Ho; by rewrite Hc').
  destruct (pcs lm h) eqn:E; simpl in *.
  - destruct (_ && _); [done|]. simplify_eq/=. lock_case o.
  - simplify_eq/=. destruct (Z.eqb_spec (locked (the_lock lm)) 0) as [E0|E0]; simpl.
    + destruct o; [lia|]. lock_case (Some h).
    + destruct o as [h0|]; [|lia]. lock_case (Some h0).
  - simplify_eq/=. lock_case o.
  - destruct (_ && _); [|done]. simplify_eq/=. lock_case o.
  - simplify_eq/=. lock_case (@None Z).
Qed.

Lemma lock_reach_inv name lm : lock_reach name lm -> lock_inv lm.
Proof.
  induction 1 as [|lm h lm' _ IH Hs]; [|by eapply lock_step_inv].
  exists None. simpl. naive_solver.
Qed.

(** C40: in every interleaving of [acquire] and [release] on any number
    of harts, at most one hart is inside the critical section, and neither the
    guard of [acquire] nor that of [release] panics. *)
Theorem spinlock_mutual_exclusion name lm :
  lock_reach name lm ->
  (forall h h', pcs lm h = Critical -> pcs lm h' = Critical -> h = h') /\
  (forall h, holds lm h = true <-> pcs lm h = Critical) /\
  (forall h, lock_step h lm <> None).
Proof.
  intros (o & Ho & Hl & Hc)%lock_reach_inv.
  assert (Hh : forall h, holds lm h = true <-> pcs lm h = Critical).
  { intros h. unfold holds. rewrite andb_true_iff, bool_decide_eq_true, Hc.
    split; [tauto|]. intros E. split; [|done].
    assert (o = Some h) as -> by (apply Ho; by rewrite E). by rewrite Hl. }
  split_and!; [|done|].
  - intros h h' E E'. rewrite <- Hc in E, E'. congruence.
  - intros h. unfold lock_step. specialize (Hh h).
    destruct (pcs lm h), (holds lm h); naive_solver.
Qed.

(** Hart 1 takes the lock and hart 2 starts to spin. *)
Definition demo_lock_run : option lock_machine :=
  foldl (fun lm h => match lm with Some lm => lock_step h lm | None => None end)
    (Some (mkmachine (initlock "lk") (fun _ => Outside))) [1; 1; 1; 2; 2].

Lemma spinlock_mutual_exclusion_witness :
  match demo_lock_run with
  | Some lm => pcs lm 1 = Critical /\ pcs lm 2 = Spinning /\ lock_step 2 lm <> None
  | None => False
  end.
Proof.
  cbn. split; [reflexivity|]. split; [reflexivity|].
  eapply (spinlock_mutual_exclusion "lk").
  eapply (lock_move _ _ 2); [eapply (lock_move _ _ 2); [eapply (lock_move _ _ 1);
    [eapply (lock_move _ _ 1); [eapply (lock_move _ _ 1); [apply lock_boot|]|]|]|]|];
  reflexivity.
Defined.
