(* ===== verification/Kalloc.v ===== *)
(** kernel/kalloc.c: the physical page allocator.

    State: the two free lists, threaded through the free pages themselves in
    [ram], and one reference count per 4096-byte page.  Operations: [kfree],
    [kalloc], [kfree_huge], [kalloc_huge], [inc_ref], [get_ref], [freerange],
    [kinit], [freemem_amount].  [kinv] is the allocator's invariant: it relates
    the lists in memory to two abstract lists of free pages. *)

From S2P Require Import Prelude Mem Riscv Spinlock.

(** ** State *)
Record kmem_t : Type := mkkmem {
  kmem_lock : spinlock;
  freelist : Z;
  huge_freelist : Z;
  ref_counts : gmap Z Z
}.

Record kst : Type := mkkst {
  khart : hart;
  kmem : kmem_t;
  ram : mem
}.

Inductive klock : Type := KMEM.

#[export] Instance kst_locks : LockState kst klock := {
  hart_of := khart;
  put_hart h s := mkkst h (kmem s) (ram s);
  lock_of _ s := kmem_lock (kmem s);
  put_lock _ k s :=
    mkkst (khart s)
      (mkkmem k (freelist (kmem s)) (huge_freelist (kmem s)) (ref_counts (kmem s))) (ram s)
}.

#[export] Instance kst_lock_laws : LockLaws kst klock.
Proof. split; intros; try destruct l; done. Qed.

Definition set_ram (f : mem -> mem) (s : kst) : kst := mkkst (khart s) (kmem s) (f (ram s)).
Definition set_freelist (p : Z) (s : kst) : kst :=
  mkkst (khart s)
    (mkkmem (kmem_lock (kmem s)) p (huge_freelist (kmem s)) (ref_counts (kmem s))) (ram s).
Definition set_huge_freelist (p : Z) (s : kst) : kst :=
  mkkst (khart s)
    (mkkmem (kmem_lock (kmem s)) (freelist (kmem s)) p (ref_counts (kmem s))) (ram s).
Definition set_refs (rc : gmap Z Z) (s : kst) : kst :=
  mkkst (khart s)
    (mkkmem (kmem_lock (kmem s)) (freelist (kmem s)) (huge_freelist (kmem s)) rc) (ram s).

(** ** ref_counts[] *)
Definition NREF : Z := Eval cbv in (PHYSTOP - KERNBASE) / PGSIZE.
Definition ref_idx (pa : Z) : Z := u64 (pa - KERNBASE) / PGSIZE.
Definition ref_at (s : kst) (i : Z) : Z := default 0 (ref_counts (kmem s) !! i).

Definition ref_get (i : Z) : M kst Z :=
  fun s => if (0 <=? i) && (i <? NREF) then Ret (ref_at s i) s
           else Stuck "ref_counts: index out of range".
Definition ref_set (i v : Z) : M kst unit :=
  fun s => if (0 <=? i) && (i <? NREF) then Ret tt (set_refs (<[i := v]> (ref_counts (kmem s))) s)
           else Stuck "ref_counts: index out of range".

(** [--kmem.ref_counts[i]], a uint. *)
Definition ref_dec (i : Z) : M kst Z :=
  c <- ref_get i ;;
  ref_set i (u32 (c - 1)) ;;
  ret (u32 (c - 1)).

Definition inc_ref (pa : Z) : M kst unit :=
  acquire KMEM ;;
  c <- ref_get (ref_idx pa) ;;
  ref_set (ref_idx pa) (u32 (c + 1)) ;;
  release KMEM.

Definition get_ref (pa : Z) : M kst Z :=
  acquire KMEM ;;
  ref <- ref_get (ref_idx pa) ;;
  release KMEM ;;
  ret (i32 ref).

(** ** 4096-byte pages *)
Section image.
Context {I : KernelImage}.

Definition kfree (pa : Z) : M kst unit :=
  if negb (pa mod PGSIZE =? 0) || (pa <? kend) || (PHYSTOP <=? pa) then panic "kfree" else
  acquire KMEM ;;
  c <- ref_dec (ref_idx pa) ;;
  if 0 <? c then release KMEM else
  release KMEM ;;
  modify (set_ram (fun m => fill m pa PGSIZE 1)) ;;
  acquire KMEM ;;
  modify (fun s => set_ram (fun m => store64 m pa (freelist (kmem s))) s) ;;
  modify (set_freelist pa) ;;
  release KMEM.

Definition kalloc : M kst Z :=
  acquire KMEM ;;
  r <- gets (fun s => freelist (kmem s)) ;;
  when (negb (r =? 0))
    (modify (fun s => set_freelist (load64 (ram s) r) s) ;;
     ref_set (ref_idx r) 1) ;;
  release KMEM ;;
  when (negb (r =? 0)) (modify (set_ram (fun m => fill m r PGSIZE 5))) ;;
  ret r.

(** ** 2-megabyte pages *)
Definition kalloc_huge : M kst Z :=
  acquire KMEM ;;
  r <- gets (fun s => huge_freelist (kmem s)) ;;
  when (negb (r =? 0)) (modify (fun s => set_huge_freelist (load64 (ram s) r) s)) ;;
  release KMEM ;;
  when (negb (r =? 0)) (modify (set_ram (fun m => fill m r PGSIZE_2M 6))) ;;
  ret r.

(** The loop over the 512 counts; true when it stopped at one still positive. *)
Fixpoint kfree_huge_loop (pa : Z) (idx : list Z) : M kst bool :=
  match idx with
  | [] => ret false
  | i :: idx' =>
      c <- ref_dec (ref_idx pa + i) ;;
      if 0 <? c then ret true else kfree_huge_loop pa idx'
  end.

Definition kfree_huge (pa : Z) : M kst unit :=
  if negb (pa mod PGSIZE_2M =? 0) || (pa <? kend) || (PHYSTOP <=? pa) then panic "kfree_huge" else
  acquire KMEM ;;
  busy <- kfree_huge_loop pa (seqZ 0 512) ;;
  if (busy : bool) then release KMEM else
  release KMEM ;;
  modify (set_ram (fun m => fill m pa PGSIZE_2M 1)) ;;
  acquire KMEM ;;
  modify (fun s => set_ram (fun m => store64 m pa (huge_freelist (kmem s))) s) ;;
  modify (set_huge_freelist pa) ;;
  release KMEM.

(** ** Initialisation *)
Fixpoint freerange_loop (fuel : nat) (p end_addr : Z) : M kst unit :=
  if negb (p + PGSIZE <=? end_addr) then ret tt else
  match fuel with
  | O => stuck "freerange: out of fuel"
  | S fuel' =>
      if (p mod PGSIZE_2M =? 0) && (p + PGSIZE_2M <=? end_addr) then
        for_each (seqZ 0 512) (fun i => ref_set (ref_idx p + i) 1) ;;
        kfree_huge p ;;
        freerange_loop fuel' (p + PGSIZE_2M) end_addr
      else
        ref_set (ref_idx p) 1 ;;
        kfree p ;;
        freerange_loop fuel' (p + PGSIZE) end_addr
  end.

Definition freerange (pa_start pa_end : Z) : M kst unit :=
  let p := PGROUNDUP pa_start in
  freerange_loop (Z.to_nat ((pa_end - p) / PGSIZE)) p pa_end.

(** [for (r = head; r; r = r->next) acc += step]. *)
Fixpoint sum_list (fuel : nat) (m : mem) (r step acc : Z) : option Z :=
  if r =? 0 then Some acc else
  match fuel with
  | O => None
  | S fuel' => sum_list fuel' m (load64 m r) step (u64 (acc + step))
  end.
Definition list_fuel : nat := Z.to_nat NREF.
Lemma list_fuel_NREF : Z.of_nat list_fuel = NREF.
Proof. unfold list_fuel. rewrite Z2Nat.id; done. Qed.
#[global] Opaque list_fuel.

Definition walk_free (head : kmem_t -> Z) (step acc : Z) : M kst Z :=
  fun s => match sum_list list_fuel (ram s) (head (kmem s)) step acc with
           | Some n => Ret n s
           | None => Stuck "free list: cycle"
           end.

Definition kinit : M kst Z :=
  modify (fun s => put_lock KMEM (initlock "kmem") s) ;;
  freerange kend PHYSTOP ;;
  acquire KMEM ;;
  huge_count <- walk_free huge_freelist 1 0 ;;
  release KMEM ;;
  ret huge_count.

Definition freemem_amount : M kst Z :=
  acquire KMEM ;;
  amount <- walk_free freelist PGSIZE 0 ;;
  amount <- walk_free huge_freelist PGSIZE_2M amount ;;
  release KMEM ;;
  ret (amount / 1024).

End image.

(** ** The invariant

    [chain m p l]: following the [next] words from [p] visits exactly [l]. *)
Fixpoint chain (m : mem) (p : Z) (l : list Z) : Prop :=
  match l with
  | [] => p = 0
  | x :: l' => p = x /\ chain m (load64 m x) l'
  end.

Section invariant.
Context {I : KernelImage}.

Definition page_ok (x : Z) : Prop := x mod 4096 = 0 /\ kend <= x /\ x + 4096 <= PHYSTOP.
Definition huge_ok (x : Z) : Prop := x mod 2097152 = 0 /\ kend <= x /\ x + 2097152 <= PHYSTOP.

(** [fl] and [hl] are the free 4096-byte and 2-megabyte pages: they are linked in
    memory, aligned, inside the RAM the kernel does not occupy, pairwise disjoint,
    and nobody counts a reference to them. *)
Record kinv (s : kst) (fl hl : list Z) : Prop := {
  kinv_lock : locked (kmem_lock (kmem s)) = 0;
  kinv_hart : hart_ok (khart s);
  kinv_chain : chain (ram s) (freelist (kmem s)) fl;
  kinv_hchain : chain (ram s) (huge_freelist (kmem s)) hl;
  kinv_pages : Forall page_ok fl;
  kinv_huges : Forall huge_ok hl;
  kinv_nodup : NoDup fl;
  kinv_hnodup : NoDup hl;
  kinv_sep : forall x h, x ∈ fl -> h ∈ hl -> x < h \/ h + 2097152 <= x;
  kinv_ref : forall x, x ∈ fl -> ref_at s (ref_idx x) = 0;
  kinv_href : forall h i, h ∈ hl -> 0 <= i < 512 -> ref_at s (ref_idx h + i) = 0
}.

(** An address outside every free page. *)
Definition live (fl hl : list Z) (a : Z) : Prop :=
  (forall x, x ∈ fl -> a < x \/ x + 4096 <= a) /\
  (forall h, h ∈ hl -> a < h \/ h + 2097152 <= a).
End invariant.

Lemma chain_ext m m' p l :
  (forall x, x ∈ l -> load64 m x = load64 m' x) -> chain m p l -> chain m' p l.
Proof.
  revert p; induction l as [|x l IH]; intros p H; simpl; [done|].
  intros [-> Hc]. split; [done|]. rewrite <- H by set_solver.
  apply IH; [|done]. intros; apply H; set_solver.
Qed.

Lemma chain_head m p l : chain m p l -> Forall (fun x => 0 < x) l -> p = default 0 (head l).
Proof. destruct l; simpl; [done|]. by intros [-> _]. Qed.

Section facts.
Context {I : KernelImage} {HI : ImageOk I}.

Lemma page_ok_range x : page_ok x -> 2147483648 <= x < PHYSTOP.
Proof. unfold page_ok. destruct HI. clia. Qed.
Lemma huge_ok_range x : huge_ok x -> 2147483648 <= x < PHYSTOP.
Proof. unfold huge_ok. destruct HI. clia. Qed.

Lemma ref_idx_spec x : 2147483648 <= x < PHYSTOP -> ref_idx x = (x - 2147483648) / 4096.
Proof. intros. unfold ref_idx. unconst. unwrap. done. Qed.

Lemma ref_idx_range x : 2147483648 <= x < PHYSTOP -> 0 <= ref_idx x < NREF.
Proof. intros. rewrite ref_idx_spec by done. unfold NREF. cdlia. Qed.

Lemma ref_idx_huge h i :
  huge_ok h -> 0 <= i < 512 -> 0 <= ref_idx h + i < NREF.
Proof.
  intros Hh Hi. rewrite ref_idx_spec by by apply huge_ok_range.
  pose proof (huge_ok_range h Hh). unfold huge_ok, NREF in *. cdlia.
Qed.

Lemma ref_idx_sub h i :
  huge_ok h -> 0 <= i < 512 -> ref_idx (h + 4096 * i) = ref_idx h + i.
Proof.
  intros Hh Hi. pose proof (huge_ok_range h Hh). unfold huge_ok in *.
  rewrite !ref_idx_spec by (unconst; lia). cdlia.
Qed.

Lemma ref_idx_inj x y : page_ok x -> page_ok y -> ref_idx x = ref_idx y -> x = y.
Proof.
  intros Hx Hy. rewrite !ref_idx_spec by by apply page_ok_range.
  pose proof (page_ok_range x Hx). pose proof (page_ok_range y Hy).
  unfold page_ok in *. cdlia.
Qed.

Lemma page_disjoint x y : page_ok x -> page_ok y -> x <> y -> x + 4096 <= y \/ y + 4096 <= x.
Proof. unfold page_ok. intros. dlia. Qed.
Lemma huge_disjoint x y :
  huge_ok x -> huge_ok y -> x <> y -> x + 2097152 <= y \/ y + 2097152 <= x.
Proof. unfold huge_ok. intros. dlia. Qed.
(** A page outside a huge page is disjoint from it. *)
Lemma page_huge_disjoint x h :
  page_ok x -> huge_ok h -> x < h \/ h + 2097152 <= x -> x + 4096 <= h \/ h + 2097152 <= x.
Proof. unfold page_ok, huge_ok. intros. dlia. Qed.

Lemma ref_get_ok i s : 0 <= i < NREF -> ref_get i s = Ret (ref_at s i) s.
Proof. intros. unfold ref_get. destruct (Z.leb_spec 0 i), (Z.ltb_spec i NREF); lia || done. Qed.
Lemma ref_set_ok i v s :
  0 <= i < NREF -> ref_set i v s = Ret tt (set_refs (<[i := v]> (ref_counts (kmem s))) s).
Proof. intros. unfold ref_set. destruct (Z.leb_spec 0 i), (Z.ltb_spec i NREF); lia || done. Qed.
Lemma ref_dec_ok i s :
  0 <= i < NREF ->
  ref_dec i s = Ret (u32 (ref_at s i - 1))
                  (set_refs (<[i := u32 (ref_at s i - 1)]> (ref_counts (kmem s))) s).
Proof.
  intros. unfold ref_dec. erewrite bind_ret by by apply ref_get_ok.
  erewrite bind_ret by by apply ref_set_ok. done.
Qed.
Lemma ref_at_set i v j s :
  ref_at (set_refs (<[i := v]> (ref_counts (kmem s))) s) j = if decide (j = i) then v else ref_at s j.
Proof.
  unfold ref_at, set_refs; simpl. destruct (decide (j = i)) as [->|].
  - by rewrite lookup_insert_eq.
  - by rewrite lookup_insert_ne.
Qed.
End facts.

(** ** The operations against the invariant *)
Section specs.
Context {I : KernelImage} {HI : ImageOk I}.

(** The state after a balanced critical section: lock free, hart settled. *)
Definition quiet (s : kst) : kst :=
  put_hart (settle (khart s)) (put_lock KMEM (freed (kmem_lock (kmem s))) s).

(** Writes outside the free pages do not disturb the allocator. *)
Lemma kinv_ram s fl hl f :
  kinv s fl hl ->
  (forall x, x ∈ fl \/ x ∈ hl -> load64 (f (ram s)) x = load64 (ram s) x) ->
  kinv (set_ram f s) fl hl.
Proof.
  intros [] Hf. split; try done; simpl.
  - eapply chain_ext; [|done]. intros; symmetry; apply Hf; auto.
  - eapply chain_ext; [|done]. intros; symmetry; apply Hf; auto.
Qed.

Lemma live_load64 (m m' : mem) fl hl :
  (forall a, m' a <> m a -> live fl hl a) ->
  forall x, x ∈ fl \/ x ∈ hl -> load64 m' x = load64 m x.
Proof.
  intros H x Hx. apply load64_ext. intros a Ha.
  destruct (decide (m' a = m a)) as [|Hn]; [done|].
  apply H in Hn as [H1 H2]. destruct Hx as [Hx|Hx]; [specialize (H1 _ Hx)|specialize (H2 _ Hx)]; lia.
Qed.

Lemma kinv_quiet s fl hl : kinv s fl hl -> kinv (quiet s) fl hl.
Proof. intros []. by split. Qed.

Lemma kalloc_empty s hl :
  kinv s [] hl -> kalloc s = Ret 0 (quiet s).
Proof.
  intros []. destruct s as [h [lk f hf rc] m]; simpl in *; subst f.
  unfold kalloc. rewrite bind_acquire by done. mstep. simpl. mstep.
  erewrite bind_release by done. done.
Qed.

(** What the lists of free pages keep apart from a page taken off them. *)
Lemma kinv_head_apart s p fl hl :
  kinv s (p :: fl) hl ->
  page_ok p /\ (forall x, x ∈ fl -> page_ok x /\ (x + 4096 <= p \/ p + 4096 <= x)) /\
  (forall h, h ∈ hl -> huge_ok h /\ (p + 4096 <= h \/ h + 2097152 <= p)).
Proof.
  intros []. rewrite Forall_forall in kinv_pages0. rewrite Forall_forall in kinv_huges0.
  apply NoDup_cons in kinv_nodup0 as [Hnin _].
  assert (Hp : page_ok p) by (apply kinv_pages0; set_solver).
  split_and!; [done|intros x Hx|intros h Hh].
  - assert (page_ok x) by (apply kinv_pages0; set_solver). split; [done|].
    apply page_disjoint; [done..|]. by intros ->.
  - assert (huge_ok h) by (apply kinv_huges0; set_solver). split; [done|].
    apply page_huge_disjoint; [done..|]. apply kinv_sep0; set_solver.
Qed.

Lemma kinv_tail s p fl hl f rc :
  kinv s (p :: fl) hl ->
  (forall x, x ∈ fl \/ x ∈ hl -> load64 (f (ram s)) x = load64 (ram s) x) ->
  (forall x, x ∈ fl -> default 0 (rc !! ref_idx x) = 0) ->
  (forall h i, h ∈ hl -> 0 <= i < 512 -> default 0 (rc !! (ref_idx h + i)) = 0) ->
  kinv (quiet (set_ram f (set_refs rc (set_freelist (load64 (ram s) p) s)))) fl hl.
Proof.
  intros [] Hf Hr Hhr. split; simpl; try done.
  - eapply chain_ext; [|by apply kinv_chain0]. intros; symmetry; apply Hf; auto.
  - eapply chain_ext; [|done]. intros; symmetry; apply Hf; auto.
  - by apply Forall_cons in kinv_pages0 as [_ ?].
  - by apply NoDup_cons in kinv_nodup0 as [_ ?].
  - intros; apply kinv_sep0; set_solver.
Qed.

Lemma kalloc_cons s p fl hl :
  kinv s (p :: fl) hl ->
  exists s', kalloc s = Ret p s' /\ kinv s' fl hl /\
    ref_at s' (ref_idx p) = 1 /\
    (forall i, i <> ref_idx p -> ref_at s' i = ref_at s i) /\
    ram s' = fill (ram s) p 4096 5.
Proof.
  intros K. pose proof (kinv_head_apart _ _ _ _ K) as (Hp & Hfl & Hhl).
  pose proof (page_ok_range p Hp) as Hr. pose proof K as [].
  destruct kinv_chain0 as [Ep _].
  exists (quiet (set_ram (fun m => fill m p 4096 5)
            (set_refs (<[ref_idx p := 1]> (ref_counts (kmem s)))
               (set_freelist (load64 (ram s) p) s)))).
  split_and!.
  - unfold kalloc. rewrite bind_acquire by done. mstep. simpl. rewrite Ep.
    assert (negb (p =? 0) = true) as -> by (destruct (Z.eqb_spec p 0); [lia|done]).
    mstep. erewrite bind_ret by (apply ref_set_ok, ref_idx_range; done).
    erewrite bind_release by done. done.
  - apply (kinv_tail s p fl hl (fun m => fill m p 4096 5)); [done|..].
    + intros x Hx. apply load64_fill_ne.
      destruct Hx as [Hx|Hx]; [apply Hfl in Hx|apply Hhl in Hx]; lia.
    + intros x Hx. rewrite lookup_insert_ne.
      * apply kinv_ref0. set_solver.
      * intros E. apply ref_idx_inj in E; [|done|by apply Hfl]. subst. apply Hfl in Hx. lia.
    + intros h i Hh Hi. rewrite lookup_insert_ne; [by apply kinv_href0|].
      intros E. destruct (Hhl _ Hh) as [Hok Hd]. rewrite <- ref_idx_sub in E by done.
      apply ref_idx_inj in E; [lia|done|]. unfold huge_ok, page_ok in *. dlia.
  - unfold ref_at; simpl. by rewrite lookup_insert_eq.
  - intros i Hi. unfold ref_at; simpl. by rewrite lookup_insert_ne.
  - done.
Qed.

(** ** kfree *)
Lemma kfree_guard pa :
  page_ok pa -> (negb (pa mod PGSIZE =? 0) || (pa <? kend) || (PHYSTOP <=? pa)) = false.
Proof.
  unfold page_ok. unconst. intros. destruct (Z.eqb_spec (pa mod 4096) 0), (Z.ltb_spec pa kend),
    (Z.leb_spec 2281701376 pa); simpl; lia || done.
Qed.

Lemma kfree_invalid pa s : ~ page_ok pa -> kfree pa s = Panic "kfree".
Proof.
  intros Hp. unfold kfree. destruct (_ || _) eqn:E; [done|].
  exfalso. apply Hp. rewrite !orb_false_iff, negb_false_iff in E. unfold page_ok.
  destruct E as [[E1 E2] E3]. apply Z.eqb_eq in E1. unconst. dlia.
Qed.

(** A page other references remain to, or whose count is zero, is only
    uncounted: the count wraps around below zero. *)
Lemma kfree_counted s fl hl p :
  kinv s fl hl -> page_ok p -> 0 <= ref_at s (ref_idx p) < 2 ^ 32 -> ref_at s (ref_idx p) <> 1 ->
  kfree p s = Ret tt (quiet (set_refs (<[ref_idx p := u32 (ref_at s (ref_idx p) - 1)]>
                                         (ref_counts (kmem s))) s)).
Proof.
  intros [] Hp Hc H1. unfold kfree. rewrite kfree_guard by done.
  rewrite bind_acquire by done.
  erewrite bind_ret by (apply ref_dec_ok, ref_idx_range, page_ok_range; done).
  set (c := ref_at _ _) in *. change (ref_at s (ref_idx p)) with c in Hc, H1.
  assert ((0 <? u32 (c - 1)) = true) as ->.
  { apply Z.ltb_lt. unfold u32. destruct (decide (c = 0)) as [->|]; [done|]. rewrite Z.mod_small; lia. }
  erewrite release_taken by done. done.
Qed.

(** Dropping the last reference puts the page on the free list. *)
Lemma kfree_last s fl hl p :
  kinv s fl hl -> page_ok p -> live fl hl p -> ref_at s (ref_idx p) = 1 ->
  exists s', kfree p s = Ret tt s' /\ kinv s' (p :: fl) hl /\
    (forall i, i <> ref_idx p -> ref_at s' i = ref_at s i) /\
    (forall a, a < p \/ p + 4096 <= a -> ram s' a = ram s a).
Proof.
  intros K Hp [Hlf Hlh] H1. pose proof K as [].
  rewrite Forall_forall in kinv_pages0. rewrite Forall_forall in kinv_huges0.
  exists (set_freelist p (set_ram (fun m => store64 (fill m p 4096 1) p (freelist (kmem s)))
            (quiet (set_refs (<[ref_idx p := 0]> (ref_counts (kmem s))) s)))).
  assert (Hfl : forall x, x ∈ fl -> x + 4096 <= p \/ p + 4096 <= x).
  { intros x Hx. apply page_disjoint; [auto..|]. intros ->. apply Hlf in Hx. lia. }
  assert (Hhl : forall h, h ∈ hl -> p + 4096 <= h \/ h + 2097152 <= p).
  { intros h Hh. apply page_huge_disjoint; auto. }
  assert (Hld : forall x, x ∈ fl \/ x ∈ hl ->
    load64 (store64 (fill (ram s) p 4096 1) p (freelist (kmem s))) x = load64 (ram s) x).
  { intros x [Hx|Hx]; [apply Hfl in Hx|apply Hhl in Hx];
      (rewrite load64_ne, load64_fill_ne by lia; done). }
  split_and!.
  - unfold kfree. rewrite kfree_guard by done. rewrite bind_acquire by done.
    erewrite bind_ret by (apply ref_dec_ok, ref_idx_range, page_ok_range; done).
    match goal with |- context [ref_at ?s1 (ref_idx p)] =>
      change (ref_at s1 (ref_idx p)) with (ref_at s (ref_idx p)) end.
    rewrite H1. simpl. erewrite bind_release by done. mstep.
    rewrite bind_acquire by done. mstep. erewrite release_taken by done.
    unfold quiet; simpl. rewrite settle_settle. done.
  - split; simpl; try done.
    + split; [done|]. rewrite load64_eq, u64_small.
      * eapply chain_ext; [|done]. intros; symmetry; apply Hld; auto.
      * destruct fl as [|x fl]; simpl in kinv_chain0; [lia|]. destruct kinv_chain0 as [-> _].
        specialize (kinv_pages0 x ltac:(set_solver)). apply page_ok_range in kinv_pages0. clia.
    + eapply chain_ext; [|done]. intros; symmetry; apply Hld; auto.
    + apply Forall_forall. set_solver.
    + by apply Forall_forall.
    + apply NoDup_cons. split; [|done]. intros Hx. apply Hlf in Hx. lia.
    + intros x h [->|Hx]%elem_of_cons Hh; [by apply Hlh|by apply kinv_sep0].
    + intros x Hx. unfold ref_at; simpl. destruct (decide (ref_idx x = ref_idx p)) as [->|].
      * by rewrite lookup_insert_eq.
      * rewrite lookup_insert_ne by done. apply elem_of_cons in Hx as [->|Hx]; [done|].
        by apply kinv_ref0.
    + intros h i Hh Hi. unfold ref_at; simpl. rewrite lookup_insert_ne; [by apply kinv_href0|].
      intros E. assert (Hok : huge_ok h) by auto. rewrite <- ref_idx_sub in E by done.
      apply ref_idx_inj in E; [|done|]; [apply Hhl in Hh; lia|].
      unfold huge_ok, page_ok in *. dlia.
  - intros i Hi. unfold ref_at; simpl. by rewrite lookup_insert_ne.
  - intros a Ha. simpl. rewrite store64_out, fill_out by lia. done.
Qed.

(** ** Huge pages *)
Lemma ref_idx_inj_huge h h' i i' :
  huge_ok h -> huge_ok h' -> 0 <= i < 512 -> 0 <= i' < 512 ->
  ref_idx h + i = ref_idx h' + i' -> h = h' /\ i = i'.
Proof.
  intros Hh Hh' Hi Hi'. rewrite !ref_idx_spec by by apply huge_ok_range.
  pose proof (huge_ok_range h Hh). pose proof (huge_ok_range h' Hh').
  unfold huge_ok in *. cdlia.
Qed.

(** The counts after a loop over some indices: [v] there, unchanged elsewhere. *)
Definition refs_set (base : Z) (idx : list Z) (v : Z) (s : kst) (rc : gmap Z Z) : Prop :=
  forall j, default 0 (rc !! j) = if decide (j - base ∈ idx) then v else ref_at s j.

Lemma set_refs_twice rc rc' s : set_refs rc (set_refs rc' s) = set_refs rc s.
Proof. done. Qed.

Lemma refs_set_cons base i idx v s rc :
  refs_set base idx v (set_refs (<[base + i := v]> (ref_counts (kmem s))) s) rc ->
  refs_set base (i :: idx) v s rc.
Proof.
  intros H j. rewrite H, ref_at_set. repeat case_decide; set_solver by lia.
Qed.

Lemma ref_fill_loop p idx s :
  (forall i, i ∈ idx -> 0 <= ref_idx p + i < NREF) ->
  exists rc, for_each idx (fun i => ref_set (ref_idx p + i) 1) s = Ret tt (set_refs rc s) /\
    refs_set (ref_idx p) idx 1 s rc.
Proof.
  revert s; induction idx as [|i idx IH]; intros s Hr; simpl.
  - exists (ref_counts (kmem s)). split; [by destruct s as [? [] ?]|].
    intros j. by case_decide; [set_solver|].
  - destruct (IH (set_refs (<[ref_idx p + i := 1]> (ref_counts (kmem s))) s)) as (rc & E & Hrc);
      [set_solver|].
    exists rc. erewrite bind_ret by (apply ref_set_ok; set_solver).
    rewrite E. split; [done|]. by apply refs_set_cons.
Qed.

Lemma kfree_huge_loop_ones p idx s :
  NoDup idx -> (forall i, i ∈ idx -> 0 <= ref_idx p + i < NREF /\ ref_at s (ref_idx p + i) = 1) ->
  exists rc, kfree_huge_loop p idx s = Ret false (set_refs rc s) /\ refs_set (ref_idx p) idx 0 s rc.
Proof.
  revert s; induction idx as [|i idx IH]; intros s Hnd Hr; simpl.
  - exists (ref_counts (kmem s)). split; [by destruct s as [? [] ?]|].
    intros j. by case_decide; [set_solver|].
  - apply NoDup_cons in Hnd as [Hi Hnd].
    destruct (Hr i ltac:(set_solver)) as [Hb H1].
    destruct (IH (set_refs (<[ref_idx p + i := 0]> (ref_counts (kmem s))) s)) as (rc & E & Hrc);
      [done| |].
    { intros i' Hi'. destruct (Hr i' ltac:(set_solver)). split; [done|].
      rewrite ref_at_set. case_decide; [|done]. assert (i = i') by lia. by subst. }
    exists rc. erewrite bind_ret by (by apply ref_dec_ok). rewrite H1.
    change (u32 (1 - 1)) with 0. simpl. rewrite E. split; [done|]. by apply refs_set_cons.
Qed.

Lemma kfree_huge_guard pa :
  huge_ok pa -> (negb (pa mod PGSIZE_2M =? 0) || (pa <? kend) || (PHYSTOP <=? pa)) = false.
Proof.
  unfold huge_ok. unconst. intros. destruct (Z.eqb_spec (pa mod 2097152) 0), (Z.ltb_spec pa kend),
    (Z.leb_spec 2281701376 pa); simpl; lia || done.
Qed.

Lemma kalloc_huge_empty s fl : kinv s fl [] -> kalloc_huge s = Ret 0 (quiet s).
Proof.
  intros []. destruct s as [h [lk f hf rc] m]; simpl in *; subst hf.
  unfold kalloc_huge. rewrite bind_acquire by done. mstep. simpl. mstep.
  erewrite bind_release by done. done.
Qed.

Lemma kalloc_huge_cons s h fl hl :
  kinv s fl (h :: hl) ->
  exists s', kalloc_huge s = Ret h s' /\ kinv s' fl hl /\ huge_ok h /\ live fl hl h /\
    (forall a, h <= a < h + 2097152 -> live fl hl a) /\
    (forall i, ref_at s' i = ref_at s i) /\ ram s' = fill (ram s) h 2097152 6.
Proof.
  intros []. rewrite Forall_forall in kinv_pages0. rewrite Forall_forall in kinv_huges0.
  apply NoDup_cons in kinv_hnodup0 as [Hnin Hnd].
  assert (Hok : huge_ok h) by (apply kinv_huges0; set_solver).
  assert (Hfl : forall x, x ∈ fl -> x + 4096 <= h \/ h + 2097152 <= x).
  { intros x Hx. apply page_huge_disjoint; [auto|done|]. apply kinv_sep0; set_solver. }
  assert (Hhl : forall h', h' ∈ hl -> h' + 2097152 <= h \/ h + 2097152 <= h').
  { intros h' Hh'. apply huge_disjoint; [apply kinv_huges0; set_solver|done|]. by intros ->. }
  assert (Hlive : forall a, h <= a < h + 2097152 -> live fl hl a).
  { intros a Ha. split; intros y Hy; [apply Hfl in Hy|apply Hhl in Hy]; lia. }
  destruct kinv_hchain0 as [Eh Hc].
  exists (quiet (set_ram (fun m => fill m h 2097152 6) (set_huge_freelist (load64 (ram s) h) s))).
  split_and!; try done.
  - unfold kalloc_huge. rewrite bind_acquire by done. mstep. simpl. rewrite Eh.
    assert (negb (h =? 0) = true) as ->.
    { pose proof (huge_ok_range h Hok). destruct (Z.eqb_spec h 0); [lia|done]. }
    mstep. erewrite bind_release by done. done.
  - split; simpl; try done.
    + eapply chain_ext; [|done]. intros x Hx. symmetry. apply load64_fill_ne.
      apply Hfl in Hx. lia.
    + eapply chain_ext; [|done]. intros x Hx. symmetry. apply load64_fill_ne.
      apply Hhl in Hx. lia.
    + by apply Forall_forall.
    + apply Forall_forall. set_solver.
    + intros; apply kinv_sep0; set_solver.
    + intros; apply kinv_href0; set_solver.
  - apply Hlive. lia.
Qed.

(** With a count of one on each of its 512 pages, a huge page goes back on the
    list of huge pages. *)
Lemma kfree_huge_ones s fl hl h :
  kinv s fl hl -> huge_ok h -> (forall a, h <= a < h + 2097152 -> live fl hl a) ->
  (forall i, 0 <= i < 512 -> ref_at s (ref_idx h + i) = 1) ->
  exists s', kfree_huge h s = Ret tt s' /\ kinv s' fl (h :: hl).
Proof.
  intros K Hok Hlive H1. pose proof K as [].
  rewrite Forall_forall in kinv_pages0. rewrite Forall_forall in kinv_huges0.
  assert (Hfl : forall x, x ∈ fl -> x + 4096 <= h \/ h + 2097152 <= x).
  { intros x Hx. apply page_huge_disjoint; [auto|done|].
    destruct (decide (h <= x < h + 2097152)) as [Hi|]; [|lia].
    apply Hlive in Hi as [Hi _]. apply Hi in Hx. lia. }
  assert (Hhl : forall h', h' ∈ hl -> h' + 2097152 <= h \/ h + 2097152 <= h').
  { intros h' Hh'. apply huge_disjoint; [auto..|]. intros ->.
    destruct (Hlive h) as [_ Hi]; [lia|]. apply Hi in Hh'. lia. }
  set (s1 := put_lock KMEM (taken (kmem_lock (kmem s)) (khart s)) (put_hart (pushed (khart s)) s)).
  destruct (kfree_huge_loop_ones h (seqZ 0 512) s1) as (rc & E & Hrc).
  { apply NoDup_seqZ. }
  { intros i Hi%elem_of_seqZ. split; [by apply ref_idx_huge|by apply H1]. }
  exists (set_huge_freelist h (set_ram (fun m => store64 (fill m h 2097152 1) h (huge_freelist (kmem s)))
            (quiet (set_refs rc s)))).
  assert (Hld : forall x, x ∈ fl \/ x ∈ hl ->
    load64 (store64 (fill (ram s) h 2097152 1) h (huge_freelist (kmem s))) x = load64 (ram s) x).
  { intros x [Hx|Hx]; [apply Hfl in Hx|apply Hhl in Hx];
      (rewrite load64_ne, load64_fill_ne by lia; done). }
  split.
  - unfold kfree_huge. rewrite kfree_huge_guard by done. rewrite bind_acquire by done.
    erewrite bind_ret by done. cbv beta iota. subst s1.
    erewrite bind_release by done. mstep. rewrite bind_acquire by done. mstep.
    erewrite release_taken by done. unfold quiet; simpl. rewrite settle_settle. done.
  - split; simpl; try done.
    + eapply chain_ext; [|done]. intros; symmetry; apply Hld; auto.
    + split; [done|]. rewrite load64_eq, u64_small.
      * eapply chain_ext; [|done]. intros; symmetry; apply Hld; auto.
      * destruct hl as [|x hl]; simpl in kinv_hchain0; [lia|]. destruct kinv_hchain0 as [-> _].
        specialize (kinv_huges0 x (list_elem_of_here _ _)). apply huge_ok_range in kinv_huges0. clia.
    + by apply Forall_forall.
    + apply Forall_forall. intros y [->|Hy]%elem_of_cons; auto.
    + apply NoDup_cons. split; [|done]. intros Hx. apply Hhl in Hx. lia.
    + intros x h' Hx [->|Hh]%elem_of_cons; [apply Hfl in Hx; lia|by apply kinv_sep0].
    + intros x Hx. unfold ref_at; simpl. rewrite Hrc. case_decide; [done|]. by apply kinv_ref0.
    + intros h' i Hh Hi. unfold ref_at; simpl. rewrite Hrc. case_decide as Hd; [done|].
      apply elem_of_cons in Hh as [->|Hh]; [|by apply kinv_href0].
      rewrite elem_of_seqZ in Hd. lia.
Qed.

(** With a zero count on its first page it does not: the count wraps around to
    2^32 - 1, which [kfree_huge] takes for other references. *)
Lemma kfree_huge_zero s fl hl h :
  kinv s fl hl -> huge_ok h -> ref_at s (ref_idx h) = 0 ->
  kfree_huge h s = Ret tt (quiet (set_refs (<[ref_idx h := 4294967295]> (ref_counts (kmem s))) s)).
Proof.
  intros [] Hok H0. unfold kfree_huge. rewrite kfree_huge_guard by done.
  rewrite bind_acquire by done.
  change (seqZ 0 512) with (0 :: seqZ 1 511). cbn [kfree_huge_loop]. rewrite Z.add_0_r.
  rewrite bind_assoc.
  erewrite bind_ret by (apply ref_dec_ok; rewrite <- (Z.add_0_r (ref_idx h)); apply ref_idx_huge; done).
  match goal with |- context [ref_at ?s1 (ref_idx h)] =>
    change (ref_at s1 (ref_idx h)) with (ref_at s (ref_idx h)) end.
  rewrite H0. simpl. mstep. erewrite release_taken by done. done.
Qed.

(** ** freerange *)

(** Progress of [freerange] up to [p]: every page below [p] is on a list. *)
Record swept (p0 p : Z) (fl hl : list Z) : Prop := {
  swept_fl : forall x, x ∈ fl -> p0 <= x /\ x + 4096 <= p;
  swept_hl : forall h, h ∈ hl -> p0 <= h /\ h + 2097152 <= p;
  swept_page : forall x, page_ok x -> x < p -> x ∈ fl \/ exists h, h ∈ hl /\ h <= x < h + 2097152;
  swept_huge : forall h, huge_ok h -> h < p -> h ∈ hl /\ h + 2097152 <= p;
  swept_size : 4096 * Z.of_nat (length fl) + 2097152 * Z.of_nat (length hl) = p - p0
}.

Lemma swept_live p0 p fl hl a : swept p0 p fl hl -> p <= a -> live fl hl a.
Proof. intros [] Ha. split; intros y Hy; [apply swept_fl0 in Hy|apply swept_hl0 in Hy]; lia. Qed.

Lemma swept_page_step p0 p fl hl :
  swept p0 p fl hl -> p0 <= p -> page_ok p -> ~ huge_ok p -> swept p0 (p + 4096) (p :: fl) hl.
Proof.
  intros [] Hp Hok Hnh. split.
  - intros x [->|Hx]%elem_of_cons; [lia|]. apply swept_fl0 in Hx. lia.
  - intros h Hh. apply swept_hl0 in Hh. lia.
  - intros x Hx Hlt. destruct (decide (x = p)) as [->|]; [set_solver|].
    destruct (swept_page0 x Hx) as [?|?]; [|set_solver..]. unfold page_ok in *. dlia.
  - intros h Hh Hlt. destruct (decide (h = p)) as [->|]; [done|].
    destruct (swept_huge0 h Hh) as [? ?]; [|split; [done|lia]]. unfold page_ok, huge_ok in *. dlia.
  - simpl length. rewrite Nat2Z.inj_succ. lia.
Qed.

Lemma swept_huge_step p0 p fl hl :
  swept p0 p fl hl -> p0 <= p -> huge_ok p -> swept p0 (p + 2097152) fl (p :: hl).
Proof.
  intros [] Hp Hok. split.
  - intros x Hx. apply swept_fl0 in Hx. lia.
  - intros h [->|Hh]%elem_of_cons; [lia|]. apply swept_hl0 in Hh. lia.
  - intros x Hx Hlt. destruct (decide (p <= x)).
    + right. exists p. set_solver by lia.
    + destruct (swept_page0 x Hx) as [?|(h & ? & ?)]; [lia|set_solver|].
      right. exists h. set_solver.
  - intros h Hh Hlt. destruct (decide (h = p)) as [->|]; [split; [set_solver|lia]|].
    destruct (swept_huge0 h Hh) as [? ?]; [|split; [set_solver|lia]]. unfold huge_ok in *. dlia.
  - simpl length. rewrite Nat2Z.inj_succ. lia.
Qed.

Lemma kinv_set_refs s fl hl rc :
  kinv s fl hl -> (forall x, x ∈ fl -> default 0 (rc !! ref_idx x) = 0) ->
  (forall h i, h ∈ hl -> 0 <= i < 512 -> default 0 (rc !! (ref_idx h + i)) = 0) ->
  kinv (set_refs rc s) fl hl.
Proof. intros [] ??. by split. Qed.

(** Marking a live page as referenced keeps the invariant. *)
Lemma kinv_ref_live s fl hl p v :
  kinv s fl hl -> page_ok p -> live fl hl p ->
  kinv (set_refs (<[ref_idx p := v]> (ref_counts (kmem s))) s) fl hl.
Proof.
  intros K Hp [Hf Hh]. pose proof K as [].
  rewrite Forall_forall in kinv_pages0. rewrite Forall_forall in kinv_huges0.
  apply kinv_set_refs; [done|..].
  - intros x Hx. rewrite lookup_insert_ne; [by apply kinv_ref0|].
    intros E%ref_idx_inj; [subst; apply Hf in Hx; lia|done|auto].
  - intros h i Hx Hi. rewrite lookup_insert_ne; [by apply kinv_href0|].
    assert (Hok : huge_ok h) by auto. rewrite <- ref_idx_sub by done.
    intros E%ref_idx_inj; [subst; apply Hh in Hx; lia|done|]. unfold huge_ok, page_ok in *. dlia.
Qed.

Lemma kinv_refs_huge_live s fl hl h rc :
  kinv s fl hl -> huge_ok h -> (forall a, h <= a < h + 2097152 -> live fl hl a) ->
  refs_set (ref_idx h) (seqZ 0 512) 1 s rc -> kinv (set_refs rc s) fl hl.
Proof.
  intros K Hok Hlive Hrc. pose proof K as [].
  rewrite Forall_forall in kinv_pages0. rewrite Forall_forall in kinv_huges0.
  apply kinv_set_refs; [done|..].
  - intros x Hx. rewrite Hrc. case_decide as Hd; [|by apply kinv_ref0].
    apply elem_of_seqZ in Hd. assert (Hpx : page_ok x) by auto.
    exfalso. assert (E : ref_idx x = ref_idx (h + 4096 * (ref_idx x - ref_idx h))).
    { rewrite ref_idx_sub by (done || lia). lia. }
    apply ref_idx_inj in E; [|done|unfold huge_ok, page_ok in *; dlia].
    destruct (Hlive x) as [Hf _]; [lia|]. apply Hf in Hx. lia.
  - intros h' i Hx Hi. rewrite Hrc. case_decide as Hd; [|by apply kinv_href0].
    apply elem_of_seqZ in Hd. exfalso.
    destruct (ref_idx_inj_huge h' h i (ref_idx h' + i - ref_idx h)) as [-> _]; [auto..|lia|lia|].
    destruct (Hlive h) as [_ Hf]; [lia|]. apply Hf in Hx. lia.
Qed.

Lemma freerange_loop_spec fuel p0 p s fl hl :
  kinv s fl hl -> swept p0 p fl hl -> kend <= p0 -> p0 <= p -> p <= PHYSTOP -> p mod 4096 = 0 ->
  (PHYSTOP - p) / 4096 <= Z.of_nat fuel ->
  exists s' fl' hl', freerange_loop fuel p PHYSTOP s = Ret tt s' /\
    kinv s' fl' hl' /\ swept p0 PHYSTOP fl' hl'.
Proof.
  revert p s fl hl; induction fuel as [|fuel IH]; intros p s fl hl K Hs Hk Hp Hend Hal Hfuel;
    cbn [freerange_loop].
  - assert (p = PHYSTOP) as -> by cdlia.
    destruct (Z.leb_spec (PHYSTOP + PGSIZE) PHYSTOP); [clia|]. exists s, fl, hl. done.
  - destruct (Z.leb_spec (p + PGSIZE) PHYSTOP) as [Hle|Hgt]; simpl.
    2: { assert (p = PHYSTOP) as -> by cdlia. exists s, fl, hl. done. }
    assert (Hpok : page_ok p) by (unfold page_ok; clia).
    destruct (_ && _) eqn:Eh.
    + apply andb_true_iff in Eh as [E1%Z.eqb_eq E2%Z.leb_le].
      assert (Hok : huge_ok p) by (unfold huge_ok; clia).
      assert (Hlive : forall a, p <= a < p + 2097152 -> live fl hl a)
        by (intros; eapply swept_live; [done|lia]).
      destruct (ref_fill_loop p (seqZ 0 512) s) as (rc & E & Hrc).
      { intros i Hi%elem_of_seqZ. by apply ref_idx_huge. }
      assert (K1 : kinv (set_refs rc s) fl hl) by by eapply kinv_refs_huge_live.
      destruct (kfree_huge_ones (set_refs rc s) fl hl p) as (s2 & E2' & K2); [done..| |].
      { intros i Hi. unfold ref_at; simpl. rewrite Hrc. rewrite decide_True; [done|].
        apply elem_of_seqZ. lia. }
      erewrite bind_ret by done. erewrite bind_ret by done.
      apply (IH _ _ fl (p :: hl)); [done|by apply swept_huge_step|..]; cdlia.
    + assert (Hnh : ~ huge_ok p).
      { intros [H1 [H2 H3]]. apply andb_false_iff in Eh as [E%Z.eqb_neq|E%Z.leb_gt]; clia. }
      assert (Hlive : live fl hl p) by (eapply swept_live; [done|lia]).
      erewrite bind_ret by (by apply ref_set_ok, ref_idx_range, page_ok_range).
      destruct (kfree_last (set_refs (<[ref_idx p := 1]> (ref_counts (kmem s))) s) fl hl p)
        as (s2 & E & K2 & _); [by apply kinv_ref_live|done|done| |].
      { rewrite ref_at_set. by rewrite decide_True. }
      erewrite bind_ret by done.
      apply (IH _ _ (p :: fl) hl); [done|by apply swept_page_step|..]; cdlia.
Qed.

Lemma PGROUNDUP_kend : PGROUNDUP kend = (kend + 4095) / 4096 * 4096.
Proof. destruct HI. apply PGROUNDUP_spec; lia. Qed.

(** [freerange(end, PHYSTOP)] on a booting machine terminates and puts every
    page between the kernel image and PHYSTOP on exactly one free list: all the
    2-megabyte-aligned chunks as huge pages, the rest as 4096-byte pages. *)
Lemma freerange_spec s :
  kinv s [] [] ->
  exists s' fl hl, freerange kend PHYSTOP s = Ret tt s' /\ kinv s' fl hl /\
    swept (PGROUNDUP kend) PHYSTOP fl hl.
Proof.
  intros K. unfold freerange. rewrite PGROUNDUP_kend. destruct HI.
  eapply (freerange_loop_spec _ _ _ _ [] []); [done| |cdlia..].
  split; try set_solver; simpl; try lia.
  - intros x Hx Hlt. unfold page_ok in Hx. dlia.
  - intros h Hx Hlt. unfold huge_ok in Hx. dlia.
Qed.

(** ** Walking the free lists *)
Lemma sum_list_chain m l : forall p fuel step acc,
  chain m p l -> Forall (fun x => 0 < x) l -> (length l <= fuel)%nat ->
  0 <= step -> 0 <= acc -> acc + step * Z.of_nat (length l) < 2 ^ 64 ->
  sum_list fuel m p step acc = Some (acc + step * Z.of_nat (length l)).
Proof.
  induction l as [|x l IH]; intros p fuel step acc Hc Hpos Hlen Hst Hacc Hmax; simpl in Hc.
  - subst p. destruct fuel; simpl; f_equal; lia.
  - destruct Hc as [-> Hc]. apply Forall_cons in Hpos as [Hx Hpos]. simpl length in *.
    destruct fuel as [|fuel]; [lia|]. simpl. destruct (Z.eqb_spec x 0); [lia|].
    rewrite u64_small by lia. rewrite (IH _ _ _ _ Hc); [f_equal; lia|done|lia..].
Qed.

(** A duplicate-free list of pages is no longer than the array of counts. *)
Lemma nodup_pages_length (l : list Z) :
  NoDup l -> (forall x, x ∈ l -> 2147483648 <= x < PHYSTOP) ->
  (forall x y, x ∈ l -> y ∈ l -> ref_idx x = ref_idx y -> x = y) ->
  Z.of_nat (length l) <= NREF.
Proof.
  intros Hnd Hr Hinj.
  assert (Hle : (length (ref_idx <$> l) <= length (seqZ 0 NREF))%nat).
  { apply submseteq_length, NoDup_submseteq.
    - apply NoDup_fmap_2_strong; [|done]. intros; by apply Hinj.
    - intros i (x & -> & Hx)%list_elem_of_fmap. apply elem_of_seqZ.
      pose proof (ref_idx_range x (Hr x Hx)). lia. }
  rewrite length_fmap, length_seqZ in Hle. unfold NREF in *. lia.
Qed.

Lemma kinv_lengths s fl hl :
  kinv s fl hl -> Z.of_nat (length fl) <= NREF /\ Z.of_nat (length hl) <= NREF.
Proof.
  intros []. rewrite Forall_forall in kinv_pages0. rewrite Forall_forall in kinv_huges0.
  split; apply nodup_pages_length; try done.
  - intros; by apply page_ok_range, kinv_pages0.
  - intros; apply ref_idx_inj; auto.
  - intros; by apply huge_ok_range, kinv_huges0.
  - intros x y Hx Hy E.
    destruct (ref_idx_inj_huge x y 0 0); [by apply kinv_huges0..|lia|lia|lia|done].
Qed.

Lemma walk_free_spec s1 s fl hl acc step (huge : bool) :
  let head := if huge then huge_freelist else freelist in
  let l := if huge then hl else fl in
  kinv s fl hl -> ram s1 = ram s -> head (kmem s1) = head (kmem s) ->
  0 <= step <= 2097152 -> 0 <= acc < 2 ^ 60 ->
  walk_free head step acc s1 = Ret (acc + step * Z.of_nat (length l)) s1.
Proof.
  intros head l K Hm Hh Hst Hacc. pose proof (kinv_lengths _ _ _ K) as [Hl1 Hl2]. destruct K.
  assert (Hl : Z.of_nat (length l) <= 32768) by (subst l; unfold NREF in *; destruct huge; lia).
  unfold walk_free. rewrite Hm, Hh, (sum_list_chain _ l).
  - done.
  - by destruct huge.
  - destruct huge; eapply Forall_impl; try done; simpl;
      [intros x Hx%huge_ok_range|intros x Hx%page_ok_range]; lia.
  - pose proof list_fuel_NREF. unfold NREF in *. lia.
  - lia.
  - lia.
  - nia.
Qed.

Lemma freemem_run s fl hl :
  kinv s fl hl ->
  freemem_amount s =
  Ret ((4096 * Z.of_nat (length fl) + 2097152 * Z.of_nat (length hl)) / 1024) (quiet s).
Proof.
  intros K. pose proof (kinv_lengths _ _ _ K) as [Hl1 Hl2]. unfold NREF in *.
  unfold freemem_amount. rewrite bind_acquire by apply K.
  erewrite bind_ret by (apply (walk_free_spec _ s fl hl 0 PGSIZE false); done || clia).
  erewrite bind_ret by (apply (walk_free_spec _ s fl hl _ PGSIZE_2M true); done || clia).
  erewrite bind_release; [|done|done|apply K]. unfold ret, quiet. repeat f_equal; clia.
Qed.
End specs.

(** ** Reference counts *)
Section refs.
Context {I : KernelImage} {HI : ImageOk I}.

Lemma get_ref_run s fl hl p :
  kinv s fl hl -> page_ok p -> get_ref p s = Ret (i32 (ref_at s (ref_idx p))) (quiet s).
Proof.
  intros [] Hp. unfold get_ref. rewrite bind_acquire by done.
  erewrite bind_ret by (by apply ref_get_ok, ref_idx_range, page_ok_range).
  erewrite bind_release by done. done.
Qed.

Lemma inc_ref_run s fl hl p :
  kinv s fl hl -> page_ok p ->
  inc_ref p s =
  Ret tt (quiet (set_refs (<[ref_idx p := u32 (ref_at s (ref_idx p) + 1)]> (ref_counts (kmem s))) s)).
Proof.
  intros [] Hp. unfold inc_ref. rewrite bind_acquire by done.
  erewrite bind_ret by (by apply ref_get_ok, ref_idx_range, page_ok_range).
  erewrite bind_ret by (by apply ref_set_ok, ref_idx_range, page_ok_range).
  erewrite release_taken by done. done.
Qed.

Lemma ref_at_quiet s i : ref_at (quiet s) i = ref_at s i.
Proof. done. Qed.

(** A page somebody counts a reference to is on no free list. *)
Lemma kinv_counted_live s fl hl p :
  kinv s fl hl -> page_ok p -> ref_at s (ref_idx p) <> 0 -> live fl hl p.
Proof.
  intros [] Hp Hr. rewrite Forall_forall in kinv_pages0. rewrite Forall_forall in kinv_huges0.
  split.
  - intros x Hx. destruct (decide (x = p)) as [->|]; [by rewrite kinv_ref0 in Hr|].
    pose proof (page_disjoint x p). unfold page_ok in *. naive_solver lia.
  - intros h Hh. destruct (decide (h <= p < h + 2097152)) as [Hin|]; [|lia]. exfalso.
    apply Hr. assert (Hok : huge_ok h) by auto.
    assert (exists i, p = h + 4096 * i) as [i ->].
    { exists ((p - h) / 4096). clear -Hp Hok Hin. unfold page_ok, huge_ok in *. dlia. }
    rewrite ref_idx_sub by (done || lia). apply kinv_href0; [done|lia].
Qed.
End refs.

(** ** Properties of the allocator *)
Section properties.
Context {I : KernelImage} {HI : ImageOk I}.

(** Kalloc takes the first page off the free list and fills it with
    junk, and returns 0 exactly when the list is empty; the page it returns is
    disjoint from every page still free, it has one reference, and nothing else
    changes. *)
Theorem kalloc_correct s fl hl :
  kinv s fl hl ->
  match fl with
  | [] => kalloc s = Ret 0 (quiet s) /\ kinv (quiet s) [] hl
  | p :: fl' =>
      exists s', kalloc s = Ret p s' /\ kinv s' fl' hl /\ page_ok p /\
        (forall a, p <= a < p + 4096 -> live fl' hl a) /\
        ref_at s' (ref_idx p) = 1 /\
        (forall i, i <> ref_idx p -> ref_at s' i = ref_at s i) /\
        (forall a, ram s' a = if decide (p <= a < p + 4096) then 5 else ram s a)
  end.
Proof.
  intros K. destruct fl as [|p fl].
  - split; [by eapply kalloc_empty|by apply kinv_quiet].
  - pose proof (kinv_head_apart _ _ _ _ K) as (Hp & Hf & Hh).
    destruct (kalloc_cons _ _ _ _ K) as (s' & E & K' & Hr & Hro & Hm).
    exists s'. split_and!; try done.
    + intros a Ha. split; [intros x Hx; apply Hf in Hx; lia|intros h Hx; apply Hh in Hx; lia].
    + intros a. rewrite Hm. case_decide; [by apply fill_in|apply fill_out; lia].
Qed.

(** Kfree panics on an address that is not a page of allocatable RAM;
    it only decrements the count of a page with other references; and it puts a
    page whose last reference goes away at the head of the free list, touching no
    byte outside that page. *)
Theorem kfree_correct s fl hl p :
  kinv s fl hl ->
  (~ page_ok p -> kfree p s = Panic "kfree") /\
  (page_ok p -> 1 < ref_at s (ref_idx p) < 2 ^ 32 ->
     exists s', kfree p s = Ret tt s' /\ kinv s' fl hl /\ ram s' = ram s /\
       forall i, ref_at s' i = ref_at s i - (if decide (i = ref_idx p) then 1 else 0)) /\
  (page_ok p -> ref_at s (ref_idx p) = 1 ->
     exists s', kfree p s = Ret tt s' /\ kinv s' (p :: fl) hl /\
       (forall i, i <> ref_idx p -> ref_at s' i = ref_at s i) /\
       (forall a, a < p \/ p + 4096 <= a -> ram s' a = ram s a)).
Proof.
  intros K. split_and!.
  - apply kfree_invalid.
  - intros Hp Hr. eexists. split; [eapply kfree_counted; [done..|lia|lia]|]. split_and!.
    + apply kinv_quiet, kinv_ref_live; [done..|]. eapply kinv_counted_live; [done..|lia].
    + done.
    + intros i. rewrite ref_at_quiet, ref_at_set. case_decide; [subst; rewrite u32_small; lia|lia].
  - intros Hp Hr. eapply kfree_last; [done..| |done]. eapply kinv_counted_live; [done..|lia].
Qed.

(** C33: kinit terminates, reports the number of huge pages, and leaves every
    page between the end of the kernel image and PHYSTOP on exactly one of the two
    free lists. *)
Theorem kinit_correct s :
  hart_ok (khart s) -> freelist (kmem s) = 0 -> huge_freelist (kmem s) = 0 ->
  exists s' fl hl, kinit s = Ret (Z.of_nat (length hl)) s' /\ kinv s' fl hl /\
    (forall x, page_ok x -> x ∈ fl \/ exists h, h ∈ hl /\ h <= x < h + 2097152) /\
    (forall h, huge_ok h -> h ∈ hl) /\
    4096 * Z.of_nat (length fl) + 2097152 * Z.of_nat (length hl) = PHYSTOP - PGROUNDUP kend.
Proof.
  intros Hh Hf Hhf. unfold kinit. mstep.
  destruct (freerange_spec (put_lock KMEM (initlock "kmem") s)) as (s1 & fl & hl & E & K & Hs).
  { split; simpl; try done; try set_solver; constructor. }
  exists (quiet s1), fl, hl. erewrite bind_ret by done. rewrite bind_acquire by apply K.
  erewrite bind_ret by (apply (walk_free_spec _ s1 fl hl 0 1 true); done || lia).
  erewrite bind_release; [|done|done|apply K]. unfold ret. destruct Hs.
  split_and!; [f_equal; lia|by apply kinv_quiet|..|done].
  - intros x Hx. apply swept_page0; [done|]. unfold page_ok in Hx. lia.
  - intros h Hx. apply swept_huge0; [done|]. unfold huge_ok in Hx. lia.
Qed.

(** freemem_amount reports the free memory in kilobytes, and leaves
    the allocator as it was. *)
Theorem freemem_correct s fl hl :
  kinv s fl hl ->
  exists s', freemem_amount s =
    Ret ((4096 * Z.of_nat (length fl) + 2097152 * Z.of_nat (length hl)) / 1024) s' /\
    kinv s' fl hl /\ ram s' = ram s.
Proof.
  intros K. exists (quiet s). split; [by apply freemem_run|]. split; [by apply kinv_quiet|done].
Qed.

(** kalloc_huge does not set the reference counts that kfree_huge
    decrements: a huge page that is allocated and freed again never returns to the
    free list, and its first count becomes 2^32 - 1. *)
Theorem kalloc_huge_then_free_leaks s fl h hl :
  kinv s fl (h :: hl) ->
  exists s', (p <- kalloc_huge ;; kfree_huge p) s = Ret tt s' /\ kinv s' fl hl /\
    ref_at s' (ref_idx h) = 4294967295.
Proof.
  intros K. destruct (kalloc_huge_cons _ _ _ _ K) as (s1 & E & K1 & Hok & Hl & Hla & Hr & _).
  assert (H0 : ref_at s1 (ref_idx h) = 0).
  { rewrite Hr, <- (Z.add_0_r (ref_idx h)). apply K; [set_solver|lia]. }
  eexists. split; [erewrite bind_ret by done; by eapply kfree_huge_zero|]. split.
  - apply kinv_quiet, kinv_ref_live; [done| |done]. unfold huge_ok, page_ok in *. dlia.
  - rewrite ref_at_quiet, ref_at_set. by rewrite decide_True.
Qed.

(** A 4096-byte part of a huge page that gets a second reference (as
    uvmcopy does for a child process) and loses it again is put on the free list
    while its first owner still uses it. *)
Theorem huge_page_shared_then_freed s fl h hl i :
  kinv s fl (h :: hl) -> 0 <= i < 512 ->
  exists s', (p <- kalloc_huge ;; inc_ref (p + 4096 * i) ;; kfree (p + 4096 * i)) s = Ret tt s' /\
    kinv s' ((h + 4096 * i) :: fl) hl.
Proof.
  intros K Hi. destruct (kalloc_huge_cons _ _ _ _ K) as (s1 & E & K1 & Hok & Hl & Hla & Hr & _).
  assert (Hp : page_ok (h + 4096 * i)) by (unfold huge_ok, page_ok in *; dlia).
  assert (H0 : ref_at s1 (ref_idx (h + 4096 * i)) = 0).
  { rewrite Hr, ref_idx_sub by done. apply K; [set_solver|done]. }
  assert (Hlive : live fl hl (h + 4096 * i)) by (apply Hla; lia).
  erewrite bind_ret by done. erewrite bind_ret by by eapply inc_ref_run.
  rewrite H0. destruct (kfree_last
    (quiet (set_refs (<[ref_idx (h + 4096 * i) := u32 (0 + 1)]> (ref_counts (kmem s1))) s1))
    fl hl (h + 4096 * i)) as (s' & E' & K' & _); [|done|done| |eauto].
  - by apply kinv_quiet, kinv_ref_live.
  - rewrite ref_at_quiet, ref_at_set. by rewrite decide_True.
Qed.
End properties.

(** ** A concrete allocator state, for the witnesses *)
Definition demo_image : KernelImage :=
  {| etext := KERNBASE + 8 * 4096; trampoline := KERNBASE + 7 * 4096;
     kend := KERNBASE + 16 * 4096 |}.
#[export] Instance demo_image_ok : ImageOk demo_image.
Proof. split; done. Qed.

Definition demo_page : Z := KERNBASE + 20 * 4096.
Definition demo_huge : Z := KERNBASE + 3 * 2097152.
Definition demo_kst : kst :=
  mkkst (mkhart 0 true 0 false) (mkkmem (initlock "kmem") demo_page demo_huge ∅) (fun _ => 0).

Lemma demo_kinv : kinv (I := demo_image) demo_kst [demo_page] [demo_huge].
Proof.
  split; try done.
  - repeat constructor; done.
  - repeat constructor; done.
  - apply NoDup_singleton.
  - apply NoDup_singleton.
  - intros x h ->%list_elem_of_singleton ->%list_elem_of_singleton. left. done.
Qed.

Lemma kalloc_correct_witness :
  exists s', kalloc demo_kst = Ret demo_page s' /\ kinv (I := demo_image) s' [] [demo_huge].
Proof.
  destruct (kalloc_correct (I := demo_image) demo_kst [demo_page] [demo_huge] demo_kinv)
    as (s' & E & K & _).
  exists s'. split; [exact E|exact K].
Defined.

Lemma kfree_correct_witness :
  kfree (I := demo_image) 4096 demo_kst = Panic "kfree".
Proof.
  destruct (kfree_correct (I := demo_image) demo_kst [demo_page] [demo_huge] 4096 demo_kinv) as [H _].
  apply H. intros (_ & Hc & _). revert Hc. vm_compute. congruence.
Defined.

Lemma kinit_correct_witness :
  exists s' fl hl,
    kinit (I := demo_image)
      (mkkst (mkhart 0 false 0 false) (mkkmem (initlock "kmem") 0 0 ∅) (fun _ => 0)) =
      Ret (Z.of_nat (length hl)) s' /\
    kinv (I := demo_image) s' fl hl /\ demo_huge ∈ hl.
Proof.
  destruct (kinit_correct (I := demo_image)
    (mkkst (mkhart 0 false 0 false) (mkkmem (initlock "kmem") 0 0 ∅) (fun _ => 0)))
    as (s' & fl & hl & E & K & _ & H & _); [split; done|done|done|].
  exists s', fl, hl. split; [exact E|]. split; [exact K|]. apply H. clear. split; done.
Defined.

Lemma freemem_correct_witness :
  exists s', freemem_amount demo_kst = Ret 2052 s'.
Proof.
  destruct (freemem_correct (I := demo_image) demo_kst [demo_page] [demo_huge] demo_kinv)
    as (s' & E & _).
  exists s'. rewrite E. reflexivity.
Defined.

Lemma kalloc_huge_then_free_leaks_witness :
  exists s', (p <- kalloc_huge ;; kfree_huge (I := demo_image) p) demo_kst = Ret tt s' /\
    kinv (I := demo_image) s' [demo_page] [].
Proof.
  destruct (kalloc_huge_then_free_leaks (I := demo_image) demo_kst [demo_page] demo_huge [] demo_kinv)
    as (s' & E & K & _).
  exists s'. split; [exact E|exact K].
Defined.

Lemma huge_page_shared_then_freed_witness :
  exists s', (p <- kalloc_huge ;; inc_ref (p + 4096 * 7) ;; kfree (I := demo_image) (p + 4096 * 7))
               demo_kst = Ret tt s' /\
    kinv (I := demo_image) s' [demo_huge + 4096 * 7; demo_page] [].
Proof.
  apply (huge_page_shared_then_freed (I := demo_image) demo_kst [demo_page] demo_huge [] 7 demo_kinv).
  lia.
Defined.
