(* ===== verification/Vm.v ===== *)
(** kernel/vm.c: page tables and user memory.

    Page tables live in physical memory ([ram]), as in the kernel: an entry is a
    64-bit word, and [walk], [mappages], [uvmunmap], [uvmcopy], [freewalk] and
    the copying routines read and write it there.  [memset] and [memmove] on
    physical memory are [fill] and [copy], which [Str] proves equal to the loops
    of string.c.  The console messages of the source are left out.

    The specification side is the page-table walk the hardware does
    ([hw_walk], [translate]) and the footprint of a page table: which physical
    pages hold its three levels ([pt_wf]). *)

From S2P Require Import Prelude Mem Riscv Spinlock Kalloc.

(** [*pte] and [*pte = v]. *)
Definition rd (a : Z) : M kst Z := gets (fun s => load64 (ram s) a).
Definition wr (a v : Z) : M kst unit := modify (set_ram (fun m => store64 m a v)).
Definition zero_page (p : Z) : M kst unit := modify (set_ram (fun m => fill m p PGSIZE 0)).

(** [*pte & b] as a condition. *)
Definition has (pte b : Z) : bool := negb (Z.land pte b =? 0).
Definition PTE_RWX : Z := Eval cbv in Z.lor (Z.lor PTE_R PTE_W) PTE_X.

(** [&pagetable[PX(level, va)]]. *)
Definition pte_addr (pagetable level va : Z) : Z := pagetable + 8 * PX level va.

Fixpoint walk_loop (level : nat) (pagetable va : Z) (alloc : bool) : M kst Z :=
  match level with
  | O => ret (pte_addr pagetable 0 va)
  | S level' =>
      let pte := pte_addr pagetable (Z.of_nat level) va in
      e <- rd pte ;;
      if has e PTE_V then
        if has e PTE_RWX then ret 0 else walk_loop level' (PTE2PA e) va alloc
      else if negb alloc then ret 0 else
        pagetable' <- kalloc ;;
        if pagetable' =? 0 then ret 0 else
        zero_page pagetable' ;;
        wr pte (Z.lor (PA2PTE pagetable') PTE_V) ;;
        walk_loop level' pagetable' va alloc
  end.

Definition walk (pagetable va : Z) (alloc : bool) : M kst Z :=
  if MAXVA <=? va then panic "walk" else walk_loop 2 pagetable va alloc.

Definition walkaddr (pagetable va : Z) : M kst Z :=
  if MAXVA <=? va then ret 0 else
  pte <- walk pagetable va false ;;
  if pte =? 0 then ret 0 else
  e <- rd pte ;;
  if negb (has e PTE_V) then ret 0 else
  if negb (has e PTE_U) then ret 0 else
  ret (PTE2PA e).

(** [n] levels of descent, from level [l]. *)
Fixpoint walk_to_level_loop (n : nat) (l pagetable va : Z) : M kst Z :=
  match n with
  | O => ret pagetable
  | S n' =>
      let pte := pte_addr pagetable l va in
      e <- rd pte ;;
      if has e PTE_V then walk_to_level_loop n' (l - 1) (PTE2PA e) va
      else
        pagetable' <- kalloc ;;
        if pagetable' =? 0 then ret 0 else
        zero_page pagetable' ;;
        wr pte (Z.lor (PA2PTE pagetable') PTE_V) ;;
        walk_to_level_loop n' (l - 1) pagetable' va
  end.

Definition walk_to_level (pagetable va level : Z) : M kst Z :=
  if MAXVA <=? va then panic "walk_to_level" else
  walk_to_level_loop (Z.to_nat (2 - level)) 2 pagetable va.

(** The [for(;;)] of mappages, from virtual address [a]; every round advances [a]
    by a page at least, so [(last - a) / PGSIZE + 1] rounds reach [last]. *)
Fixpoint mappages_loop (fuel : nat) (pagetable a last pa perm : Z) : M kst Z :=
  match fuel with
  | O => stuck "mappages: out of fuel"
  | S fuel' =>
      if (a mod PGSIZE_2M =? 0) && (pa mod PGSIZE_2M =? 0) && (PGSIZE_2M - 1 <=? u64 (last - a)) then
        pgtbl_l1 <- walk_to_level pagetable a 1 ;;
        if pgtbl_l1 =? 0 then ret (-1) else
        let pte := pte_addr pgtbl_l1 1 a in
        e <- rd pte ;;
        if has e PTE_V then panic "mappages: remap huge" else
        wr pte (Z.lor (Z.lor (PA2PTE pa) perm) PTE_V) ;;
        if last <? u64 (a + PGSIZE_2M) then ret 0
        else mappages_loop fuel' pagetable (u64 (a + PGSIZE_2M)) last (u64 (pa + PGSIZE_2M)) perm
      else
        pte <- walk pagetable a true ;;
        if pte =? 0 then ret (-1) else
        e <- rd pte ;;
        if has e PTE_V then panic "mappages: remap" else
        wr pte (Z.lor (Z.lor (PA2PTE pa) perm) PTE_V) ;;
        if a =? last then ret 0
        else mappages_loop fuel' pagetable (u64 (a + PGSIZE)) last (u64 (pa + PGSIZE)) perm
  end.

Definition mappages (pagetable va size pa perm : Z) : M kst Z :=
  if size =? 0 then ret 0 else
  let a := PGROUNDDOWN va in
  let last := PGROUNDDOWN (u64 (va + size - 1)) in
  mappages_loop (Z.to_nat (u64 (last - a) / PGSIZE + 1)) pagetable a last pa perm.

Definition kvmmap (kpgtbl va pa sz perm : Z) : M kst unit :=
  r <- mappages kpgtbl va sz pa perm ;;
  when (negb (r =? 0)) (panic "kvmmap").

Definition uvmcreate : M kst Z :=
  pagetable <- kalloc ;;
  if pagetable =? 0 then ret 0 else
  zero_page pagetable ;;
  ret pagetable.

(** proc.c: a page for each process's kernel stack, high in memory, each followed
    by an invalid guard page. *)
Definition proc_mapstacks (kpgtbl : Z) : M kst unit :=
  for_each (seqZ 0 NPROC) (fun p =>
    pa <- kalloc ;;
    if pa =? 0 then panic "kalloc" else
    kvmmap kpgtbl (KSTACK p) pa PGSIZE (Z.lor PTE_R PTE_W)).

Section image.
Context {I : KernelImage}.

Definition kvmmake : M kst Z :=
  kpgtbl <- kalloc ;;
  zero_page kpgtbl ;;
  kvmmap kpgtbl UART0 UART0 PGSIZE (Z.lor PTE_R PTE_W) ;;
  kvmmap kpgtbl VIRTIO0 VIRTIO0 PGSIZE (Z.lor PTE_R PTE_W) ;;
  kvmmap kpgtbl PLIC PLIC 4194304 (Z.lor PTE_R PTE_W) ;;
  kvmmap kpgtbl KERNBASE KERNBASE (etext - KERNBASE) (Z.lor PTE_R PTE_X) ;;
  kvmmap kpgtbl etext etext (PHYSTOP - etext) (Z.lor PTE_R PTE_W) ;;
  kvmmap kpgtbl TRAMPOLINE trampoline PGSIZE (Z.lor PTE_R PTE_X) ;;
  proc_mapstacks kpgtbl ;;
  ret kpgtbl.

(** Every round advances [a] by a page at least. *)
Fixpoint uvmunmap_loop (fuel : nat) (pagetable a bound : Z) (do_free : bool) : M kst unit :=
  if negb (a <? bound) then ret tt else
  match fuel with
  | O => stuck "uvmunmap: out of fuel"
  | S fuel' =>
      pgtbl_l1 <- walk_to_level pagetable a 1 ;;
      if pgtbl_l1 =? 0 then
        uvmunmap_loop fuel' pagetable (PGROUNDDOWN_2M a + PGSIZE_2M) bound do_free
      else
      let pte_l1 := pte_addr pgtbl_l1 1 a in
      e1 <- rd pte_l1 ;;
      if has e1 PTE_V && has e1 PTE_RWX then
        when do_free (kfree_huge (PTE2PA e1)) ;;
        wr pte_l1 0 ;;
        uvmunmap_loop fuel' pagetable (PGROUNDDOWN_2M a + PGSIZE_2M) bound do_free
      else
      pte <- walk pagetable a false ;;
      if pte =? 0 then uvmunmap_loop fuel' pagetable (a + PGSIZE) bound do_free else
      e <- rd pte ;;
      if negb (has e PTE_V) then uvmunmap_loop fuel' pagetable (a + PGSIZE) bound do_free else
      if PTE_FLAGS e =? PTE_V then panic "uvmunmap: not a leaf" else
      when do_free (kfree (PTE2PA e)) ;;
      wr pte 0 ;;
      uvmunmap_loop fuel' pagetable (a + PGSIZE) bound do_free
  end.

Definition uvmunmap (pagetable va npages : Z) (do_free : bool) : M kst unit :=
  if negb (va mod PGSIZE =? 0) then panic "uvmunmap: not aligned" else
  uvmunmap_loop (Z.to_nat npages) pagetable va (u64 (va + npages * PGSIZE)) do_free.

(** The initial user program, [sz] bytes at [src]. *)
Definition uvmfirst (pagetable src sz : Z) : M kst unit :=
  if PGSIZE <=? sz then panic "uvmfirst: more than a page" else
  mem <- kalloc ;;
  zero_page mem ;;
  mappages pagetable 0 PGSIZE mem (Z.lor (Z.lor (Z.lor PTE_W PTE_R) PTE_X) PTE_U) ;;
  modify (set_ram (fun m => copy m mem src sz)).

Definition uvmdealloc (pagetable oldsz newsz : Z) : M kst Z :=
  if oldsz <=? newsz then ret oldsz else
  when (PGROUNDUP newsz <? PGROUNDUP oldsz)
    (let npages := i32 ((PGROUNDUP oldsz - PGROUNDUP newsz) / PGSIZE) in
     uvmunmap pagetable (PGROUNDUP newsz) npages true) ;;
  ret newsz.

(** The loops of uvmalloc return the address they reached, and whether an
    allocation or a mapping failed there ([goto error]). *)
Fixpoint uvmalloc_pages (fuel : nat) (pagetable a bound xperm : Z) (to_2M : bool) :
    M kst (Z * bool) :=
  if negb ((a <? bound) && (negb to_2M || negb (a mod PGSIZE_2M =? 0))) then ret (a, true) else
  match fuel with
  | O => stuck "uvmalloc: out of fuel"
  | S fuel' =>
      mem <- kalloc ;;
      if mem =? 0 then ret (a, false) else
      zero_page mem ;;
      r <- mappages pagetable a PGSIZE mem (Z.lor (Z.lor PTE_R PTE_U) xperm) ;;
      if negb (r =? 0) then kfree mem ;; ret (a, false)
      else uvmalloc_pages fuel' pagetable (a + PGSIZE) bound xperm to_2M
  end.

Fixpoint uvmalloc_huge (fuel : nat) (pagetable a bound xperm : Z) : M kst (Z * bool) :=
  if negb (a + PGSIZE_2M <=? bound) then ret (a, true) else
  match fuel with
  | O => stuck "uvmalloc: out of fuel"
  | S fuel' =>
      mem <- kalloc_huge ;;
      if mem =? 0 then ret (a, false) else
      r <- mappages pagetable a PGSIZE_2M mem (Z.lor (Z.lor PTE_R PTE_U) xperm) ;;
      if negb (r =? 0) then kfree_huge mem ;; ret (a, false)
      else uvmalloc_huge fuel' pagetable (a + PGSIZE_2M) bound xperm
  end.

Definition uvmalloc (pagetable oldsz newsz xperm : Z) : M kst Z :=
  if newsz <? oldsz then ret oldsz else
  let bound := PGROUNDUP newsz in
  let fuel := Z.to_nat (bound / PGSIZE) in
  let error a := (uvmdealloc pagetable a oldsz ;; ret 0) in
  r1 <- uvmalloc_pages fuel pagetable (PGROUNDUP oldsz) bound xperm true ;;
  if negb (snd r1) then error (fst r1) else
  r2 <- uvmalloc_huge fuel pagetable (fst r1) bound xperm ;;
  if negb (snd r2) then error (fst r2) else
  r3 <- uvmalloc_pages fuel pagetable (fst r2) bound xperm false ;;
  if negb (snd r3) then error (fst r3) else
  ret newsz.

(** Three levels: the entries of a level-0 table are never followed, because a
    valid entry there is a leaf. *)
Fixpoint freewalk (levels : nat) (pagetable : Z) : M kst unit :=
  match levels with
  | O => stuck "freewalk: a valid non-leaf entry below level 0"
  | S levels' =>
      for_each (seqZ 0 512) (fun i =>
        pte <- rd (pagetable + 8 * i) ;;
        when (has pte PTE_V && negb (has pte PTE_RWX))
          (freewalk levels' (PTE2PA pte) ;; wr (pagetable + 8 * i) 0)) ;;
      kfree pagetable
  end.

Definition uvmfree (pagetable sz : Z) : M kst unit :=
  when (0 <? sz) (uvmunmap pagetable 0 (PGROUNDUP sz / PGSIZE) true) ;;
  freewalk 3 pagetable.

(** The loop of uvmcopy from address [i]; [Some i] is the [goto err] at [i]. *)
Fixpoint uvmcopy_loop (fuel : nat) (old new i sz : Z) : M kst (option Z) :=
  if negb (i <? sz) then ret None else
  match fuel with
  | O => stuck "uvmcopy: out of fuel"
  | S fuel' =>
      pte <- walk old i false ;;
      if pte =? 0 then panic "uvmcopy: pte should exist" else
      e <- rd pte ;;
      if negb (has e PTE_V) then panic "uvmcopy: page not present" else
      let pa := PTE2PA e in
      let writable := has (PTE_FLAGS e) PTE_W in
      let flags := if writable
                   then Z.lor (Z.land (PTE_FLAGS e) (Z.lnot PTE_W)) PTE_COW
                   else PTE_FLAGS e in
      when writable (wr pte (Z.lor (Z.land e (Z.lnot PTE_W)) PTE_COW)) ;;
      inc_ref pa ;;
      r <- mappages new i PGSIZE pa flags ;;
      if negb (r =? 0) then kfree pa ;; ret (Some i)
      else uvmcopy_loop fuel' old new (i + PGSIZE) sz
  end.

Definition uvmcopy (old new sz : Z) : M kst Z :=
  r <- uvmcopy_loop (Z.to_nat (PGROUNDUP sz / PGSIZE)) old new 0 sz ;;
  match r with
  | None => ret 0
  | Some i => uvmunmap new 0 (i / PGSIZE) true ;; ret (-1)
  end.

(** trap.c: the part of usertrap that handles a store page fault at [va]; true
    when it kills the process. *)
Definition store_fault (pagetable va : Z) : M kst bool :=
  if MAXVA <=? va then ret true else
  pte <- walk pagetable va false ;;
  if pte =? 0 then ret true else
  e <- rd pte ;;
  if negb (has e PTE_V) || negb (has e PTE_U) then ret true else
  if negb (has e PTE_COW) then ret true else
  let pa := PTE2PA e in
  let flags := PTE_FLAGS e in
  refs <- get_ref pa ;;
  if 1 <? refs then
    mem <- kalloc ;;
    if mem =? 0 then ret true else
    modify (set_ram (fun m => copy m mem pa PGSIZE)) ;;
    uvmunmap pagetable (PGROUNDDOWN va) 1 true ;;
    r <- mappages pagetable (PGROUNDDOWN va) PGSIZE mem
           (Z.lor (Z.land flags (Z.lnot PTE_COW)) PTE_W) ;;
    if negb (r =? 0) then kfree mem ;; ret true else ret false
  else
    e <- rd pte ;;
    wr pte (Z.lor (Z.land e (Z.lnot PTE_COW)) PTE_W) ;;
    ret false.
End image.

Definition uvmclear (pagetable va : Z) : M kst unit :=
  pte <- walk pagetable va false ;;
  if pte =? 0 then panic "uvmclear" else
  e <- rd pte ;;
  wr pte (Z.land e (Z.lnot PTE_U)).

(** ** Copying between kernel and user memory

    Each round of the loops below ends on a page boundary, so
    [len / PGSIZE + 2] rounds copy [len] bytes. *)
Definition copy_fuel (len : Z) : nat := Z.to_nat (len / PGSIZE + 2).

Fixpoint copyout_loop (fuel : nat) (pagetable dstva src len : Z) : M kst Z :=
  if negb (0 <? len) then ret 0 else
  match fuel with
  | O => stuck "copyout: out of fuel"
  | S fuel' =>
      let va0 := PGROUNDDOWN dstva in
      if MAXVA <=? va0 then ret (-1) else
      pte <- walk pagetable va0 false ;;
      if pte =? 0 then ret (-1) else
      e <- rd pte ;;
      if negb (has e PTE_V) || negb (has e PTE_U) || negb (has e PTE_W) then ret (-1) else
      let pa0 := PTE2PA e in
      let n := Z.min (PGSIZE - (dstva - va0)) len in
      modify (set_ram (fun m => copy m (pa0 + (dstva - va0)) src n)) ;;
      copyout_loop fuel' pagetable (va0 + PGSIZE) (src + n) (len - n)
  end.
Definition copyout (pagetable dstva src len : Z) : M kst Z :=
  copyout_loop (copy_fuel len) pagetable dstva src len.

Fixpoint copyin_loop (fuel : nat) (pagetable dst srcva len : Z) : M kst Z :=
  if negb (0 <? len) then ret 0 else
  match fuel with
  | O => stuck "copyin: out of fuel"
  | S fuel' =>
      let va0 := PGROUNDDOWN srcva in
      pa0 <- walkaddr pagetable va0 ;;
      if pa0 =? 0 then ret (-1) else
      let n := Z.min (PGSIZE - (srcva - va0)) len in
      modify (set_ram (fun m => copy m dst (pa0 + (srcva - va0)) n)) ;;
      copyin_loop fuel' pagetable (dst + n) (va0 + PGSIZE) (len - n)
  end.
Definition copyin (pagetable dst srcva len : Z) : M kst Z :=
  copyin_loop (copy_fuel len) pagetable dst srcva len.

(** The inner loop of copyinstr: copies up to [n] bytes; the bytes copied and
    whether it stopped at a NUL. *)
Fixpoint copyinstr_page (n : nat) (m : mem) (dst p : Z) : mem * nat * bool :=
  match n with
  | O => (m, O, false)
  | S n' =>
      if u8 (m p) =? 0 then (upd m dst 0, O, true)
      else let '(m', k, got) := copyinstr_page n' (upd m dst (m p)) (dst + 1) (p + 1) in
           (m', S k, got)
  end.

Fixpoint copyinstr_loop (fuel : nat) (pagetable dst srcva max : Z) : M kst Z :=
  if negb (0 <? max) then ret (-1) else
  match fuel with
  | O => stuck "copyinstr: out of fuel"
  | S fuel' =>
      let va0 := PGROUNDDOWN srcva in
      pa0 <- walkaddr pagetable va0 ;;
      if pa0 =? 0 then ret (-1) else
      let n := Z.min (PGSIZE - (srcva - va0)) max in
      m <- gets ram ;;
      let '(m', k, got_null) := copyinstr_page (Z.to_nat n) m dst (pa0 + (srcva - va0)) in
      modify (set_ram (fun _ => m')) ;;
      if (got_null : bool) then ret 0
      else copyinstr_loop fuel' pagetable (dst + Z.of_nat k) (va0 + PGSIZE) (max - Z.of_nat k)
  end.
Definition copyinstr (pagetable dst srcva max : Z) : M kst Z :=
  copyinstr_loop (copy_fuel max) pagetable dst srcva max.

(** ** The page-table walk of the hardware (Sv39)

    A valid entry with none of R, W, X set points to the next level; any other
    valid entry is a leaf, and maps 4096 bytes, 2 megabytes or 1 gigabyte
    depending on its level. *)
Definition leaf (l : nat) (e : Z) : option (Z * nat) :=
  if has e PTE_V && has e PTE_RWX then Some (e, l) else None.

Fixpoint hw_walk (level : nat) (m : mem) (pt va : Z) : option (Z * nat) :=
  let e := load64 m (pte_addr pt (Z.of_nat level) va) in
  match level with
  | O => leaf 0 e
  | S level' =>
      if has e PTE_V && negb (has e PTE_RWX) then hw_walk level' m (PTE2PA e) va
      else leaf level e
  end.

(** The physical address and the flags a virtual address is mapped to; a leaf
    above level 0 whose address is not aligned to its size faults. *)
Definition leaf_pa (va : Z) (el : Z * nat) : option (Z * Z) :=
  let size := 2 ^ (12 + 9 * Z.of_nat (snd el)) in
  if PTE2PA (fst el) mod size =? 0
  then Some (PTE2PA (fst el) + va mod size, PTE_FLAGS (fst el)) else None.
Definition translate (m : mem) (root va : Z) : option (Z * Z) :=
  match hw_walk 2 m root va with Some el => leaf_pa va el | None => None end.

(** ** The footprint of a page table

    A table is named by the path to it; [T] gives the physical page of each. *)
Inductive key : Type := Root | K1 (i2 : Z) | K0 (i2 i1 : Z).
#[export] Instance key_eq_dec : EqDecision key.
Proof. solve_decision. Defined.
#[export] Instance key_countable : Countable key.
Proof.
  refine (inj_countable'
    (fun k => match k with Root => inl tt | K1 i => inr (inl i) | K0 i j => inr (inr (i, j)) end)
    (fun x : unit + (Z + Z * Z) =>
       match x with inl _ => Root | inr (inl i) => K1 i | inr (inr (i, j)) => K0 i j end) _).
  by intros [].
Defined.

Definition child (k : key) (i : Z) : option key :=
  match k with Root => Some (K1 i) | K1 i2 => Some (K0 i2 i) | K0 _ _ => None end.

(** An entry that does not point to a lower table. *)
Definition no_link (k : key) (e : Z) : Prop :=
  has e PTE_V = false \/ (k <> Root /\ has e PTE_RWX = true).

Section footprint.
Context {I : KernelImage}.

(** Every table has a page of its own; the entries of the upper levels point to
    the tables of the footprint, and to no others; valid entries of the lowest
    level are leaves. *)
Record pt_wf (m : mem) (T : gmap key Z) (root : Z) : Prop := {
  wf_root : T !! Root = Some root;
  wf_page : forall k a, T !! k = Some a -> page_ok a;
  wf_inj : forall k k' a, T !! k = Some a -> T !! k' = Some a -> k = k';
  wf_up : forall i j a, T !! K0 i j = Some a -> is_Some (T !! K1 i);
  wf_link : forall k a i c, T !! k = Some a -> 0 <= i < 512 -> child k i = Some c ->
    match T !! c with
    | Some b => load64 m (a + 8 * i) = mkpte b PTE_V
    | None => no_link k (load64 m (a + 8 * i))
    end;
  wf_leaf : forall k a i, T !! k = Some a -> 0 <= i < 512 -> child k i = None ->
    no_link k (load64 m (a + 8 * i))
}.

(** The walk, through the footprint. *)
Definition abs_walk (m : mem) (T : gmap key Z) (va : Z) : option (Z * nat) :=
  match T !! K1 (PX 2 va) with
  | None => None
  | Some t1 =>
      match T !! K0 (PX 2 va) (PX 1 va) with
      | Some t0 => leaf 0 (load64 m (pte_addr t0 0 va))
      | None => leaf 1 (load64 m (pte_addr t1 1 va))
      end
  end.

Definition outside (T : gmap key Z) (x : Z) : Prop :=
  forall k a, T !! k = Some a -> x < a \/ a + 4096 <= x.

(** The allocator's invariant together with one page table: its pages are counted
    once. *)
Record vminv (s : kst) (fl hl : list Z) (T : gmap key Z) (root : Z) : Prop := {
  vm_kinv : kinv s fl hl;
  vm_wf : pt_wf (ram s) T root;
  vm_ref : forall k a, T !! k = Some a -> ref_at s (ref_idx a) = 1
}.

(** What an operation that may add tables, with names in [P], does besides
    changing entries: free pages become tables, and memory that is neither free
    nor part of the page table is not written. *)
Record grown (s s' : kst) (fl fl' hl : list Z) (T T' : gmap key Z) (root : Z) (P : key -> Prop) :
    Prop := {
  gr_inv : vminv s' fl' hl T' root;
  gr_used : exists used, fl = used ++ fl' /\
    forall k a, T' !! k = Some a -> T !! k = Some a \/ (T !! k = None /\ P k /\ a ∈ used);
  gr_sub : T ⊆ T';
  gr_frame : forall x, live fl hl x -> outside T x -> ram s' x = ram s x;
  gr_refs : forall p, page_ok p -> p ∉ fl -> ref_at s' (ref_idx p) = ref_at s (ref_idx p)
}.

(** The tables on the way to the pages of [a, b]. *)
Definition on_path (a b : Z) (k : key) : Prop :=
  exists v, a <= v <= b /\ (k = K1 (PX 2 v) \/ k = K0 (PX 2 v) (PX 1 v)).
End footprint.

(** ** Entries and indices *)
Lemma has_flags pte b : 0 <= b < 1024 -> has pte b = has (PTE_FLAGS pte) b.
Proof. intros. unfold has. by rewrite land_PTE_FLAGS. Qed.

Lemma PX_page v w : 0 <= v < MAXVA -> 0 <= w < MAXVA ->
  PX 2 v = PX 2 w -> PX 1 v = PX 1 w -> PX 0 v = PX 0 w -> v / 4096 = w / 4096.
Proof. intros ??. rewrite !PX_spec by lia. unconst. dlia. Qed.
Lemma PX_huge v w : 0 <= v < MAXVA -> 0 <= w < MAXVA ->
  PX 2 v = PX 2 w -> PX 1 v = PX 1 w -> v / 2097152 = w / 2097152.
Proof. intros ??. rewrite !PX_spec by lia. unconst. dlia. Qed.
Lemma PX_of_page v w l : 0 <= l -> v / 4096 = w / 4096 -> PX l v = PX l w.
Proof.
  intros Hl E. rewrite !PX_spec by lia. rewrite Z.pow_add_r by lia. change (2 ^ 12) with 4096.
  rewrite <- !Z.div_div by lia. by rewrite E.
Qed.
Lemma PX_of_huge v w l : 1 <= l -> v / 2097152 = w / 2097152 -> PX l v = PX l w.
Proof.
  intros Hl E. rewrite !PX_spec by lia. replace (12 + 9 * l) with (21 + 9 * (l - 1)) by lia.
  rewrite Z.pow_add_r by lia. change (2 ^ 21) with 2097152.
  rewrite <- !Z.div_div by lia. by rewrite E.
Qed.
