(* ===== verification/PageTable.v ===== *)
(** Page tables: what walk, walk_to_level and mappages do to the translation the
    hardware performs.  The lemmas go through the footprint of the page table
    ([pt_wf], [abs_walk]): one entry is written at a time, a new table is linked
    in, and the translation changes exactly where it should. *)

From S2P Require Import Prelude Mem Riscv Spinlock Kalloc Vm.

Section tables.
Context {I : KernelImage} {HI : ImageOk I}.

Lemma page_ok_pte p f : page_ok p -> 0 <= f < 1024 ->
  0 <= mkpte p f < 2 ^ 64 /\ PTE2PA (mkpte p f) = p /\ PTE_FLAGS (mkpte p f) = f.
Proof.
  intros Hp Hf. pose proof (page_ok_range p Hp). unfold page_ok in Hp. split; [|split].
  - apply mkpte_range; clia.
  - apply PTE2PA_mkpte; clia.
  - apply PTE_FLAGS_mkpte; clia.
Qed.

(** A link: valid, not a leaf, and it leads to the table. *)
Lemma link_pte p :
  page_ok p -> has (mkpte p PTE_V) PTE_V = true /\ has (mkpte p PTE_V) PTE_RWX = false /\
  PTE2PA (mkpte p PTE_V) = p.
Proof.
  intros Hp. destruct (page_ok_pte p PTE_V Hp) as (_ & H2 & H3); [clia|].
  rewrite !(has_flags (mkpte p PTE_V)), H3 by (unfold PTE_RWX; clia). done.
Qed.

Lemma no_link_leaf k e : no_link k e -> has e PTE_V && negb (has e PTE_RWX) = false.
Proof. intros [->|[_ ->]]; [done|]. apply andb_false_r. Qed.

Lemma hw_walk_abs m T root va :
  pt_wf m T root -> hw_walk 2 m root va = abs_walk m T va.
Proof.
  intros [Hroot Hpage Hinj Hup Hlink Hleaf]. unfold abs_walk. cbn [hw_walk]. unfold pte_addr.
  change (Z.of_nat 2) with 2. change (Z.of_nat 1) with 1. change (Z.of_nat 0) with 0.
  pose proof (Hlink Root root (PX 2 va) _ Hroot (PX_range _ _) eq_refl) as L2.
  destruct (T !! K1 (PX 2 va)) as [t1|] eqn:E1.
  - destruct (link_pte t1) as (V & L & A); [eauto|]. rewrite L2, V, L, A. simpl andb. cbv iota.
    pose proof (Hlink (K1 _) t1 (PX 1 va) _ E1 (PX_range _ _) eq_refl) as L1.
    destruct (T !! K0 _ _) as [t0|] eqn:E0.
    + destruct (link_pte t0) as (V' & L' & A'); [eauto|]. by rewrite L1, V', L', A'.
    + by rewrite (no_link_leaf _ _ L1).
  - rewrite (no_link_leaf _ _ L2). destruct L2 as [L2|[? _]]; [|done].
    unfold leaf. by rewrite L2.
Qed.

Lemma translate_abs m T root va :
  pt_wf m T root ->
  translate m root va = match abs_walk m T va with Some el => leaf_pa va el | None => None end.
Proof. intros. unfold translate. by erewrite hw_walk_abs. Qed.

(** Two entries of a page table are the same or do not overlap. *)
Lemma entry_sep m T root k k' a a' i i' :
  pt_wf m T root -> T !! k = Some a -> T !! k' = Some a' -> 0 <= i < 512 -> 0 <= i' < 512 ->
  (k, i) <> (k', i') -> a' + 8 * i' + 8 <= a + 8 * i \/ a + 8 * i + 8 <= a' + 8 * i'.
Proof.
  intros [Hroot Hpage Hinj Hup Hlink Hleaf] E E' Hi Hi' Hne. destruct (decide (k = k')) as [->|Hk].
  - rewrite E in E'. simplify_eq. assert (i <> i') by congruence. lia.
  - assert (a <> a') by naive_solver.
    pose proof (page_disjoint a a' (Hpage _ _ E) (Hpage _ _ E')). lia.
Qed.

(** The entries of the tables of [T] are the same in [m'], except [i] of [k]. *)
Definition same_but (m m' : mem) (T : gmap key Z) (k : key) (i : Z) : Prop :=
  forall k' a' i', T !! k' = Some a' -> 0 <= i' < 512 -> (k', i') <> (k, i) ->
    load64 m' (a' + 8 * i') = load64 m (a' + 8 * i').

Lemma store_same_but m T root k a i v :
  pt_wf m T root -> T !! k = Some a -> 0 <= i < 512 ->
  same_but m (store64 m (a + 8 * i) v) T k i.
Proof.
  intros W E Hi k' a' i' E' Hi' Hne. apply load64_ne.
  pose proof (entry_sep m T root k k' a a' i i' W E E' Hi Hi'). naive_solver.
Qed.

(** Writing an entry that is no link, where no table hangs, keeps the shape. *)
Lemma wf_set m m' T root k a i :
  pt_wf m T root -> T !! k = Some a -> same_but m m' T k i ->
  (forall c, child k i = Some c -> T !! c = None) -> no_link k (load64 m' (a + 8 * i)) ->
  pt_wf m' T root.
Proof.
  intros [Hroot Hpage Hinj Hup Hlink Hleaf] E HS HC HN. split; try done.
  - intros k' a' i' c E' Hi' Hc. destruct (decide ((k', i') = (k, i))) as [Heq|Hne].
    + simplify_eq. by rewrite (HC _ Hc).
    + rewrite (HS _ _ _ E' Hi' Hne). by apply Hlink.
  - intros k' a' i' E' Hi' Hc. destruct (decide ((k', i') = (k, i))) as [Heq|Hne].
    + by simplify_eq.
    + rewrite (HS _ _ _ E' Hi' Hne). by apply Hleaf.
Qed.

Lemma wf_ext m m' T root :
  pt_wf m T root -> (forall x, ~ outside T x -> m' x = m x) -> pt_wf m' T root.
Proof.
  intros [Hroot Hpage Hinj Hup Hlink Hleaf] HE.
  assert (Hsame : forall k a i, T !! k = Some a -> 0 <= i < 512 ->
            load64 m' (a + 8 * i) = load64 m (a + 8 * i)).
  { intros k a i E Hi. apply load64_ext. intros x Hx. apply HE. intros Ho. specialize (Ho _ _ E). lia. }
  split; try done.
  - intros k a i c E Hi Hc. rewrite (Hsame _ _ _ E Hi). by apply Hlink.
  - intros k a i E Hi Hc. rewrite (Hsame _ _ _ E Hi). by apply Hleaf.
Qed.

(** Hanging a new empty table at an invalid entry. *)
Lemma wf_new m m' T root k a i c p :
  pt_wf m T root -> T !! k = Some a -> 0 <= i < 512 -> child k i = Some c -> T !! c = None ->
  page_ok p -> (forall k' a', T !! k' = Some a' -> a' <> p) ->
  same_but m m' T k i -> load64 m' (a + 8 * i) = mkpte p PTE_V ->
  (forall j, 0 <= j < 512 -> load64 m' (p + 8 * j) = 0) ->
  pt_wf m' (<[c := p]> T) root.
Proof.
  intros W E Hi Hc Hn Hp Hfresh HS HL HZ. pose proof W as [Hroot Hpage Hinj Hup Hlink Hleaf].
  assert (Hck : c <> Root /\ forall c' i', child c i' = Some c' -> T !! c' = None).
  { destruct k; simplify_eq/=; (split; [done|]); intros c' i' Hc'; simplify_eq/=.
    destruct (T !! K0 _ _) eqn:Ek; [|done]. apply Hup in Ek as [? Ek]. congruence. }
  destruct Hck as [Hcr Hcc]. split.
  - by rewrite lookup_insert_ne.
  - intros k' a' [[<- <-]|[_ E']]%lookup_insert_Some; [done|eauto].
  - intros k1 k2 a1 [[<- <-]|[Hn1 E1]]%lookup_insert_Some
      [[<- E2]|[Hn2 E2]]%lookup_insert_Some; naive_solver.
  - intros i1 j1 a1. rewrite !lookup_insert_is_Some.
    intros [[-> <-]|[_ E1]]%lookup_insert_Some.
    + destruct k; simplify_eq/=. right. by rewrite E.
    + destruct (Hup _ _ _ E1). destruct (decide (c = K1 i1)); [by left|right; eauto].
  - intros k' a' i' c' [[<- <-]|[Hne E']]%lookup_insert_Some Hi' Hc'.
    + rewrite lookup_insert_ne by (intros <-; destruct c; simplify_eq/=).
      rewrite (Hcc _ _ Hc'). left. by rewrite HZ.
    + destruct (decide ((k', i') = (k, i))) as [|Hne'].
      * simplify_eq. by rewrite lookup_insert_eq.
      * rewrite (HS _ _ _ E' Hi' Hne'), lookup_insert_ne; [by apply Hlink|].
        intros <-. apply Hne'. destruct k, k'; simplify_eq/=; done.
  - intros k' a' i' [[<- <-]|[Hne E']]%lookup_insert_Some Hi' Hc'.
    + left. by rewrite HZ.
    + rewrite (HS _ _ _ E' Hi'); [by apply Hleaf|]. intros [= -> ->]. congruence.
Qed.

(** ** What a write does to the walk *)
Lemma leaf_zero l : leaf l 0 = None.
Proof. done. Qed.

Lemma abs_walk_set0 m m' T root t0 va v :
  pt_wf m T root -> T !! K0 (PX 2 va) (PX 1 va) = Some t0 ->
  same_but m m' T (K0 (PX 2 va) (PX 1 va)) (PX 0 va) ->
  0 <= va < MAXVA -> 0 <= v < MAXVA ->
  abs_walk m' T v =
  if decide (v / 4096 = va / 4096) then leaf 0 (load64 m' (pte_addr t0 0 va)) else abs_walk m T v.
Proof.
  intros W E HS Hva Hv. pose proof W as [_ _ _ Hup _ _].
  unfold abs_walk, pte_addr. case_decide as Hd.
  - rewrite !(PX_of_page v va) by (done || lia). destruct (Hup _ _ _ E) as [t1 ->]. by rewrite E.
  - destruct (T !! K1 _) as [t1|] eqn:E1; [|done].
    destruct (T !! K0 _ (PX 1 v)) as [t|] eqn:E0.
    + rewrite (HS _ t (PX 0 v) E0 (PX_range _ _)); [done|].
      intros [= H2 H1 H0]. by apply Hd, PX_page.
    + rewrite (HS _ t1 (PX 1 v) E1 (PX_range _ _)); [done|]. by intros [=].
Qed.

Lemma abs_walk_set1 m m' T root t1 va v :
  pt_wf m T root -> T !! K1 (PX 2 va) = Some t1 -> T !! K0 (PX 2 va) (PX 1 va) = None ->
  same_but m m' T (K1 (PX 2 va)) (PX 1 va) ->
  0 <= va < MAXVA -> 0 <= v < MAXVA ->
  abs_walk m' T v =
  if decide (v / 2097152 = va / 2097152) then leaf 1 (load64 m' (pte_addr t1 1 va))
  else abs_walk m T v.
Proof.
  intros W E E0 HS Hva Hv. unfold abs_walk, pte_addr. case_decide as Hd.
  - rewrite !(PX_of_huge v va) by (done || lia). by rewrite E, E0.
  - destruct (T !! K1 (PX 2 v)) as [t|] eqn:E1; [|done].
    destruct (T !! K0 _ (PX 1 v)) as [t0|] eqn:E2.
    + rewrite (HS _ t0 (PX 0 v) E2 (PX_range _ _)); [done|]. by intros [=].
    + rewrite (HS _ t (PX 1 v) E1 (PX_range _ _)); [done|].
      intros [= H2 H1]. by apply Hd, PX_huge.
Qed.

Lemma abs_walk_new m m' T root k a i c p v :
  pt_wf m T root -> T !! k = Some a -> child k i = Some c -> T !! c = None ->
  has (load64 m (a + 8 * i)) PTE_V = false ->
  same_but m m' T k i -> (forall j, 0 <= j < 512 -> load64 m' (p + 8 * j) = 0) ->
  abs_walk m' (<[c := p]> T) v = abs_walk m T v.
Proof.
  intros [_ _ _ Hup _ _] E Hc Hn HV HS HZ. unfold abs_walk, pte_addr.
  destruct k as [|i2|]; simplify_eq/=.
  - destruct (decide (PX 2 v = i)) as [<-|].
    + rewrite Hn, lookup_insert_eq, lookup_insert_ne by done.
      destruct (T !! K0 _ _) eqn:E0; [apply Hup in E0 as [? ?]; congruence|].
      rewrite HZ by apply PX_range. done.
    + rewrite !lookup_insert_ne by congruence.
      destruct (T !! K1 (PX 2 v)) as [t1|] eqn:E1; [|done].
      destruct (T !! K0 (PX 2 v) (PX 1 v)) as [t0|] eqn:E0;
        [rewrite (HS _ _ _ E0 (PX_range 0 v))|rewrite (HS _ _ _ E1 (PX_range 1 v))]; done.
  - rewrite !(lookup_insert_ne _ (K0 i2 i) (K1 _)) by done.
    destruct (decide (PX 2 v = i2 /\ PX 1 v = i)) as [[<- <-]|Hd].
    + rewrite lookup_insert_eq, Hn, E, HZ by apply PX_range. unfold leaf. by rewrite HV.
    + rewrite lookup_insert_ne by (intros [=]; naive_solver).
      destruct (T !! K1 (PX 2 v)) as [t1|] eqn:E1; [|done].
      destruct (T !! K0 (PX 2 v) (PX 1 v)) as [t0|] eqn:E0;
        [by rewrite (HS _ _ _ E0 (PX_range 0 v))|rewrite (HS _ _ _ E1 (PX_range 1 v)); [done|]].
      intros [= ??]; naive_solver.
Qed.

(** ** Tables and the allocator *)
Lemma live_page s fl hl p x :
  kinv s fl hl -> page_ok p -> live fl hl p -> p <= x < p + 4096 -> live fl hl x.
Proof.
  intros K Hp [Hf Hh] Hx. pose proof (kinv_pages _ _ _ K) as Hfl. pose proof (kinv_huges _ _ _ K) as Hhl.
  rewrite Forall_forall in Hfl. rewrite Forall_forall in Hhl. split.
  - intros y Hy. specialize (Hf _ Hy). specialize (Hfl _ Hy). unfold page_ok in *. dlia.
  - intros y Hy. specialize (Hh _ Hy). specialize (Hhl _ Hy). unfold page_ok, huge_ok in *. dlia.
Qed.

Lemma counted_live s fl hl p x :
  kinv s fl hl -> page_ok p -> ref_at s (ref_idx p) <> 0 -> p <= x < p + 4096 -> live fl hl x.
Proof. intros. eapply live_page; eauto using kinv_counted_live. Qed.

Lemma table_live s fl hl T root k a x :
  vminv s fl hl T root -> T !! k = Some a -> a <= x < a + 4096 -> live fl hl x.
Proof.
  intros [K W HR] E Hx. eapply counted_live; [done|by eapply W| |done]. rewrite (HR _ _ E). lia.
Qed.

Lemma live_app used fl hl x : live (used ++ fl) hl x -> live fl hl x.
Proof. intros [Hf Hh]. split; [|done]. intros y Hy. apply Hf. set_solver. Qed.

Lemma free_not_live fl hl p : p ∈ fl -> ~ live fl hl p.
Proof. intros Hp [Hf _]. specialize (Hf _ Hp). lia. Qed.

Lemma grown_refl s fl hl T root P : vminv s fl hl T root -> grown s s fl fl hl T T root P.
Proof. intros V. split; try done. exists []. split; [done|]. eauto. Qed.

Lemma grown_trans s s1 s2 fl fl1 fl2 hl T T1 T2 root P :
  grown s s1 fl fl1 hl T T1 root P -> grown s1 s2 fl1 fl2 hl T1 T2 root P ->
  grown s s2 fl fl2 hl T T2 root P.
Proof.
  intros [V1 [u1 [-> U1]] S1 F1 R1] [V2 [u2 [-> U2]] S2 F2 R2]. split; [done|..].
  - exists (u1 ++ u2). rewrite app_assoc. split; [done|]. intros k a E2.
    destruct (U2 _ _ E2) as [E1|(N1 & HP & Hu)].
    + destruct (U1 _ _ E1) as [|(?&?&?)]; [by left|right; set_solver].
    + right. split_and!; [|done|set_solver].
      destruct (T !! k) eqn:E; [|done]. pose proof (lookup_weaken _ _ _ _ E S1). congruence.
  - by etransitivity.
  - intros x Hl Ho. rewrite F2, F1; [done..|by eapply live_app|].
    intros k a E1. destruct (U1 _ _ E1) as [E|(_&_&Hu)]; [eauto|].
    destruct Hl as [Hl _]. apply Hl. set_solver.
  - intros p Hp Hn. rewrite R2, R1; [done..|set_solver].
Qed.

Lemma grown_weaken s s' fl fl' hl T T' root (P Q : key -> Prop) :
  grown s s' fl fl' hl T T' root P -> (forall k, P k -> Q k) -> grown s s' fl fl' hl T T' root Q.
Proof. intros [? [u [-> U]]] ?. split; try done. exists u. split; [done|]. intros k a E. naive_solver. Qed.

Lemma vminv_ram s fl hl T root f :
  vminv s fl hl T root ->
  (forall x, f (ram s) x <> ram s x -> live fl hl x) -> pt_wf (f (ram s)) T root ->
  vminv (set_ram f s) fl hl T root.
Proof. intros [K W HR] Hl W'. split; [|done|done]. apply kinv_ram; [done|]. by apply live_load64. Qed.

(** A write to an entry of the page table. *)
Lemma grown_wr s fl hl T root k a i v P :
  vminv s fl hl T root -> T !! k = Some a -> 0 <= i < 512 ->
  pt_wf (store64 (ram s) (a + 8 * i) v) T root ->
  grown s (set_ram (fun m => store64 m (a + 8 * i) v) s) fl fl hl T T root P.
Proof.
  intros V E Hi W. split.
  - apply vminv_ram; [done| |done]. intros x Hx. eapply table_live; [done..|].
    destruct (decide (a + 8 * i <= x < a + 8 * i + 8)); [lia|].
    destruct Hx. apply store64_out. lia.
  - exists []. split; [done|]. auto.
  - done.
  - intros x _ Ho. simpl. apply store64_out. specialize (Ho _ _ E). lia.
  - done.
Qed.

(** The code that allocates a table: it is cleared and linked in, and the
    translation does not change. *)
Lemma alloc_table {A} (z : M kst A) (cont : Z -> M kst A) s p fl hl T root k a i c (P : key -> Prop) :
  vminv s (p :: fl) hl T root -> T !! k = Some a -> 0 <= i < 512 -> child k i = Some c ->
  T !! c = None -> has (load64 (ram s) (a + 8 * i)) PTE_V = false -> P c ->
  exists s', (p' <- kalloc ;; if p' =? 0 then z else
              zero_page p' ;; wr (a + 8 * i) (Z.lor (PA2PTE p') PTE_V) ;; cont p') s = cont p s' /\
    grown s s' (p :: fl) fl hl T (<[c := p]> T) root P /\
    forall v, abs_walk (ram s') (<[c := p]> T) v = abs_walk (ram s) T v.
Proof.
  intros V E Hi Hc Hn HV HP. pose proof V as [K W HR].
  destruct (kalloc_cons _ _ _ _ K) as (s1 & E1 & K1 & Rp & Ro & Hm).
  pose proof (kinv_head_apart _ _ _ _ K) as (Hp & Hf & Hh).
  pose proof (page_ok_range p Hp) as Hrange. pose proof (wf_page _ _ _ W _ _ E) as Ha.
  set (m' := store64 (fill (ram s1) p PGSIZE 0) (a + 8 * i) (mkpte p PTE_V)).
  exists (set_ram (fun _ => m') s1).
  assert (Hfresh : forall k' a', T !! k' = Some a' -> a' <> p).
  { intros k' a' E' ->. apply (free_not_live (p :: fl) hl p); [set_solver|].
    eapply table_live; [done..|lia]. }
  assert (Hsep : forall k' a', T !! k' = Some a' -> a' + 4096 <= p \/ p + 4096 <= a').
  { intros k' a' E'. apply page_disjoint; [by eapply W|done|by eapply Hfresh]. }
  assert (Hsame : same_but (ram s) m' T k i).
  { intros k' a' i' E' Hi' Hne. unfold m'. specialize (Hsep _ _ E'). unfold PGSIZE.
    rewrite load64_ne by (pose proof (entry_sep _ _ _ k k' a a' i i' W E E' Hi Hi'); naive_solver).
    rewrite Hm, !load64_fill_ne by lia. done. }
  assert (Hzero : forall j, 0 <= j < 512 -> load64 m' (p + 8 * j) = 0).
  { intros j Hj. unfold m', PGSIZE. specialize (Hsep _ _ E).
    rewrite load64_ne, load64_fill_zero by lia. done. }
  assert (Hlink : load64 m' (a + 8 * i) = mkpte p PTE_V).
  { unfold m'. rewrite load64_eq. apply u64_small, page_ok_pte; [done|clia]. }
  assert (Hout : forall x, m' x <> ram s x -> p <= x < p + 4096 \/ a <= x < a + 4096).
  { intros x Hx. destruct (decide (p <= x < p + 4096)), (decide (a <= x < a + 4096)); [lia..|].
    destruct Hx. unfold m', PGSIZE. rewrite store64_out, Hm, !fill_out by lia. done. }
  split; [|split].
  - erewrite bind_ret by done. destruct (Z.eqb_spec p 0); [lia|].
    unfold zero_page, wr. mstep. unfold m', mkpte. done.
  - split; [split| | | |].
    + apply (kinv_ram s1 fl hl (fun _ => m')); [done|].
      apply (live_load64 (ram s1) m' fl hl). intros x Hx.
      assert (Hx' : p <= x < p + 4096 \/ a <= x < a + 4096).
      { destruct (decide (p <= x < p + 4096)); [by left|]. apply Hout. intros Eq. apply Hx.
        rewrite Eq, Hm. symmetry. apply fill_out. lia. }
      destruct Hx' as [Hx'|Hx'].
      * split; [intros y Hy; apply Hf in Hy; lia|intros y Hy; apply Hh in Hy; lia].
      * apply (live_app [p]). by eapply table_live.
    + by eapply wf_new.
    + intros k' a' [[<- <-]|[_ E']]%lookup_insert_Some; [done|].
      change (ref_at s1 (ref_idx a') = 1). rewrite Ro; [by eapply HR|].
      intros Eq. apply ref_idx_inj in Eq; [by eapply Hfresh|by eapply W|done].
    + exists [p]. split; [done|]. intros k' a' [[<- <-]|[_ E']]%lookup_insert_Some; [right|by left].
      split_and!; [done..|set_solver].
    + by apply insert_subseteq.
    + intros x Hl Ho. destruct (decide (m' x = ram s x)) as [|Hx]; [done|].
      apply Hout in Hx as [Hx|Hx]; [|specialize (Ho _ _ E); lia].
      destruct Hl as [Hl _]. specialize (Hl p ltac:(set_solver)). lia.
    + intros q Hq Hnq. change (ref_at s1 (ref_idx q) = ref_at s (ref_idx q)). apply Ro.
      intros Eq. apply ref_idx_inj in Eq; [set_solver|done..].
  - intros v. by eapply abs_walk_new.
Qed.

Lemma alloc_table_empty {A} (z : M kst A) (cont : Z -> M kst A) s hl T root a :
  vminv s [] hl T root ->
  (p' <- kalloc ;; if p' =? 0 then z else
     zero_page p' ;; wr a (Z.lor (PA2PTE p') PTE_V) ;; cont p') s = z (quiet s) /\
  forall P, grown s (quiet s) [] [] hl T T root P.
Proof.
  intros V. pose proof V as [K W HR]. split.
  - erewrite bind_ret by by eapply kalloc_empty. done.
  - intros P. split; try done; [|by exists []; eauto].
    split; [by apply kinv_quiet|done..].
Qed.

(** ** walk and walk_to_level *)
Lemma MAXVA_guard {A} (x y : A) va : va < MAXVA -> (if MAXVA <=? va then x else y) = y.
Proof. intros. destruct (Z.leb_spec MAXVA va); [lia|done]. Qed.

(** Without allocation, walk finds the level-0 entry if its table exists. *)
Lemma walk_lookup s T root va :
  pt_wf (ram s) T root -> va < MAXVA ->
  walk root va false s =
  Ret (match T !! K0 (PX 2 va) (PX 1 va) with Some t0 => pte_addr t0 0 va | None => 0 end) s.
Proof.
  intros W Hva. pose proof W as [Hroot Hpage _ Hup Hlink _]. unfold walk. rewrite MAXVA_guard by done.
  cbn [walk_loop]. change (Z.of_nat 2) with 2. change (Z.of_nat 1) with 1.
  unfold rd, pte_addr. mstep.
  pose proof (Hlink Root root (PX 2 va) _ Hroot (PX_range _ _) eq_refl) as L2.
  destruct (T !! K1 (PX 2 va)) as [t1|] eqn:E1.
  - destruct (link_pte t1) as (V & L & A); [eauto|]. rewrite L2, V, L, A. mstep.
    pose proof (Hlink (K1 _) t1 (PX 1 va) _ E1 (PX_range _ _) eq_refl) as L1.
    destruct (T !! K0 _ _) as [t0|] eqn:E0.
    + destruct (link_pte t0) as (V' & L' & A'); [eauto|]. by rewrite L1, V', L', A'.
    + destruct L1 as [->|[_ ->]]; [done|]. by destruct (has (load64 _ _) PTE_V).
  - destruct (T !! K0 _ _) as [t0|] eqn:E0; [apply Hup in E0 as [??]; congruence|].
    destruct L2 as [->|[? _]]; done.
Qed.

(** Where the tables exist, walk allocates nothing. *)
Lemma walk_found s T root va t0 alloc :
  pt_wf (ram s) T root -> va < MAXVA -> T !! K0 (PX 2 va) (PX 1 va) = Some t0 ->
  walk root va alloc s = Ret (pte_addr t0 0 va) s.
Proof.
  intros W Hva E0. pose proof W as [Hroot Hpage _ Hup Hlink _]. unfold walk. rewrite MAXVA_guard by done.
  cbn [walk_loop]. change (Z.of_nat 2) with 2. change (Z.of_nat 1) with 1.
  unfold rd, pte_addr. mstep. destruct (Hup _ _ _ E0) as [t1 E1].
  pose proof (Hlink Root root (PX 2 va) _ Hroot (PX_range _ _) eq_refl) as L2. rewrite E1 in L2.
  destruct (link_pte t1) as (V & L & A); [eauto|]. rewrite L2, V, L, A. mstep.
  pose proof (Hlink (K1 _) t1 (PX 1 va) _ E1 (PX_range _ _) eq_refl) as L1. rewrite E0 in L1.
  destruct (link_pte t0) as (V' & L' & A'); [eauto|]. by rewrite L1, V', L', A'.
Qed.

Lemma on_path_1 va : on_path va va (K1 (PX 2 va)).
Proof. exists va. split; [lia|by left]. Qed.
Lemma on_path_0 va : on_path va va (K0 (PX 2 va) (PX 1 va)).
Proof. exists va. split; [lia|by right]. Qed.

(** Where nothing is mapped and no table hangs, the level-1 entry is invalid. *)
Lemma unmapped_l1 m T root va t1 :
  pt_wf m T root -> abs_walk m T va = None ->
  T !! K1 (PX 2 va) = Some t1 -> T !! K0 (PX 2 va) (PX 1 va) = None ->
  has (load64 m (pte_addr t1 1 va)) PTE_V = false.
Proof.
  intros W Hun E1 E0. pose proof (wf_link _ _ _ W (K1 _) t1 (PX 1 va) _ E1 (PX_range _ _) eq_refl) as L.
  rewrite E0 in L. unfold abs_walk in Hun. rewrite E1, E0 in Hun. unfold pte_addr, leaf in *.
  destruct L as [|[_ L]]; [done|]. rewrite L in Hun. by destruct (has _ PTE_V).
Qed.

(** The last step of walk: from a level-1 table to the level-0 entry. *)
Lemma walk_loop_1 s fl hl T root va t1 :
  vminv s fl hl T root -> T !! K1 (PX 2 va) = Some t1 ->
  (T !! K0 (PX 2 va) (PX 1 va) = None -> has (load64 (ram s) (pte_addr t1 1 va)) PTE_V = false) ->
  exists r s' fl' T', walk_loop 1 t1 va true s = Ret r s' /\
    grown s s' fl fl' hl T T' root (on_path va va) /\
    (forall v, abs_walk (ram s') T' v = abs_walk (ram s) T v) /\
    ((r = 0 /\ fl' = []) \/ exists t0, T' !! K0 (PX 2 va) (PX 1 va) = Some t0 /\ r = pte_addr t0 0 va).
Proof.
  intros V E1 HV. pose proof V as [_ [_ Hpage _ _ Hlink _] _].
  cbn [walk_loop]. change (Z.of_nat 1) with 1. unfold rd, pte_addr in *. mstep.
  pose proof (Hlink (K1 _) t1 (PX 1 va) _ E1 (PX_range _ _) eq_refl) as L1.
  destruct (T !! K0 _ _) as [t0|] eqn:E0.
  - destruct (link_pte t0) as (V' & L' & A'); [eauto|]. rewrite L1, V', L', A'.
    exists (t0 + 8 * PX 0 va), s, fl, T. split_and!; [done|by apply grown_refl|done|eauto].
  - rewrite (HV eq_refl). cbn [negb]. destruct fl as [|p fl].
    + destruct (alloc_table_empty (ret 0) (fun p' => ret (p' + 8 * PX 0 va)) s hl T root
                  (t1 + 8 * PX 1 va) V) as [-> G].
      exists 0, (quiet s), [], T. split_and!; [done|apply G|done|auto].
    + destruct (alloc_table (ret 0) (fun p' => ret (p' + 8 * PX 0 va)) s p fl hl T root (K1 (PX 2 va))
                  t1 (PX 1 va) (K0 (PX 2 va) (PX 1 va)) (on_path va va))
        as (s' & E & G & HA); try done; [apply PX_range|by apply HV|apply on_path_0|].
      rewrite E. eexists _, s', fl, _. split_and!; [done|done|done|].
      right. exists p. split; [apply lookup_insert_eq|done].
Qed.

(** With allocation, walk gives the level-0 entry of any address that is not
    under a 2-megabyte leaf, unless memory runs out; the translation of every
    address stays the same. *)
Lemma walk_alloc s fl hl T root va :
  vminv s fl hl T root -> va < MAXVA -> abs_walk (ram s) T va = None ->
  exists r s' fl' T', walk root va true s = Ret r s' /\
    grown s s' fl fl' hl T T' root (on_path va va) /\
    (forall v, abs_walk (ram s') T' v = abs_walk (ram s) T v) /\
    ((r = 0 /\ fl' = []) \/ exists t0, T' !! K0 (PX 2 va) (PX 1 va) = Some t0 /\ r = pte_addr t0 0 va).
Proof.
  intros V Hva Hun. pose proof V as [_ [Hroot Hpage _ Hup Hlink _] _].
  unfold walk. rewrite MAXVA_guard by done.
  change (walk_loop 2 root va true) with
    (let pte := pte_addr root 2 va in
     e <- rd pte ;;
     if has e PTE_V then if has e PTE_RWX then ret 0 else walk_loop 1 (PTE2PA e) va true
     else pagetable' <- kalloc ;; if pagetable' =? 0 then ret 0 else
        zero_page pagetable' ;; wr pte (Z.lor (PA2PTE pagetable') PTE_V) ;;
        walk_loop 1 pagetable' va true).
  cbv zeta. unfold rd, pte_addr at 1 2. mstep.
  pose proof (Hlink Root root (PX 2 va) _ Hroot (PX_range _ _) eq_refl) as L2.
  destruct (T !! K1 (PX 2 va)) as [t1|] eqn:E1.
  - destruct (link_pte t1) as (V' & L' & A'); [eauto|]. rewrite L2, V', L', A'.
    apply walk_loop_1; [done..|]. intros E0. eapply unmapped_l1; [apply V|done..].
  - destruct L2 as [L2|[? _]]; [|done]. rewrite L2.
    destruct fl as [|p fl].
    + destruct (alloc_table_empty (ret 0) (fun p' => walk_loop 1 p' va true) s hl T root
                  (root + 8 * PX 2 va) V) as [-> G].
      exists 0, (quiet s), [], T. split_and!; [done|apply G|done|auto].
    + destruct (alloc_table (ret 0) (fun p' => walk_loop 1 p' va true) s p fl hl T root Root
                  root (PX 2 va) (K1 (PX 2 va)) (on_path va va))
        as (s1 & E & G & HA); try done; [apply PX_range|apply on_path_1|].
      rewrite E. destruct (walk_loop_1 s1 fl hl (<[K1 (PX 2 va) := p]> T) root va p)
        as (r & s' & fl' & T' & E' & G' & HA' & HR).
      * apply G.
      * apply lookup_insert_eq.
      * intros E0. apply gr_inv in G as [_ W1 _].
        eapply unmapped_l1; [done|by rewrite HA|apply lookup_insert_eq|done].
      * exists r, s', fl', T'. split_and!; [done|by eapply grown_trans| |done].
        intros v. by rewrite HA', HA.
Qed.

(** Descending to a level-1 table never fails unless memory runs out. *)
Lemma walk_l1 s fl hl T root va :
  vminv s fl hl T root -> va < MAXVA ->
  exists r s' fl' T', walk_to_level root va 1 s = Ret r s' /\
    grown s s' fl fl' hl T T' root (fun k => k = K1 (PX 2 va)) /\
    (forall v, abs_walk (ram s') T' v = abs_walk (ram s) T v) /\
    ((r = 0 /\ fl' = [] /\ T' = T /\ T !! K1 (PX 2 va) = None) \/ T' !! K1 (PX 2 va) = Some r).
Proof.
  intros V Hva. pose proof V as [_ [Hroot Hpage _ Hup Hlink _] _].
  unfold walk_to_level. rewrite MAXVA_guard by done. change (Z.to_nat (2 - 1)) with 1%nat.
  cbn [walk_to_level_loop]. unfold rd, pte_addr. mstep.
  pose proof (Hlink Root root (PX 2 va) _ Hroot (PX_range _ _) eq_refl) as L2.
  destruct (T !! K1 (PX 2 va)) as [t1|] eqn:E1.
  - destruct (link_pte t1) as (V' & L' & A'); [eauto|]. rewrite L2, V', A'.
    exists t1, s, fl, T. split_and!; [done|by apply grown_refl|done|by right].
  - destruct L2 as [L2|[? _]]; [|done]. rewrite L2. destruct fl as [|p fl].
    + destruct (alloc_table_empty (ret 0) (fun p' => ret p') s hl T root
                  (root + 8 * PX 2 va) V) as [-> G].
      exists 0, (quiet s), [], T. split_and!; [done|apply G|done|auto].
    + destruct (alloc_table (ret 0) (fun p' => ret p') s p fl hl T root Root
                  root (PX 2 va) (K1 (PX 2 va)) (fun k => k = K1 (PX 2 va)))
        as (s1 & E & G & HA); try done; [apply PX_range|].
      rewrite E. exists p, s1, fl, (<[K1 (PX 2 va) := p]> T).
      split_and!; [done..|]. right. apply lookup_insert_eq.
Qed.

(** ** Writing leaves *)
Definition leaf_flags (f : Z) : Prop := 0 <= f < 1024 /\ has f PTE_V = true /\ has f PTE_RWX = true.
Definition pte_pa (pa : Z) : Prop := 0 <= pa < 2 ^ 56 /\ pa mod 4096 = 0.

Lemma mkpte_leaf pa f l :
  pte_pa pa -> leaf_flags f ->
  u64 (mkpte pa f) = mkpte pa f /\ leaf l (mkpte pa f) = Some (mkpte pa f, l) /\
  forall k, k <> Root -> no_link k (mkpte pa f).
Proof.
  intros [Hpa Hal] (Hf & HV & HX). assert (PTE_FLAGS (mkpte pa f) = f) as Hfl by by apply PTE_FLAGS_mkpte.
  split; [|split].
  - apply u64_small. by apply mkpte_range.
  - unfold leaf. rewrite !(has_flags (mkpte pa f)), Hfl, HV, HX by (unfold PTE_RWX; clia). done.
  - intros k Hk. right. rewrite (has_flags (mkpte pa f)), Hfl by (unfold PTE_RWX; clia). done.
Qed.

Lemma perm_leaf_flags perm :
  0 <= perm < 1024 -> has perm PTE_RWX = true -> leaf_flags (Z.lor perm PTE_V).
Proof.
  intros Hp HX. split; [by apply lor_V_range|].
  unfold has in *. rewrite !negb_true_iff, !Z.eqb_neq in *.
  rewrite !Z.land_lor_distr_l. split.
  - intros [_ H]%Z.lor_eq_0_iff. done.
  - intros [H _]%Z.lor_eq_0_iff. done.
Qed.

(** A leaf of any content written to the level-0 entry of [va]. *)
Lemma set_leaf0 s fl hl T root va t0 e P :
  vminv s fl hl T root -> 0 <= va < MAXVA -> T !! K0 (PX 2 va) (PX 1 va) = Some t0 ->
  0 <= e < 2 ^ 64 -> has e PTE_V = true -> has e PTE_RWX = true ->
  let s' := set_ram (fun m => store64 m (pte_addr t0 0 va) e) s in
  grown s s' fl fl hl T T root P /\
  forall v, 0 <= v < MAXVA -> abs_walk (ram s') T v =
    if decide (v / 4096 = va / 4096) then Some (e, 0%nat) else abs_walk (ram s) T v.
Proof.
  intros V Hva E He HV HX s'. pose proof V as [_ W _].
  pose proof (store_same_but (ram s) T root _ t0 (PX 0 va) e W E (PX_range _ _)) as HS.
  split.
  - apply (grown_wr s fl hl T root (K0 (PX 2 va) (PX 1 va)) t0 (PX 0 va) e);
      [done|done|apply PX_range|].
    eapply wf_set; [done..|]. rewrite load64_eq, u64_small by done. by right.
  - intros v Hv. erewrite abs_walk_set0 by (apply HS || done). unfold pte_addr, s'. simpl ram.
    rewrite load64_eq, u64_small by done. unfold leaf. by rewrite HV, HX.
Qed.

Lemma map_leaf0 s fl hl T root va t0 pa f P :
  vminv s fl hl T root -> 0 <= va < MAXVA -> T !! K0 (PX 2 va) (PX 1 va) = Some t0 ->
  pte_pa pa -> leaf_flags f ->
  let s' := set_ram (fun m => store64 m (pte_addr t0 0 va) (mkpte pa f)) s in
  grown s s' fl fl hl T T root P /\
  forall v, 0 <= v < MAXVA -> abs_walk (ram s') T v =
    if decide (v / 4096 = va / 4096) then Some (mkpte pa f, 0%nat) else abs_walk (ram s) T v.
Proof.
  intros V Hva E [Hpa Hal] (Hf & HV & HX). apply set_leaf0; [done..|by apply mkpte_range| |];
    by rewrite has_flags, PTE_FLAGS_mkpte by (done || unfold PTE_RWX; clia).
Qed.

Lemma map_leaf1 s fl hl T root va t1 pa f P :
  vminv s fl hl T root -> 0 <= va < MAXVA -> T !! K1 (PX 2 va) = Some t1 ->
  T !! K0 (PX 2 va) (PX 1 va) = None -> pte_pa pa -> leaf_flags f ->
  let s' := set_ram (fun m => store64 m (pte_addr t1 1 va) (mkpte pa f)) s in
  grown s s' fl fl hl T T root P /\
  forall v, 0 <= v < MAXVA -> abs_walk (ram s') T v =
    if decide (v / 2097152 = va / 2097152) then Some (mkpte pa f, 1%nat) else abs_walk (ram s) T v.
Proof.
  intros V Hva E E0 Hpa Hf s'. pose proof V as [_ W _].
  destruct (mkpte_leaf pa f 1 Hpa Hf) as (Hu & Hl & Hn).
  pose proof (store_same_but (ram s) T root _ t1 (PX 1 va) (mkpte pa f) W E (PX_range _ _)) as HS.
  split.
  - apply (grown_wr s fl hl T root (K1 (PX 2 va)) t1 (PX 1 va) (mkpte pa f));
      [done|done|apply PX_range|].
    eapply wf_set; [done..|by intros c [= <-]|]. rewrite load64_eq, Hu. by apply Hn.
  - intros v Hv. erewrite abs_walk_set1 by (apply HS || done). unfold pte_addr, s'. simpl ram.
    rewrite load64_eq, Hu, Hl. done.
Qed.

Lemma leaf_pa_mk pa f v l :
  pte_pa pa -> leaf_flags f -> pa mod 2 ^ (12 + 9 * Z.of_nat l) = 0 ->
  leaf_pa v (mkpte pa f, l) = Some (pa + v mod 2 ^ (12 + 9 * Z.of_nat l), f).
Proof.
  intros [Hpa Hal] (Hf & _) Hm. unfold leaf_pa. cbn [fst snd].
  rewrite PTE2PA_mkpte, PTE_FLAGS_mkpte, Hm by done. done.
Qed.

(** An unmapped level-0 entry is invalid. *)
Lemma unmapped_l0 m T root va t0 :
  pt_wf m T root -> abs_walk m T va = None -> T !! K0 (PX 2 va) (PX 1 va) = Some t0 ->
  has (load64 m (pte_addr t0 0 va)) PTE_V = false.
Proof.
  intros W Hun E0. destruct (wf_up _ _ _ W _ _ _ E0) as [t1 E1].
  unfold abs_walk in Hun. rewrite E1, E0 in Hun.
  destruct (wf_leaf _ _ _ W _ _ (PX 0 va) E0 (PX_range _ _) eq_refl) as [|[_ L]]; [done|].
  unfold pte_addr, leaf in *. rewrite L in Hun. by destruct (has _ PTE_V).
Qed.

Lemma pte_addr_pos m T root k t l va :
  pt_wf m T root -> T !! k = Some t -> (pte_addr t l va =? 0) = false.
Proof.
  intros W E. pose proof (page_ok_range t (wf_page _ _ _ W _ _ E)). pose proof (PX_range l va).
  unfold pte_addr. apply Z.eqb_neq. lia.
Qed.

(** The translation after mapping [pa] at [a, b): everything else is as before. *)
Definition maps_to (m m' : mem) (root a b pa f : Z) : Prop :=
  forall v, 0 <= v < MAXVA ->
    translate m' root v = if decide (a <= v < b) then Some (pa + (v - a), f) else translate m root v.

Section mapping.
Context (perm : Z) (Hperm : 0 <= perm < 1024) (Hrwx : has perm PTE_RWX = true).

Lemma lor_perm pa : Z.lor (Z.lor (PA2PTE pa) perm) PTE_V = mkpte pa (Z.lor perm PTE_V).
Proof using. unfold mkpte. by rewrite Z.lor_assoc. Qed.

(** One round of mappages on a 4096-byte page. *)
Lemma map_page_step (k : M kst Z) s fl hl T root a pa :
  vminv s fl hl T root -> 0 <= a < MAXVA -> a mod 4096 = 0 -> abs_walk (ram s) T a = None ->
  pte_pa pa ->
  exists s' fl' T', grown s s' fl fl' hl T T' root (on_path a a) /\
    let run := (pte <- walk root a true ;; if pte =? 0 then ret (-1) else
                e <- rd pte ;; if has e PTE_V then panic "mappages: remap" else
                wr pte (Z.lor (Z.lor (PA2PTE pa) perm) PTE_V) ;; k) s in
    (run = Ret (-1) s' /\ fl' = [] /\ (forall v, abs_walk (ram s') T' v = abs_walk (ram s) T v) /\
     maps_to (ram s) (ram s') root a a pa (Z.lor perm PTE_V)) \/
    (run = k s' /\ (forall v, 0 <= v < MAXVA -> abs_walk (ram s') T' v =
                      if decide (v / 4096 = a / 4096) then Some (mkpte pa (Z.lor perm PTE_V), 0%nat)
                      else abs_walk (ram s) T v) /\
     maps_to (ram s) (ram s') root a (a + 4096) pa (Z.lor perm PTE_V)).
Proof.
  intros V Ha Hal Hun Hpa. pose proof V as [_ W _].
  destruct (walk_alloc _ _ _ _ _ a V ltac:(lia) Hun) as (r & s1 & fl' & T' & E & G & HA & HR).
  pose proof (gr_inv _ _ _ _ _ _ _ _ _ G) as V1. pose proof V1 as [_ W1 _].
  destruct HR as [[-> ->]|(t0 & E0 & ->)].
  - exists s1, [], T'. split; [done|]. left. split_and!; [|done|done|].
    + by erewrite bind_ret by done.
    + intros v Hv. rewrite decide_False by lia.
      erewrite !translate_abs by done. by rewrite HA.
  - destruct (map_leaf0 s1 fl' hl T' root a t0 pa (Z.lor perm PTE_V) (on_path a a) V1 Ha E0 Hpa
                (perm_leaf_flags _ Hperm Hrwx)) as [G2 HA2].
    eexists _, fl', T'. split; [by eapply grown_trans|]. right. split_and!.
    + erewrite bind_ret by done. erewrite pte_addr_pos by done. unfold rd. mstep.
      erewrite unmapped_l0 by (done || by rewrite HA).
      unfold wr. rewrite lor_perm. mstep. done.
    + intros v Hv. rewrite HA2, HA by done. done.
    + intros v Hv. pose proof (gr_inv _ _ _ _ _ _ _ _ _ G2) as [_ W2 _].
      erewrite !translate_abs by done. rewrite HA2 by done. case_decide as Hd.
      * rewrite decide_True by dlia. rewrite leaf_pa_mk; [|done|by apply perm_leaf_flags|apply Hpa].
        repeat f_equal. cbn. dlia.
      * rewrite decide_False by dlia. by rewrite HA.
Qed.

(** One round of mappages on 2 megabytes. *)
Lemma map_huge_step (k : M kst Z) s fl hl T root a pa :
  vminv s fl hl T root -> 0 <= a < MAXVA -> a mod 2097152 = 0 -> pa mod 2097152 = 0 ->
  abs_walk (ram s) T a = None -> T !! K0 (PX 2 a) (PX 1 a) = None -> pte_pa pa ->
  exists s' fl' T', grown s s' fl fl' hl T T' root (fun k => k = K1 (PX 2 a)) /\
    let run := (pgtbl_l1 <- walk_to_level root a 1 ;;
                if pgtbl_l1 =? 0 then ret (-1) else
                let pte := pte_addr pgtbl_l1 1 a in
                e <- rd pte ;;
                if has e PTE_V then panic "mappages: remap huge" else
                wr pte (Z.lor (Z.lor (PA2PTE pa) perm) PTE_V) ;; k) s in
    (run = Ret (-1) s' /\ fl' = [] /\ maps_to (ram s) (ram s') root a a pa (Z.lor perm PTE_V)) \/
    (run = k s' /\ (forall v, 0 <= v < MAXVA -> v / 2097152 <> a / 2097152 ->
                      abs_walk (ram s') T' v = abs_walk (ram s) T v) /\
     maps_to (ram s) (ram s') root a (a + 2097152) pa (Z.lor perm PTE_V)).
Proof.
  intros V Ha Hal Hpal Hun Hno Hpa. pose proof V as [_ W _].
  destruct (walk_l1 _ _ _ _ _ a V ltac:(lia)) as (r & s1 & fl' & T' & E & G & HA & HR).
  pose proof (gr_inv _ _ _ _ _ _ _ _ _ G) as V1. pose proof V1 as [_ W1 _].
  destruct HR as [(-> & -> & -> & _)|E1].
  - exists s1, [], T. split; [done|]. left. split_and!; [|done|].
    + by erewrite bind_ret by done.
    + intros v Hv. rewrite decide_False by lia.
      erewrite !translate_abs by done. by rewrite HA.
  - assert (Hno' : T' !! K0 (PX 2 a) (PX 1 a) = None).
    { destruct (T' !! K0 _ _) eqn:E0; [|done].
      destruct (gr_used _ _ _ _ _ _ _ _ _ G) as (u & _ & U).
      destruct (U _ _ E0) as [|(_ & ? & _)]; congruence. }
    destruct (map_leaf1 s1 fl' hl T' root a r pa (Z.lor perm PTE_V) (fun k => k = K1 (PX 2 a)) V1 Ha E1 Hno' Hpa
                (perm_leaf_flags _ Hperm Hrwx)) as [G2 HA2].
    eexists _, fl', T'. split; [by eapply grown_trans|]. right. split_and!.
    + erewrite bind_ret by done. pose proof (page_ok_range r (wf_page _ _ _ W1 _ _ E1)).
      destruct (Z.eqb_spec r 0); [lia|]. cbv zeta. unfold rd. mstep.
      erewrite unmapped_l1 by (done || by rewrite HA).
      unfold wr. rewrite lor_perm. mstep. done.
    + intros v Hv Hne. rewrite HA2, decide_False, HA by done. done.
    + intros v Hv. pose proof (gr_inv _ _ _ _ _ _ _ _ _ G2) as [_ W2 _].
      erewrite !translate_abs by done. rewrite HA2 by done. case_decide as Hd.
      * rewrite decide_True by dlia. rewrite leaf_pa_mk; [|done|by apply perm_leaf_flags|done].
        repeat f_equal. change (2 ^ (12 + 9 * Z.of_nat 1)) with 2097152. dlia.
      * rewrite decide_False by dlia. by rewrite HA.
Qed.
Lemma maps_to_trans m m1 m2 root a b c pa :
  a <= b <= c ->
  maps_to m m1 root a b pa (Z.lor perm PTE_V) ->
  maps_to m1 m2 root b c (pa + (b - a)) (Z.lor perm PTE_V) ->
  maps_to m m2 root a c pa (Z.lor perm PTE_V).
Proof using.
  intros Hb H1 H2 v Hv. rewrite H2, H1 by done.
  repeat case_decide; try done; try lia; f_equal; f_equal; lia.
Qed.

(** Tables that a walk to [va] adds are not in the way of a later 2-megabyte page. *)
Lemma grown_no_table s s' fl fl' hl T T' root va v (P : key -> Prop) :
  grown s s' fl fl' hl T T' root P -> (forall k, P k -> on_path va va k) ->
  0 <= va < MAXVA -> 0 <= v < MAXVA -> v / 2097152 <> va / 2097152 ->
  T !! K0 (PX 2 v) (PX 1 v) = None -> T' !! K0 (PX 2 v) (PX 1 v) = None.
Proof using.
  intros G HP Hva Hv Hne E. destruct (T' !! K0 _ _) as [x|] eqn:E'; [|done].
  destruct (gr_used _ _ _ _ _ _ _ _ _ G) as (u & _ & U).
  destruct (U _ _ E') as [|(_ & Hp & _)]; [congruence|].
  destruct (HP _ Hp) as (w & Hw & [|[= H2 H1]]); [done|]. assert (w = va) as -> by lia.
  destruct Hne. by apply PX_huge.
Qed.

Lemma mappages_loop_spec fuel root hl : forall s fl T a last pa,
  vminv s fl hl T root -> a mod 4096 = 0 -> last mod 4096 = 0 -> 0 <= a <= last -> last < MAXVA ->
  0 <= pa -> pa mod 4096 = 0 -> pa + (last - a) < 2 ^ 56 -> last - a < 4096 * Z.of_nat fuel ->
  (forall v, a <= v < last + 4096 -> abs_walk (ram s) T v = None) ->
  (forall v, a <= v -> v mod 2097152 = 0 -> (pa + (v - a)) mod 2097152 = 0 ->
     v + 2097152 <= last -> T !! K0 (PX 2 v) (PX 1 v) = None) ->
  exists r s' fl' T' b, mappages_loop fuel root a last pa perm s = Ret r s' /\
    grown s s' fl fl' hl T T' root (on_path a last) /\
    maps_to (ram s) (ram s') root a b pa (Z.lor perm PTE_V) /\
    ((r = 0 /\ b = last + 4096) \/ (r = -1 /\ fl' = [] /\ a <= b <= last /\ b mod 4096 = 0)).
Proof.
  induction fuel as [|fuel IH]; [lia|].
  intros s fl T a last pa V Hal Hll Ha Hlast Hpa0 Hpal Hpa Hfuel Hun Hnt. cbn [mappages_loop].
  assert (Hpp : pte_pa pa) by (split; lia).
  assert (Hgrow : forall b, a <= b -> b <= last -> forall s1 fl1 T1 (P : key -> Prop) r s2 fl2 T2 c,
    grown s s1 fl fl1 hl T T1 root P -> (forall k, P k -> on_path a last k) ->
    maps_to (ram s) (ram s1) root a b pa (Z.lor perm PTE_V) ->
    grown s1 s2 fl1 fl2 hl T1 T2 root (on_path b last) ->
    maps_to (ram s1) (ram s2) root b c (pa + (b - a)) (Z.lor perm PTE_V) ->
    ((r = 0 /\ c = last + 4096) \/ (r = -1 /\ fl2 = [] /\ b <= c <= last /\ c mod 4096 = 0)) ->
    grown s s2 fl fl2 hl T T2 root (on_path a last) /\
    maps_to (ram s) (ram s2) root a c pa (Z.lor perm PTE_V) /\
    ((r = 0 /\ c = last + 4096) \/ (r = -1 /\ fl2 = [] /\ a <= c <= last /\ c mod 4096 = 0))).
  { intros b Hb1 Hb2 s1 fl1 T1 P r s2 fl2 T2 c G1 HP M1 G2 M2 HR. split; [|split].
    - eapply grown_trans; (eapply grown_weaken; [done|]); [done|].
      intros k (v & Hv & Hk). exists v. split; [lia|done].
    - eapply maps_to_trans; [|done..]. destruct HR as [[_ ->]|(_ & _ & ? & _)]; lia.
    - naive_solver lia. }
  destruct (_ && _ && _) eqn:Eg.
  - rewrite !andb_true_iff, !Z.eqb_eq, Z.leb_le in Eg. destruct Eg as [[Eg1 Eg2] Eg3].
    unfold PGSIZE_2M in Eg1, Eg2, Eg3. assert (last < 2 ^ 40) by clia.
    rewrite u64_small in Eg3 by lia.
    assert (Hnext : a + 2097152 <= last) by dlia.
    destruct (map_huge_step (if last <? u64 (a + PGSIZE_2M) then ret 0 else
        mappages_loop fuel root (u64 (a + PGSIZE_2M)) last (u64 (pa + PGSIZE_2M)) perm)
        s fl hl T root a pa) as (s1 & fl1 & T1 & G & HR); try done; [clia|apply Hun; lia|apply Hnt; [lia|done|by rewrite Z.sub_diag, Z.add_0_r|lia]|].
    assert (HP : forall k, k = K1 (PX 2 a) -> on_path a last k)
      by (intros k ->; exists a; split; [lia|by left]).
    cbv zeta in HR. destruct HR as [(-> & -> & HM)|(-> & HA & HM)].
    + exists (-1), s1, [], T1, a. split_and!; [done|by eapply grown_weaken|done|].
      right. split_and!; done || lia.
    + unfold PGSIZE_2M. rewrite !u64_small by lia. destruct (Z.ltb_spec last (a + 2097152)); [lia|].
      destruct (IH s1 fl1 T1 (a + 2097152) last (pa + 2097152)) as (r & s2 & fl2 & T2 & c & E & G2 & M2 & HR);
        [apply G|dlia|done|lia|done|lia|dlia|lia|lia|..].
      * intros v Hv. rewrite HA by (unconst; dlia). apply Hun. lia.
      * intros v Hv1 Hv2 Hv3 Hv4.
        eapply (grown_no_table _ _ _ _ _ _ _ _ a); [done|intros k ->; apply on_path_1|clia|clia|dlia|].
        apply Hnt; [lia|done| |lia]. rewrite <- Hv3. f_equal. lia.
      * exists r, s2, fl2, T2, c. split; [done|].
        eapply (Hgrow (a + 2097152)); try done; [lia|]. by replace (a + 2097152 - a) with 2097152 by lia.
  - clear Eg. destruct (map_page_step (if a =? last then ret 0 else
        mappages_loop fuel root (u64 (a + PGSIZE)) last (u64 (pa + PGSIZE)) perm)
        s fl hl T root a pa) as (s1 & fl1 & T1 & G & HR); try done; [lia|apply Hun; lia|].
    assert (HP : forall k, on_path a a k -> on_path a last k)
      by (intros k (v & Hv & Hk); exists v; split; [lia|done]).
    cbv zeta in HR. destruct HR as [(-> & -> & _ & HM)|(-> & HA & HM)].
    + exists (-1), s1, [], T1, a. split_and!; [done|by eapply grown_weaken|done|].
      right. split_and!; done || lia.
    + destruct (Z.eqb_spec a last) as [<-|Hne].
      { exists 0, s1, fl1, T1, (a + 4096). split_and!; [done|done|done|by left]. }
      assert (a + 4096 <= last) by dlia. unfold PGSIZE. rewrite !u64_small by clia.
      destruct (IH s1 fl1 T1 (a + 4096) last (pa + 4096)) as (r & s2 & fl2 & T2 & c & E & G2 & M2 & HR);
        [apply G|dlia|done|lia|done|lia|dlia|lia|lia|..].
      * intros v Hv. rewrite HA, decide_False by (unconst; dlia). apply Hun. lia.
      * intros v Hv1 Hv2 Hv3 Hv4.
        eapply (grown_no_table _ _ _ _ _ _ _ _ a); [done|done|clia|clia|dlia|].
        apply Hnt; [lia|done| |lia]. rewrite <- Hv3. f_equal. lia.
      * exists r, s2, fl2, T2, c. split; [done|].
        eapply (Hgrow (a + 4096)); try done; [lia|]. by replace (a + 4096 - a) with 4096 by lia.
Qed.

(** mappages, with the region given by its first page [a] and its end [b]. *)
Lemma mappages_run s fl hl T root va size pa a b :
  vminv s fl hl T root -> 0 <= va -> 0 < size -> va + size <= MAXVA ->
  0 <= pa -> pa mod 4096 = 0 -> pa + size <= 2 ^ 55 ->
  a = va - va mod 4096 -> b = (va + size + 4095) / 4096 * 4096 ->
  (forall v, a <= v < b -> hw_walk 2 (ram s) root v = None) ->
  (forall v, a <= v -> v mod 2097152 = 0 -> (pa + (v - a)) mod 2097152 = 0 ->
     v + 2097152 < b -> T !! K0 (PX 2 v) (PX 1 v) = None) ->
  exists r s' fl' T' e, mappages root va size pa perm s = Ret r s' /\
    grown s s' fl fl' hl T T' root (on_path a (b - 4096)) /\
    maps_to (ram s) (ram s') root a e pa (Z.lor perm PTE_V) /\
    ((r = 0 /\ e = b) \/ (r = -1 /\ fl' = [] /\ a <= e < b /\ e mod 4096 = 0)).
Proof.
  intros V Hva Hs Hva2 Hpa0 Hpal Hpa Ea Eb Hun Hnt.
  assert (Hb : 0 <= a /\ a + 4096 <= b /\ b <= MAXVA /\ a mod 4096 = 0 /\ b mod 4096 = 0 /\
               b - a <= size + 8190 /\ a <= va < a + 4096 /\ b - 4096 < va + size <= b)
    by (subst; unconst; dlia).
  unfold mappages. destruct (Z.eqb_spec size 0); [lia|]. cbv zeta. unfold PGSIZE.
  assert (u64 (va + size - 1) = va + size - 1) as -> by (apply u64_small; clia).
  rewrite !PGROUNDDOWN_spec. rewrite <- Ea.
  replace (va + size - 1 - (va + size - 1) mod 4096) with (b - 4096) by (clear -Hb; dlia).
  assert (u64 (b - 4096 - a) = b - 4096 - a) as -> by (apply u64_small; clia).
  destruct (mappages_loop_spec (Z.to_nat ((b - 4096 - a) / 4096 + 1)) root hl s fl T a (b - 4096) pa)
    as (r & s' & fl' & T' & e & E & G & HM & HR); try done; try (clear -Hb Hpa Hs; unconst; dlia).
  - intros v Hv. erewrite <- hw_walk_abs by apply V. apply Hun. lia.
  - intros v H1 H2 H3 H4. apply Hnt; [done..|lia].
  - exists r, s', fl', T', e. split_and!; [done..|]. rewrite Z.sub_add in HR. naive_solver lia.
Qed.

(** One page: no 2-megabyte leaf is ever written. *)
Lemma mappages_one s root va pa :
  0 <= va < MAXVA -> va mod 4096 = 0 ->
  mappages root va PGSIZE pa perm s =
  (pte <- walk root va true ;; if pte =? 0 then ret (-1) else
   e <- rd pte ;; if has e PTE_V then panic "mappages: remap" else
   wr pte (Z.lor (Z.lor (PA2PTE pa) perm) PTE_V) ;; ret 0) s.
Proof using.
  intros Hva Hal. unfold mappages, PGSIZE. change (4096 =? 0) with false. cbv iota zeta.
  rewrite (u64_small (va + 4096 - 1)) by clia. rewrite !PGROUNDDOWN_spec.
  replace (va - va mod 4096) with va by lia.
  replace (va + 4096 - 1 - (va + 4096 - 1) mod 4096) with va by (clear -Hal; dlia).
  rewrite Z.sub_diag. change (Z.to_nat (u64 0 / 4096 + 1)) with 1%nat. cbn [mappages_loop].
  rewrite Z.sub_diag. change (PGSIZE_2M - 1 <=? u64 0) with false. rewrite andb_false_r.
  by rewrite Z.eqb_refl.
Qed.

Lemma mappages_page s fl hl T root va pa :
  vminv s fl hl T root -> 0 <= va < MAXVA -> va mod 4096 = 0 -> pte_pa pa ->
  abs_walk (ram s) T va = None ->
  exists r s' fl' T', mappages root va PGSIZE pa perm s = Ret r s' /\
    grown s s' fl fl' hl T T' root (on_path va va) /\
    ((r = 0 /\ forall v, 0 <= v < MAXVA -> abs_walk (ram s') T' v =
        if decide (v / 4096 = va / 4096) then Some (mkpte pa (Z.lor perm PTE_V), 0%nat)
        else abs_walk (ram s) T v) \/
     (r = -1 /\ fl' = [] /\ forall v, abs_walk (ram s') T' v = abs_walk (ram s) T v)).
Proof.
  intros V Hva Hal Hpa Hun. rewrite mappages_one by done.
  destruct (map_page_step (ret 0) s fl hl T root va pa V Hva Hal Hun Hpa)
    as (s' & fl' & T' & G & [(-> & -> & HA & _)|(-> & HA & _)]).
  - exists (-1), s', [], T'. split_and!; [done..|]. by right.
  - exists 0, s', fl', T'. split_and!; [done..|]. by left.
Qed.

(** Where the tables exist, mapping a page cannot fail. *)
Lemma mappages_existing s fl hl T root va pa t0 :
  vminv s fl hl T root -> 0 <= va < MAXVA -> va mod 4096 = 0 ->
  abs_walk (ram s) T va = None -> T !! K0 (PX 2 va) (PX 1 va) = Some t0 ->
  mappages root va PGSIZE pa perm s =
  Ret 0 (set_ram (fun m => store64 m (pte_addr t0 0 va) (mkpte pa (Z.lor perm PTE_V))) s).
Proof.
  intros V Hva Hal Hun E0. pose proof V as [_ W _]. rewrite mappages_one by done.
  erewrite bind_ret by (eapply walk_found; [done|lia|done]). erewrite pte_addr_pos by done.
  unfold rd. mstep. erewrite unmapped_l0 by done. unfold wr. mstep. rewrite lor_perm. done.
Qed.
End mapping.

(** C34: on an unmapped, page-rounded range mappages installs exactly the
    translation [va -> pa] with the requested permissions and leaves every other
    address alone, using 2-megabyte leaves where its test allows; it fails only
    when memory for tables has run out, and then a prefix is mapped.  Memory that
    is neither free nor a page table is not written. *)
Theorem mappages_correct perm s fl hl T root va size pa a b :
  0 <= perm < 1024 -> has perm PTE_RWX = true ->
  vminv s fl hl T root -> 0 <= va -> 0 < size -> va + size <= MAXVA ->
  0 <= pa -> pa mod 4096 = 0 -> pa + size <= 2 ^ 55 ->
  a = va - va mod 4096 -> b = (va + size + 4095) / 4096 * 4096 ->
  (forall v, a <= v < b -> hw_walk 2 (ram s) root v = None) ->
  (forall v, a <= v -> v mod 2097152 = 0 -> (pa + (v - a)) mod 2097152 = 0 ->
     v + 2097152 < b -> T !! K0 (PX 2 v) (PX 1 v) = None) ->
  exists r s' fl' T' e, mappages root va size pa perm s = Ret r s' /\
    grown s s' fl fl' hl T T' root (on_path a (b - 4096)) /\
    maps_to (ram s) (ram s') root a e pa (Z.lor perm PTE_V) /\
    ((r = 0 /\ e = b) \/ (r = -1 /\ fl' = [] /\ a <= e < b /\ e mod 4096 = 0)).
Proof. intros. by eapply mappages_run. Qed.
End tables.
