(* ===== verification/UserMem.v ===== *)
(** User memory: uvmunmap, uvmcopy and the copying routines, against the
    translation of the page tables they work on. *)

From S2P Require Import Prelude Mem Riscv Spinlock Kalloc Vm PageTable.

(** How often [q] occurs in a list of physical pages. *)
Definition occ (q : Z) (l : list Z) : Z := Z.of_nat (length (filter (fun p => p = q) l)).

Lemma occ_nil q : occ q [] = 0.
Proof. done. Qed.
Lemma occ_cons q p l : occ q (p :: l) = (if decide (p = q) then 1 else 0) + occ q l.
Proof. unfold occ. rewrite filter_cons. case_decide; simpl; lia. Qed.
Lemma occ_pos q l : 0 <= occ q l.
Proof. unfold occ. lia. Qed.
Lemma occ_elem q l : q ∈ l -> 1 <= occ q l.
Proof.
  induction l as [|p l IH]; [by intros ?%not_elem_of_nil|].
  intros [->|H]%elem_of_cons; rewrite occ_cons.
  - rewrite decide_True by done. pose proof (occ_pos p l). lia.
  - specialize (IH H). case_decide; lia.
Qed.
Lemma occ_not_elem q l : q ∉ l -> occ q l = 0.
Proof.
  induction l as [|p l IH]; [done|]. intros H. rewrite occ_cons, IH by set_solver.
  rewrite decide_False; [done|set_solver].
Qed.

Section usermem.
Context {I : KernelImage} {HI : ImageOk I}.

(** The page is in the range the tables are not in: a user page of the page table [T]. *)
Definition data_page (T : gmap key Z) (p : Z) : Prop := page_ok p /\ forall k, T !! k <> Some p.

Lemma data_page_outside m T root p x :
  pt_wf m T root -> data_page T p -> p <= x < p + 4096 -> outside T x.
Proof.
  intros W [Hp Hn] Hx k a E. assert (a <> p) by naive_solver.
  pose proof (page_disjoint a p (wf_page _ _ _ W _ _ E) Hp). lia.
Qed.

Lemma abs_walk_ext m m' T root v :
  pt_wf m T root -> (forall x, ~ outside T x -> m' x = m x) -> abs_walk m' T v = abs_walk m T v.
Proof.
  intros W HE.
  assert (Hsame : forall k a i, T !! k = Some a -> 0 <= i < 512 ->
            load64 m' (a + 8 * i) = load64 m (a + 8 * i)).
  { intros k a i E Hi. apply load64_ext. intros x Hx. apply HE. intros Ho. specialize (Ho _ _ E). lia. }
  unfold abs_walk, pte_addr. destruct (T !! K1 _) eqn:E1; [|done].
  destruct (T !! K0 _ _) eqn:E0; by erewrite Hsame by (done || apply PX_range).
Qed.

(** Dropping a reference to a page that is no table. *)
Lemma kfree_data s fl hl T root p :
  vminv s fl hl T root -> data_page T p -> 1 <= ref_at s (ref_idx p) < 2 ^ 32 ->
  exists s', kfree p s = Ret tt s' /\
    vminv s' (if decide (ref_at s (ref_idx p) = 1) then p :: fl else fl) hl T root /\
    (forall q, page_ok q -> ref_at s' (ref_idx q) = ref_at s (ref_idx q) - (if decide (p = q) then 1 else 0)) /\
    (forall x, x < p \/ p + 4096 <= x \/ ref_at s (ref_idx p) <> 1 -> ram s' x = ram s x).
Proof.
  intros V [Hp Hn] Hr. pose proof V as [K W HR].
  assert (Hrefs : forall s', ref_at s' (ref_idx p) = ref_at s (ref_idx p) - 1 ->
    (forall i, i <> ref_idx p -> ref_at s' i = ref_at s i) ->
    forall q, page_ok q -> ref_at s' (ref_idx q) = ref_at s (ref_idx q) - (if decide (p = q) then 1 else 0)).
  { intros s' H1 H2 q Hq. case_decide; [by subst|]. rewrite H2; [lia|].
    intros E. by apply ref_idx_inj in E. }
  case_decide as H1.
  - destruct (kfree_last s fl hl p) as (s' & E & K' & Ro & Hm); [done|done| |done|].
    { eapply kinv_counted_live; [done..|lia]. }
    assert (Hp0 : ref_at s' (ref_idx p) = 0) by (apply K'; set_solver).
    exists s'. split_and!; [done| | |].
    + split; [done| |].
      * eapply wf_ext; [done|]. intros x Hx. apply Hm.
        destruct (decide (p <= x < p + 4096)); [|lia]. destruct Hx. by eapply data_page_outside.
      * intros k a E'. rewrite Ro; [by eapply HR|]. intros Eq.
        apply ref_idx_inj in Eq; [naive_solver|by eapply W|done].
    + apply Hrefs; [lia|done].
    + intros x [?|[?|?]]; [apply Hm; lia..|done].
  - eexists. split; [eapply kfree_counted; [done|done|lia|done]|]. split_and!.
    + split; [|done|].
      * apply kinv_quiet, kinv_ref_live; [done..|]. eapply kinv_counted_live; [done..|lia].
      * intros k a E'. rewrite ref_at_quiet, ref_at_set. rewrite decide_False; [by eapply HR|].
        intros Eq. apply ref_idx_inj in Eq; [naive_solver|by eapply W|done].
    + apply Hrefs; intros; rewrite ref_at_quiet, ref_at_set.
      * rewrite decide_True by done. rewrite u32_small; lia.
      * by rewrite decide_False.
    + done.
Qed.

(** ** uvmunmap *)
Lemma abs_walk_l0 m T root v e :
  pt_wf m T root -> abs_walk m T v = Some (e, 0%nat) ->
  exists t1 t0, T !! K1 (PX 2 v) = Some t1 /\ T !! K0 (PX 2 v) (PX 1 v) = Some t0 /\
    load64 m (pte_addr t1 1 v) = mkpte t0 PTE_V /\
    load64 m (pte_addr t0 0 v) = e /\ has e PTE_V = true /\ has e PTE_RWX = true.
Proof.
  intros W. unfold abs_walk. destruct (T !! K1 _) as [t1|] eqn:E1; [|done].
  destruct (T !! K0 _ _) as [t0|] eqn:E0; unfold leaf; destruct (_ && _) eqn:Eb; intros [=]; subst.
  apply andb_true_iff in Eb as [EV EX]. exists t1, t0. split_and!; try done.
  pose proof (wf_link _ _ _ W _ _ _ _ E1 (PX_range 1 v) eq_refl) as L. by rewrite E0 in L.
Qed.

(** The effect of unmapping [a, b), whose pages are [frames]: nothing there is
    mapped, every page lost as many references as it had mappings, and exactly
    those left without any are on the free list. *)
Record unmapped (s s' : kst) (fl fl' hl : list Z) (T : gmap key Z) (root a b : Z)
    (frames : list Z) : Prop := {
  um_inv : vminv s' fl' hl T root;
  um_walk : forall v, 0 <= v < MAXVA -> abs_walk (ram s') T v =
    if decide (a <= v < b) then None else abs_walk (ram s) T v;
  um_refs : forall q, page_ok q -> ref_at s' (ref_idx q) = ref_at s (ref_idx q) - occ q frames;
  um_free : exists freed, fl' = freed ++ fl /\
    forall q, q ∈ freed <-> q ∈ frames /\ ref_at s' (ref_idx q) = 0;
  um_mem : forall x, outside T x ->
    (forall q, q ∈ frames -> ref_at s' (ref_idx q) = 0 -> x < q \/ q + 4096 <= x) ->
    ram s' x = ram s x
}.

(** Every mapping of a page is counted. *)
Definition counted (s : kst) (T : gmap key Z) (frames : list Z) : Prop :=
  forall p, p ∈ frames -> data_page T p /\ occ p frames <= ref_at s (ref_idx p) < 2 ^ 32.

Lemma unmapped_refl s fl hl T root a : vminv s fl hl T root -> unmapped s s fl fl hl T root a a [].
Proof.
  intros V. split; [done|..].
  - intros v Hv. by rewrite decide_False by lia.
  - intros q Hq. rewrite occ_nil. lia.
  - exists []. split; [done|]. set_solver.
  - done.
Qed.

Lemma unmapped_cons s s1 s2 fl fl1 fl2 hl T root a b c p frames :
  counted s T (p :: frames) -> a <= b <= c ->
  unmapped s s1 fl fl1 hl T root a b [p] -> unmapped s1 s2 fl1 fl2 hl T root b c frames ->
  unmapped s s2 fl fl2 hl T root a c (p :: frames).
Proof.
  intros HC Hab [V1 W1 R1 (f1 & -> & F1) M1] [V2 W2 R2 (f2 & -> & F2) M2].
  destruct (HC p ltac:(set_solver)) as [[Hp _] Hocc]. rewrite occ_cons, decide_True in Hocc by done.
  assert (Hone : forall q, occ q [p] = if decide (p = q) then 1 else 0)
    by (intros; rewrite occ_cons, occ_nil; lia).
  assert (Hz : forall q, q ∈ frames \/ q = p -> ref_at s1 (ref_idx q) = 0 -> ref_at s2 (ref_idx q) = 0).
  { intros q Hq H0.
    assert (Hdq : data_page T q /\ occ q (p :: frames) <= ref_at s (ref_idx q) < 2 ^ 32)
      by (apply HC; set_solver). destruct Hdq as [[Hq' _] Ho]. rewrite occ_cons in Ho.
    rewrite R2, H0 by done. rewrite R1, Hone in H0 by done. pose proof (occ_pos q frames). lia. }
  split; [done|..].
  - intros v Hv. rewrite W2, W1 by done. repeat case_decide; lia || done.
  - intros q Hq. rewrite R2, R1, Hone, occ_cons by done. lia.
  - exists (f2 ++ f1). split; [by rewrite app_assoc|]. intros q.
    rewrite elem_of_app, F1, F2, list_elem_of_singleton, elem_of_cons. split.
    + intros [[? ?]|[-> H0]]; [auto|]. split; [by left|]. apply Hz; auto.
    + intros [[->|Hq] H0]; [|auto]. destruct (decide (p ∈ frames)); [auto|right].
      split; [done|]. rewrite R2, occ_not_elem in H0 by done. lia.
  - intros x Ho Hx. rewrite M2, M1; [done|done| |done|].
    + intros q ->%list_elem_of_singleton H0. apply Hx; [set_solver|]. apply Hz; auto.
    + intros q Hq H0. apply Hx; [set_solver|done].
Qed.

Lemma store_outside T k t l va x m v :
  T !! k = Some t -> outside T x -> store64 m (pte_addr t l va) v x = m x.
Proof.
  intros E Ho. apply store64_out. pose proof (Ho _ _ E). pose proof (PX_range l va).
  unfold pte_addr. lia.
Qed.

(** Clearing the level-0 entry of [a]. *)
Lemma clear_entry s s1 fl1 hl T root a t0 :
  pt_wf (ram s) T root -> vminv s1 fl1 hl T root -> (forall x, ~ outside T x -> ram s1 x = ram s x) ->
  0 <= a < MAXVA -> a mod 4096 = 0 -> T !! K0 (PX 2 a) (PX 1 a) = Some t0 ->
  vminv (set_ram (fun m => store64 m (pte_addr t0 0 a) 0) s1) fl1 hl T root /\
  forall v, 0 <= v < MAXVA -> abs_walk (store64 (ram s1) (pte_addr t0 0 a) 0) T v =
    if decide (a <= v < a + 4096) then None else abs_walk (ram s) T v.
Proof.
  intros W V1 Hm Ha Hal E0. pose proof V1 as [_ W1 _].
  pose proof (store_same_but (ram s1) T root _ t0 (PX 0 a) 0 W1 E0 (PX_range _ _)) as HS. split.
  - eapply gr_inv, (grown_wr s1 fl1 hl T root _ t0 (PX 0 a) 0 (fun _ => True) V1 E0 (PX_range _ _)).
    eapply wf_set; [done..|]. left. by rewrite load64_eq.
  - intros v Hv. erewrite abs_walk_set0 by (apply HS || done). unfold pte_addr. rewrite load64_eq.
    erewrite (abs_walk_ext (ram s) (ram s1)) by done.
    do 2 case_decide; try done; dlia.
Qed.

(** kfree of the page, if asked for, and then the entry. *)
Lemma unmap_drop s fl hl T root a t0 p (do_free : bool) :
  vminv s fl hl T root -> 0 <= a < MAXVA -> a mod 4096 = 0 ->
  T !! K0 (PX 2 a) (PX 1 a) = Some t0 -> (do_free = true -> counted s T [p]) ->
  exists s1 fl1, when do_free (kfree p) s = Ret tt s1 /\
    unmapped s (set_ram (fun m => store64 m (pte_addr t0 0 a) 0) s1) fl fl1 hl T root a (a + 4096)
      (if do_free then [p] else []).
Proof.
  intros V Ha Hal E0 HC. pose proof V as [K W HR]. destruct do_free; simpl.
  - destruct (HC eq_refl p ltac:(set_solver)) as [Hd Hr].
    rewrite occ_cons, occ_nil, decide_True in Hr by done.
    destruct (kfree_data s fl hl T root p V Hd ltac:(lia)) as (s1 & Ek & V1 & R1 & M1).
    assert (Hm1 : forall x, ~ outside T x -> ram s1 x = ram s x).
    { intros x Hx. apply M1. destruct (decide (p <= x < p + 4096)); [|lia].
      destruct Hx. by eapply data_page_outside. }
    destruct (clear_entry s s1 _ hl T root a t0 W V1 Hm1 Ha Hal E0) as [V2 W2].
    assert (Hz : ref_at s1 (ref_idx p) = ref_at s (ref_idx p) - 1)
      by (rewrite R1, decide_True by (done || apply Hd); done).
    eexists s1, _. split; [done|]. split; [done|done|..].
    + intros q Hq. change (ref_at s1 (ref_idx q) = ref_at s (ref_idx q) - occ q [p]).
      rewrite R1, occ_cons, occ_nil by done. lia.
    + change (exists freed, (if decide (ref_at s (ref_idx p) = 1) then p :: fl else fl) = freed ++ fl /\
                forall q, q ∈ freed <-> q ∈ [p] /\ ref_at s1 (ref_idx q) = 0).
      case_decide as H1; [exists [p]|exists []]; (split; [done|]); intros q;
        rewrite ?list_elem_of_singleton; (split; [|intros [-> H0]]);
        [intros ->; split; [done|lia]|done|set_solver|lia].
    + intros x Ho Hx. simpl. erewrite store_outside by done. apply M1.
      destruct (decide (ref_at s (ref_idx p) = 1)) as [H1|]; [|auto].
      specialize (Hx p ltac:(set_solver)).
      change (ref_at s1 (ref_idx p) = 0 -> x < p \/ p + 4096 <= x) in Hx. lia.
  - destruct (clear_entry s s fl hl T root a t0 W V ltac:(done) Ha Hal E0) as [V2 W2].
    exists s, fl. split; [done|]. split; [done|done|..].
    + intros q Hq. rewrite occ_nil. change (ref_at s (ref_idx q) = ref_at s (ref_idx q) - 0). lia.
    + exists []. split; [done|]. set_solver.
    + intros x Ho _. simpl. by eapply store_outside.
Qed.

Lemma walk_l1_found s T root a t1 :
  pt_wf (ram s) T root -> a < MAXVA -> T !! K1 (PX 2 a) = Some t1 ->
  walk_to_level root a 1 s = Ret t1 s /\ (t1 =? 0) = false.
Proof.
  intros W Ha E1. pose proof (page_ok_range t1 (wf_page _ _ _ W _ _ E1)). split; [|apply Z.eqb_neq; lia].
  unfold walk_to_level. rewrite MAXVA_guard by done. change (Z.to_nat (2 - 1)) with 1%nat.
  cbn [walk_to_level_loop]. unfold rd, pte_addr. mstep.
  pose proof (wf_link _ _ _ W _ _ (PX 2 a) _ (wf_root _ _ _ W) (PX_range _ _) eq_refl) as L2.
  rewrite E1 in L2. destruct (link_pte t1) as (HV1 & _ & HA1); [by eapply W|].
  by rewrite L2, HV1, HA1.
Qed.

(** One round of uvmunmap, on a page that is mapped. *)
Lemma unmap_page_step (huge : Z -> Z -> M kst unit) (k skip1 skip2 : M kst unit) s fl hl T root a e
    (do_free : bool) :
  vminv s fl hl T root -> 0 <= a < MAXVA -> a mod 4096 = 0 -> abs_walk (ram s) T a = Some (e, 0%nat) ->
  (do_free = true -> counted s T [PTE2PA e]) ->
  exists s' fl',
    unmapped s s' fl fl' hl T root a (a + 4096) (if do_free then [PTE2PA e] else []) /\
    (pgtbl_l1 <- walk_to_level root a 1 ;; if pgtbl_l1 =? 0 then skip1 else
     e1 <- rd (pte_addr pgtbl_l1 1 a) ;; if has e1 PTE_V && has e1 PTE_RWX then huge pgtbl_l1 e1 else
     pte <- walk root a false ;; if pte =? 0 then skip2 else
     e <- rd pte ;; if negb (has e PTE_V) then skip2 else
     if PTE_FLAGS e =? PTE_V then panic "uvmunmap: not a leaf" else
     when do_free (kfree (PTE2PA e)) ;; wr pte 0 ;; k) s = k s'.
Proof.
  intros V Ha Hal Hwalk HC. pose proof V as [K W HR].
  destruct (abs_walk_l0 _ _ _ _ _ W Hwalk) as (t1 & t0 & E1 & E0 & L1 & L0 & HV & HX).
  destruct (unmap_drop s fl hl T root a t0 (PTE2PA e) do_free V Ha Hal E0 HC) as (s1 & fl1 & Ek & U).
  eexists _, fl1. split; [exact U|].
  destruct (walk_l1_found s T root a t1 W ltac:(lia) E1) as [Ew Ez].
  erewrite bind_ret by done. rewrite Ez. unfold rd. mstep.
  destruct (link_pte t0) as (_ & HX0 & _); [by eapply W|]. rewrite L1, HX0, andb_false_r.
  erewrite bind_ret by (eapply walk_lookup; [done|lia]). rewrite E0.
  erewrite pte_addr_pos by done. mstep. rewrite L0, HV. cbn [negb].
  destruct (Z.eqb_spec (PTE_FLAGS e) PTE_V) as [Ef|_].
  { rewrite has_flags, Ef in HX by (unfold PTE_RWX; lia). done. }
  erewrite bind_ret by done. unfold wr. mstep. done.
Qed.

(** [es] are the level-0 entries that map the pages from [a] on. *)
Definition entries_at (m : mem) (T : gmap key Z) (a : Z) (es : list Z) : Prop :=
  forall i e, es !! i = Some e -> abs_walk m T (a + 4096 * Z.of_nat i) = Some (e, 0%nat).

Lemma entries_at_cons m T a e es :
  entries_at m T a (e :: es) <-> abs_walk m T a = Some (e, 0%nat) /\ entries_at m T (a + 4096) es.
Proof.
  unfold entries_at. split.
  - intros H. split.
    + specialize (H 0%nat e eq_refl). by rewrite Z.add_0_r in H.
    + intros i x E. specialize (H (S i) x E).
      by replace (a + 4096 + 4096 * Z.of_nat i) with (a + 4096 * Z.of_nat (S i)) by lia.
  - intros [H0 H] [|i] x E; [injection E as ->; by rewrite Z.add_0_r|].
    specialize (H i x E). by replace (a + 4096 * Z.of_nat (S i)) with (a + 4096 + 4096 * Z.of_nat i) by lia.
Qed.

Lemma counted_tail s s1 T p frames :
  counted s T (p :: frames) ->
  (forall q, page_ok q -> ref_at s1 (ref_idx q) = ref_at s (ref_idx q) - occ q [p]) ->
  counted s1 T frames.
Proof.
  intros HC HR q Hq. destruct (HC q ltac:(set_solver)) as [Hd Ho]. split; [done|].
  rewrite HR by apply Hd. rewrite occ_cons in *. rewrite occ_nil. case_decide; lia.
Qed.

Lemma unmapped_skip s s1 s2 fl fl1 fl2 hl T root a b c :
  a <= b <= c -> unmapped s s1 fl fl1 hl T root a b [] -> unmapped s1 s2 fl1 fl2 hl T root b c [] ->
  unmapped s s2 fl fl2 hl T root a c [].
Proof.
  intros Hab [V1 W1 R1 (f1 & -> & F1) M1] [V2 W2 R2 (f2 & -> & F2) M2].
  split; [done|..].
  - intros v Hv. rewrite W2, W1 by done. repeat case_decide; lia || done.
  - intros q Hq. rewrite R2, R1, occ_nil by done. lia.
  - exists (f2 ++ f1). split; [by rewrite app_assoc|]. set_solver.
  - intros x Ho Hx. rewrite M2, M1; try done; set_solver.
Qed.

Lemma unmapped_loop fuel hl T root (do_free : bool) : forall es s fl a bound,
  vminv s fl hl T root -> a mod 4096 = 0 -> 0 <= a -> bound = a + 4096 * Z.of_nat (length es) ->
  bound <= MAXVA -> entries_at (ram s) T a es -> (do_free = true -> counted s T (PTE2PA <$> es)) ->
  (length es <= fuel)%nat ->
  exists s' fl', uvmunmap_loop fuel root a bound do_free s = Ret tt s' /\
    unmapped s s' fl fl' hl T root a bound (if do_free then PTE2PA <$> es else []).
Proof.
  assert (Hnil : forall fuel s fl a, vminv s fl hl T root -> exists s' fl',
    uvmunmap_loop fuel root a a do_free s = Ret tt s' /\
    unmapped s s' fl fl' hl T root a a (if do_free then PTE2PA <$> [] else [])).
  { intros fuel' s fl a V. exists s, fl. split; [destruct fuel'; simpl; by rewrite Z.ltb_irrefl|].
    destruct do_free; by apply unmapped_refl. }
  induction fuel as [|fuel IH]; intros es s fl a bound V Hal Ha Hbd Hb HE HC Hf;
    (destruct es as [|e es]; simpl length in *; [assert (bound = a) as -> by lia; by apply Hnil|]); [lia|].
  apply entries_at_cons in HE as [He HE]. cbn [uvmunmap_loop].
  destruct (Z.ltb_spec a bound); [|lia]. cbn [negb].
  destruct (unmap_page_step
     (fun pgtbl_l1 e1 => when do_free (kfree_huge (PTE2PA e1)) ;; wr (pte_addr pgtbl_l1 1 a) 0 ;;
        uvmunmap_loop fuel root (PGROUNDDOWN_2M a + PGSIZE_2M) bound do_free)
     (uvmunmap_loop fuel root (a + PGSIZE) bound do_free)
     (uvmunmap_loop fuel root (PGROUNDDOWN_2M a + PGSIZE_2M) bound do_free)
     (uvmunmap_loop fuel root (a + PGSIZE) bound do_free)
     s fl hl T root a e do_free) as (s1 & fl1 & U1 & ->); [done|lia|done|done| |].
  { intros Hdf q Hq. specialize (HC Hdf). rewrite fmap_cons in HC.
    destruct (HC q ltac:(set_solver)) as [? Ho]. split; [done|].
    rewrite occ_cons in Ho. rewrite occ_cons, occ_nil. pose proof (occ_pos q (PTE2PA <$> es)). lia. }
  destruct (IH es s1 fl1 (a + 4096) bound) as (s2 & fl2 & E2 & U2);
    [apply U1|dlia|lia|lia|done| | |lia|].
  - intros i x E. pose proof (lookup_lt_Some _ _ _ E). rewrite (um_walk _ _ _ _ _ _ _ _ _ _ U1) by lia.
    rewrite decide_False by lia. by apply HE.
  - intros Hdf. destruct do_free; [|done]. eapply counted_tail; [by apply HC|]. apply U1.
  - exists s2, fl2. split; [done|]. destruct do_free.
    + eapply unmapped_cons; [by apply HC| |done..]. lia.
    + eapply unmapped_skip; [|done..]. lia.
Qed.

(** C35: uvmunmap removes the mappings of the range and nothing else; with
    [do_free] every physical page loses as many references as it lost mappings,
    the pages left with none go to the free list, and only their contents change. *)
Theorem uvmunmap_correct s fl hl T root va es (do_free : bool) :
  vminv s fl hl T root -> va mod 4096 = 0 -> 0 <= va ->
  va + 4096 * Z.of_nat (length es) <= MAXVA ->
  (forall i e, es !! i = Some e -> hw_walk 2 (ram s) root (va + 4096 * Z.of_nat i) = Some (e, 0%nat)) ->
  (do_free = true -> counted s T (PTE2PA <$> es)) ->
  exists s' fl', uvmunmap root va (Z.of_nat (length es)) do_free s = Ret tt s' /\
    unmapped s s' fl fl' hl T root va (va + 4096 * Z.of_nat (length es))
      (if do_free then PTE2PA <$> es else []).
Proof.
  intros V Hal Hva Hmax HE HC. unfold uvmunmap, PGSIZE. rewrite Hal. change (negb (0 =? 0)) with false. cbv iota.
  rewrite u64_small, (Z.mul_comm (Z.of_nat _)), Nat2Z.id by clia.
  apply unmapped_loop; try done. intros i e E. erewrite <- hw_walk_abs by apply V. by apply HE.
Qed.
End usermem.
