(* ===== verification/Cow.v ===== *)
(** Copy on write: uvmcopy shares the pages of a parent with its child. *)

From S2P Require Import Prelude Mem Riscv Spinlock Kalloc Vm PageTable UserMem.

(** ** The bits of a shared entry *)
Definition swap_bits (e clr set : Z) : Z := Z.lor (Z.land e (Z.lnot clr)) set.

Lemma swap_bits_land e clr set b : Z.land clr b = 0 -> Z.land set b = 0 ->
  Z.land (swap_bits e clr set) b = Z.land e b.
Proof.
  intros Hc Hs. unfold swap_bits. rewrite Z.land_lor_distr_l, Hs, Z.lor_0_r.
  rewrite <- Z.land_assoc, (Z.land_comm (Z.lnot _)), <- Z.ldiff_land. f_equal.
  apply Z.bits_inj'. intros n Hn. rewrite Z.ldiff_spec.
  assert (Z.testbit (Z.land clr b) n = false) as Hb by by rewrite Hc, Z.bits_0.
  rewrite Z.land_spec in Hb. destruct (Z.testbit clr n), (Z.testbit b n); done.
Qed.

Lemma flags_range e : 0 <= PTE_FLAGS e < 1024.
Proof. rewrite PTE_FLAGS_spec. apply Z.mod_pos_bound. lia. Qed.

(** Changing flag bits keeps the address. *)
Lemma swap_bits_spec e clr set :
  0 <= e < 2 ^ 64 -> 0 <= clr < 1024 -> 0 <= set < 1024 ->
  (0 <= swap_bits e clr set < 2 ^ 64) /\ PTE2PA (swap_bits e clr set) = PTE2PA e /\
  PTE_FLAGS (swap_bits e clr set) = swap_bits (PTE_FLAGS e) clr set /\
  0 <= swap_bits (PTE_FLAGS e) clr set < 1024.
Proof.
  intros He Hc Hs. unfold swap_bits. split; [|split; [|split]].
  - apply (lor_lt_pow2 _ _ 64); [lia|apply (land_lt_pow2 e _ 64); lia|lia].
  - unfold PTE2PA. rewrite Z.shiftr_lor, Z.shiftr_land.
    assert (Z.shiftr set 10 = 0) as -> by (rewrite Z.shiftr_div_pow2 by lia; dlia).
    assert (Z.shiftr (Z.lnot clr) 10 = -1) as -> by (rewrite Z.shiftr_div_pow2 by lia; unfold Z.lnot; dlia).
    by rewrite Z.lor_0_r, Z.land_m1_r.
  - unfold PTE_FLAGS. rewrite Z.land_lor_distr_l. f_equal.
    + rewrite <- !Z.land_assoc. f_equal. apply Z.land_comm.
    + change 1023 with (Z.ones 10). rewrite Z.land_ones by lia. apply Z.mod_small. lia.
  - pose proof (flags_range e). apply (lor_lt_pow2 _ _ 10); [lia|apply (land_lt_pow2 _ _ 10); lia|lia].
Qed.

(** uvmcopy: a writable page becomes read-only and copy-on-write. *)
Definition cow_flags (f : Z) : Z := if has f PTE_W then swap_bits f PTE_W PTE_COW else f.
Definition cow_pte (e : Z) : Z := if has (PTE_FLAGS e) PTE_W then swap_bits e PTE_W PTE_COW else e.

Lemma cow_pte_spec e :
  0 <= e < 2 ^ 64 ->
  (0 <= cow_pte e < 2 ^ 64) /\ PTE2PA (cow_pte e) = PTE2PA e /\
  PTE_FLAGS (cow_pte e) = cow_flags (PTE_FLAGS e) /\
  has (cow_pte e) PTE_V = has e PTE_V /\ has (cow_pte e) PTE_R = has e PTE_R /\
  has (cow_pte e) PTE_W = false.
Proof.
  intros He. unfold cow_pte, cow_flags. destruct (has (PTE_FLAGS e) PTE_W) eqn:EW.
  - destruct (swap_bits_spec e PTE_W PTE_COW) as (H1 & H2 & H3 & _); [done|clia..|].
    split; [done|]. split_and!; try done; unfold has; try by rewrite swap_bits_land.
    unfold swap_bits. rewrite Z.land_lor_distr_l. change (Z.land PTE_COW PTE_W) with 0.
    rewrite <- Z.land_assoc. change (Z.land (Z.lnot PTE_W) PTE_W) with 0. by rewrite Z.land_0_r.
  - split; [done|]. split_and!; try done. by rewrite has_flags by clia.
Qed.

(** usertrap: after the write fault it is writable again. *)
Definition uncow (e : Z) : Z := swap_bits e PTE_COW PTE_W.

Lemma uncow_spec e :
  has (uncow e) PTE_V = has e PTE_V /\ has (uncow e) PTE_RWX = true /\ has (uncow e) PTE_W = true.
Proof.
  assert (HW : has (uncow e) PTE_W = true).
  { unfold has, uncow, swap_bits. rewrite Z.land_lor_distr_l. rewrite negb_true_iff, Z.eqb_neq.
    by intros [_ ?]%Z.lor_eq_0_iff. }
  split_and!; [|..|done].
  - unfold has, uncow. by rewrite swap_bits_land.
  - unfold has in *. rewrite negb_true_iff, Z.eqb_neq in *. intros H. apply HW.
    replace PTE_W with (Z.land PTE_RWX PTE_W) by done. by rewrite Z.land_assoc, H.
Qed.

Lemma has_R_RWX e : has e PTE_R = true -> has e PTE_RWX = true.
Proof.
  unfold has. rewrite !negb_true_iff, !Z.eqb_neq. intros H0 H. apply H0.
  replace PTE_R with (Z.land PTE_RWX PTE_R) by done. rewrite Z.land_assoc, H. done.
Qed.

Lemma lor_has f b n : 0 <= n -> b = 2 ^ n -> has f b = true -> Z.lor f b = f.
Proof.
  intros Hn -> H. unfold has in H. apply Z.bits_inj'. intros i Hi. rewrite Z.lor_spec, Z.pow2_bits_eqb by done.
  destruct (Z.eqb_spec n i) as [->|]; [|by rewrite orb_false_r]. rewrite orb_true_r.
  destruct (Z.testbit f i) eqn:E; [done|]. exfalso.
  rewrite negb_true_iff, Z.eqb_neq in H. apply H. apply Z.bits_inj'. intros j Hj.
  rewrite Z.land_spec, Z.pow2_bits_eqb, Z.bits_0 by done.
  destruct (Z.eqb_spec i j) as [->|]; [by rewrite E|]. apply andb_false_r.
Qed.

(** ** Two page tables over the same memory *)
Section two.
Context {I : KernelImage} {HI : ImageOk I}.

Record two (s : kst) (fl hl : list Z) (To : gmap key Z) (ro : Z) (Tn : gmap key Z) (rn : Z) : Prop := {
  two_old : vminv s fl hl To ro;
  two_new : vminv s fl hl Tn rn;
  two_disj : forall k k' a, To !! k = Some a -> Tn !! k' <> Some a
}.

Lemma two_sym s fl hl To ro Tn rn : two s fl hl To ro Tn rn -> two s fl hl Tn rn To ro.
Proof. intros [H1 H2 H3]. split; [done..|]. intros k k' a E E'. by eapply H3. Qed.

Lemma vminv_frame s s' fl fl' hl T root :
  vminv s fl hl T root -> kinv s' fl' hl -> (forall x, ~ outside T x -> ram s' x = ram s x) ->
  (forall k a, T !! k = Some a -> ref_at s' (ref_idx a) = ref_at s (ref_idx a)) ->
  vminv s' fl' hl T root.
Proof.
  intros [K W HR] K' Hm HR'. split; [done|by eapply wf_ext|].
  intros k a E. erewrite HR' by done. by eapply HR.
Qed.

Lemma not_outside T x : ~ outside T x -> exists k a, T !! k = Some a /\ a <= x < a + 4096.
Proof.
  intros H. destruct (decide (map_Exists (fun _ a => a <= x < a + 4096) T)) as [(k & a & E & Hx)|Hn].
  - eauto.
  - destruct H. intros k a E. destruct (decide (a <= x < a + 4096)); [|lia].
    destruct Hn. exists k, a. done.
Qed.

Lemma table_not_free s fl hl T root k a : vminv s fl hl T root -> T !! k = Some a -> a ∉ fl.
Proof. intros V E Hin. eapply free_not_live; [done|]. eapply table_live; [done..|lia]. Qed.

Lemma table_outside m T root k a p x :
  pt_wf m T root -> T !! k = Some a -> page_ok p -> a <> p -> p <= x < p + 4096 -> x < a \/ a + 4096 <= x.
Proof. intros W E Hp Hne Hx. pose proof (page_disjoint a p (wf_page _ _ _ W _ _ E) Hp Hne). lia. Qed.

(** An operation on one page table leaves the other alone. *)
Lemma two_grown s s' fl fl' hl To ro Tn Tn' rn P :
  two s fl hl To ro Tn rn -> grown s s' fl fl' hl Tn Tn' rn P ->
  two s' fl' hl To ro Tn' rn /\ forall v, abs_walk (ram s') To v = abs_walk (ram s) To v.
Proof.
  intros [V1 V2 Hd] G. pose proof G as [V' (u & -> & U) _ HF HR].
  assert (Hm : forall x, ~ outside To x -> ram s' x = ram s x).
  { intros x (k & a & E & Hx)%not_outside. apply HF; [by eapply table_live|].
    intros k' a' E'. eapply table_outside; [apply V2|done|by eapply V1| |done].
    intros ->. by eapply Hd. }
  split.
  - split; [|done|].
    + eapply vminv_frame; [done|apply V'|done|]. intros k a E. apply HR; [by eapply V1|].
      by eapply table_not_free.
    + intros k k' a E E'. destruct (U _ _ E') as [E2|(_ & _ & Hu)]; [by eapply Hd|].
      eapply table_not_free; [apply V1|done|]. set_solver.
  - intros v. eapply abs_walk_ext; [apply V1|done].
Qed.

Lemma two_frame s s' fl fl' hl To ro Tn rn :
  two s fl hl To ro Tn rn -> kinv s' fl' hl -> (forall x, ram s' x = ram s x) ->
  (forall q, page_ok q -> ref_at s' (ref_idx q) <> ref_at s (ref_idx q) ->
     (forall k, To !! k <> Some q) /\ forall k, Tn !! k <> Some q) ->
  two s' fl' hl To ro Tn rn.
Proof.
  intros [V1 V2 Hd] K Hm HR. split; [| |done]; (eapply vminv_frame; [done|done|done|]);
    intros k a E; (destruct (decide (ref_at s' (ref_idx a) = ref_at s (ref_idx a))) as [|Hne]; [done|]);
    exfalso; [apply HR in Hne as [H _]; [by eapply H|by eapply V1]
             |apply HR in Hne as [_ H]; [by eapply H|by eapply V2]].
Qed.

Lemma inc_ref_data s fl hl p :
  kinv s fl hl -> page_ok p -> 1 <= ref_at s (ref_idx p) < 2 ^ 32 - 1 ->
  exists s', inc_ref p s = Ret tt s' /\ kinv s' fl hl /\ ram s' = ram s /\
    forall q, page_ok q -> ref_at s' (ref_idx q) = ref_at s (ref_idx q) + (if decide (p = q) then 1 else 0).
Proof.
  intros K Hp Hr. eexists. split; [by eapply inc_ref_run|]. split_and!.
  - apply kinv_quiet, kinv_ref_live; [done..|]. eapply kinv_counted_live; [done..|lia].
  - done.
  - intros q Hq. rewrite ref_at_quiet, ref_at_set. do 2 case_decide; subst.
    + rewrite u32_small; lia.
    + apply ref_idx_inj in H; [congruence|done..].
    + done.
    + lia.
Qed.

Lemma abs_walk_page m T v w : v / 4096 = w / 4096 -> abs_walk m T v = abs_walk m T w.
Proof. intros E. unfold abs_walk, pte_addr. by rewrite !(PX_of_page v w) by (done || lia). Qed.

(** What the child sees of a parent's entry. *)
Definition share (el : Z * nat) : Z * nat := (mkpte (PTE2PA (fst el)) (cow_flags (PTE_FLAGS (fst el))), snd el).
Definition cow_leaf (el : Z * nat) : Z * nat := (cow_pte (fst el), snd el).

(** After [k] pages from [i] on have been shared ([c] of them, one more when the
    last one failed, made copy-on-write in the parent). *)
Record shared (s s' : kst) (fl fl' hl : list Z) (To : gmap key Z) (ro : Z) (Tn Tn' : gmap key Z) (rn i : Z)
    (frames : list Z) (c k : Z) : Prop := {
  sh_two : two s' fl' hl To ro Tn' rn;
  sh_used : exists used, fl = used ++ fl' /\
    forall key a, Tn' !! key = Some a -> Tn !! key = Some a \/ a ∈ used;
  sh_old : forall v, 0 <= v < MAXVA -> abs_walk (ram s') To v =
    (if decide (i <= v < i + 4096 * c) then cow_leaf else id) <$> abs_walk (ram s) To v;
  sh_new : forall v, 0 <= v < MAXVA -> abs_walk (ram s') Tn' v =
    if decide (i <= v < i + 4096 * k) then share <$> abs_walk (ram s) To v else abs_walk (ram s) Tn v;
  sh_refs : forall q, page_ok q -> q ∉ fl -> ref_at s' (ref_idx q) = ref_at s (ref_idx q) + occ q frames;
  sh_mem : forall x, live fl hl x -> outside To x -> outside Tn x -> ram s' x = ram s x
}.

(** The part of one round of uvmcopy that marks the parent's entry. *)
Lemma mark_cow s fl hl To ro Tn rn i e t0 :
  two s fl hl To ro Tn rn -> 0 <= i < MAXVA -> i mod 4096 = 0 ->
  To !! K0 (PX 2 i) (PX 1 i) = Some t0 -> abs_walk (ram s) To i = Some (e, 0%nat) ->
  0 <= e < 2 ^ 64 -> has e PTE_V = true -> has e PTE_R = true ->
  exists s1, when (has (PTE_FLAGS e) PTE_W) (wr (pte_addr t0 0 i)
                (Z.lor (Z.land e (Z.lnot PTE_W)) PTE_COW)) s = Ret tt s1 /\
    two s1 fl hl To ro Tn rn /\ (forall x, outside To x -> ram s1 x = ram s x) /\
    (forall q, ref_at s1 q = ref_at s q) /\
    (forall v, abs_walk (ram s1) Tn v = abs_walk (ram s) Tn v) /\
    forall v, 0 <= v < MAXVA -> abs_walk (ram s1) To v =
      (if decide (i <= v < i + 4096) then cow_leaf else id) <$> abs_walk (ram s) To v.
Proof.
  intros T2 Hi Hal E0 He Hr HV HR. destruct (cow_pte_spec e Hr) as (Hr' & _ & _ & HV' & HR' & _).
  destruct (has (PTE_FLAGS e) PTE_W) eqn:EW; simpl.
  - destruct (set_leaf0 s fl hl To ro i t0 (cow_pte e) (fun _ => True)) as [G HA];
      [apply T2|done..|congruence|apply has_R_RWX; congruence|].
    unfold cow_pte in *. rewrite EW in *. eexists. split; [done|].
    destruct (two_grown _ _ _ _ _ _ _ _ _ _ _ (two_sym _ _ _ _ _ _ _ T2) G) as [T2' HA'].
    split_and!; [by apply two_sym|..|done|done|].
    + intros x Ho. simpl. by eapply store_outside.
    + intros v Hv. rewrite HA by done. case_decide as Hd.
      * rewrite decide_True by dlia. rewrite (abs_walk_page _ _ _ _ Hd), He. simpl.
        unfold cow_leaf, cow_pte. simpl. by rewrite EW.
      * rewrite decide_False by dlia. by rewrite option_fmap_id.
  - exists s. split_and!; [done..|]. intros v Hv. case_decide as Hd.
    + rewrite (abs_walk_page _ _ v i) by dlia. rewrite He. simpl. unfold cow_leaf, cow_pte. simpl. by rewrite EW.
    + by rewrite option_fmap_id.
Qed.

Lemma shared_of s s1 s' fl fl' hl To ro Tn Tn' rn i frames k :
  0 <= i < MAXVA -> i mod 4096 = 0 -> k = 0 \/ k = 1 ->
  two s' fl' hl To ro Tn' rn ->
  (exists used, fl = used ++ fl' /\ forall key a, Tn' !! key = Some a -> Tn !! key = Some a \/ a ∈ used) ->
  (forall v, 0 <= v < MAXVA -> abs_walk (ram s1) To v =
      (if decide (i <= v < i + 4096) then cow_leaf else id) <$> abs_walk (ram s) To v) ->
  (forall v, abs_walk (ram s1) Tn v = abs_walk (ram s) Tn v) ->
  (forall x, outside To x -> ram s1 x = ram s x) ->
  (forall x, live fl hl x -> outside Tn x -> ram s' x = ram s1 x) ->
  (forall v, abs_walk (ram s') To v = abs_walk (ram s1) To v) ->
  (forall v, 0 <= v < MAXVA -> abs_walk (ram s') Tn' v =
     if decide (k = 1 /\ v / 4096 = i / 4096) then share <$> abs_walk (ram s) To v else abs_walk (ram s1) Tn v) ->
  (forall q, page_ok q -> q ∉ fl -> ref_at s' (ref_idx q) = ref_at s (ref_idx q) + occ q frames) ->
  shared s s' fl fl' hl To ro Tn Tn' rn i frames 1 k.
Proof.
  intros Hi Hal Hk T2 HU HO HN HM HF HO' HN' HR. split; [done|done|..].
  - intros v Hv. rewrite HO', HO by done. by rewrite Z.mul_1_r.
  - intros v Hv. rewrite HN' by done.
    destruct (decide (k = 1 /\ v / 4096 = i / 4096)) as [[-> Hd]|Hd].
    + rewrite decide_True by dlia. done.
    + rewrite decide_False, HN; [done|]. destruct Hk as [->| ->]; [lia|]. dlia.
  - done.
  - intros x Hl Ho Hon. by rewrite HF, HM by done.
Qed.

Lemma share_perm e :
  has e PTE_V = true -> has e PTE_R = true -> 0 <= e < 2 ^ 64 ->
  0 <= cow_flags (PTE_FLAGS e) < 1024 /\ has (cow_flags (PTE_FLAGS e)) PTE_RWX = true /\
  Z.lor (cow_flags (PTE_FLAGS e)) PTE_V = cow_flags (PTE_FLAGS e).
Proof.
  intros HV HR Hr. destruct (cow_pte_spec e Hr) as (_ & _ & Hf & HV' & HR' & _). rewrite <- Hf.
  split; [apply flags_range|]. split.
  - rewrite <- has_flags by (unfold PTE_RWX; lia). apply has_R_RWX. congruence.
  - apply (lor_has _ _ 0); [done..|]. rewrite <- has_flags by clia. congruence.
Qed.

(** The round up to the mapping in the child. *)
Definition share_page (ro rn i : Z) (k : Z -> Z -> M kst (option Z)) : M kst (option Z) :=
  pte <- walk ro i false ;;
  if pte =? 0 then panic "uvmcopy: pte should exist" else
  e <- rd pte ;;
  if negb (has e PTE_V) then panic "uvmcopy: page not present" else
  when (has (PTE_FLAGS e) PTE_W) (wr pte (Z.lor (Z.land e (Z.lnot PTE_W)) PTE_COW)) ;;
  inc_ref (PTE2PA e) ;;
  r <- mappages rn i PGSIZE (PTE2PA e) (cow_flags (PTE_FLAGS e)) ;;
  k e r.

Section step.
Context (s : kst) (fl hl : list Z) (To : gmap key Z) (ro : Z) (Tn : gmap key Z) (rn i e : Z).
Context (T2 : two s fl hl To ro Tn rn) (Hi : 0 <= i < MAXVA) (Hal : i mod 4096 = 0).
Context (Ho : abs_walk (ram s) To i = Some (e, 0%nat)) (Hn : abs_walk (ram s) Tn i = None).
Context (HR : has e PTE_R = true).
Context (Hdo : data_page To (PTE2PA e)) (Hdn : data_page Tn (PTE2PA e)).
Context (Hrf : 1 <= ref_at s (ref_idx (PTE2PA e)) < 2 ^ 32 - 1).

Lemma share_page_run (k : Z -> Z -> M kst (option Z)) :
  exists s1 s2 s3 r fl3 Tn3 P, share_page ro rn i k s = k e r s3 /\
    (forall x, outside To x -> ram s1 x = ram s x) /\
    (forall v, abs_walk (ram s1) Tn v = abs_walk (ram s) Tn v) /\
    (forall v, 0 <= v < MAXVA -> abs_walk (ram s1) To v =
      (if decide (i <= v < i + 4096) then cow_leaf else id) <$> abs_walk (ram s) To v) /\
    ram s2 = ram s1 /\
    (forall q, page_ok q -> ref_at s2 (ref_idx q) =
       ref_at s (ref_idx q) + (if decide (PTE2PA e = q) then 1 else 0)) /\
    two s2 fl hl To ro Tn rn /\ grown s2 s3 fl fl3 hl Tn Tn3 rn P /\
    ((r = 0 /\ forall v, 0 <= v < MAXVA -> abs_walk (ram s3) Tn3 v =
        if decide (v / 4096 = i / 4096)
        then Some (mkpte (PTE2PA e) (cow_flags (PTE_FLAGS e)), 0%nat) else abs_walk (ram s2) Tn v) \/
     (r = -1 /\ fl3 = [] /\ forall v, abs_walk (ram s3) Tn3 v = abs_walk (ram s2) Tn v)).
Proof.
  pose proof T2 as [Vo Vn _]. pose proof Vo as [_ Wo _].
  destruct (abs_walk_l0 _ _ _ _ _ Wo Ho) as (t1 & t0 & _ & E0 & _ & L0 & HV & _).
  assert (Her : 0 <= e < 2 ^ 64) by (rewrite <- L0; apply load64_range).
  destruct (share_perm e HV HR Her) as (Hp1 & Hp2 & Hp3).
  destruct (mark_cow s fl hl To ro Tn rn i e t0) as (s1 & E1 & T21 & M1 & R1 & N1 & O1); try done.
  destruct (inc_ref_data s1 fl hl (PTE2PA e)) as (s2 & E2 & K2 & M2 & R2);
    [apply T21|apply Hdo|by rewrite R1|].
  assert (T22 : two s2 fl hl To ro Tn rn).
  { eapply two_frame; [done|done|by rewrite M2|]. intros q Hq. rewrite R2 by done.
    case_decide; [subst; intros _; split; [apply Hdo|apply Hdn]|lia]. }
  pose proof (page_ok_range _ (proj1 Hdo)) as Hrg.
  destruct (mappages_page _ Hp1 Hp2 s2 fl hl Tn rn i (PTE2PA e))
    as (r & s3 & fl3 & Tn3 & E3 & G3 & HR3); [apply T22|done|done| |by rewrite M2, N1|].
  { split; [clia|apply Hdo]. }
  rewrite Hp3 in HR3. exists s1, s2, s3, r, fl3, Tn3, (on_path i i). split_and!; try done.
  - unfold share_page. erewrite bind_ret by (eapply walk_lookup; [done|lia]). rewrite E0.
    erewrite pte_addr_pos by done. unfold rd. mstep. rewrite L0, HV. cbn [negb].
    erewrite bind_ret by done. erewrite bind_ret by done. by erewrite bind_ret by done.
  - intros q Hq. by rewrite R2, R1.
Qed.

(** One round of uvmcopy: the page is shared, or memory ran out and the count is
    restored. *)
Lemma share_step (k : M kst (option Z)) :
  exists s' fl' Tn',
    let run := share_page ro rn i (fun e r =>
      if negb (r =? 0) then kfree (PTE2PA e) ;; ret (Some i) else k) s in
    (run = k s' /\ shared s s' fl fl' hl To ro Tn Tn' rn i [PTE2PA e] 1 1) \/
    (run = Ret (Some i) s' /\ fl' = [] /\ shared s s' fl fl' hl To ro Tn Tn' rn i [] 1 0).
Proof.
  destruct (share_page_run (fun e r => if negb (r =? 0) then kfree (PTE2PA e) ;; ret (Some i) else k))
    as (s1 & s2 & s3 & r & fl3 & Tn3 & P & -> & M1 & N1 & O1 & M2 & R2 & T22 & G3 & HR3).
  destruct (two_grown _ _ _ _ _ _ _ _ _ _ _ T22 G3) as [T23 HO3].
  pose proof G3 as [_ (u & Hu & U) _ F3 RR3]. rewrite M2 in *.
  assert (Hused : exists used, fl = used ++ fl3 /\
    forall key a, Tn3 !! key = Some a -> Tn !! key = Some a \/ a ∈ used)
    by (exists u; split; [done|naive_solver]).
  destruct HR3 as [[-> HA3]|(-> & -> & HA3)].
  - exists s3, fl3, Tn3. left. split; [done|].
    eapply (shared_of s s1); try done; [by right| |].
    + intros v Hv. rewrite HA3 by done. case_decide as Hd.
      * rewrite decide_True, (abs_walk_page _ _ v i Hd), Ho by done. done.
      * rewrite decide_False; [done|]. by intros [_ ?].
    + intros q Hq Hqf. rewrite RR3, R2, occ_cons, occ_nil by done. lia.
  - assert (Hnf : PTE2PA e ∉ fl).
    { intros Hin. apply (free_not_live fl hl (PTE2PA e)); [done|].
      eapply kinv_counted_live; [apply T2|apply Hdo|lia]. }
    assert (H3 : ref_at s3 (ref_idx (PTE2PA e)) = ref_at s (ref_idx (PTE2PA e)) + 1).
    { rewrite RR3, R2, decide_True by (done || apply Hdo). done. }
    destruct (kfree_data s3 [] hl To ro (PTE2PA e)) as (s4 & E4 & V4 & R4 & M4); [apply T23|done|lia|].
    rewrite decide_False in V4 by lia.
    assert (Hm : forall x, ram s4 x = ram s3 x) by (intros x; apply M4; lia).
    assert (T24 : two s4 [] hl To ro Tn3 rn).
    { eapply two_frame; [done|apply V4|done|]. intros q Hq. rewrite R4 by done. case_decide; [subst|lia].
      intros _. split; [apply Hdo|]. intros key E. destruct (U _ _ E) as [E'|(_ & _ & Hin)].
      - by eapply Hdn. - apply Hnf. set_solver. }
    exists s4, [], Tn3. right. split_and!; [change (negb (-1 =? 0)) with true; cbv zeta iota; by erewrite bind_ret by done|done|].
    eapply (shared_of s s1); try done; [by left|..].
    + intros x Hl Hox. by rewrite Hm, F3.
    + intros v. rewrite <- HO3. eapply abs_walk_ext; [apply T23|]. intros; apply Hm.
    + intros v Hv. rewrite decide_False by lia. rewrite <- HA3. eapply abs_walk_ext; [apply T23|]. intros; apply Hm.
    + intros q Hq Hqf. rewrite R4, RR3, R2, occ_nil by done. lia.
Qed.
End step.

Lemma shared_refl s fl hl To ro Tn rn i :
  two s fl hl To ro Tn rn -> shared s s fl fl hl To ro Tn Tn rn i [] 0 0.
Proof.
  intros T2. split; [done|..].
  - exists []. split; [done|]. auto.
  - intros v Hv. rewrite decide_False by lia. by rewrite option_fmap_id.
  - intros v Hv. by rewrite decide_False by lia.
  - intros q Hq _. rewrite occ_nil. lia.
  - done.
Qed.

Lemma shared_trans s s1 s2 fl fl1 fl2 hl To ro Tn Tn1 Tn2 rn i p frames c k :
  0 <= k <= c -> shared s s1 fl fl1 hl To ro Tn Tn1 rn i [p] 1 1 ->
  shared s1 s2 fl1 fl2 hl To ro Tn1 Tn2 rn (i + 4096) frames c k ->
  shared s s2 fl fl2 hl To ro Tn Tn2 rn i (p :: frames) (c + 1) (k + 1).
Proof.
  intros Hk [_ (u1 & -> & U1) O1 N1 R1 M1] [T2 (u2 & -> & U2) O2 N2 R2 M2]. split; [done|..].
  - exists (u1 ++ u2). split; [by rewrite app_assoc|]. intros key a E2.
    destruct (U2 _ _ E2) as [E1|]; [destruct (U1 _ _ E1)|]; set_solver.
  - intros v Hv. rewrite O2, O1 by done. rewrite <- option_fmap_compose.
    repeat case_decide; try lia; done.
  - intros v Hv. rewrite N2, N1, O1 by done.
    repeat case_decide; try lia; by rewrite ?option_fmap_id.
  - intros q Hq Hn. rewrite R2, R1 by (done || set_solver). rewrite !occ_cons, occ_nil. lia.
  - intros x Hl Ho Hon. rewrite M2, M1; try done; [by eapply live_app|].
    intros key a E1. destruct (U1 _ _ E1) as [E|Hin]; [eauto|]. apply Hl. set_solver.
Qed.

(** The pages to share: readable, counted, and no tables. *)
Definition share_ok (s : kst) (To Tn : gmap key Z) (es : list Z) : Prop :=
  forall e, e ∈ es -> has e PTE_R = true /\ data_page To (PTE2PA e) /\ data_page Tn (PTE2PA e) /\
    1 <= ref_at s (ref_idx (PTE2PA e)) /\
    ref_at s (ref_idx (PTE2PA e)) + occ (PTE2PA e) (PTE2PA <$> es) < 2 ^ 32.

Lemma counted_not_free s fl hl p : kinv s fl hl -> page_ok p -> 1 <= ref_at s (ref_idx p) -> p ∉ fl.
Proof. intros K Hp Hr Hin. eapply free_not_live; [done|]. eapply kinv_counted_live; [done..|lia]. Qed.

Lemma share_ok_tail s s1 fl fl1 hl To ro Tn Tn1 rn i e es :
  kinv s fl hl -> share_ok s To Tn (e :: es) ->
  shared s s1 fl fl1 hl To ro Tn Tn1 rn i [PTE2PA e] 1 1 -> share_ok s1 To Tn1 es.
Proof.
  intros K HS [_ (u & -> & U) _ _ R1 _] x Hx. destruct (HS x ltac:(set_solver)) as (H1 & H2 & H3 & H4 & H5).
  assert (Hnf : PTE2PA x ∉ u ++ fl1) by (eapply counted_not_free; [done|apply H2|done]).
  rewrite R1 by (done || apply H2). rewrite fmap_cons, !occ_cons in *. rewrite occ_nil.
  split_and!; try done; [|case_decide; lia|lia].
  split; [apply H2|]. intros key E. destruct (U _ _ E); [by eapply H3|]. set_solver.
Qed.

Lemma uvmcopy_loop_spec fuel hl To ro rn sz : forall es s fl Tn i,
  two s fl hl To ro Tn rn -> 0 <= i -> i mod 4096 = 0 -> i - 4096 < sz ->
  Z.of_nat (length es) = (sz - i + 4095) / 4096 -> i + 4096 * Z.of_nat (length es) <= MAXVA ->
  entries_at (ram s) To i es ->
  (forall v, i <= v < i + 4096 * Z.of_nat (length es) -> abs_walk (ram s) Tn v = None) ->
  share_ok s To Tn es -> (length es <= fuel)%nat ->
  exists res s' fl' Tn' c k, uvmcopy_loop fuel ro rn i sz s = Ret res s' /\
    shared s s' fl fl' hl To ro Tn Tn' rn i (PTE2PA <$> take k es) c (Z.of_nat k) /\
    ((res = None /\ k = length es /\ c = Z.of_nat k) \/
     (res = Some (i + 4096 * Z.of_nat k) /\ (k < length es)%nat /\ c = Z.of_nat k + 1 /\ fl' = [])).
Proof.
  assert (Hnil : forall fuel s fl Tn i, two s fl hl To ro Tn rn -> i - 4096 < sz ->
    0 = (sz - i + 4095) / 4096 -> uvmcopy_loop fuel ro rn i sz s = Ret None s).
  { intros fuel' s fl Tn i _ Hsz Hl. destruct fuel'; cbn [uvmcopy_loop];
      (destruct (Z.ltb_spec i sz); [dlia|done]). }
  induction fuel as [|fuel IH]; intros es s fl Tn i T2 Hi Hal Hsz Hlen Hmax HE Hun HS Hf;
    (destruct es as [|e es]; simpl length in *;
      [exists None, s, fl, Tn, 0, 0%nat; split_and!; [by eapply Hnil|by apply shared_refl|by left]|]); [lia|].
  apply entries_at_cons in HE as [He HE].
  cbn [uvmcopy_loop]. destruct (Z.ltb_spec i sz); [cbn [negb]|dlia].
  destruct (HS e ltac:(set_solver)) as (H1 & H2 & H3 & H4 & H5).
  rewrite fmap_cons, occ_cons, decide_True in H5 by done. pose proof (occ_pos (PTE2PA e) (PTE2PA <$> es)).
  destruct (share_step s fl hl To ro Tn rn i e T2 ltac:(lia) Hal He ltac:(apply Hun; lia) H1 H2 H3 ltac:(lia)
    (uvmcopy_loop fuel ro rn (i + PGSIZE) sz)) as (s1 & fl1 & Tn1 & HR).
  unfold share_page, cow_flags, swap_bits in HR. cbv zeta in HR. destruct HR as [[-> S1]|(-> & -> & S1)].
  - destruct (IH es s1 fl1 Tn1 (i + 4096)) as (res & s2 & fl2 & Tn2 & c & k & E2 & S2 & HR);
      [apply S1|lia|dlia|lia|dlia|lia|..|lia|].
    + intros j x Ej. pose proof (lookup_lt_Some _ _ _ Ej).
      rewrite (sh_old _ _ _ _ _ _ _ _ _ _ _ _ _ _ S1), decide_False, option_fmap_id by lia. by apply HE.
    + intros v Hv. rewrite (sh_new _ _ _ _ _ _ _ _ _ _ _ _ _ _ S1), decide_False by lia. apply Hun. lia.
    + eapply share_ok_tail; [apply T2|done..].
    + exists res, s2, fl2, Tn2, (c + 1), (S k). split; [done|]. split.
      * simpl take. rewrite fmap_cons, Nat2Z.inj_succ. eapply shared_trans; [|done..]. naive_solver lia.
      * destruct HR as [(-> & -> & ->)|(-> & Hk & -> & ->)]; [left|right]; split_and!; try done; try lia.
        f_equal. lia.
  - exists (Some i), s1, [], Tn1, 1, 0%nat. split; [done|]. split; [done|].
    right. split_and!; [f_equal; lia|lia|done..].
Qed.

(** ** uvmcopy *)
Lemma PTE2PA_mod e : PTE2PA e mod 4096 = 0.
Proof.
  rewrite PTE2PA_spec. unfold u64. change (2 ^ 64) with (4096 * 2 ^ 52).
  rewrite (Z.mul_comm (e / 1024)), Z.mul_mod_distr_l by lia. dlia.
Qed.

Lemma translate_l0 m T root v e :
  pt_wf m T root -> abs_walk m T v = Some (e, 0%nat) ->
  translate m root v = Some (PTE2PA e + v mod 4096, PTE_FLAGS e).
Proof.
  intros W E. erewrite translate_abs, E by done. unfold leaf_pa. cbn [fst snd].
  change (2 ^ (12 + 9 * Z.of_nat 0)) with 4096. by rewrite PTE2PA_mod.
Qed.

Lemma entries_at_lookup m T a es v :
  entries_at m T a es -> a mod 4096 = 0 -> a <= v < a + 4096 * Z.of_nat (length es) ->
  exists e, e ∈ es /\ abs_walk m T v = Some (e, 0%nat).
Proof.
  intros HE Hal Hv. destruct (lookup_lt_is_Some_2 es (Z.to_nat ((v - a) / 4096))) as [e E]; [dlia|].
  exists e. split; [by eapply list_elem_of_lookup_2|]. rewrite <- (HE _ _ E). apply abs_walk_page. dlia.
Qed.

Lemma share_entries s s' fl fl' hl To ro Tn Tn' rn i es c k :
  entries_at (ram s) To i es -> shared s s' fl fl' hl To ro Tn Tn' rn i (PTE2PA <$> take k es) c (Z.of_nat k) ->
  0 <= i -> i + 4096 * Z.of_nat (length es) <= MAXVA -> (k <= length es)%nat ->
  entries_at (ram s') Tn' i ((fun e => mkpte (PTE2PA e) (cow_flags (PTE_FLAGS e))) <$> take k es).
Proof.
  intros HE SH Hi Hmax Hk j x E. rewrite list_lookup_fmap in E.
  apply fmap_Some in E as (e & [E Hj]%lookup_take_Some & ->). pose proof (lookup_lt_Some _ _ _ E).
  rewrite (sh_new _ _ _ _ _ _ _ _ _ _ _ _ _ _ SH), decide_True, (HE _ _ E) by lia. done.
Qed.

Lemma occ_take q k l : occ q (PTE2PA <$> take k l) <= occ q (PTE2PA <$> l).
Proof. rewrite <- (take_drop k l) at 2. rewrite fmap_app. unfold occ. rewrite filter_app, length_app. lia. Qed.

Lemma share_PTE2PA s fl hl To ro Tn rn a es e j :
  two s fl hl To ro Tn rn -> entries_at (ram s) To a es -> share_ok s To Tn es -> es !! j = Some e ->
  PTE2PA (mkpte (PTE2PA e) (cow_flags (PTE_FLAGS e))) = PTE2PA e /\
  PTE_FLAGS (mkpte (PTE2PA e) (cow_flags (PTE_FLAGS e))) = cow_flags (PTE_FLAGS e).
Proof.
  intros T2 HE HS E. destruct (HS e (list_elem_of_lookup_2 _ _ _ E)) as (HR & [Hp _] & _).
  destruct (abs_walk_l0 _ _ _ _ _ (vm_wf _ _ _ _ _ (two_old _ _ _ _ _ _ _ T2)) (HE _ _ E))
    as (_ & t0 & _ & _ & _ & L0 & HV & _).
  assert (Hr : 0 <= e < 2 ^ 64) by (rewrite <- L0; apply load64_range).
  apply page_ok_pte; [done|]. by apply share_perm.
Qed.

(** The pages of the shared prefix are data pages of the child, and counted. *)
Lemma share_frames s s' fl fl' hl To ro Tn Tn' rn i es c k p :
  kinv s fl hl -> share_ok s To Tn es ->
  shared s s' fl fl' hl To ro Tn Tn' rn i (PTE2PA <$> take k es) c (Z.of_nat k) ->
  p ∈ (PTE2PA <$> take k es) ->
  data_page To p /\ data_page Tn' p /\ (p ∉ fl) /\ 1 <= ref_at s (ref_idx p) /\
  ref_at s' (ref_idx p) = ref_at s (ref_idx p) + occ p (PTE2PA <$> take k es) /\
  ref_at s' (ref_idx p) < 2 ^ 32.
Proof.
  intros K HS [_ (u & -> & U) _ _ R _] Hp. pose proof Hp as (e & -> & Hin)%list_elem_of_fmap.
  apply list_elem_of_lookup in Hin as (j & [E _]%lookup_take_Some).
  destruct (HS e (list_elem_of_lookup_2 _ _ _ E)) as (_ & Hdo & [Hok Hn] & H1 & H2).
  assert (Hnf : PTE2PA e ∉ u ++ fl') by (eapply counted_not_free; [done..]).
  rewrite R by done. pose proof (occ_take (PTE2PA e) k es). split_and!; try done; [|lia].
  split; [done|]. intros key E'. destruct (U _ _ E'); [by eapply Hn|]. set_solver.
Qed.

(** Undoing a failed copy: the child's mappings go, and so do their references. *)
Lemma unshare s s' fl hl To ro Tn Tn' rn es c k :
  two s fl hl To ro Tn rn -> entries_at (ram s) To 0 es -> share_ok s To Tn es ->
  (forall v, 0 <= v < 4096 * Z.of_nat (length es) -> abs_walk (ram s) Tn v = None) ->
  4096 * Z.of_nat (length es) <= MAXVA -> (k <= length es)%nat ->
  shared s s' fl [] hl To ro Tn Tn' rn 0 (PTE2PA <$> take k es) c (Z.of_nat k) ->
  exists s'', uvmunmap rn 0 (Z.of_nat k) true s' = Ret tt s'' /\
    two s'' [] hl To ro Tn' rn /\
    (forall v, 0 <= v < MAXVA -> abs_walk (ram s'') Tn' v = abs_walk (ram s) Tn v) /\
    (forall v, abs_walk (ram s'') To v = abs_walk (ram s') To v) /\
    (forall q, page_ok q -> q ∉ fl -> ref_at s'' (ref_idx q) = ref_at s (ref_idx q)) /\
    (forall x, outside Tn' x -> ram s'' x = ram s' x).
Proof.
  intros T2 HE HS Hun Hmax Hk SH. pose proof (sh_two _ _ _ _ _ _ _ _ _ _ _ _ _ _ SH) as [Vo Vn Hd].
  pose proof (fun p => share_frames _ _ _ _ _ _ _ _ _ _ _ _ _ _ p (vm_kinv _ _ _ _ _ (two_old _ _ _ _ _ _ _ T2)) HS SH) as Hfr.
  pose proof SH as [_ (u & Hu & U) _ N R M].
  set (es' := (fun e => mkpte (PTE2PA e) (cow_flags (PTE_FLAGS e))) <$> take k es).
  assert (Hlen : length es' = k) by (unfold es'; rewrite length_fmap, length_take; lia).
  assert (Hpa : (PTE2PA <$> es') = (PTE2PA <$> take k es)).
  { unfold es'. rewrite <- list_fmap_compose. apply list_fmap_ext. intros j e [E _]%lookup_take_Some.
    exact (proj1 (share_PTE2PA _ _ _ _ _ _ _ _ _ _ _ T2 HE HS E)). }
  destruct (unmapped_loop k hl Tn' rn true es' s' [] 0 (4096 * Z.of_nat k)) as (s'' & fl'' & E & UM);
    [done|done|done|lia|lia|by eapply share_entries| |lia|].
  { intros _ p Hp. rewrite Hpa in *. destruct (Hfr p Hp) as (_ & Hdp & Hnf & H1 & H2 & H3). split; [done|]. lia. }
  pose proof UM as [V'' W'' R'' (freed & -> & F'') M'']. rewrite Hpa in *. rewrite app_nil_r in *.
  assert (Hno : forall q, q ∈ (PTE2PA <$> take k es) -> ref_at s'' (ref_idx q) <> 0).
  { intros q Hq. destruct (Hfr q Hq) as (_ & [Hp _] & Hnf & H1 & H2 & _). rewrite R'' by done. lia. }
  assert (freed = []) as ->.
  { destruct freed as [|q]; [done|]. destruct (proj1 (F'' q) ltac:(set_solver)). naive_solver. }
  assert (Hm : forall x, outside Tn' x -> ram s'' x = ram s' x) by (intros; apply M''; naive_solver).
  assert (Hmo : forall x, ~ outside To x -> ram s'' x = ram s' x).
  { intros x (key & a & Ea & Hx)%not_outside. apply Hm. intros k' a' E'.
    eapply table_outside; [apply Vn|done|by eapply Vo| |done]. intros ->. by eapply Hd. }
  exists s''. split_and!; try done.
  - unfold uvmunmap. cbn [Z.modulo]. change (negb (0 mod PGSIZE =? 0)) with false. cbv iota.
    rewrite Nat2Z.id, Z.add_0_l, u64_small by clia. unfold PGSIZE. by rewrite Z.mul_comm.
  - split; [|done|done]. eapply vminv_frame; [done|apply V''|done|].
    intros key a Ea. rewrite R'' by by eapply Vo. rewrite occ_not_elem; [lia|].
    intros Hin. destruct (Hfr a Hin) as ([_ Hdo] & _). by eapply Hdo.
  - intros v Hv. rewrite W'', N by done. repeat case_decide; try lia; [|done]. symmetry. apply Hun. lia.
  - intros v. eapply abs_walk_ext; [apply Vo|done].
  - intros q Hq Hn. rewrite R'', R by done. lia.
Qed.

(** The translation of a shared page: the same address, no longer writable. *)
Definition cow_tr (o : option (Z * Z)) : option (Z * Z) :=
  match o with Some (pa, f) => Some (pa, cow_flags f) | None => None end.

Lemma shared_translate s s' fl fl' hl To ro Tn Tn' rn es c k v :
  two s fl hl To ro Tn rn -> entries_at (ram s) To 0 es -> share_ok s To Tn es ->
  shared s s' fl fl' hl To ro Tn Tn' rn 0 (PTE2PA <$> take k es) c (Z.of_nat k) ->
  0 <= Z.of_nat k <= c -> c <= Z.of_nat (length es) -> 0 <= v < MAXVA ->
  translate (ram s') ro v =
    (if decide (v < 4096 * c) then cow_tr (translate (ram s) ro v) else translate (ram s) ro v) /\
  translate (ram s') rn v =
    (if decide (v < 4096 * Z.of_nat k) then cow_tr (translate (ram s) ro v) else translate (ram s) rn v).
Proof.
  intros T2 HE HS SH Hk Hc Hv. pose proof T2 as [[_ Wo _] [_ Wn _] _].
  pose proof SH as [[[_ Wo' _] [_ Wn' _] _] _ HO HN _ _].
  assert (Hin : v < 4096 * c -> exists e, abs_walk (ram s) To v = Some (e, 0%nat) /\ 0 <= e < 2 ^ 64 /\
    PTE2PA (mkpte (PTE2PA e) (cow_flags (PTE_FLAGS e))) = PTE2PA e /\
    PTE_FLAGS (mkpte (PTE2PA e) (cow_flags (PTE_FLAGS e))) = cow_flags (PTE_FLAGS e)).
  { intros Hlt. destruct (entries_at_lookup _ _ _ _ v HE eq_refl) as (e & Hin & E); [lia|].
    apply list_elem_of_lookup in Hin as [j Ej].
    destruct (abs_walk_l0 _ _ _ _ _ Wo E) as (_ & t0 & _ & _ & _ & L0 & _).
    exists e. split; [done|]. split; [rewrite <- L0; apply load64_range|]. by eapply share_PTE2PA. }
  specialize (HO v Hv). specialize (HN v Hv).
  split; [destruct (decide (v < 4096 * c)) as [Hd|Hd]|destruct (decide (v < 4096 * Z.of_nat k)) as [Hd|Hd]].
  - destruct (Hin Hd) as (e & E & Hr & _). rewrite decide_True, E in HO by lia.
    destruct (cow_pte_spec e Hr) as (_ & H2 & H3 & _).
    rewrite (translate_l0 (ram s) To ro v e Wo E), (translate_l0 (ram s') To ro v (cow_pte e) Wo' HO).
    by rewrite H2, H3.
  - rewrite decide_False, option_fmap_id in HO by lia. erewrite !translate_abs by done. by rewrite HO.
  - destruct (Hin ltac:(lia)) as (e & E & Hr & H2 & H3). rewrite decide_True, E in HN by lia.
    change (abs_walk (ram s') Tn' v = Some (mkpte (PTE2PA e) (cow_flags (PTE_FLAGS e)), 0%nat)) in HN.
    rewrite (translate_l0 (ram s) To ro v e Wo E), (translate_l0 (ram s') Tn' rn v _ Wn' HN).
    by rewrite H2, H3.
  - rewrite decide_False in HN by lia. erewrite !translate_abs by done. by rewrite HN.
Qed.

(** C36: uvmcopy gives the child the parent's memory without copying any:
    on success every page below [sz] is mapped in the child at the physical page
    and with the flags it now has in the parent, writable pages became read-only
    and copy-on-write in both, and each physical page gained as many references
    as it gained mappings.  On failure the child's mappings and all reference
    counts are as before.  No memory but page tables is written. *)
Theorem uvmcopy_correct s fl hl To ro Tn rn sz es :
  two s fl hl To ro Tn rn -> 0 <= sz <= MAXVA ->
  Z.of_nat (length es) = PGROUNDUP sz / 4096 ->
  (forall i e, es !! i = Some e -> hw_walk 2 (ram s) ro (4096 * Z.of_nat i) = Some (e, 0%nat)) ->
  (forall v, 0 <= v < PGROUNDUP sz -> hw_walk 2 (ram s) rn v = None) ->
  share_ok s To Tn es ->
  exists r s' fl' Tn', uvmcopy ro rn sz s = Ret r s' /\ two s' fl' hl To ro Tn' rn /\
    (forall x, live fl hl x -> outside To x -> outside Tn x -> ram s' x = ram s x) /\
    ((r = 0 /\
      (forall v, 0 <= v < MAXVA ->
         translate (ram s') ro v = (if decide (v < PGROUNDUP sz) then cow_tr else id) (translate (ram s) ro v) /\
         translate (ram s') rn v =
           if decide (v < PGROUNDUP sz) then translate (ram s') ro v else translate (ram s) rn v) /\
      (forall q, page_ok q -> q ∉ fl ->
         ref_at s' (ref_idx q) = ref_at s (ref_idx q) + occ q (PTE2PA <$> es))) \/
     (r = -1 /\ fl' = [] /\
      (forall v, 0 <= v < MAXVA -> translate (ram s') rn v = translate (ram s) rn v /\
         exists b : bool, translate (ram s') ro v = (if b then cow_tr else id) (translate (ram s) ro v)) /\
      (forall q, page_ok q -> q ∉ fl -> ref_at s' (ref_idx q) = ref_at s (ref_idx q)))).
Proof.
  intros T2 Hsz Hlen HE Hun HS. pose proof T2 as [[_ Wo _] [_ Wn _] _].
  assert (Hup : PGROUNDUP sz = 4096 * Z.of_nat (length es) /\ PGROUNDUP sz <= MAXVA).
  { rewrite PGROUNDUP_spec in * by clia. unconst. dlia. }
  destruct Hup as [Hup Hmax]. rewrite Hup in *.
  assert (HE' : entries_at (ram s) To 0 es) by (intros i e E; erewrite <- hw_walk_abs by done; by apply HE).
  assert (Hun' : forall v, 0 <= v < 4096 * Z.of_nat (length es) -> abs_walk (ram s) Tn v = None)
    by (intros v Hv; erewrite <- hw_walk_abs by done; by apply Hun).
  unfold uvmcopy. rewrite Hup.
  destruct (uvmcopy_loop_spec (Z.to_nat (4096 * Z.of_nat (length es) / PGSIZE)) hl To ro rn sz es s fl Tn 0)
    as (res & s1 & fl1 & Tn1 & c & k & E1 & SH & HR); try done; [lia|..].
  { rewrite PGROUNDUP_spec in Hup by clia. dlia. }
  { unfold PGSIZE. dlia. }
  pose proof (fun Hk Hc v Hv => shared_translate _ _ _ _ _ _ _ _ _ _ _ _ _ v T2 HE' HS SH Hk Hc Hv) as HT.
  erewrite bind_ret by done. destruct HR as [(-> & -> & ->)|(-> & Hk & -> & ->)].
  - exists 0, s1, fl1, Tn1. split; [done|]. split; [apply SH|]. split; [apply SH|]. left. split; [done|]. split.
    + intros v Hv. destruct (HT ltac:(lia) ltac:(lia) v Hv) as [-> ->]. by case_decide.
    + rewrite firstn_all in SH. apply SH.
  - assert (Hk' : (k <= length es)%nat) by lia.
    destruct (unshare _ _ _ _ _ _ _ _ _ _ _ _ T2 HE' HS Hun' Hmax Hk' SH)
      as (s2 & E2 & T22 & HN2 & HO2 & R2 & M2).
    pose proof T22 as [[_ Wo2 _] [_ Wn2 _] _]. pose proof SH as [[[_ Wo1 _] _ _] (u & Hu & U) _ _ _ M1].
    exists (-1), s2, [], Tn1. split_and!; [|done|..|right; split_and!; [done|done| |done]].
    + rewrite Z.add_0_l. replace (4096 * Z.of_nat k / PGSIZE) with (Z.of_nat k) by (unfold PGSIZE; dlia).
      by erewrite bind_ret by done.
    + intros x Hl Ho Hon. rewrite M2, M1; [done..|]. intros key a E. destruct (U _ _ E); [eauto|].
      destruct Hl as [Hl _]. apply Hl. set_solver.
    + intros v Hv. split; [erewrite !translate_abs by done; by rewrite HN2|].
      destruct (HT ltac:(lia) ltac:(lia) v Hv) as [HT1 _].
      exists (bool_decide (v < 4096 * (Z.of_nat k + 1))). erewrite (translate_abs (ram s2)), HO2, <- translate_abs by done.
      rewrite HT1. case_bool_decide; case_decide; done.
Qed.
End two.

(** ** The write fault *)
Section fault.
Context {I : KernelImage} {HI : ImageOk I}.


(** The checks of the handler, on a copy-on-write page. *)
Lemma store_fault_checks s T root va e t0 :
  pt_wf (ram s) T root -> 0 <= va < MAXVA -> abs_walk (ram s) T va = Some (e, 0%nat) ->
  T !! K0 (PX 2 va) (PX 1 va) = Some t0 -> has e PTE_U = true -> has e PTE_COW = true ->
  store_fault root va s =
  (refs <- get_ref (PTE2PA e) ;;
   if 1 <? refs then
     mem <- kalloc ;;
     if mem =? 0 then ret true else
     modify (set_ram (fun m => copy m mem (PTE2PA e) PGSIZE)) ;;
     uvmunmap root (PGROUNDDOWN va) 1 true ;;
     r <- mappages root (PGROUNDDOWN va) PGSIZE mem (uncow (PTE_FLAGS e)) ;;
     if negb (r =? 0) then kfree mem ;; ret true else ret false
   else
     e <- rd (pte_addr t0 0 va) ;; wr (pte_addr t0 0 va) (uncow e) ;; ret false) s.
Proof.
  intros W Hva He E0 HU HC. unfold store_fault. rewrite MAXVA_guard by lia.
  destruct (abs_walk_l0 _ _ _ _ _ W He) as (_ & t0' & _ & E0' & _ & L0 & HV & _).
  rewrite E0 in E0'. injection E0' as <-.
  erewrite bind_ret by (eapply walk_found; [done|lia|done]). erewrite pte_addr_pos by done.
  unfold rd at 1. mstep. rewrite L0, HV, HU, HC. done.
Qed.

Section one_fault.
Context (s : kst) (fl hl : list Z) (T : gmap key Z) (root va e : Z).
Context (V : vminv s fl hl T root) (Hva : 0 <= va < MAXVA).
Context (He : abs_walk (ram s) T va = Some (e, 0%nat)) (HU : has e PTE_U = true) (HC : has e PTE_COW = true).
Context (Hd : data_page T (PTE2PA e)) (Hr : 1 <= ref_at s (ref_idx (PTE2PA e)) < 2 ^ 31).

(** The page of [va] is at [pa], writable; other addresses are mapped as before. *)
Definition now_at (s' : kst) (pa : Z) : Prop :=
  forall v, 0 <= v < MAXVA -> translate (ram s') root v =
    if decide (v / 4096 = va / 4096) then Some (pa + v mod 4096, uncow (PTE_FLAGS e))
    else translate (ram s) root v.

Lemma get_ref_here : get_ref (PTE2PA e) s = Ret (ref_at s (ref_idx (PTE2PA e))) (quiet s).
Proof using V Hr Hd HI.
  erewrite get_ref_run by (apply V || apply Hd). by rewrite i32_small by lia.
Qed.

(** The last reference: the page is made writable in place. *)
Lemma fault_alone :
  ref_at s (ref_idx (PTE2PA e)) = 1 ->
  exists s', store_fault root va s = Ret false s' /\ vminv s' fl hl T root /\ now_at s' (PTE2PA e) /\
    (forall q, ref_at s' q = ref_at s q) /\ forall x, outside T x -> ram s' x = ram s x.
Proof using All.
  intros H1. pose proof V as [K W HR].
  destruct (abs_walk_l0 _ _ _ _ _ W He) as (_ & t0 & _ & E0 & _ & L0 & HV & _).
  assert (Her : 0 <= e < 2 ^ 64) by (rewrite <- L0; apply load64_range).
  destruct (uncow_spec e) as (HV' & HX' & _).
  destruct (swap_bits_spec e PTE_COW PTE_W) as (Hr' & Hpa & Hfl & _); [done|clia..|].
  assert (Vq : vminv (quiet s) fl hl T root) by (split; [by apply kinv_quiet|done..]).
  destruct (set_leaf0 (quiet s) fl hl T root va t0 (uncow e) (fun _ => True)) as [G HA]; try done; [congruence|].
  eexists. split.
  - erewrite store_fault_checks by done. erewrite bind_ret by apply get_ref_here. rewrite H1.
    change (1 <? 1) with false. cbv iota. unfold rd, wr. mstep. simpl ram. rewrite L0. reflexivity.
  - split; [apply G|]. split; [|split; [done|]].
    + intros v Hv. pose proof (gr_inv _ _ _ _ _ _ _ _ _ G) as [_ W' _].
      specialize (HA v Hv). case_decide as Hdv.
      * erewrite translate_l0 by done. unfold uncow in *. by rewrite Hpa, Hfl.
      * erewrite !translate_abs by done. by rewrite HA.
    + intros x Ho. simpl. by eapply store_outside.
Qed.

(** A shared page and no memory: the process is killed, nothing changes. *)
Lemma fault_no_memory :
  1 < ref_at s (ref_idx (PTE2PA e)) -> fl = [] ->
  exists s', store_fault root va s = Ret true s' /\ vminv s' fl hl T root /\ ram s' = ram s /\
    forall q, ref_at s' q = ref_at s q.
Proof using All.
  intros H1 Hfl. pose proof V as [K W HR].
  destruct (abs_walk_l0 _ _ _ _ _ W He) as (_ & t0 & _ & E0 & _).
  assert (Kq : kinv (quiet s) [] hl) by (rewrite <- Hfl; by apply kinv_quiet).
  exists (quiet (quiet s)). split_and!; [|split; [by apply kinv_quiet, kinv_quiet|done..]|done|done].
  erewrite store_fault_checks by done. erewrite bind_ret by apply get_ref_here.
  destruct (Z.ltb_spec 1 (ref_at s (ref_idx (PTE2PA e)))); [|lia].
  by erewrite bind_ret by (by eapply kalloc_empty).
Qed.

(** The page is copied: what kalloc and memmove leave. *)
Lemma fault_copied p fl' :
  fl = p :: fl' ->
  exists s1 s2, kalloc (quiet s) = Ret p s1 /\ s2 = set_ram (fun m => copy m p (PTE2PA e) PGSIZE) s1 /\
    vminv s2 fl' hl T root /\ page_ok p /\ p <> PTE2PA e /\ data_page T p /\
    (forall v, abs_walk (ram s2) T v = abs_walk (ram s) T v) /\
    (forall q, page_ok q -> ref_at s2 (ref_idx q) = if decide (q = p) then 1 else ref_at s (ref_idx q)) /\
    (forall i, 0 <= i < 4096 -> ram s2 (p + i) = ram s (PTE2PA e + i)) /\
    (forall x, x < p \/ p + 4096 <= x -> ram s2 x = ram s x).
Proof using All.
  intros Hfl. pose proof V as [K W HR]. rewrite Hfl in K. pose proof (kinv_quiet _ _ _ K) as Kq.
  destruct (kalloc_cons _ _ _ _ Kq) as (s1 & E1 & K1 & Rp & Ro & Hm).
  pose proof (kinv_head_apart _ _ _ _ K) as (Hp & Hf & Hh).
  assert (Hpe : p <> PTE2PA e).
  { intros ->. eapply (counted_not_free s); [done|done|apply Hr|set_solver]. }
  assert (Hdp : data_page T p).
  { split; [done|]. intros key E. eapply table_not_free; [done|done|]. rewrite Hfl. set_solver. }
  pose proof (page_disjoint p (PTE2PA e) Hp (proj1 Hd) Hpe) as Hsep.
  assert (Hout : forall x, x < p \/ p + 4096 <= x -> copy (ram s1) p (PTE2PA e) PGSIZE x = ram s x).
  { intros x Hx. unfold PGSIZE. rewrite copy_out, Hm, fill_out by lia. done. }
  assert (Hrefs : forall q, page_ok q -> ref_at s1 (ref_idx q) = if decide (q = p) then 1 else ref_at s (ref_idx q)).
  { intros q Hq. case_decide; [by subst|]. rewrite Ro; [done|]. intros Eq. by apply ref_idx_inj in Eq. }
  assert (Htab : forall x, ~ outside T x -> copy (ram s1) p (PTE2PA e) PGSIZE x = ram s x).
  { intros x Hx. apply Hout. destruct (decide (p <= x < p + 4096)); [|lia].
    destruct Hx. by eapply data_page_outside. }
  exists s1, (set_ram (fun m => copy m p (PTE2PA e) PGSIZE) s1). split_and!; try done.
  - eapply vminv_frame; [exact V| |done|].
    + apply kinv_ram; [done|]. apply (live_load64 _ (copy (ram s1) p (PTE2PA e) PGSIZE) fl' hl). intros x Hx.
      destruct (decide (p <= x < p + 4096)).
      * split; [intros y Hy; apply Hf in Hy; lia|intros y Hy; apply Hh in Hy; lia].
      * destruct Hx. unfold PGSIZE. apply copy_out. lia.
    + intros key a E. change (ref_at s1 (ref_idx a) = ref_at s (ref_idx a)).
      rewrite Hrefs by by eapply W. rewrite decide_False; [done|]. intros ->. by eapply Hdp.
  - intros v. by eapply abs_walk_ext.
  - intros i Hi. simpl. unfold PGSIZE. rewrite copy_in, Hm, fill_out by lia. f_equal. lia.
Qed.

(** The entry, as a leaf: what the new mapping is made of. *)
Lemma uncow_leaf : leaf_flags (uncow (PTE_FLAGS e)) /\
  Z.lor (uncow (PTE_FLAGS e)) PTE_V = uncow (PTE_FLAGS e).
Proof using V He.
  pose proof V as [K W HR].
  destruct (abs_walk_l0 _ _ _ _ _ W He) as (_ & t0 & _ & _ & _ & L0 & HV & _).
  assert (Her : 0 <= e < 2 ^ 64) by (rewrite <- L0; apply load64_range).
  destruct (swap_bits_spec e PTE_COW PTE_W) as (_ & _ & Hfl2 & Hfr); [done|clia..|].
  destruct (uncow_spec e) as (HV' & HX' & _). fold (uncow e) (uncow (PTE_FLAGS e)) in *.
  assert (HVf : has (uncow (PTE_FLAGS e)) PTE_V = true) by (rewrite <- Hfl2, <- has_flags by clia; congruence).
  split; [split_and!|]; try done; [lia..| |].
  - rewrite <- Hfl2, <- has_flags by (unfold PTE_RWX; lia). done.
  - by apply (lor_has _ _ 0).
Qed.

(** uvmunmap and mappages move the page of [va] from its shared frame to [p]. *)
Lemma fault_moved p fl' s2 (k : Z -> M kst bool) :
  vminv s2 fl' hl T root -> data_page T p -> (forall v, abs_walk (ram s2) T v = abs_walk (ram s) T v) ->
  ref_at s2 (ref_idx (PTE2PA e)) = ref_at s (ref_idx (PTE2PA e)) -> 1 < ref_at s (ref_idx (PTE2PA e)) ->
  exists s4, (uvmunmap root (PGROUNDDOWN va) 1 true ;;
              r <- mappages root (PGROUNDDOWN va) PGSIZE p (uncow (PTE_FLAGS e)) ;; k r) s2 = k 0 s4 /\
    vminv s4 fl' hl T root /\
    (forall v, 0 <= v < MAXVA -> abs_walk (ram s4) T v =
       if decide (v / 4096 = va / 4096) then Some (mkpte p (uncow (PTE_FLAGS e)), 0%nat)
       else abs_walk (ram s) T v) /\
    (forall q, page_ok q -> ref_at s4 (ref_idx q) = ref_at s2 (ref_idx q) - occ q [PTE2PA e]) /\
    (forall x, outside T x -> ram s4 x = ram s2 x).
Proof using All.
  intros V2 Hdp W2 Hr2 H1. rewrite PGROUNDDOWN_spec. set (a := va - va mod 4096).
  assert (Ha : a / 4096 = va / 4096 /\ a mod 4096 = 0 /\ 0 <= a < MAXVA /\ a + 4096 <= MAXVA)
    by (unfold a; clear -Hva; unconst; dlia). destruct Ha as (Hpg & Hal & Ha & Ha').
  destruct (abs_walk_l0 _ _ _ _ _ (vm_wf _ _ _ _ _ V) He) as (_ & t0 & _ & E0 & _).
  assert (Hea : entries_at (ram s2) T a [e]).
  { apply entries_at_cons. split; [by rewrite (abs_walk_page _ _ a va), W2|]. intros i x [=]. }
  destruct (unmapped_loop 1 hl T root true [e] s2 fl' a (a + 4096)) as (s3 & fl3 & E3 & U3); try done; [lia|..].
  { intros _ q ->%list_elem_of_singleton. split; [done|]. simpl.
    rewrite occ_cons, occ_nil, decide_True, Hr2 by done. lia. }
  pose proof U3 as [V3 W3 R3 (freed & -> & F3) M3]. simpl in *.
  assert (Hr3 : ref_at s3 (ref_idx (PTE2PA e)) = ref_at s (ref_idx (PTE2PA e)) - 1)
    by (rewrite R3, Hr2, occ_cons, occ_nil, decide_True by (done || apply Hd); lia).
  assert (freed = []) as ->.
  { destruct freed as [|q]; [done|]. destruct (proj1 (F3 q) ltac:(set_solver)) as [->%list_elem_of_singleton ?]. lia. }
  destruct uncow_leaf as [Hlf HVf]. pose proof Hlf as (Hfr & _ & HX).
  assert (E0a : T !! K0 (PX 2 a) (PX 1 a) = Some t0) by (by rewrite !(PX_of_page a va) by (done || lia)).
  pose proof (page_ok_range p (proj1 Hdp)) as Hrg. assert (Hpp : pte_pa p) by (split; [clia|apply Hdp]).
  destruct (map_leaf0 s3 fl' hl T root a t0 p (uncow (PTE_FLAGS e)) (fun _ => True) V3 Ha E0a Hpp Hlf) as [G4 W4].
  assert (Hun : abs_walk (ram s3) T a = None) by (rewrite W3, decide_True by lia; done).
  eexists. split.
  - assert (uvmunmap root a 1 true s2 = Ret tt s3) as Eu.
    { unfold uvmunmap. unfold PGSIZE. rewrite Hal. change (negb (0 =? 0)) with false. cbv iota.
      rewrite u64_small by clia. done. }
    erewrite bind_ret by exact Eu. erewrite bind_ret by by eapply mappages_existing.
    rewrite HVf. reflexivity.
  - split; [apply G4|]. split; [|split].
    + intros v Hv. rewrite W4, W3, W2, Hpg by done. case_decide as Hne; [done|].
      rewrite decide_False; [done|]. clear -Hne Hpg Hal. dlia.
    + exact R3.
    + intros x Ho. simpl. erewrite store_outside by done. apply M3; [done|].
      intros q ->%list_elem_of_singleton ?. lia.
Qed.

(** A shared page: the process gets a copy of its own. *)
Lemma fault_shared p fl' :
  1 < ref_at s (ref_idx (PTE2PA e)) -> fl = p :: fl' ->
  exists s', store_fault root va s = Ret false s' /\ vminv s' fl' hl T root /\ now_at s' p /\
    (forall q, page_ok q -> ref_at s' (ref_idx q) =
       if decide (q = p) then 1 else ref_at s (ref_idx q) - (if decide (q = PTE2PA e) then 1 else 0)) /\
    (forall i, 0 <= i < 4096 -> ram s' (p + i) = ram s (PTE2PA e + i)) /\
    (forall x, outside T x -> x < p \/ p + 4096 <= x -> ram s' x = ram s x).
Proof using All.
  intros H1 Hfl.
  destruct (fault_copied p fl' Hfl) as (s1 & s2 & Ek & Es2 & V2 & Hp & Hpe & Hdp & W2 & R2 & C2 & M2).
  destruct (fault_moved p fl' s2 (fun r => if negb (r =? 0) then kfree p ;; ret true else ret false))
    as (s4 & E4 & V4 & W4 & R4 & M4); try done.
  { rewrite R2 by apply Hd. by rewrite decide_False. }
  pose proof (page_ok_range p Hp) as Hrg.
  destruct (abs_walk_l0 _ _ _ _ _ (vm_wf _ _ _ _ _ V) He) as (_ & t0 & _ & E0 & _).
  destruct (page_ok_pte p (uncow (PTE_FLAGS e)) Hp) as (_ & Hpa & Hpf); [apply uncow_leaf|].
  exists s4. split_and!; [|done|..].
  - erewrite store_fault_checks by (done || apply V). erewrite bind_ret by apply get_ref_here.
    destruct (Z.ltb_spec 1 (ref_at s (ref_idx (PTE2PA e)))); [|lia].
    erewrite bind_ret by done. destruct (Z.eqb_spec p 0); [lia|]. mstep. rewrite <- Es2. exact E4.
  - intros v Hv. specialize (W4 v Hv). case_decide.
    + erewrite translate_l0 by (apply V4 || exact W4). by rewrite Hpa, Hpf.
    + erewrite !translate_abs by (apply V || apply V4). by rewrite W4.
  - intros q Hq. rewrite R4, R2, occ_cons, occ_nil by done.
    repeat case_decide; subst; try lia; done.
  - intros i Hi. rewrite M4, C2 by (done || (eapply data_page_outside; [apply V|done|lia])). done.
  - intros x Ho Hx. rewrite M4, M2 by done. done.
Qed.
End one_fault.

(** C37: a store fault on a copy-on-write page makes the page writable for
    this process alone.  If it was the last reference the page stays; if it is
    shared, the process gets a fresh page with the same bytes, the shared page
    loses one reference and keeps its contents, and every other page and mapping
    is untouched; if no memory is left the process is killed and nothing changes. *)
Theorem store_fault_correct s fl hl T root va e :
  vminv s fl hl T root -> 0 <= va < MAXVA -> hw_walk 2 (ram s) root va = Some (e, 0%nat) ->
  has e PTE_U = true -> has e PTE_COW = true -> data_page T (PTE2PA e) ->
  1 <= ref_at s (ref_idx (PTE2PA e)) < 2 ^ 31 ->
  exists b s', store_fault root va s = Ret b s' /\
    (ref_at s (ref_idx (PTE2PA e)) = 1 ->
       b = false /\ vminv s' fl hl T root /\ now_at s root va e s' (PTE2PA e) /\
       (forall q, ref_at s' q = ref_at s q) /\ forall x, outside T x -> ram s' x = ram s x) /\
    (1 < ref_at s (ref_idx (PTE2PA e)) ->
       match fl with
       | [] => b = true /\ vminv s' fl hl T root /\ ram s' = ram s /\ forall q, ref_at s' q = ref_at s q
       | p :: fl' =>
           b = false /\ vminv s' fl' hl T root /\ now_at s root va e s' p /\
           (forall q, page_ok q -> ref_at s' (ref_idx q) =
              if decide (q = p) then 1 else ref_at s (ref_idx q) - (if decide (q = PTE2PA e) then 1 else 0)) /\
           (forall i, 0 <= i < 4096 -> ram s' (p + i) = ram s (PTE2PA e + i)) /\
           (forall x, outside T x -> x < p \/ p + 4096 <= x -> ram s' x = ram s x)
       end).
Proof.
  intros V Hva He HU HC Hd Hr. erewrite hw_walk_abs in He by apply V.
  destruct (decide (ref_at s (ref_idx (PTE2PA e)) = 1)) as [H1|H1].
  - destruct (fault_alone s fl hl T root va e V Hva He HU HC Hd Hr H1) as (s' & E & H).
    exists false, s'. split; [done|]. split; [done|lia].
  - assert (H2 : 1 < ref_at s (ref_idx (PTE2PA e))) by lia. destruct fl as [|p fl'].
    + destruct (fault_no_memory s [] hl T root va e V Hva He HU HC Hd Hr H2 eq_refl) as (s' & E & H).
      exists true, s'. split; [done|]. split; [lia|done].
    + destruct (fault_shared s (p :: fl') hl T root va e V Hva He HU HC Hd Hr p fl' H2 eq_refl) as (s' & E & H).
      exists false, s'. split; [done|]. split; [lia|done].
Qed.

(** A store fault at any other address kills the process and changes
    nothing. *)
Theorem store_fault_kills s T root va :
  pt_wf (ram s) T root -> 0 <= va ->
  (va < MAXVA -> forall e, hw_walk 2 (ram s) root va = Some (e, 0%nat) ->
     has e PTE_U = false \/ has e PTE_COW = false) ->
  store_fault root va s = Ret true s.
Proof.
  intros W Hva Hbad. unfold store_fault. destruct (Z.leb_spec MAXVA va) as [|Hlt]; [done|].
  erewrite bind_ret by by eapply walk_lookup.
  destruct (T !! K0 _ _) as [t0|] eqn:E0; [|done]. erewrite pte_addr_pos by done. unfold rd at 1. mstep.
  set (e := load64 (ram s) (pte_addr t0 0 va)).
  destruct (has e PTE_V) eqn:HV; [|done]. simpl. destruct (has e PTE_U) eqn:HU; [|done]. simpl.
  destruct (has e PTE_COW) eqn:HC; [|done]. exfalso.
  destruct (wf_leaf _ _ _ W _ _ (PX 0 va) E0 (PX_range _ _) eq_refl) as [HV'|[_ HX]];
    [change (has e PTE_V = false) in HV'; congruence|change (has e PTE_RWX = true) in HX].
  destruct (Hbad Hlt e) as [?|?]; [|congruence..].
  erewrite hw_walk_abs by done. unfold abs_walk. destruct (wf_up _ _ _ W _ _ _ E0) as [t1 ->].
  rewrite E0. unfold leaf. fold e. by rewrite HV, HX.
Qed.
End fault.
