(* ===== verification/UserCopy.v ===== *)
(** copyin, copyout and copyinstr: moving bytes between kernel memory and the
    memory a page table gives a user process. *)

From S2P Require Import Prelude Mem Riscv Spinlock Kalloc Vm PageTable UserMem Cow.

Section usercopy.
Context {I : KernelImage} {HI : ImageOk I}.

(** The physical page of user address [va] and the byte at it, if the page has a
    level-0 entry with the flags [need]. *)
Definition upage (need : Z) (m : mem) (root va : Z) : option Z :=
  if MAXVA <=? va then None else
  match hw_walk 2 m root va with
  | Some (e, O) => if Z.land e need =? need then Some (PTE2PA e) else None
  | _ => None
  end.
Definition ubyte (need : Z) (m : mem) (root va : Z) : option Z :=
  match upage need m root va with Some p => Some (p + va mod 4096) | None => None end.

Definition PTE_UW : Z := Eval cbv in Z.lor PTE_U PTE_W.

(** The pages user code can reach are allocatable RAM. *)
Definition user_pages_ok (m : mem) (T : gmap key Z) : Prop :=
  forall v e, abs_walk m T v = Some (e, 0%nat) -> page_ok (PTE2PA e).

Lemma land_bit e b n : 0 <= n -> b = 2 ^ n -> Z.land e b = if has e b then b else 0.
Proof.
  intros Hn ->. unfold has. assert (Z.land e (2 ^ n) = if Z.testbit e n then 2 ^ n else 0) as ->.
  { apply Z.bits_inj'. intros j Hj. rewrite Z.land_spec, Z.pow2_bits_eqb by done.
    destruct (Z.eqb_spec n j) as [->|Hne].
    - destruct (Z.testbit e j) eqn:E; [by rewrite Z.pow2_bits_true|by rewrite Z.bits_0].
    - destruct (Z.testbit e n); rewrite ?Z.pow2_bits_false, ?Z.bits_0 by lia; apply andb_false_r. }
  pose proof (Z.pow_pos_nonneg 2 n). destruct (Z.testbit e n); [|done].
  destruct (Z.eqb_spec (2 ^ n) 0); [lia|done].
Qed.

Lemma need_U e : (Z.land e PTE_U =? PTE_U) = has e PTE_U.
Proof. rewrite (land_bit e PTE_U 4) by done. by destruct (has e PTE_U). Qed.
Lemma need_UW e : (Z.land e PTE_UW =? PTE_UW) = has e PTE_U && has e PTE_W.
Proof.
  change PTE_UW with (Z.lor PTE_U PTE_W) at 1. rewrite Z.land_lor_distr_r.
  rewrite (land_bit e PTE_U 4), (land_bit e PTE_W 2) by done. by destruct (has e PTE_U), (has e PTE_W).
Qed.

Lemma upage_page need m T root v w :
  pt_wf m T root -> v / 4096 = w / 4096 -> upage need m root v = upage need m root w.
Proof.
  intros W E. unfold upage. erewrite !hw_walk_abs by done. rewrite (abs_walk_page _ _ _ _ E).
  destruct (Z.leb_spec MAXVA v), (Z.leb_spec MAXVA w); try done; unconst; dlia.
Qed.

Lemma ubyte_ext need m m' T root v :
  pt_wf m T root -> (forall x, ~ outside T x -> m' x = m x) -> ubyte need m' root v = ubyte need m root v.
Proof.
  intros W H. pose proof (wf_ext _ _ _ _ W H). unfold ubyte, upage.
  erewrite !hw_walk_abs by done. by erewrite abs_walk_ext.
Qed.

Lemma walkaddr_run s T root va :
  pt_wf (ram s) T root ->
  walkaddr root va s = Ret (match upage PTE_U (ram s) root va with Some p => p | None => 0 end) s.
Proof.
  intros W. unfold walkaddr, upage. destruct (Z.leb_spec MAXVA va); [done|].
  erewrite bind_ret by by eapply walk_lookup. erewrite hw_walk_abs by done. unfold abs_walk.
  destruct (T !! K0 _ _) as [t0|] eqn:E0.
  - destruct (wf_up _ _ _ W _ _ _ E0) as [t1 ->]. erewrite pte_addr_pos by done. unfold rd, leaf. mstep.
    destruct (wf_leaf _ _ _ W _ _ (PX 0 va) E0 (PX_range _ _) eq_refl) as [HV|[_ HX]];
      fold (pte_addr t0 0 va) in *; [by rewrite HV|rewrite HX].
    destruct (has _ PTE_V); [|done]. simpl. rewrite need_U.
    by destruct (has _ PTE_U).
  - destruct (T !! K1 _) as [t1|]; [|done]. unfold leaf. by destruct (_ && _).
Qed.

Lemma upage_ok need m T root v p :
  pt_wf m T root -> user_pages_ok m T -> upage need m root v = Some p -> page_ok p.
Proof.
  intros W HU. unfold upage. erewrite hw_walk_abs by done.
  destruct (MAXVA <=? v); [done|]. destruct (abs_walk m T v) as [[e [|l]]|] eqn:E; [|done..].
  destruct (_ =? _); [|done]. intros [= <-]. by eapply HU.
Qed.

(** How far a round gets: to the end of the page or of the data. *)
Lemma round_len va len :
  0 <= va -> 0 < len -> let n := Z.min (4096 - va mod 4096) len in
  0 < n <= len /\ (forall i, 0 <= i < n -> (va + i) / 4096 = va / 4096 /\ (va + i) mod 4096 = va mod 4096 + i) /\
  (n < len -> va - va mod 4096 + 4096 = va + n).
Proof. intros Hva Hlen n. assert (Hn : n = Z.min (4096 - va mod 4096) len) by done. split; [dlia|]. split; [intros i Hi; dlia|dlia]. Qed.

(** ** copyin *)

(** [n] of the bytes asked for have been copied to [dst]. *)
Definition copied_in (need : Z) (m m' : mem) (root dst srcva n : Z) : Prop :=
  (forall i, 0 <= i < n -> exists p, ubyte need m root (srcva + i) = Some p /\ m' (dst + i) = m p) /\
  (forall x, x < dst \/ dst + n <= x -> m' x = m x).

(** The destination is kernel memory: no table, and no page the data comes from. *)
Definition kernel_buf (m : mem) (T : gmap key Z) (root buf va len : Z) : Prop :=
  (forall x, buf <= x < buf + len -> outside T x) /\
  (forall i p, 0 <= i < len -> ubyte PTE_U m root (va + i) = Some p -> p < buf \/ buf + len <= p).

Lemma copied_in_app m m1 m2 T root dst srcva n k len :
  pt_wf m T root -> kernel_buf m T root dst srcva len -> 0 <= n -> 0 <= k -> n + k <= len ->
  copied_in PTE_U m m1 root dst srcva n -> copied_in PTE_U m1 m2 root (dst + n) (srcva + n) k ->
  copied_in PTE_U m m2 root dst srcva (n + k).
Proof.
  intros W [HK1 HK2] Hn Hk Hlen [A1 B1] [A2 B2].
  assert (Ht : forall x, ~ outside T x -> m1 x = m x).
  { intros x Hx. apply B1. destruct (decide (dst <= x < dst + n)); [|lia]. destruct Hx. apply HK1. lia. }
  split.
  - intros i Hi. destruct (decide (i < n)).
    + destruct (A1 i ltac:(lia)) as (p & E & Hp). exists p. split; [done|]. by rewrite B2 by lia.
    + destruct (A2 (i - n) ltac:(lia)) as (p & E & Hp).
      replace (srcva + n + (i - n)) with (srcva + i) in E by lia.
      replace (dst + n + (i - n)) with (dst + i) in Hp by lia. erewrite ubyte_ext in E by done.
      exists p. split; [done|]. rewrite Hp. apply B1. specialize (HK2 i p ltac:(lia) E). lia.
  - intros x Hx. rewrite B2, B1 by lia. done.
Qed.

Lemma kernel_buf_next m m1 T root dst srcva n len :
  pt_wf m T root -> kernel_buf m T root dst srcva len -> 0 <= n <= len ->
  (forall x, ~ outside T x -> m1 x = m x) -> kernel_buf m1 T root (dst + n) (srcva + n) (len - n).
Proof.
  intros W [HK1 HK2] Hn Ht. split; [intros x Hx; apply HK1; lia|].
  intros i p Hi E. erewrite ubyte_ext in E by done.
  replace (srcva + n + i) with (srcva + (n + i)) in E by lia. apply HK2 in E; lia.
Qed.

Lemma user_pages_ok_ext m m' T root :
  pt_wf m T root -> user_pages_ok m T -> (forall x, ~ outside T x -> m' x = m x) -> user_pages_ok m' T.
Proof. intros W HU Ht v e E. erewrite abs_walk_ext in E by done. by eapply HU. Qed.

Lemma copyin_loop_spec fuel T root : forall s dst srcva len,
  pt_wf (ram s) T root -> user_pages_ok (ram s) T -> 0 <= srcva -> srcva + len <= 2 ^ 63 ->
  0 <= len -> srcva mod 4096 + len <= 4096 * Z.of_nat fuel -> kernel_buf (ram s) T root dst srcva len ->
  exists r s' n, copyin_loop fuel root dst srcva len s = Ret r s' /\ 0 <= n <= len /\
    copied_in PTE_U (ram s) (ram s') root dst srcva n /\
    ((r = 0 /\ n = len) \/ (r = -1 /\ n < len /\ ubyte PTE_U (ram s) root (srcva + n) = None)).
Proof.
  induction fuel as [|fuel IH]; intros s dst srcva len W HU Hsrc Hmax Hlen Hfuel HK;
    (destruct (decide (len = 0)) as [->|Hne];
      [exists 0, s, 0; split_and!; [done|lia..|split; intros; [lia|done]|by left]|]); [dlia|].
  cbn [copyin_loop]. destruct (Z.ltb_spec 0 len); [cbn [negb]|lia]. unfold PGSIZE.
  rewrite PGROUNDDOWN_spec. erewrite bind_ret by by eapply walkaddr_run.
  replace (srcva - (srcva - srcva mod 4096)) with (srcva mod 4096) by lia.
  destruct (round_len srcva len Hsrc ltac:(lia)) as (Hn & Hpage & Hnext). set (n := Z.min _ _) in *.
  rewrite (upage_page _ _ T _ (srcva - srcva mod 4096) srcva) by (done || dlia).
  destruct (upage PTE_U (ram s) root srcva) as [p|] eqn:Ep.
  2: { exists (-1), s, 0. split_and!; [done|lia..|split; intros; [lia|done]|right].
       split_and!; [done|lia|]. unfold ubyte. by rewrite Z.add_0_r, Ep. }
  pose proof (upage_ok _ _ _ _ _ _ W HU Ep) as Hpok. pose proof (page_ok_range p Hpok).
  destruct (Z.eqb_spec p 0); [lia|]. mstep.
  assert (Hub : forall i, 0 <= i < n -> ubyte PTE_U (ram s) root (srcva + i) = Some (p + srcva mod 4096 + i)).
  { intros i Hi. destruct (Hpage i Hi) as [H1 H2]. unfold ubyte. rewrite (upage_page _ _ T _ _ srcva W H1), Ep, H2.
    f_equal. lia. }
  set (s1 := set_ram _ s).
  assert (Hc1 : copied_in PTE_U (ram s) (ram s1) root dst srcva n).
  { split; [|intros x Hx; by apply copy_out]. intros i Hi. eexists. split; [by apply Hub|]. simpl.
    rewrite copy_in by lia. f_equal. lia. }
  assert (Ht : forall x, ~ outside T x -> ram s1 x = ram s x).
  { intros x Hx. apply Hc1. destruct (decide (dst <= x < dst + n)); [|lia]. destruct Hx. apply HK. lia. }
  destruct (decide (n = len)) as [Hnl|Hnl].
  { exists 0, s1, len. rewrite Hnl, Z.sub_diag in *. split_and!; [by destruct fuel|lia..|done|by left]. }
  rewrite Hnext by lia. destruct (IH s1 (dst + n) (srcva + n) (len - n)) as (r & s' & k & E & Hk & Hc & HR);
    [by eapply wf_ext|by eapply user_pages_ok_ext|lia|lia|lia| |eapply kernel_buf_next; [done|done|lia|done]|].
  { assert ((srcva + n) mod 4096 = 0) by dlia. dlia. }
  exists r, s', (n + k). split_and!; [done|lia|lia|eapply copied_in_app; [done|done|lia|lia| |done|done]; lia|].
  destruct HR as [[-> ->]|(-> & Hlt & Eu)]; [left; lia|right]. split_and!; [done|lia|].
  erewrite ubyte_ext in Eu by done. by rewrite Z.add_assoc.
Qed.

(** ** copyout *)
Definition copied_out (m m' : mem) (root dstva src n : Z) : Prop :=
  (forall i, 0 <= i < n -> exists p, ubyte PTE_UW m root (dstva + i) = Some p /\ m' p = m (src + i)) /\
  (forall x, (forall i, 0 <= i < n -> ubyte PTE_UW m root (dstva + i) <> Some x) -> m' x = m x).

(** The destination is user memory: no tables, nothing of the source, and no
    byte is mapped twice. *)
Definition out_ok (m : mem) (T : gmap key Z) (root dstva src len : Z) : Prop :=
  (forall i p, 0 <= i < len -> ubyte PTE_UW m root (dstva + i) = Some p ->
     outside T p /\ (p < src \/ src + len <= p)) /\
  (forall i j p, 0 <= i < len -> 0 <= j < len -> ubyte PTE_UW m root (dstva + i) = Some p ->
     ubyte PTE_UW m root (dstva + j) = Some p -> i = j).

Lemma copied_out_tables m m1 T root dstva src n len x :
  out_ok m T root dstva src len -> n <= len -> copied_out m m1 root dstva src n -> ~ outside T x -> m1 x = m x.
Proof. intros [HO _] Hn [_ B] Hx. apply B. intros i Hi E. apply HO in E as [? _]; [done|lia]. Qed.

Lemma copied_out_app m m1 m2 T root dstva src n k len :
  pt_wf m T root -> out_ok m T root dstva src len -> 0 <= n -> 0 <= k -> n + k <= len ->
  copied_out m m1 root dstva src n -> copied_out m1 m2 root (dstva + n) (src + n) k ->
  copied_out m m2 root dstva src (n + k).
Proof.
  intros W HO Hn Hk Hlen C1 C2.
  assert (Ht : forall x, ~ outside T x -> m1 x = m x) by (intros; eapply copied_out_tables; [done| |done..]; lia).
  destruct HO as [HO1 HO2], C1 as [A1 B1], C2 as [A2 B2].
  assert (Hub : forall i, ubyte PTE_UW m1 root (dstva + n + i) = ubyte PTE_UW m root (dstva + (n + i)))
    by (intros i; erewrite ubyte_ext by done; by rewrite Z.add_assoc).
  split.
  - intros i Hi. destruct (decide (i < n)).
    + destruct (A1 i ltac:(lia)) as (p & E & Hp). exists p. split; [done|]. rewrite B2; [done|].
      intros j Hj E'. rewrite Hub in E'. specialize (HO2 i (n + j) p ltac:(lia) ltac:(lia) E E'). lia.
    + destruct (A2 (i - n) ltac:(lia)) as (p & E & Hp). rewrite Hub in E.
      replace (n + (i - n)) with i in E by lia. exists p. split; [done|]. rewrite Hp.
      replace (src + n + (i - n)) with (src + i) by lia. apply B1. intros j Hj E'.
      apply HO1 in E' as [_ ?]; lia.
  - intros x Hx. rewrite B2, B1; [done|..].
    + intros i Hi. apply Hx. lia.
    + intros i Hi. rewrite Hub. apply Hx. lia.
Qed.

Lemma out_ok_next m m1 T root dstva src n len :
  pt_wf m T root -> out_ok m T root dstva src len -> 0 <= n <= len ->
  (forall x, ~ outside T x -> m1 x = m x) -> out_ok m1 T root (dstva + n) (src + n) (len - n).
Proof.
  intros W [HO1 HO2] Hn Ht.
  assert (Hub : forall i, ubyte PTE_UW m1 root (dstva + n + i) = ubyte PTE_UW m root (dstva + (n + i)))
    by (intros i; erewrite ubyte_ext by done; by rewrite Z.add_assoc).
  split.
  - intros i p Hi E. rewrite Hub in E. apply HO1 in E as [? ?]; [|lia]. split; [done|lia].
  - intros i j p Hi Hj E E'. rewrite Hub in E, E'. specialize (HO2 (n + i) (n + j) p ltac:(lia) ltac:(lia) E E'). lia.
Qed.

(** The checks of one round of copyout. *)
Lemma copyout_lookup s T root va (k : Z -> M kst Z) :
  pt_wf (ram s) T root -> va < MAXVA ->
  (pte <- walk root va false ;; if pte =? 0 then ret (-1) else
   e <- rd pte ;; if negb (has e PTE_V) || negb (has e PTE_U) || negb (has e PTE_W) then ret (-1) else
   k (PTE2PA e)) s =
  match upage PTE_UW (ram s) root va with Some p => k p s | None => Ret (-1) s end.
Proof.
  intros W Hva. unfold upage. rewrite MAXVA_guard by done.
  erewrite bind_ret by by eapply walk_lookup. erewrite hw_walk_abs by done. unfold abs_walk.
  destruct (T !! K0 _ _) as [t0|] eqn:E0.
  - destruct (wf_up _ _ _ W _ _ _ E0) as [t1 ->]. erewrite pte_addr_pos by done. unfold rd, leaf. mstep.
    destruct (wf_leaf _ _ _ W _ _ (PX 0 va) E0 (PX_range _ _) eq_refl) as [HV|[_ HX]];
      fold (pte_addr t0 0 va) in *; [by rewrite HV|rewrite HX].
    destruct (has _ PTE_V); [|done]. simpl. rewrite need_UW.
    by destruct (has _ PTE_U), (has _ PTE_W).
  - destruct (T !! K1 _) as [t1|]; [|done]. unfold leaf. by destruct (_ && _).
Qed.

Lemma copyout_loop_spec fuel T root : forall s dstva src len,
  pt_wf (ram s) T root -> 0 <= dstva -> dstva + len <= 2 ^ 63 ->
  0 <= len -> dstva mod 4096 + len <= 4096 * Z.of_nat fuel -> out_ok (ram s) T root dstva src len ->
  exists r s' n, copyout_loop fuel root dstva src len s = Ret r s' /\ 0 <= n <= len /\
    copied_out (ram s) (ram s') root dstva src n /\
    ((r = 0 /\ n = len) \/ (r = -1 /\ n < len /\ ubyte PTE_UW (ram s) root (dstva + n) = None)).
Proof.
  induction fuel as [|fuel IH]; intros s dstva src len W Hdst Hmax Hlen Hfuel HO;
    (destruct (decide (len = 0)) as [->|Hne];
      [exists 0, s, 0; split_and!; [done|lia..|split; intros; [lia|done]|by left]|]); [dlia|].
  cbn [copyout_loop]. destruct (Z.ltb_spec 0 len); [cbn [negb]|lia]. unfold PGSIZE.
  rewrite PGROUNDDOWN_spec. destruct (round_len dstva len Hdst ltac:(lia)) as (Hn & Hpage & Hnext).
  replace (dstva - (dstva - dstva mod 4096)) with (dstva mod 4096) by lia. set (n := Z.min _ _) in *.
  assert (Hfail : ubyte PTE_UW (ram s) root dstva = None ->
    exists r s' n, (Ret (-1) s : result kst Z) = Ret r s' /\ 0 <= n <= len /\
    copied_out (ram s) (ram s') root dstva src n /\
    ((r = 0 /\ n = len) \/ (r = -1 /\ n < len /\ ubyte PTE_UW (ram s) root (dstva + n) = None))).
  { intros E. exists (-1), s, 0. split_and!; [done|lia..|split; intros; [lia|done]|right].
    rewrite Z.add_0_r. split_and!; [done|lia|done]. }
  destruct (Z.leb_spec MAXVA (dstva - dstva mod 4096)) as [Hge|Hlt].
  { apply Hfail. unfold ubyte, upage. destruct (Z.leb_spec MAXVA dstva); [done|dlia]. }
  rewrite (copyout_lookup s T root (dstva - dstva mod 4096) (fun pa0 =>
      modify (set_ram (fun m => copy m (pa0 + dstva mod 4096) src n)) ;;
      copyout_loop fuel root (dstva - dstva mod 4096 + 4096) (src + n) (len - n))) by done.
  rewrite (upage_page _ _ T _ (dstva - dstva mod 4096) dstva) by (done || dlia).
  destruct (upage PTE_UW (ram s) root dstva) as [p|] eqn:Ep; [|apply Hfail; unfold ubyte; by rewrite Ep].
  mstep. set (s1 := set_ram _ s).
  assert (Hub : forall i, 0 <= i < n -> ubyte PTE_UW (ram s) root (dstva + i) = Some (p + dstva mod 4096 + i)).
  { intros i Hi. destruct (Hpage i Hi) as [H1 H2]. unfold ubyte.
    rewrite (upage_page _ _ T _ _ dstva W H1), Ep, H2. f_equal. lia. }
  assert (Hc1 : copied_out (ram s) (ram s1) root dstva src n).
  { split.
    - intros i Hi. eexists. split; [by apply Hub|]. simpl. rewrite copy_in by lia. f_equal. lia.
    - intros x Hx. apply copy_out. destruct (decide (p + dstva mod 4096 <= x < p + dstva mod 4096 + n)); [|lia].
      destruct (Hx (x - (p + dstva mod 4096)) ltac:(lia)). rewrite Hub by lia. f_equal. lia. }
  assert (Ht : forall x, ~ outside T x -> ram s1 x = ram s x)
    by (intros; eapply copied_out_tables; [done| |done..]; lia).
  destruct (decide (n = len)) as [Hnl|Hnl].
  { exists 0, s1, len. rewrite Hnl, Z.sub_diag in *. split_and!; [by destruct fuel|lia..|done|by left]. }
  rewrite Hnext by lia. destruct (IH s1 (dstva + n) (src + n) (len - n)) as (r & s' & k & E & Hk & Hc & HR);
    [by eapply wf_ext|lia|lia|lia| |eapply out_ok_next; [done|done|lia|done]|].
  { assert ((dstva + n) mod 4096 = 0) by dlia. dlia. }
  exists r, s', (n + k). split_and!; [done|lia|lia|eapply copied_out_app; [done|done|lia|lia| |done|done]; lia|].
  destruct HR as [[-> ->]|(-> & Hl & Eu)]; [left; lia|right]. split_and!; [done|lia|].
  erewrite ubyte_ext in Eu by done. by rewrite Z.add_assoc.
Qed.

(** ** copyinstr *)
Lemma copyinstr_page_spec n : forall m dst p,
  dst + Z.of_nat n <= p \/ p + Z.of_nat n <= dst ->
  let '(m', k, got) := copyinstr_page n m dst p in
  (k <= n)%nat /\
  (forall i, 0 <= i < Z.of_nat k -> u8 (m (p + i)) <> 0 /\ m' (dst + i) = m (p + i)) /\
  (if (got : bool) then (k < n)%nat /\ u8 (m (p + Z.of_nat k)) = 0 /\ m' (dst + Z.of_nat k) = 0 else k = n) /\
  (forall x, x < dst \/ dst + Z.of_nat k + (if got then 1 else 0) <= x -> m' x = m x).
Proof.
  induction n as [|n IH]; intros m dst p Hd; cbn [copyinstr_page].
  { split_and!; [done|lia|done|done]. }
  destruct (Z.eqb_spec (u8 (m p)) 0) as [E0|E0].
  { split_and!; [lia|lia|lia|by rewrite Z.add_0_r|rewrite Z.add_0_r; apply upd_eq|].
    intros x Hx. apply upd_ne. lia. }
  specialize (IH (upd m dst (m p)) (dst + 1) (p + 1) ltac:(lia)).
  destruct (copyinstr_page n _ _ _) as [[m' k] got]. destruct IH as (Hk & Hc & Hg & Ho).
  assert (Hu : forall x, p <= x < p + Z.of_nat (S n) -> upd m dst (m p) x = m x) by (intros x Hx; apply upd_ne; lia).
  split_and!; [lia|..].
  - intros i Hi. destruct (decide (i = 0)) as [->|].
    + rewrite !Z.add_0_r. split; [done|]. rewrite Ho by (destruct got; lia). apply upd_eq.
    + destruct (Hc (i - 1) ltac:(lia)) as [H1 H2]. replace (p + 1 + (i - 1)) with (p + i) in * by lia.
      replace (dst + 1 + (i - 1)) with (dst + i) in H2 by lia. rewrite Hu in H1, H2 by lia. done.
  - destruct got; [|lia]. destruct Hg as (H1 & H2 & H3). split_and!; [lia| |].
    + rewrite Hu in H2 by lia. rewrite <- H2. do 2 f_equal. lia.
    + rewrite <- H3. f_equal. lia.
  - intros x Hx. rewrite Ho by (destruct got; lia). apply upd_ne. destruct got; lia.
Qed.

(** The first [n] bytes of a user string, none of them NUL, have been copied. *)
Definition copied_str (m m' : mem) (root dst srcva n : Z) : Prop :=
  forall i, 0 <= i < n -> exists p, ubyte PTE_U m root (srcva + i) = Some p /\ u8 (m p) <> 0 /\ m' (dst + i) = m p.

Lemma copyinstr_loop_spec fuel T root : forall s dst srcva max,
  pt_wf (ram s) T root -> user_pages_ok (ram s) T -> 0 <= srcva -> srcva + max <= 2 ^ 63 ->
  0 <= max -> srcva mod 4096 + max <= 4096 * Z.of_nat fuel -> kernel_buf (ram s) T root dst srcva max ->
  exists r s' n, copyinstr_loop fuel root dst srcva max s = Ret r s' /\ 0 <= n <= max /\
    copied_str (ram s) (ram s') root dst srcva n /\
    (forall x, x < dst \/ dst + max <= x -> ram s' x = ram s x) /\
    ((r = 0 /\ n < max /\ ram s' (dst + n) = 0 /\
      exists p, ubyte PTE_U (ram s) root (srcva + n) = Some p /\ u8 (ram s p) = 0) \/
     (r = -1 /\ (n = max \/ ubyte PTE_U (ram s) root (srcva + n) = None))).
Proof.
  induction fuel as [|fuel IH]; intros s dst srcva max W HU Hsrc Hmax Hlen Hfuel HK;
    (destruct (decide (max = 0)) as [->|Hne];
      [exists (-1), s, 0; split_and!; [done|lia..|by intros i ?; lia|done|right; auto]|]); [dlia|].
  cbn [copyinstr_loop]. destruct (Z.ltb_spec 0 max); [cbn [negb]|lia]. unfold PGSIZE.
  rewrite PGROUNDDOWN_spec. erewrite bind_ret by by eapply walkaddr_run.
  replace (srcva - (srcva - srcva mod 4096)) with (srcva mod 4096) by lia.
  destruct (round_len srcva max Hsrc ltac:(lia)) as (Hn & Hpage & Hnext). set (n := Z.min _ _) in *.
  rewrite (upage_page _ _ T _ (srcva - srcva mod 4096) srcva) by (done || dlia).
  destruct (upage PTE_U (ram s) root srcva) as [p|] eqn:Ep.
  2: { exists (-1), s, 0. split_and!; [done|lia..|intros i ?; lia|done|right; split; [done|]].
       right. unfold ubyte. by rewrite Z.add_0_r, Ep. }
  pose proof (upage_ok _ _ _ _ _ _ W HU Ep) as Hpok. pose proof (page_ok_range p Hpok).
  destruct (Z.eqb_spec p 0); [lia|]. mstep.
  assert (Hub : forall i, 0 <= i < n -> ubyte PTE_U (ram s) root (srcva + i) = Some (p + srcva mod 4096 + i)).
  { intros i Hi. destruct (Hpage i Hi) as [H1 H2]. unfold ubyte. rewrite (upage_page _ _ T _ _ srcva W H1), Ep, H2.
    f_equal. lia. }
  pose proof (copyinstr_page_spec (Z.to_nat n) (ram s) dst (p + srcva mod 4096)) as HP.
  rewrite Z2Nat.id in HP by lia.
  assert (Hdisj : dst + n <= p + srcva mod 4096 \/ p + srcva mod 4096 + n <= dst).
  { pose proof (proj2 HK 0 _ ltac:(lia) (Hub 0 ltac:(lia))).
    pose proof (proj2 HK (n - 1) _ ltac:(lia) (Hub (n - 1) ltac:(lia))). lia. }
  specialize (HP Hdisj). destruct (copyinstr_page _ _ _ _) as [[m' k] got]. destruct HP as (Hk & Hc & Hg & Ho).
  assert (Hks : copied_str (ram s) m' root dst srcva (Z.of_nat k)).
  { intros i Hi. destruct (Hc i Hi) as [H1 H2]. eexists. split; [apply Hub; lia|]. done. }
  mstep. destruct got.
  { destruct Hg as (H1 & H2 & H3). exists 0, (set_ram (fun _ => m') s), (Z.of_nat k).
    split_and!; [done|lia|lia|done|intros x Hx; apply Ho; lia|left]. split_and!; [done|lia|done|].
    eexists. split; [apply Hub; lia|done]. }
  subst k. rewrite Z2Nat.id in * by lia. set (s1 := set_ram _ s).
  assert (Ht : forall x, ~ outside T x -> ram s1 x = ram s x).
  { intros x Hx. apply Ho. destruct (decide (dst <= x < dst + n)); [|lia]. destruct Hx. apply HK. lia. }
  destruct (decide (n = max)) as [Hnl|Hnl].
  { exists (-1), s1, max. rewrite Hnl, Z.sub_diag in *.
    split_and!; [by destruct fuel|lia..|done|intros x Hx; apply Ho; lia|right; auto]. }
  rewrite Hnext by lia.
  destruct (IH s1 (dst + n) (srcva + n) (max - n)) as (r & s' & j & E & Hj & Hcj & Hoj & HR);
    [by eapply wf_ext|by eapply user_pages_ok_ext|lia|lia|lia| |eapply kernel_buf_next; [done|done|lia|done]|].
  { assert ((srcva + n) mod 4096 = 0) by dlia. dlia. }
  assert (Hsrcm : forall i q, 0 <= i < max -> ubyte PTE_U (ram s1) root (srcva + i) = Some q ->
            ubyte PTE_U (ram s) root (srcva + i) = Some q /\ ram s1 q = ram s q).
  { intros i q Hi Eq. erewrite ubyte_ext in Eq by done. split; [done|]. apply Ho.
    pose proof (proj2 HK i q Hi Eq). lia. }
  exists r, s', (n + j). split_and!; [done|lia|lia|..].
  - intros i Hi. destruct (decide (i < n)).
    + destruct (Hks i ltac:(lia)) as (q & H1 & H2 & H3). exists q. rewrite Hoj by lia. done.
    + destruct (Hcj (i - n) ltac:(lia)) as (q & H1 & H2 & H3).
      replace (srcva + n + (i - n)) with (srcva + i) in H1 by lia.
      replace (dst + n + (i - n)) with (dst + i) in H3 by lia.
      apply Hsrcm in H1 as [H1 Hq]; [|lia]. exists q. rewrite <- Hq. done.
  - intros x Hx. rewrite Hoj, Ho by lia. done.
  - rewrite !Z.add_assoc. destruct HR as [(-> & H1 & H2 & q & H3 & H4)|(-> & [H1|H1])]; [left|right..].
    + split_and!; [done|lia|done|]. rewrite <- Z.add_assoc in H3. apply Hsrcm in H3 as [H3 Hq]; [|lia].
      rewrite Z.add_assoc in H3. exists q. rewrite <- Hq. done.
    + split; [done|]. left. lia.
    + split; [done|]. right. by erewrite ubyte_ext in H1 by done.
Qed.

Lemma copy_fuel_enough va len : 0 <= va -> 0 <= len -> va mod 4096 + len <= 4096 * Z.of_nat (copy_fuel len).
Proof. intros. unfold copy_fuel, PGSIZE. dlia. Qed.

(** Copyin terminates; it returns 0 exactly when every byte of the
    user range is mapped with PTE_U, and then the destination holds the user's
    bytes; on -1 it has copied the bytes before the first inaccessible one.  It
    writes nothing outside the destination. *)
Theorem copyin_correct s T root dst srcva len :
  pt_wf (ram s) T root -> user_pages_ok (ram s) T -> 0 <= srcva -> 0 <= len -> srcva + len <= 2 ^ 63 ->
  kernel_buf (ram s) T root dst srcva len ->
  exists r s' n, copyin root dst srcva len s = Ret r s' /\ 0 <= n <= len /\
    copied_in PTE_U (ram s) (ram s') root dst srcva n /\
    ((r = 0 /\ n = len) \/ (r = -1 /\ n < len /\ ubyte PTE_U (ram s) root (srcva + n) = None)).
Proof. intros. by apply copyin_loop_spec with (T := T); try apply copy_fuel_enough. Qed.

(** C38: copyout terminates; it returns 0 exactly when every byte of the
    user range is mapped user-accessible and writable, and then user memory holds
    the source bytes; on -1 it has written the bytes before the first one that is
    not.  It writes nothing else. *)
Theorem copyout_correct s T root dstva src len :
  pt_wf (ram s) T root -> 0 <= dstva -> 0 <= len -> dstva + len <= 2 ^ 63 ->
  out_ok (ram s) T root dstva src len ->
  exists r s' n, copyout root dstva src len s = Ret r s' /\ 0 <= n <= len /\
    copied_out (ram s) (ram s') root dstva src n /\
    ((r = 0 /\ n = len) \/ (r = -1 /\ n < len /\ ubyte PTE_UW (ram s) root (dstva + n) = None)).
Proof. intros. by apply copyout_loop_spec with (T := T); try apply copy_fuel_enough. Qed.

(** Copyinstr terminates; it returns 0 exactly when a NUL comes
    before an inaccessible byte and before [max] bytes, and then the destination
    holds the string with its NUL; otherwise it returns -1. *)
Theorem copyinstr_correct s T root dst srcva max :
  pt_wf (ram s) T root -> user_pages_ok (ram s) T -> 0 <= srcva -> 0 <= max -> srcva + max <= 2 ^ 63 ->
  kernel_buf (ram s) T root dst srcva max ->
  exists r s' n, copyinstr root dst srcva max s = Ret r s' /\ 0 <= n <= max /\
    copied_str (ram s) (ram s') root dst srcva n /\
    (forall x, x < dst \/ dst + max <= x -> ram s' x = ram s x) /\
    ((r = 0 /\ n < max /\ ram s' (dst + n) = 0 /\
      exists p, ubyte PTE_U (ram s) root (srcva + n) = Some p /\ u8 (ram s p) = 0) \/
     (r = -1 /\ (n = max \/ ubyte PTE_U (ram s) root (srcva + n) = None))).
Proof. intros. by apply copyinstr_loop_spec with (T := T); try apply copy_fuel_enough. Qed.

(** copyout does not resolve copy-on-write: writing to a page that
    uvmcopy shared fails, although the process may write there. *)
Theorem copyout_refuses_cow s T root dstva src len e :
  pt_wf (ram s) T root -> 0 <= dstva < MAXVA -> 0 < len -> dstva + len <= 2 ^ 63 ->
  out_ok (ram s) T root dstva src len ->
  hw_walk 2 (ram s) root dstva = Some (cow_pte e, 0%nat) -> 0 <= e < 2 ^ 64 ->
  exists s', copyout root dstva src len s = Ret (-1) s' /\ forall x, ram s' x = ram s x.
Proof.
  intros W Hd Hl Hm HO Hw He.
  destruct (copyout_loop_spec (copy_fuel len) T root s dstva src len) as (r & s' & n & E & Hn & Hc & HR);
    [done|lia|done|lia|apply copy_fuel_enough; lia|done|].
  assert (Hnone : ubyte PTE_UW (ram s) root dstva = None).
  { unfold ubyte, upage. rewrite MAXVA_guard, Hw by lia. cbv beta iota.
    rewrite need_UW. destruct (cow_pte_spec e He) as (_ & _ & _ & _ & _ & ->). by rewrite andb_false_r. }
  assert (n = 0) as ->.
  { destruct (decide (n = 0)); [done|]. destruct (proj1 Hc 0 ltac:(lia)) as (p & Ep & _).
    rewrite Z.add_0_r in Ep. congruence. }
  exists s'. destruct HR as [[_ ?]|[-> _]]; [lia|]. split; [done|].
  intros x. apply Hc. intros; lia.
Qed.
End usercopy.
