(* ===== verification/VmDemo.v ===== *)
(** A small machine state with two page tables, on which the theorems about
    virtual memory are instantiated.

    The first page table maps two pages: address 0, writable, and address 4096,
    copy-on-write and shared with somebody else.  The second is empty.  Four pages
    are free. *)

From S2P Require Import Prelude Mem Riscv Spinlock Kalloc Vm PageTable UserMem Cow UserCopy.

(** The [i]-th page of RAM. *)
Definition pg (i : Z) : Z := KERNBASE + 4096 * i.
Definition demo_free : list Z := [pg 20; pg 21; pg 22; pg 23].
Definition demo_e0 : Z := mkpte (pg 33) 23.
Definition demo_e1 : Z := mkpte (pg 34) 275.
Definition demo_ram : mem :=
  store64 (store64 (store64 (store64
   (store64 (store64 (store64 (fun _ => 0) (pg 20) (pg 21)) (pg 21) (pg 22)) (pg 22) (pg 23))
     (pg 30) (mkpte (pg 31) PTE_V)) (pg 31) (mkpte (pg 32) PTE_V)) (pg 32) demo_e0) (pg 32 + 8) demo_e1.
Definition demo_refs : gmap Z Z :=
  <[30 := 1]> (<[31 := 1]> (<[32 := 1]> (<[33 := 1]> (<[34 := 2]> (<[35 := 1]> ∅))))).
Definition demo_vm : kst :=
  mkkst (mkhart 0 true 0 false) (mkkmem (initlock "kmem") (pg 20) 0 demo_refs) demo_ram.
Definition demo_To : gmap key Z := <[K0 0 0 := pg 32]> (<[K1 0 := pg 31]> {[Root := pg 30]}).
Definition demo_Tn : gmap key Z := {[Root := pg 35]}.
#[local] Existing Instance demo_image.

Lemma demo_load x : pg 32 + 16 <= x \/ (x + 8 <= pg 20) \/ (pg 23 <= x /\ x + 8 <= pg 30) ->
  load64 demo_ram x = 0.
Proof.
  unfold demo_ram, pg, KERNBASE. intros Hx. rewrite !load64_ne by lia. vm_compute. reflexivity.
Qed.

Lemma demo_word i j :
  30 <= i <= 35 -> 0 <= j < 512 ->
  load64 demo_ram (pg i + 8 * j) =
  if decide (i = 30 /\ j = 0) then mkpte (pg 31) PTE_V else
  if decide (i = 31 /\ j = 0) then mkpte (pg 32) PTE_V else
  if decide (i = 32 /\ j = 0) then demo_e0 else
  if decide (i = 32 /\ j = 1) then demo_e1 else 0.
Proof.
  intros Hi Hj.
  do 4 (case_decide; [destruct_and!; subst; vm_compute; reflexivity|]).
  unfold demo_ram, pg, KERNBASE. rewrite !load64_ne by lia. vm_compute. reflexivity.
Qed.

Lemma demo_To_lookup k a :
  demo_To !! k = Some a -> (k = Root /\ a = pg 30) \/ (k = K1 0 /\ a = pg 31) \/ (k = K0 0 0 /\ a = pg 32).
Proof.
  unfold demo_To. intros [[<- <-]|[_ [[<- <-]|[_ [<- <-]%lookup_singleton_Some]]%lookup_insert_Some]]%lookup_insert_Some;
    auto.
Qed.

Lemma demo_pages : page_ok (pg 30) /\ page_ok (pg 31) /\ page_ok (pg 32) /\ page_ok (pg 33) /\ page_ok (pg 34) /\ page_ok (pg 35).
Proof. split_and!; vm_compute; split_and!; congruence || done. Qed.

Lemma demo_To_none i : i <> 0 -> demo_To !! K1 i = None /\ forall j, demo_To !! K0 j i = None.
Proof. intros Hi. unfold demo_To. split; intros; by rewrite !lookup_insert_ne, lookup_singleton_ne by congruence. Qed.

Lemma demo_To_wf : pt_wf demo_ram demo_To (pg 30).
Proof.
  destruct demo_pages as (P0 & P1 & P2 & _). split.
  - done.
  - intros k a H. apply demo_To_lookup in H. naive_solver.
  - intros k k' a H H'. apply demo_To_lookup in H, H'. unfold pg in *. naive_solver lia.
  - intros i j a H. apply demo_To_lookup in H as [[? _]|[[? _]|[[= -> ->] _]]]; done.
  - intros k a i c H Hi Hc. apply demo_To_lookup in H as [[-> ->]|[[-> ->]|[-> ->]]]; injection Hc as <- || done.
    + rewrite demo_word by lia. destruct (decide (i = 0)) as [->|Hn]; [done|].
      rewrite (proj1 (demo_To_none i Hn)). left. repeat (rewrite decide_False by lia). done.
    + rewrite demo_word by lia. destruct (decide (i = 0)) as [->|Hn]; [done|].
      rewrite (proj2 (demo_To_none i Hn)). left. repeat (rewrite decide_False by lia). done.
  - intros k a i H Hi Hc. apply demo_To_lookup in H as [[-> ->]|[[-> ->]|[-> ->]]]; try done.
    rewrite demo_word by lia. repeat case_decide; try lia; [by right..|by left].
Qed.

Lemma demo_Tn_lookup k a : demo_Tn !! k = Some a -> k = Root /\ a = pg 35.
Proof. unfold demo_Tn. by intros [<- <-]%lookup_singleton_Some. Qed.

Lemma demo_Tn_wf : pt_wf demo_ram demo_Tn (pg 35).
Proof.
  split.
  - done.
  - intros k a [_ ->]%demo_Tn_lookup. apply demo_pages.
  - intros k k' a [-> _]%demo_Tn_lookup [-> _]%demo_Tn_lookup. done.
  - intros i j a [? _]%demo_Tn_lookup. done.
  - intros k a i c [-> ->]%demo_Tn_lookup Hi [= <-]. unfold demo_Tn. rewrite lookup_singleton_ne by done.
    left. rewrite demo_word by lia. repeat (rewrite decide_False by lia). done.
  - intros k a i [-> ->]%demo_Tn_lookup Hi Hc. done.
Qed.

Lemma demo_vm_kinv : kinv demo_vm demo_free [].
Proof.
  split; try done.
  - repeat constructor; vm_compute; congruence.
  - by apply (bool_decide_unpack _ (dec := decide _)).
  - constructor.
  - intros x h _ ?%not_elem_of_nil. done.
  - assert (H : Forall (fun x => ref_at demo_vm (ref_idx x) = 0) demo_free) by (repeat constructor).
    by rewrite Forall_forall in H.
  - intros h i ?%not_elem_of_nil. done.
Qed.

Lemma demo_two : two demo_vm demo_free [] demo_To (pg 30) demo_Tn (pg 35).
Proof.
  split.
  - split; [apply demo_vm_kinv|apply demo_To_wf|].
    intros k a [[_ ->]|[[_ ->]|[_ ->]]]%demo_To_lookup; reflexivity.
  - split; [apply demo_vm_kinv|apply demo_Tn_wf|].
    intros k a [_ ->]%demo_Tn_lookup. reflexivity.
  - intros k k' a H [_ ->]%demo_Tn_lookup. apply demo_To_lookup in H. unfold pg in H. lia.
Qed.

Lemma demo_vminv : vminv demo_vm demo_free [] demo_To (pg 30).
Proof. apply demo_two. Qed.

Lemma demo_walk_new v : hw_walk 2 demo_ram (pg 35) v = None.
Proof. erewrite hw_walk_abs by apply demo_Tn_wf. done. Qed.

Lemma demo_data i : i = 33 \/ i = 34 -> data_page demo_To (pg i) /\ data_page demo_Tn (pg i).
Proof.
  intros Hi. assert (page_ok (pg i)) by (destruct demo_pages as (_ & _ & _ & ? & ? & _); destruct Hi; by subst).
  split; (split; [done|]); intros k E; [apply demo_To_lookup in E|apply demo_Tn_lookup in E]; unfold pg in E; lia.
Qed.

(** ** The theorems at work *)
Lemma mappages_correct_witness :
  exists r s' fl' T' e, mappages (pg 35) 5000 4000 (pg 40) 22 demo_vm = Ret r s' /\
    grown demo_vm s' demo_free fl' [] demo_Tn T' (pg 35) (on_path 4096 8192) /\
    maps_to demo_ram (ram s') (pg 35) 4096 e (pg 40) (Z.lor 22 PTE_V) /\
    ((r = 0 /\ e = 12288) \/ (r = -1 /\ fl' = [] /\ 4096 <= e < 12288 /\ e mod 4096 = 0)).
Proof.
  apply (mappages_correct 22 demo_vm demo_free [] demo_Tn (pg 35) 5000 4000 (pg 40) 4096 12288);
    [lia|reflexivity|apply demo_two|lia|lia|clia|unfold pg; clia|reflexivity|unfold pg; clia
    |reflexivity|reflexivity|intros v _; apply demo_walk_new|intros; lia].
Defined.

Lemma uvmunmap_correct_witness :
  exists s' fl', uvmunmap (pg 30) 0 1 true demo_vm = Ret tt s' /\
    unmapped demo_vm s' demo_free fl' [] demo_To (pg 30) 0 4096 [pg 33].
Proof.
  apply (uvmunmap_correct demo_vm demo_free [] demo_To (pg 30) 0 [demo_e0] true);
    [apply demo_vminv|reflexivity|lia|simpl; clia|..].
  - intros [|i] e [=]. subst. vm_compute. reflexivity.
  - intros _ p ->%list_elem_of_singleton. split; [apply (demo_data 33); auto|].
    split; vm_compute; [congruence|reflexivity].
Defined.

Lemma uvmcopy_correct_witness :
  exists r s' fl' Tn', uvmcopy (pg 30) (pg 35) 8000 demo_vm = Ret r s' /\
    two s' fl' [] demo_To (pg 30) Tn' (pg 35).
Proof.
  destruct (uvmcopy_correct demo_vm demo_free [] demo_To (pg 30) demo_Tn (pg 35) 8000 [demo_e0; demo_e1])
    as (r & s' & fl' & Tn' & E & T2 & _);
    [apply demo_two|clia|reflexivity|..|exists r, s', fl', Tn'; split; [exact E|exact T2]].
  - intros [|[|i]] e [=]; subst; vm_compute; reflexivity.
  - intros v _. apply demo_walk_new.
  - intros e [->| ->%list_elem_of_singleton]%elem_of_cons.
    + destruct (demo_data 33) as [? ?]; [auto|]. split; [reflexivity|]. split; [done|]. split; [done|].
      split; vm_compute; [congruence|reflexivity].
    + destruct (demo_data 34) as [? ?]; [auto|]. split; [reflexivity|]. split; [done|]. split; [done|].
      split; vm_compute; [congruence|reflexivity].
Defined.

Lemma store_fault_correct_witness :
  exists s', store_fault (pg 30) 4100 demo_vm = Ret false s' /\
    translate (ram s') (pg 30) 4100 = Some (pg 20 + 4, 23) /\ ref_at s' (ref_idx (pg 34)) = 1.
Proof.
  destruct (store_fault_correct demo_vm demo_free [] demo_To (pg 30) 4100 demo_e1)
    as (b & s' & E & _ & H); [apply demo_vminv|clia|vm_compute; reflexivity..| |split; vm_compute; congruence|].
  - apply (demo_data 34); auto.
  - destruct H as (-> & V & Hat & R & _); [reflexivity|]. exists s'. split; [exact E|]. split.
    + rewrite (Hat 4100) by clia. reflexivity.
    + rewrite R; [reflexivity|]. apply (demo_data 34). auto.
Defined.

Lemma store_fault_kills_witness : store_fault (pg 30) 8192 demo_vm = Ret true demo_vm.
Proof.
  apply (store_fault_kills demo_vm demo_To (pg 30) 8192); [apply demo_To_wf|lia|].
  intros _ e. vm_compute. congruence.
Defined.

Lemma demo_user_pages : user_pages_ok demo_ram demo_To.
Proof.
  intros v e. unfold abs_walk. destruct (demo_To !! K1 _) as [t1|] eqn:E1; [|done].
  apply demo_To_lookup in E1 as [[? _]|[[[= H2] ->]|[? _]]]; try done. rewrite H2.
  destruct (demo_To !! K0 _ _) as [t0|] eqn:E0; [|unfold leaf; by destruct (_ && _)].
  apply demo_To_lookup in E0 as [[? _]|[[? _]|[[= H1] ->]]]; try done.
  unfold pte_addr. rewrite demo_word by (lia || apply PX_range).
  repeat (rewrite decide_False by lia).
  repeat case_decide; intros E; [| |done].
  - assert (PTE2PA e = pg 33) as -> by (injection E as <-; reflexivity). apply demo_pages.
  - assert (PTE2PA e = pg 34) as -> by (injection E as <-; reflexivity). apply demo_pages.
Qed.

(** The bytes of the first page, with the flags [need]. *)
Lemma demo_ubyte need v p :
  0 <= v < 4096 -> ubyte need demo_ram (pg 30) v = Some p -> p = pg 33 + v.
Proof.
  intros Hv. unfold ubyte. rewrite (upage_page _ _ demo_To _ v 0 demo_To_wf) by dlia.
  unfold upage. change (hw_walk 2 demo_ram (pg 30) 0) with (Some (demo_e0, 0%nat)).
  change (MAXVA <=? 0) with false. cbv iota beta. change (PTE2PA demo_e0) with (pg 33).
  destruct (_ =? _); [|done]. intros [= <-]. dlia.
Qed.

Lemma demo_buf v len : 0 <= v -> 0 <= len -> v + len <= 4096 -> kernel_buf demo_ram demo_To (pg 30) (pg 0) v len.
Proof.
  intros Hv Hl Hm. split.
  - intros x Hx k a [[_ ->]|[[_ ->]|[_ ->]]]%demo_To_lookup; unfold pg in *; lia.
  - intros i p Hi ->%demo_ubyte; unfold pg; lia.
Qed.

Lemma demo_out v len : 0 <= v -> 0 <= len -> v + len <= 4096 -> out_ok demo_ram demo_To (pg 30) v (pg 0) len.
Proof.
  intros Hv Hl Hm. split.
  - intros i p Hi ->%demo_ubyte; [|lia]. split; [|unfold pg; lia].
    intros k a [[_ ->]|[[_ ->]|[_ ->]]]%demo_To_lookup; unfold pg in *; lia.
  - intros i j p Hi Hj ->%demo_ubyte E%demo_ubyte; lia.
Qed.

Lemma copyin_correct_witness :
  exists r s' n, copyin (pg 30) (pg 0) 100 16 demo_vm = Ret r s' /\ 0 <= n <= 16 /\
    copied_in PTE_U demo_ram (ram s') (pg 30) (pg 0) 100 n /\
    ((r = 0 /\ n = 16) \/ (r = -1 /\ n < 16 /\ ubyte PTE_U demo_ram (pg 30) (100 + n) = None)).
Proof.
  apply (copyin_correct demo_vm demo_To (pg 30) (pg 0) 100 16);
    [apply demo_To_wf|apply demo_user_pages|lia|lia|lia|apply demo_buf; lia].
Defined.

Lemma copyout_correct_witness :
  exists r s' n, copyout (pg 30) 100 (pg 0) 16 demo_vm = Ret r s' /\ 0 <= n <= 16 /\
    copied_out demo_ram (ram s') (pg 30) 100 (pg 0) n /\
    ((r = 0 /\ n = 16) \/ (r = -1 /\ n < 16 /\ ubyte PTE_UW demo_ram (pg 30) (100 + n) = None)).
Proof.
  apply (copyout_correct demo_vm demo_To (pg 30) 100 (pg 0) 16);
    [apply demo_To_wf|lia|lia|lia|apply demo_out; lia].
Defined.

Lemma copyinstr_correct_witness :
  exists r s' n, copyinstr (pg 30) (pg 0) 100 16 demo_vm = Ret r s' /\ 0 <= n <= 16 /\
    copied_str demo_ram (ram s') (pg 30) (pg 0) 100 n.
Proof.
  destruct (copyinstr_correct demo_vm demo_To (pg 30) (pg 0) 100 16) as (r & s' & n & E & Hn & Hc & _);
    [apply demo_To_wf|apply demo_user_pages|lia|lia|lia|apply demo_buf; lia|].
  exists r, s', n. split; [exact E|]. split; [exact Hn|exact Hc].
Defined.

Lemma copyout_refuses_cow_witness :
  exists s', copyout (pg 30) 4096 (pg 0) 0 demo_vm = Ret 0 s' /\
  exists s', copyout (pg 30) 4100 (pg 0) 8 demo_vm = Ret (-1) s' /\ forall x, ram s' x = ram demo_vm x.
Proof.
  exists demo_vm. split; [reflexivity|].
  apply (copyout_refuses_cow demo_vm demo_To (pg 30) 4100 (pg 0) 8 (mkpte (pg 34) 23));
    [apply demo_To_wf|clia|lia|lia| |vm_compute; reflexivity|vm_compute; split; congruence].
  assert (H : forall v p, 4096 <= v < 8192 -> ubyte PTE_UW demo_ram (pg 30) v <> Some p).
  { intros v p Hv. unfold ubyte. rewrite (upage_page _ _ demo_To _ v 4096 demo_To_wf) by dlia.
    vm_compute. congruence. }
  split; [intros i p Hi E|intros i j p Hi Hj E]; destruct (H (4100 + i) p ltac:(lia) E).
Defined.
