(* ===== verification/GroupLock.v ===== *)
(** kernel/grouplock.c: the lock whose word is an element of Z/2Z.

    The calls grouplock_create, grouplock_acquire, grouplock_release and
    grouplock_destroy are run by any number of processes, one shared access at a
    time: a process is at a program point ([gpc]) and a step performs the access
    at that point.  The checks of [group_id] happen under grouplocks_table_lock;
    [tl] is the process holding it across several steps, which only create does
    (the other sections under it read or write one shared field and are single
    steps).  acquire and release touch [state] and [holder_pid] without it. *)

From S2P Require Import Prelude Spinlock.

Definition MAX_GROUPLOCKS : Z := 64.
Definition GROUP_ELEM_0 : Z := 0.
Definition GROUP_ELEM_1 : Z := 1.

Record grouplock : Type := mkgl {
  gl_state : Z;
  group_id : Z;
  holder_pid : Z;
  gl_name : list Z;
  ref_count : Z;
  acquire_time : Z;
  debug_lock : spinlock
}.

(** ** The group *)
Definition group_add (a b : Z) : Z := (a + b) mod 2.
Definition group_inverse (a : Z) : Z := a.
Definition group_is_identity (a : Z) : bool := a =? GROUP_ELEM_0.

(** atomic_group_add where nothing interferes: the old value and the new. *)
Definition atomic_group_add (v value : Z) : Z * Z := (v, group_add v value).

(** The self-checks; -1 at the first failure. *)
Definition first_fail (checks : list bool) : Z := if forallb id checks then 0 else -1.
Definition elems : list Z := [0; 1].

Definition verify_group_properties : Z :=
  first_fail (
    (a ← elems; b ← elems; [(group_add a b =? 0) || (group_add a b =? 1)]) ++
    (a ← elems; b ← elems; [group_add a b =? group_add b a]) ++
    (a ← elems; b ← elems; c ← elems;
       [group_add (group_add a b) c =? group_add a (group_add b c)]) ++
    (a ← elems; [(group_add a GROUP_ELEM_0 =? a) && (group_add GROUP_ELEM_0 a =? a)]) ++
    (a ← elems; [group_add a (group_inverse a) =? GROUP_ELEM_0])).

Definition verify_deadlock_freedom : Z :=
  first_fail (s ← elems; [group_add s (group_inverse s) =? GROUP_ELEM_0]).

Definition verify_atomic_group_operations : Z :=
  let '(result1, test1) := atomic_group_add GROUP_ELEM_0 GROUP_ELEM_1 in
  if negb ((result1 =? GROUP_ELEM_0) && (test1 =? GROUP_ELEM_1)) then -1 else
  let '(result2, test2) := atomic_group_add test1 GROUP_ELEM_1 in
  if negb ((result2 =? GROUP_ELEM_1) && (test2 =? GROUP_ELEM_0)) then -1 else 0.

(** ** The lock table *)
Definition free_grouplock : grouplock :=
  mkgl GROUP_ELEM_0 (-1) (-1) [] 0 0 (initlock "grouplock_debug").

(** Program points.  [Idle r]: outside the lock code, after a call that returned
    [r].  The others name the next shared access. *)
Inductive gpc : Type :=
| Idle (r : Z)
| CreateState (id : Z) (name : list Z)   (* grouplocks[id].state = 0 *)
| CreateHolder (id : Z) (name : list Z)  (* .holder_pid = -1 *)
| CreateRest (id : Z) (name : list Z)    (* .ref_count, .acquire_time, .name; unlock *)
| AcqCas (id : Z)                        (* the compare-and-swap 0 -> 1 *)
| AcqHolder (id : Z)                     (* .holder_pid = p->pid *)
| AcqTime (id : Z)                       (* .acquire_time = ticks; return 0 *)
| RelHolder (id : Z)                     (* holder_pid != p->pid ? *)
| RelClear (id : Z)                      (* .holder_pid = -1 *)
| RelTime (id : Z)                       (* .acquire_time = 0 *)
| RelRead (id : Z)                       (* expected = *addr *)
| RelCas (id expected : Z).              (* compare-and-swap expected -> expected + 1 *)

Inductive gcall : Type :=
| GCreate (id : Z) (name : list Z)
| GAcquire (id : Z)
| GRelease (id : Z)
| GDestroy (id : Z).

(** [cs p id]: process [p] is between a grouplock_acquire(id) that returned 0 and
    the grouplock_release(id) that accepts it. *)
Record gstate : Type := mkg {
  gls : Z -> grouplock;
  tl : option Z;
  ticks : Z;
  gpcs : Z -> gpc;
  cs : Z -> Z -> bool
}.

Definition grouplock_init (now : Z) : gstate :=
  mkg (fun _ => free_grouplock) None now (fun _ => Idle 0) (fun _ _ => false).

Definition set_pc (p : Z) (c : gpc) (s : gstate) : gstate :=
  mkg (gls s) (tl s) (ticks s) (upd (gpcs s) p c) (cs s).
Definition set_gl (id : Z) (f : grouplock -> grouplock) (s : gstate) : gstate :=
  mkg (upd (gls s) id (f (gls s id))) (tl s) (ticks s) (gpcs s) (cs s).
Definition set_tl (o : option Z) (s : gstate) : gstate :=
  mkg (gls s) o (ticks s) (gpcs s) (cs s).
Definition set_cs (p id : Z) (b : bool) (s : gstate) : gstate :=
  mkg (gls s) (tl s) (ticks s) (gpcs s) (upd (cs s) p (upd (cs s p) id b)).

Definition with_state (v : Z) (g : grouplock) : grouplock :=
  mkgl v (group_id g) (holder_pid g) (gl_name g) (ref_count g) (acquire_time g) (debug_lock g).
Definition with_id (v : Z) (g : grouplock) : grouplock :=
  mkgl (gl_state g) v (holder_pid g) (gl_name g) (ref_count g) (acquire_time g) (debug_lock g).
Definition with_holder (v : Z) (g : grouplock) : grouplock :=
  mkgl (gl_state g) (group_id g) v (gl_name g) (ref_count g) (acquire_time g) (debug_lock g).
Definition with_time (v : Z) (g : grouplock) : grouplock :=
  mkgl (gl_state g) (group_id g) (holder_pid g) (gl_name g) (ref_count g) v (debug_lock g).
Definition with_ref (v : Z) (g : grouplock) : grouplock :=
  mkgl (gl_state g) (group_id g) (holder_pid g) (gl_name g) v (acquire_time g) (debug_lock g).
Definition with_name (v : list Z) (g : grouplock) : grouplock :=
  mkgl (gl_state g) (group_id g) (holder_pid g) v (ref_count g) (acquire_time g) (debug_lock g).

Definition bad_id (id : Z) : bool := (id <? 0) || (MAX_GROUPLOCKS <=? id).

(** Entering grouplocks_table_lock's critical section; while create holds it,
    everybody else spins. *)
Definition locked_section (s : gstate) (k : gstate) : gstate :=
  match tl s with Some _ => s | None => k end.

(** At most 15 bytes of the name, up to its NUL. *)
Fixpoint copy_name (room : nat) (name : list Z) : list Z :=
  match room, name with
  | S room', c :: name' => if c =? 0 then [] else c :: copy_name room' name'
  | _, _ => []
  end.

Definition grouplock_create (p id : Z) (name : list Z) (s : gstate) : gstate :=
  if bad_id id then set_pc p (Idle (-1)) s else
  locked_section s
    (if negb (group_id (gls s id) =? -1) then set_pc p (Idle (-2)) s
     else set_pc p (CreateState id name) (set_tl (Some p) (set_gl id (with_id id) s))).

Definition grouplock_acquire (p id : Z) (s : gstate) : gstate :=
  if bad_id id then set_pc p (Idle (-1)) s else
  locked_section s
    (if group_id (gls s id) =? -1 then set_pc p (Idle (-2)) s else set_pc p (AcqCas id) s).

Definition grouplock_release (p id : Z) (s : gstate) : gstate :=
  if bad_id id then set_pc p (Idle (-1)) s else
  locked_section s
    (if group_id (gls s id) =? -1 then set_pc p (Idle (-2)) s else set_pc p (RelHolder id) s).

Definition grouplock_destroy (p id : Z) (s : gstate) : gstate :=
  if bad_id id then set_pc p (Idle (-1)) s else
  locked_section s
    (if group_id (gls s id) =? -1 then set_pc p (Idle (-2)) s else
     if negb (gl_state (gls s id) =? GROUP_ELEM_0) then set_pc p (Idle (-3)) s else
     set_pc p (Idle 0) (set_gl id (fun g => with_ref 0 (with_id (-1) g)) s)).

(** One step of process [p]; the call is used only when it is idle. *)
Definition gstep (p : Z) (c : gcall) (s : gstate) : gstate :=
  match gpcs s p with
  | Idle _ =>
      match c with
      | GCreate id name => grouplock_create p id name s
      | GAcquire id => grouplock_acquire p id s
      | GRelease id => grouplock_release p id s
      | GDestroy id => grouplock_destroy p id s
      end
  | CreateState id name => set_pc p (CreateHolder id name) (set_gl id (with_state GROUP_ELEM_0) s)
  | CreateHolder id name => set_pc p (CreateRest id name) (set_gl id (with_holder (-1)) s)
  | CreateRest id name =>
      set_pc p (Idle 0) (set_tl None
        (set_gl id (fun g => with_name (copy_name 15 name) (with_time 0 (with_ref 1 g))) s))
  | AcqCas id =>
      if gl_state (gls s id) =? GROUP_ELEM_0
      then set_pc p (AcqHolder id) (set_gl id (with_state GROUP_ELEM_1) s)
      else s
  | AcqHolder id => set_pc p (AcqTime id) (set_gl id (with_holder p) s)
  | AcqTime id => set_cs p id true (set_pc p (Idle 0) (set_gl id (with_time (ticks s)) s))
  | RelHolder id =>
      if negb (holder_pid (gls s id) =? p) then set_pc p (Idle (-3)) s
      else set_cs p id false (set_pc p (RelClear id) s)
  | RelClear id => set_pc p (RelTime id) (set_gl id (with_holder (-1)) s)
  | RelTime id => set_pc p (RelRead id) (set_gl id (with_time 0) s)
  | RelRead id => set_pc p (RelCas id (gl_state (gls s id))) s
  | RelCas id expected =>
      if gl_state (gls s id) =? expected
      then set_pc p (Idle 0) (set_gl id (with_state (group_add expected GROUP_ELEM_1)) s)
      else set_pc p (RelRead id) s
  end.

Definition grun (l : list (Z * gcall)) (s : gstate) : gstate :=
  foldl (fun s '(p, c) => gstep p c s) s l.

(** ** Z/2Z *)
Lemma group_add_laws a b c :
  group_add (group_add a b) c = group_add a (group_add b c) /\ group_add a b = group_add b a /\
  0 <= group_add a b < 2 /\ group_add a (group_inverse a) = GROUP_ELEM_0 /\
  (0 <= a < 2 -> group_add GROUP_ELEM_0 a = a).
Proof.
  unfold group_add, group_inverse, GROUP_ELEM_0. split_and!; try dlia; intros; dlia.
Qed.

(** ** Mutual exclusion on a lock that is not created or destroyed meanwhile *)
Definition keeps (id : Z) (c : gcall) : Prop :=
  match c with GCreate i _ | GDestroy i => i <> id | _ => True end.

Inductive greach (id : Z) (s0 : gstate) : gstate -> Prop :=
| greach_here : greach id s0 s0
| greach_step s p c : greach id s0 s -> 0 < p -> keeps id c -> greach id s0 (gstep p c s).

(** A lock fresh from grouplock_create, nobody inside the lock code. *)
Definition ready (id : Z) (s : gstate) : Prop :=
  group_id (gls s id) = id /\ gl_state (gls s id) = 0 /\ holder_pid (gls s id) = -1 /\ tl s = None /\
  forall p, (exists r, gpcs s p = Idle r) /\ cs s p id = false.

(** The program point, if it is one of lock [id]. *)
Definition at_lock (id : Z) (c : gpc) : option gpc :=
  match c with
  | Idle _ => None
  | CreateState i _ | CreateHolder i _ | CreateRest i _ | AcqCas i | AcqHolder i | AcqTime i
  | RelHolder i | RelClear i | RelTime i | RelRead i | RelCas i _ =>
      if i =? id then Some c else None
  end.

(** The points between winning the compare-and-swap and undoing it. *)
Definition owner_point (c : option gpc) : bool :=
  match c with
  | Some (AcqHolder _ | AcqTime _ | RelClear _ | RelTime _ | RelRead _ | RelCas _ _) => true
  | _ => false
  end.

Record ginv (id : Z) (s : gstate) (o : option Z) : Prop := {
  gi_owner : forall p, (cs s p id || owner_point (at_lock id (gpcs s p))) = true <-> o = Some p;
  gi_state : gl_state (gls s id) = match o with Some _ => 1 | None => 0 end;
  gi_holder : forall p, 0 < p -> holder_pid (gls s id) = p ->
    cs s p id = true \/ gpcs s p = AcqTime id \/ gpcs s p = RelClear id;
  gi_cs : forall p, cs s p id = true -> holder_pid (gls s id) = p;
  gi_cas : forall p e, gpcs s p = RelCas id e -> e = 1;
  gi_create : forall p name, gpcs s p <> CreateState id name /\ gpcs s p <> CreateHolder id name /\
    gpcs s p <> CreateRest id name;
  gi_excl : forall p, cs s p id = true -> owner_point (at_lock id (gpcs s p)) = false;
  gi_acq : forall p, gpcs s p = AcqTime id -> holder_pid (gls s id) = p
}.

Lemma at_lock_some id c c' : at_lock id c = Some c' <-> c' = c /\ at_lock id c <> None.
Proof. destruct c; simpl; try (destruct (_ =? _)); naive_solver. Qed.

Lemma at_lock_eq id c c' : at_lock id c = at_lock id c' -> at_lock id c <> None -> c = c'.
Proof. destruct c, c'; simpl; repeat (destruct (_ =? _)); naive_solver. Qed.

(** A step at another lock. *)
Lemma ginv_ext id s s' o :
  gls s' id = gls s id -> (forall p, cs s' p id = cs s p id) ->
  (forall p, at_lock id (gpcs s' p) = at_lock id (gpcs s p)) -> ginv id s o -> ginv id s' o.
Proof.
  intros Hg Hc Hp [I1 I2 I3 I4 I5 I6 I7 I8].
  assert (Hpc : forall p c, at_lock id c <> None -> gpcs s' p = c <-> gpcs s p = c).
  { intros p c Hn. specialize (Hp p). split; intros <-.
    - symmetry. by apply (at_lock_eq id).
    - apply (at_lock_eq id); [done|by rewrite Hp]. }
  split; rewrite ?Hg; try done.
  - intros p. by rewrite Hc, Hp.
  - intros p Hp0 Hh. rewrite Hc, !Hpc by (simpl; by rewrite Z.eqb_refl). by apply I3.
  - intros p. rewrite Hc. apply I4.
  - intros p e. rewrite Hpc by (simpl; by rewrite Z.eqb_refl). apply I5.
  - intros p name. rewrite !Hpc by (simpl; by rewrite Z.eqb_refl). apply I6.
  - intros p. rewrite Hc, Hp. apply I7.
  - intros p. rewrite Hpc by (simpl; by rewrite Z.eqb_refl). apply I8.
Qed.

(** The idle points and the points of other locks look the same from [id]. *)
Lemma ginv_pc id s p c o :
  at_lock id c = at_lock id (gpcs s p) -> ginv id s o -> ginv id (set_pc p c s) o.
Proof.
  intros Hc. apply ginv_ext; [done|done|]. intros q. simpl. rewrite upd_case.
  case_decide; [by subst|done].
Qed.

Lemma ginv_set_gl id i f s o : i <> id -> ginv id s o -> ginv id (set_gl i f s) o.
Proof. intros Hi. apply ginv_ext; [|done|done]. simpl. apply upd_ne. congruence. Qed.

Lemma ginv_set_cs id p i b s o : i <> id -> ginv id s o -> ginv id (set_cs p i b s) o.
Proof.
  intros Hi. apply ginv_ext; [done| |done]. intros q. simpl. rewrite upd_case. case_decide; [|done].
  subst. apply upd_ne. congruence.
Qed.

Lemma ginv_set_tl id t s o : ginv id s o -> ginv id (set_tl t s) o.
Proof. by apply ginv_ext. Qed.

(** Steps of [p] at lock [id] that read only, or that write [acquire_time]. *)
Lemma ginv_gl_same id s f o :
  gl_state (f (gls s id)) = gl_state (gls s id) -> holder_pid (f (gls s id)) = holder_pid (gls s id) ->
  ginv id s o -> ginv id (set_gl id f s) o.
Proof.
  intros H1 H2 [I1 I2 I3 I4 I5 I6 I7 I8]. split; simpl; rewrite ?upd_eq, ?H1, ?H2; done.
Qed.

(** A change of program point that keeps the owner. *)
Lemma ginv_move id s p c o :
  ginv id s o -> 0 < p -> owner_point (at_lock id c) = owner_point (at_lock id (gpcs s p)) ->
  (forall e, c = RelCas id e -> e = 1) ->
  (forall name, c <> CreateState id name /\ c <> CreateHolder id name /\ c <> CreateRest id name) ->
  (holder_pid (gls s id) = p -> cs s p id = true \/ c = AcqTime id \/ c = RelClear id) ->
  (c = AcqTime id -> holder_pid (gls s id) = p) ->
  ginv id (set_pc p c s) o.
Proof.
  intros [I1 I2 I3 I4 I5 I6 I7 I8] Hp Ho He Hn Hh Ha. split; simpl; try done; intros q.
  - rewrite upd_case. case_decide; [subst; by rewrite Ho|done].
  - intros Hq Eq. rewrite upd_case. case_decide as Hd; [rewrite Hd in *; by apply Hh|by apply I3].
  - rewrite upd_case. case_decide; [apply He|apply I5].
  - rewrite upd_case. case_decide; [apply Hn|apply I6].
  - intros Hc. rewrite upd_case. case_decide; [subst; rewrite Ho; by apply I7|by apply I7].
  - rewrite upd_case. case_decide; [by subst|apply I8].
Qed.

(** A call's entry checks. *)
Lemma enter_inv id p c s o :
  ginv id s o -> 0 < p -> (exists r, gpcs s p = Idle r) -> keeps id c -> ginv id (gstep p c s) o.
Proof.
  intros G Hp [r Hr] Hk. unfold gstep. rewrite Hr.
  assert (Hidle : forall r', ginv id (set_pc p (Idle r') s) o) by (intros; apply ginv_pc; [by rewrite Hr|done]).
  assert (Henter : forall c', (c' = AcqCas id \/ c' = RelHolder id) -> ginv id (set_pc p c' s) o).
  { intros c' Hc'. apply ginv_move; try done.
    - rewrite Hr. destruct Hc' as [-> | ->]; simpl; by rewrite Z.eqb_refl.
    - destruct Hc' as [-> | ->]; done.
    - destruct Hc' as [-> | ->]; done.
    - intros Eh. destruct (gi_holder _ _ _ G p Hp Eh) as [?|[?|?]]; [auto|congruence..].
    - destruct Hc' as [-> | ->]; done. }
  destruct c as [i name|i|i|i]; cbv [grouplock_create grouplock_acquire grouplock_release grouplock_destroy locked_section];
    (destruct (bad_id i); [done|]); (destruct (tl s); [done|]); (destruct (group_id (gls s i) =? -1); simpl negb; cbv iota);
    try done; simpl in Hk.
  - apply ginv_pc; [simpl; rewrite Hr; by destruct (Z.eqb_spec i id)|]. by apply ginv_set_tl, ginv_set_gl.
  - destruct (decide (i = id)) as [->|]; [auto|]. apply ginv_pc; [|done]. rewrite Hr. simpl. by destruct (Z.eqb_spec i id).
  - destruct (decide (i = id)) as [->|]; [auto|]. apply ginv_pc; [|done]. rewrite Hr. simpl. by destruct (Z.eqb_spec i id).
  - destruct (negb _); [done|]. apply ginv_pc; [simpl; by rewrite Hr|]. by apply ginv_set_gl.
Qed.

(** The steps of the owner, and the step that makes one. *)
Section owner_steps.
Context (id p : Z) (s : gstate) (Hp : 0 < p).

Lemma win_inv o :
  ginv id s o -> gpcs s p = AcqCas id -> gl_state (gls s id) = 0 ->
  ginv id (set_pc p (AcqHolder id) (set_gl id (with_state GROUP_ELEM_1) s)) (Some p).
Proof.
  intros [I1 I2 I3 I4 I5 I6 I7 I8] Hpc H0. destruct o as [o|]; [lia|].
  assert (Hno : forall q, cs s q id = false /\ owner_point (at_lock id (gpcs s q)) = false).
  { intros q. specialize (I1 q). rewrite orb_true_iff in I1.
    destruct (cs s q id), (owner_point _); naive_solver. }
  split; simpl; rewrite ?upd_eq; simpl; try done; intros q; rewrite ?upd_case.
  - destruct (Hno q) as [-> Hq]. case_decide; [subst; simpl; by rewrite Z.eqb_refl|]. simpl. rewrite Hq. naive_solver.
  - intros Hq Eq. rewrite ?upd_case. case_decide as Hd; [|by apply I3].
    destruct (I3 q Hq Eq) as [?|[?|?]]; subst; auto; congruence.
  - case_decide; [done|apply I5].
  - case_decide; [done|apply I6].
  - destruct (Hno q) as [-> _]. done.
  - case_decide; [done|apply I8].
Qed.

Lemma set_holder_inv o :
  ginv id s o -> gpcs s p = AcqHolder id ->
  ginv id (set_pc p (AcqTime id) (set_gl id (with_holder p) s)) o.
Proof.
  intros [I1 I2 I3 I4 I5 I6 I7 I8] Hpc.
  assert (Ho : owner_point (at_lock id (gpcs s p)) = true) by (rewrite Hpc; simpl; by rewrite Z.eqb_refl).
  assert (o = Some p) as -> by (apply I1; rewrite Ho; apply orb_true_r).
  split; simpl; rewrite ?upd_eq; simpl; try done; intros q; rewrite ?upd_case.
  - case_decide; [subst; rewrite <- I1, Ho; simpl; by rewrite Z.eqb_refl|apply I1].
  - intros Hq <-. rewrite ?upd_case, decide_True by done. auto.
  - intros Hc. assert (Some p = Some q) by (apply I1; by rewrite Hc). congruence.
  - case_decide; [done|apply I5].
  - case_decide; [done|apply I6].
  - intros Hc. case_decide; [subst; rewrite I7 in Ho by done; done|by apply I7].
  - case_decide; [done|]. intros E. assert (Some p = Some q); [|congruence].
    apply I1. rewrite E. simpl. rewrite Z.eqb_refl. apply orb_true_r.
Qed.

Lemma got_inv o :
  ginv id s o -> gpcs s p = AcqTime id -> ginv id (set_cs p id true (set_pc p (Idle 0) s)) o.
Proof.
  intros [I1 I2 I3 I4 I5 I6 I7 I8] Hpc. pose proof (I8 _ Hpc) as Hh.
  assert (o = Some p) as -> by (apply I1; rewrite Hpc; simpl; rewrite Z.eqb_refl; apply orb_true_r).
  split; simpl; try done; intros q; rewrite ?(upd_case (cs s)), ?upd_case.
  - case_decide; [subst; rewrite upd_eq; done|apply I1].
  - intros Hq Eq. rewrite ?(upd_case (cs s)), ?upd_case. case_decide; [subst; rewrite upd_eq; by left|by apply I3].
  - case_decide; [by subst|apply I4].
  - case_decide; [done|apply I5].
  - case_decide; [done|apply I6].
  - case_decide; [done|apply I7].
  - case_decide; [done|apply I8].
Qed.

Lemma accept_inv o :
  ginv id s o -> gpcs s p = RelHolder id -> holder_pid (gls s id) = p ->
  ginv id (set_cs p id false (set_pc p (RelClear id) s)) o.
Proof.
  intros [I1 I2 I3 I4 I5 I6 I7 I8] Hpc Hh.
  assert (Hcs : cs s p id = true) by (destruct (I3 p Hp Hh) as [|[?|?]]; [done|congruence..]).
  assert (o = Some p) as -> by (apply I1; by rewrite Hcs).
  split; simpl; try done; intros q; rewrite ?(upd_case (cs s)), ?upd_case.
  - case_decide; [subst; rewrite upd_eq; simpl; by rewrite Z.eqb_refl|apply I1].
  - intros Hq Eq. rewrite ?(upd_case (cs s)), ?upd_case. case_decide; [auto|by apply I3].
  - case_decide; [subst; by rewrite upd_eq|apply I4].
  - case_decide; [done|apply I5].
  - case_decide; [done|apply I6].
  - case_decide; [subst; by rewrite upd_eq|apply I7].
  - case_decide; [done|apply I8].
Qed.

Lemma clear_inv o :
  ginv id s o -> gpcs s p = RelClear id ->
  ginv id (set_pc p (RelTime id) (set_gl id (with_holder (-1)) s)) o.
Proof.
  intros [I1 I2 I3 I4 I5 I6 I7 I8] Hpc.
  assert (Ho : owner_point (at_lock id (gpcs s p)) = true) by (rewrite Hpc; simpl; by rewrite Z.eqb_refl).
  assert (o = Some p) as -> by (apply I1; rewrite Ho; apply orb_true_r).
  assert (Huniq : forall q, (cs s q id || owner_point (at_lock id (gpcs s q))) = true -> q = p)
    by (intros q Hq; apply I1 in Hq; congruence).
  split; simpl; rewrite ?upd_eq; simpl; try done; intros q; rewrite ?upd_case.
  - case_decide; [subst; rewrite <- I1, Ho; simpl; by rewrite Z.eqb_refl|apply I1].
  - lia.
  - intros Hc. assert (q = p) by (apply Huniq; by rewrite Hc). subst. rewrite I7 in Ho; done.
  - case_decide; [done|apply I5].
  - case_decide; [done|apply I6].
  - intros Hc. case_decide; [subst; rewrite I7 in Ho by done; done|by apply I7].
  - case_decide; [done|]. intros E. destruct H. apply Huniq. rewrite E. simpl. rewrite Z.eqb_refl. apply orb_true_r.
Qed.

Lemma undo_inv o e :
  ginv id s o -> gpcs s p = RelCas id e ->
  gl_state (gls s id) = e /\
  ginv id (set_pc p (Idle 0) (set_gl id (with_state (group_add e GROUP_ELEM_1)) s)) None.
Proof.
  intros [I1 I2 I3 I4 I5 I6 I7 I8] Hpc. pose proof (I5 _ _ Hpc) as ->.
  assert (Ho : owner_point (at_lock id (gpcs s p)) = true) by (rewrite Hpc; simpl; by rewrite Z.eqb_refl).
  assert (o = Some p) as -> by (apply I1; rewrite Ho; apply orb_true_r).
  assert (Huniq : forall q, (cs s q id || owner_point (at_lock id (gpcs s q))) = true -> q = p)
    by (intros q Hq; apply I1 in Hq; congruence).
  assert (Hcp : cs s p id = false) by (destruct (cs s p id) eqn:E; [rewrite I7 in Ho|]; done).
  split; [done|]. split; simpl; rewrite ?upd_eq; simpl; try done; intros q; rewrite ?upd_case.
  - split; [|done]. intros Hq. exfalso. case_decide as Hd; [by subst; rewrite Hcp in Hq|].
    apply Hd, Huniq, Hq.
  - intros Hq Eq. rewrite ?upd_case. case_decide as Hd; [|by apply I3].
    destruct (I3 q Hq Eq) as [Hx|[Hx|Hx]]; [by left|subst; congruence..].
  - case_decide; [done|apply I5].
  - case_decide; [done|apply I6].
  - intros Hc. case_decide; [done|by apply I7].
  - case_decide; [done|apply I8].
Qed.
End owner_steps.

Lemma ginv_owner id s o p :
  ginv id s o -> owner_point (at_lock id (gpcs s p)) = true -> o = Some p.
Proof. intros G H. apply (gi_owner _ _ _ G). rewrite H. apply orb_true_r. Qed.

(** Moves of the owner between the points of release. *)
Lemma owner_move id s p c c' o :
  ginv id s o -> 0 < p -> gpcs s p = c -> c <> AcqTime id -> c <> RelClear id ->
  owner_point (at_lock id c) = true -> owner_point (at_lock id c') = true ->
  (forall e, c' = RelCas id e -> e = 1) -> c' <> AcqTime id -> ginv id (set_pc p c' s) o.
Proof.
  intros G Hp Hpc H1 H2 Ho Ho' He Ha. apply ginv_move; try done.
  - congruence.
  - destruct c'; simpl in Ho'; repeat (destruct (_ =? _)); done.
  - intros Hh. destruct (gi_holder _ _ _ G p Hp Hh) as [?|[?|?]]; [auto|congruence..].
Qed.

Lemma gstep_inv id p c s o :
  ginv id s o -> 0 < p -> keeps id c -> exists o', ginv id (gstep p c s) o'.
Proof.
  intros G Hp Hk. destruct (gpcs s p) as [r|i n|i n|i n|i|i|i|i|i|i|i|i e] eqn:Hpc;
    [exists o; by apply enter_inv; eauto|..]; unfold gstep; rewrite Hpc.
  all: destruct (decide (i = id)) as [->|Hi].
  all: try (exfalso; pose proof (gi_create _ _ _ G p n); naive_solver).
  all: try (assert (Hother : forall c', at_lock id c' = None -> at_lock id c' = at_lock id (gpcs s p))
              by (intros c' ->; rewrite Hpc; simpl; by destruct (Z.eqb_spec i id))).
  all: try (assert (Hn : forall c', (forall j, at_lock j c' = if i =? j then Some c' else None) -> at_lock id c' = None)
              by (intros c' ->; by destruct (Z.eqb_spec i id))).
  - exists o. apply ginv_pc; [apply Hother, Hn; done|]. by apply ginv_set_gl.
  - exists o. apply ginv_pc; [apply Hother, Hn; done|]. by apply ginv_set_gl.
  - exists o. apply ginv_pc; [by apply Hother|]. apply ginv_set_tl. by apply ginv_set_gl.
  - destruct (Z.eqb_spec (gl_state (gls s id)) GROUP_ELEM_0) as [E|E]; [|by exists o].
    exists (Some p). by eapply win_inv.
  - destruct (_ =? _); [|by exists o]. exists o. apply ginv_pc; [apply Hother, Hn; done|]. by apply ginv_set_gl.
  - exists o. by apply set_holder_inv.
  - exists o. apply ginv_pc; [apply Hother, Hn; done|]. by apply ginv_set_gl.
  - exists o. apply got_inv; [done|by apply ginv_gl_same|done].
  - exists o. apply ginv_set_cs; [done|]. apply ginv_pc; [by apply Hother|]. by apply ginv_set_gl.
  - destruct (Z.eqb_spec (holder_pid (gls s id)) p) as [E|E]; simpl; exists o.
    + by apply accept_inv.
    + apply ginv_move; try done. rewrite Hpc. simpl. by rewrite Z.eqb_refl.
  - destruct (negb _); exists o; [apply ginv_pc; [by apply Hother|done]|].
    apply ginv_set_cs; [done|]. apply ginv_pc; [apply Hother, Hn; done|done].
  - exists o. by apply clear_inv.
  - exists o. apply ginv_pc; [apply Hother, Hn; done|]. by apply ginv_set_gl.
  - exists o. eapply owner_move; try done; [by apply ginv_gl_same|..]; simpl; by rewrite Z.eqb_refl.
  - exists o. apply ginv_pc; [apply Hother, Hn; done|]. by apply ginv_set_gl.
  - exists o. eapply owner_move; try done; simpl; try by rewrite Z.eqb_refl.
    intros e [= <-]. rewrite (gi_state _ _ _ G). rewrite (ginv_owner _ _ _ p G); [done|].
    rewrite Hpc. simpl. by rewrite Z.eqb_refl.
  - exists o. apply ginv_pc; [apply Hother, Hn; done|done].
  - destruct (undo_inv id p s Hp o e G Hpc) as [-> G']. rewrite Z.eqb_refl. by exists None.
  - destruct (_ =? _); exists o; (apply ginv_pc; [|by try apply ginv_set_gl]); [by apply Hother|apply Hother, Hn; done].
Qed.

Lemma ready_inv id s : ready id s -> ginv id s None.
Proof.
  intros (H1 & H2 & H3 & H4 & H5).
  assert (Hpc : forall p, at_lock id (gpcs s p) = None) by (intros p; destruct (H5 p) as [[r ->] _]; done).
  split; try done.
  - intros p. destruct (H5 p) as [_ ->]. rewrite Hpc. naive_solver.
  - intros p Hp. lia.
  - intros p. destruct (H5 p) as [_ ->]. done.
  - intros p e E. specialize (Hpc p). rewrite E in Hpc. simpl in Hpc. by rewrite Z.eqb_refl in Hpc.
  - intros p n. destruct (H5 p) as [[r ->] _]. done.
  - intros p. destruct (H5 p) as [_ ->]. done.
  - intros p E. specialize (Hpc p). rewrite E in Hpc. simpl in Hpc. by rewrite Z.eqb_refl in Hpc.
Qed.

Lemma greach_inv id s0 s : ready id s0 -> greach id s0 s -> exists o, ginv id s o.
Proof.
  intros H. induction 1 as [|s p c _ [o IH] Hp Hk]; [exists None; by apply ready_inv|by eapply gstep_inv].
Qed.

(** C39: as long as a group lock is neither created nor destroyed, in
    every interleaving at most one process is between a successful acquire and
    its release; the lock word is 1 and [holder_pid] names that process; the
    release always finds the word at 1, so it always applies 1 + 1 = 0; and a
    process that does not hold the lock is turned away by release. *)
Theorem grouplock_mutual_exclusion id s0 s :
  ready id s0 -> greach id s0 s ->
  (forall p q, cs s p id = true -> cs s q id = true -> p = q) /\
  (forall p, cs s p id = true -> gl_state (gls s id) = GROUP_ELEM_1 /\ holder_pid (gls s id) = p) /\
  (forall p e, gpcs s p = RelCas id e -> e = GROUP_ELEM_1 /\ gl_state (gls s id) = GROUP_ELEM_1) /\
  (forall p c, 0 < p -> gpcs s p = RelHolder id -> cs s p id = false -> gpcs (gstep p c s) p = Idle (-3)).
Proof.
  intros H0 HR. destruct (greach_inv id s0 s H0 HR) as [o G]. pose proof G as [I1 I2 I3 I4 I5 I6 I7 I8].
  split_and!.
  - intros p q Hp Hq. rewrite <- (I4 p Hp). by apply I4.
  - intros p Hp. split; [|by apply I4]. rewrite I2.
    assert (o = Some p) as -> by (apply I1; by rewrite Hp). done.
  - intros p e Hpc. split; [by eapply I5|]. rewrite I2, (ginv_owner _ _ _ p G); [done|].
    rewrite Hpc. simpl. by rewrite Z.eqb_refl.
  - intros p c Hp Hpc Hc. unfold gstep. rewrite Hpc.
    destruct (Z.eqb_spec (holder_pid (gls s id)) p) as [E|E]; simpl; [|apply upd_eq].
    destruct (I3 p Hp E) as [?|[?|?]]; congruence.
Qed.

Lemma gstep_other p q c s :
  q <> p -> gpcs (gstep q c s) p = gpcs s p /\ cs (gstep q c s) p = cs s p.
Proof.
  intros Hq. unfold gstep, grouplock_create, grouplock_acquire, grouplock_release, grouplock_destroy,
    locked_section.
  repeat case_match; simpl; rewrite ?upd_ne by congruence; done.
Qed.

(** The design document claims the lock is free of deadlock
    because every element of Z/2Z has an inverse; but a process that acquires a
    lock it already holds spins forever, whatever the other processes do. *)
Theorem grouplock_self_deadlock id s0 s s' p :
  ready id s0 -> greach id s0 s -> cs s p id = true -> gpcs s p = AcqCas id ->
  greach id s s' -> gpcs s' p = AcqCas id /\ cs s' p id = true.
Proof.
  intros H0 HR Hc Hpc. destruct (greach_inv id s0 s H0 HR) as [o G].
  assert (HI : forall s1, greach id s s1 -> gpcs s1 p = AcqCas id /\ cs s1 p id = true /\ exists o, ginv id s1 o).
  { clear s'. induction 1 as [|s' q c _ (Hpc' & Hc' & o' & G') Hq Hk]; [eauto|].
    pose proof (gstep_inv id q c s' o' G' Hq Hk) as HG. destruct (decide (q = p)) as [->|Hne].
    - assert (Hs : gl_state (gls s' id) = 1).
      { rewrite (gi_state _ _ _ G'). assert (o' = Some p) as ->; [|done].
        apply (gi_owner _ _ _ G'). by rewrite Hc'. }
      assert (gstep p c s' = s') as E by (unfold gstep; by rewrite Hpc', Hs). by rewrite E in *.
    - destruct (gstep_other p q c s' Hne) as [-> ->]. done. }
  intros HR'. destruct (HI s' HR') as (? & ? & _). done.
Qed.

(** grouplock_destroy does not wait for an acquire that has
    passed its existence check: after that race, creating the lock again resets
    the word under its holder, and two processes are in the critical section. *)
Theorem grouplock_destroy_race :
  exists l, Forall (fun pc => 0 < fst pc) l /\
    let s := grun l (grouplock_init 0) in cs s 1 0 = true /\ cs s 2 0 = true.
Proof.
  exists (replicate 4 (1, GCreate 0 []) ++           (* 1 creates the lock *)
     [(1, GAcquire 0)] ++                            (* 1 passes the check of acquire *)
     [(2, GDestroy 0)] ++                            (* 2 destroys it: the word is still 0 *)
     replicate 3 (1, GAcquire 0) ++                  (* 1 wins the compare-and-swap, returns 0 *)
     replicate 4 (2, GCreate 0 []) ++                (* 2 creates it again *)
     replicate 4 (2, GAcquire 0)).                   (* and acquires it *)
  split; [repeat constructor|]. split; vm_compute; reflexivity.
Qed.

(** Process 1 creates lock 5; then 1 acquires it while 2 tries. *)
Definition demo_group : gstate := grun (replicate 4 (1, GCreate 5 [])) (grouplock_init 7).

Lemma demo_group_ready : ready 5 demo_group.
Proof.
  split; [done|]. split; [done|]. split; [done|]. split; [done|].
  intros p. split; [|done]. destruct (decide (p = 1)) as [->|Hp].
  - eexists. vm_compute. reflexivity.
  - exists 0. unfold demo_group, grun. cbn [foldl replicate]. by rewrite !(proj1 (gstep_other p 1 _ _ (not_eq_sym Hp))).
Qed.

Definition demo_group_run : gstate := grun (replicate 4 (1, GAcquire 5) ++ replicate 2 (2, GAcquire 5)) demo_group.

Lemma demo_group_reach : greach 5 demo_group demo_group_run.
Proof. repeat (apply (greach_step 5 demo_group); [|lia|done]). apply greach_here. Qed.

Lemma grouplock_mutual_exclusion_witness :
  cs demo_group_run 1 5 = true /\ gl_state (gls demo_group_run 5) = GROUP_ELEM_1 /\ gpcs demo_group_run 2 = AcqCas 5.
Proof.
  split; [reflexivity|]. split; [|reflexivity].
  destruct (grouplock_mutual_exclusion 5 demo_group demo_group_run demo_group_ready demo_group_reach)
    as (_ & H & _).
  apply (H 1). reflexivity.
Defined.

Lemma grouplock_self_deadlock_witness :
  let s := gstep 1 (GAcquire 5) demo_group_run in
  gpcs (gstep 2 (GRelease 5) s) 1 = AcqCas 5 /\ cs (gstep 2 (GRelease 5) s) 1 5 = true.
Proof.
  intros s. apply (grouplock_self_deadlock 5 demo_group s _ 1 demo_group_ready).
  - apply greach_step; [apply demo_group_reach|lia|exact Logic.I].
  - reflexivity.
  - reflexivity.
  - apply greach_step; [apply greach_here|lia|exact Logic.I].
Defined.
