(* ===== verification/Held.v ===== *)
(** The spin locks a running hart holds.

    The layers above the allocator run with every spin lock either free or held
    by the running hart itself: [Spinlock] shows that other harts are kept out.
    For them a kernel state only says which locks the hart holds.  [acquire] of a
    lock the hart holds and [release] of one it does not are the two panics of
    spinlock.c.  [owned_acquire], [owned_release] and [owned_panics] prove that the routines
    of [Spinlock], on lock words and the hart's nesting counter, implement these. *)

From S2P Require Import Prelude Spinlock.

Lemma filter_keep {A} (P : A -> Prop) `{forall x, Decision (P x)} (l : list A) :
  (forall x, x ∈ l -> P x) -> filter P l = l.
Proof.
  induction l as [|x l IH]; intros HP; [done|].
  rewrite filter_cons_True by (apply HP; left). rewrite IH; [done|]. intros. apply HP. by right.
Qed.

Class Held (S L : Type) : Type := {
  held : S -> list L;
  put_held : list L -> S -> S
}.

Class HeldLaws (S L : Type) `{Held S L} : Prop := {
  held_put : forall h (s : S), held (put_held h s) = h;
  put_held_put : forall h h' (s : S), put_held h (put_held h' s) = put_held h s;
  put_held_held : forall s : S, put_held (held s) s = s
}.

Section ops.
Context {S L : Type} `{Held S L} `{EqDecision L}.

Definition acquire (l : L) : M S unit :=
  h <- gets held ;;
  if bool_decide (l ∈ h) then panic "acquire" else modify (put_held (l :: h)).

Definition release (l : L) : M S unit :=
  h <- gets held ;;
  if negb (bool_decide (l ∈ h)) then panic "release"
  else modify (put_held (filter (fun l' => l' <> l) h)).
End ops.

Section spec.
Context {S L : Type} `{HeldLaws S L} `{EqDecision L}.
Implicit Types s : S.

Lemma acquire_run l s : l ∉ held s -> acquire l s = Ret tt (put_held (l :: held s) s).
Proof. intros Hl. unfold acquire. mrun. by rewrite bool_decide_false. Qed.

Lemma release_run l h s : held s = l :: h -> l ∉ h -> release l s = Ret tt (put_held h s).
Proof.
  intros Hh Hl. unfold release. mrun. rewrite Hh, bool_decide_true by left. cbn [negb].
  rewrite filter_cons_False by (intros E; by apply E). rewrite filter_keep; [done|].
  intros x Hx ->. done.
Qed.

(** A section under a lock whose body gives back the locks as it found them. *)
Lemma critical {A} l (m : M S A) s a s' :
  l ∉ held s ->
  m (put_held (l :: held s) s) = Ret a s' -> held s' = l :: held s ->
  (acquire l ;; x <- m ;; release l ;; ret x) s = Ret a (put_held (held s) s').
Proof.
  intros Hl Hm Hh. erewrite bind_ret by (by apply acquire_run). erewrite bind_ret by exact Hm.
  by erewrite bind_ret by (eapply release_run; eauto).
Qed.
End spec.

(** ** The lock words implement the list of held locks *)
Section refines.
Context {S L : Type} `{LockLaws S L} `{EqDecision L}.
Hypothesis lock_put_ne : forall l l' k (s : S), l <> l' -> lock_of l' (put_lock l k s) = lock_of l' s.

(** [base] sections of push_off besides those of the held locks. *)
Record owned (base : Z) (s : S) (h : list L) : Prop := {
  owned_base : 0 <= base;
  owned_nodup : NoDup h;
  owned_noff : noff (hart_of s) = base + Z.of_nat (length h);
  owned_sie : sie (hart_of s) = true -> noff (hart_of s) = 0;
  owned_in : forall l, l ∈ h -> locked (lock_of l s) = 1 /\ lcpu (lock_of l s) = Some (hartid (hart_of s));
  owned_out : forall l, l ∉ h -> locked (lock_of l s) = 0
}.

Definition popped (h : hart) : hart :=
  mkhart (hartid h) ((noff h - 1 =? 0) && intena h) (noff h - 1) (intena h).

Lemma pop_off_run s :
  sie (hart_of s) = false -> 1 <= noff (hart_of s) -> pop_off s = Ret tt (put_hart (popped (hart_of s)) s).
Proof.
  intros Hs Hn. unfold pop_off, intr_get, set_noff, intr_on, intr_set, popped. mrun. rewrite Hs.
  destruct (Z.ltb_spec (noff (hart_of s)) 1); [lia|]. simpl. rewrite hart_put_hart. simpl.
  destruct (_ && _); simpl; rewrite ?hart_put_hart, ?put_hart_hart; simpl; by rewrite ?Hs.
Qed.

(** The length of the list without one of its elements. *)
Lemma length_without (l : L) h :
  NoDup h -> l ∈ h -> length h = Datatypes.S (length (filter (fun l' => l' <> l) h)).
Proof.
  intros Hn Hl. apply list_elem_of_split in Hl as (h1 & h2 & ->).
  apply NoDup_app in Hn as (_ & Hd & [Hl2 _]%NoDup_cons).
  rewrite filter_app, filter_cons_False by (intros E; by apply E).
  rewrite !filter_keep, !length_app; simpl; [lia|..].
  - by intros x Hx ->.
  - intros x Hx ->. apply (Hd l Hx). left.
Qed.

Lemma owned_acquire base s h l :
  owned base s h -> l ∉ h -> exists s', Spinlock.acquire l s = Ret tt s' /\ owned base s' (l :: h).
Proof.
  intros [Hb Hd Hn Hs Hi Ho] Hl. eexists. split; [by apply acquire_free, Ho|].
  split; rewrite ?hart_put_lock, ?hart_put_hart; simpl.
  - done.
  - by constructor.
  - lia.
  - done.
  - intros l' Hl'. destruct (decide (l' = l)) as [->|Hne].
    + by rewrite lock_put_lock.
    + rewrite lock_put_ne, lock_put_hart by done. apply Hi. set_solver.
  - intros l' Hl'. rewrite lock_put_ne, lock_put_hart by set_solver. apply Ho. set_solver.
Qed.

Lemma owned_release base s h l :
  owned base s h -> l ∈ h ->
  exists s', Spinlock.release l s = Ret tt s' /\ owned base s' (filter (fun l' => l' <> l) h).
Proof.
  intros [Hb Hd Hn Hs Hi Ho] Hl. destruct (Hi l Hl) as [Hk Hc].
  pose proof (length_without l h Hd Hl) as Hlen.
  assert (Hsie : sie (hart_of s) = false) by (destruct (sie (hart_of s)); [lia|done]).
  unfold Spinlock.release, holding. mrun. rewrite Hk, bool_decide_true by done. simpl.
  rewrite lock_put_lock, put_lock_lock. simpl. rewrite pop_off_run; rewrite ?hart_put_lock; [|done|lia].
  eexists. split; [done|].
  split; rewrite ?hart_put_hart; simpl.
  - done.
  - by apply NoDup_filter.
  - lia.
  - intros [E _]%andb_true_iff. lia.
  - intros l' [Hne Hl']%list_elem_of_filter. rewrite lock_put_hart, lock_put_ne by done. auto.
  - intros l' Hl'. rewrite lock_put_hart. destruct (decide (l' = l)) as [->|Hne].
    + by rewrite lock_put_lock.
    + rewrite lock_put_ne by done. apply Ho. intros ?. apply Hl', list_elem_of_filter. done.
Qed.

Lemma owned_panics base s h l :
  owned base s h ->
  (l ∈ h -> Spinlock.acquire l s = Panic "acquire") /\ (l ∉ h -> Spinlock.release l s = Panic "release").
Proof.
  intros [Hb Hd Hn Hs Hi Ho]. split; intros Hl.
  - destruct (Hi l Hl) as [Hk Hc]. apply acquire_held; [lia|done].
  - apply release_not_held. left. by apply Ho.
Qed.

(** The lock words and the counters of a hart implement the list of locks
    it holds, as the other files use it: acquire of a lock not in the list and
    release of one in it succeed and change the list accordingly, the other two
    cases panic; interrupts stay off as long as a lock is held. *)
Theorem spinlock_refines_held base s h l :
  owned base s h ->
  (l ∉ h -> exists s', Spinlock.acquire l s = Ret tt s' /\ owned base s' (l :: h)) /\
  (l ∈ h -> Spinlock.acquire l s = Panic "acquire") /\
  (l ∈ h -> exists s', Spinlock.release l s = Ret tt s' /\ owned base s' (filter (fun l' => l' <> l) h)) /\
  (l ∉ h -> Spinlock.release l s = Panic "release") /\
  (l ∈ h -> sie (hart_of s) = false).
Proof.
  intros Ho. destruct (owned_panics base s h l Ho) as [Hp1 Hp2].
  split; [by apply owned_acquire|]. split; [done|]. split; [by apply owned_release|]. split; [done|].
  intros Hl. destruct Ho as [Hb Hd Hn Hs _ _]. pose proof (length_without l h Hd Hl).
  destruct (sie (hart_of s)); [lia|done].
Qed.
End refines.

(** A hart with two locks, the first of them held. *)
Record two : Type := mktwo { t_hart : hart; t_a : spinlock; t_b : spinlock }.
#[local] Instance two_locks : LockState two bool := {
  hart_of := t_hart;
  put_hart h s := mktwo h (t_a s) (t_b s);
  lock_of l s := if l then t_a s else t_b s;
  put_lock l k s := if l then mktwo (t_hart s) k (t_b s) else mktwo (t_hart s) (t_a s) k
}.
#[local] Instance two_laws : LockLaws two bool.
Proof. split; intros; try destruct l; done. Qed.

Definition demo_two : two := mktwo (mkhart 1 false 1 true) (mkspinlock 1 "a" (Some 1)) (initlock "b").

Lemma spinlock_refines_held_witness :
  (exists s', Spinlock.acquire false demo_two = Ret tt s') /\ Spinlock.acquire true demo_two = Panic "acquire" /\
  (exists s', Spinlock.release true demo_two = Ret tt s') /\ Spinlock.release false demo_two = Panic "release".
Proof.
  assert (Hne : forall (l l' : bool) k (s : two), l <> l' -> lock_of l' (put_lock l k s) = lock_of l' s)
    by (intros [] [] k s; done).
  assert (Ho : owned 0 demo_two [true]).
  { split; simpl; try done.
    - apply NoDup_singleton.
    - intros l ->%list_elem_of_singleton. done.
    - intros [] Hl; [|done]. destruct Hl. by apply list_elem_of_singleton. }
  destruct (spinlock_refines_held Hne 0 demo_two [true] true Ho) as (_ & H1 & H2 & _).
  destruct (spinlock_refines_held Hne 0 demo_two [true] false Ho) as (H3 & _ & _ & H4 & _).
  assert (false ∉ [true]) by by intros ?%list_elem_of_singleton. assert (true ∈ [true]) by by apply list_elem_of_singleton.
  destruct H2 as (s2 & E2 & _); [done|]. destruct H3 as (s3 & E3 & _); [done|].
  split; [by exists s3|]. split; [by apply H1|]. split; [by exists s2|by apply H4].
Defined.
