(* ===== verification/Sleeplock.v ===== *)
(** kernel/sleeplock.c and kernel/sleeplock.h: locks held across sleeps.

    A kernel state names its sleep locks by [K]; each has an inner spin lock and
    is taken by a process.  A process that finds the lock taken sleeps until the
    holder releases it; in a run of one process on its own that is [Stuck].
    [wakeup] makes sleepers runnable and changes nothing the state here holds. *)

From S2P Require Import Prelude Held.

Record sleeplock : Type := mksleep {
  sl_locked : Z;
  sl_name : string;
  sl_pid : Z
}.

Class SleepState (S L K : Type) : Type := {
  sleep_of : K -> S -> sleeplock;
  put_sleep : K -> sleeplock -> S -> S;
  spin_of : K -> L;
  mypid : S -> Z
}.

Class SleepLaws (S L K : Type) `{HeldLaws S L} `{SleepState S L K} : Prop := {
  sleep_put_held : forall k h (s : S), sleep_of k (put_held h s) = sleep_of k s;
  mypid_put_held : forall h (s : S), mypid (put_held h s) = mypid s;
  held_put_sleep : forall k x (s : S), held (put_sleep k x s) = held s;
  put_held_sleep : forall k x h (s : S), put_held h (put_sleep k x s) = put_sleep k x (put_held h s)
}.

Definition initsleeplock (name : string) : sleeplock := mksleep 0 name 0.

Section ops.
Context {S L K : Type} `{Held S L} `{SleepState S L K} `{EqDecision L}.

Definition acquiresleep (k : K) : M S unit :=
  acquire (spin_of k) ;;
  lk <- gets (sleep_of k) ;;
  if negb (sl_locked lk =? 0) then stuck "acquiresleep: sleeping" else
  modify (fun s => put_sleep k (mksleep 1 (sl_name lk) (mypid s)) s) ;;
  release (spin_of k).

Definition releasesleep (k : K) : M S unit :=
  acquire (spin_of k) ;;
  modify (fun s => put_sleep k (mksleep 0 (sl_name (sleep_of k s)) 0) s) ;;
  release (spin_of k).

Definition holdingsleep (k : K) : M S bool :=
  acquire (spin_of k) ;;
  r <- gets (fun s => negb (sl_locked (sleep_of k s) =? 0) && (sl_pid (sleep_of k s) =? mypid s)) ;;
  release (spin_of k) ;;
  ret r.
End ops.

Section spec.
Context {S L K : Type} `{SleepLaws S L K} `{EqDecision L}.
Implicit Types s : S.

Lemma acquiresleep_run k s :
  spin_of k ∉ held s -> sl_locked (sleep_of k s) = 0 ->
  acquiresleep k s = Ret tt (put_sleep k (mksleep 1 (sl_name (sleep_of k s)) (mypid s)) s).
Proof.
  intros Hh Hl. unfold acquiresleep. erewrite bind_ret by (by apply acquire_run). mstep.
  rewrite !sleep_put_held, Hl. cbn [Z.eqb negb]. mstep.
  erewrite release_run; [|by rewrite held_put_sleep, held_put|done].
  by rewrite mypid_put_held, put_held_sleep, put_held_put, put_held_held.
Qed.

Lemma releasesleep_run k s :
  spin_of k ∉ held s ->
  releasesleep k s = Ret tt (put_sleep k (mksleep 0 (sl_name (sleep_of k s)) 0) s).
Proof.
  intros Hh. unfold releasesleep. erewrite bind_ret by (by apply acquire_run). mstep.
  rewrite !sleep_put_held. erewrite release_run; [|by rewrite held_put_sleep, held_put|done].
  by rewrite put_held_sleep, put_held_put, put_held_held.
Qed.

Lemma holdingsleep_run k s :
  spin_of k ∉ held s ->
  holdingsleep k s = Ret (negb (sl_locked (sleep_of k s) =? 0) && (sl_pid (sleep_of k s) =? mypid s)) s.
Proof.
  intros Hh. unfold holdingsleep. erewrite bind_ret by (by apply acquire_run). mstep.
  erewrite bind_ret by (eapply release_run; [by rewrite held_put|done]).
  by rewrite !sleep_put_held, mypid_put_held, put_held_put, put_held_held.
Qed.
End spec.
