(* ===== verification/FsState.v ===== *)
(** The state the file system code runs on: the disk, the buffer cache, the log,
    the inode table (buf.h, log.c, fs.h, file.h).

    Arrays are functions of the index; a pointer to an array element is its
    index.  A block is a function from offset to byte, read and written with the
    little-endian loads and stores of [Mem].  The disk transfers whole blocks;
    [trace] records the blocks written, in order, so that a crash leaves the
    disk with some prefix of them applied. *)

From S2P Require Import Prelude Mem Riscv Held Sleeplock.

Definition BSIZE : Z := 1024.
Definition block : Type := mem.

(** struct buf; the element of index [NBUF] of the array is [bcache.head]. *)
Record buf : Type := mkbuf {
  b_valid : Z;
  b_disk : Z;
  b_dev : Z;
  b_blockno : Z;
  b_lock : sleeplock;
  b_refcnt : Z;
  b_prev : Z;
  b_next : Z;
  b_data : block
}.

(** struct log with its struct logheader. *)
Record logst : Type := mklog {
  lg_start : Z;
  lg_size : Z;
  lg_outstanding : Z;
  lg_committing : Z;
  lg_dev : Z;
  lh_n : Z;
  lh_block : Z -> Z
}.

Record superblock : Type := mksb {
  sb_magic : Z;
  sb_size : Z;
  sb_nblocks : Z;
  sb_ninodes : Z;
  sb_nlog : Z;
  sb_logstart : Z;
  sb_inodestart : Z;
  sb_bmapstart : Z
}.

(** struct inode, the in-memory copy. *)
Record inode : Type := mkinode {
  i_dev : Z;
  i_inum : Z;
  i_ref : Z;
  i_lock : sleeplock;
  i_valid : Z;
  i_type : Z;
  i_major : Z;
  i_minor : Z;
  i_nlink : Z;
  i_size : Z;
  i_addrs : Z -> Z
}.

(** The spin locks of the file system. *)
Inductive flock : Type :=
| LBcache
| LLog
| LItable
| LBuf (i : Z)     (* the inner lock of a buffer's sleep lock *)
| LInode (i : Z).  (* the inner lock of an inode's sleep lock *)

#[export] Instance flock_eq_dec : EqDecision flock.
Proof. solve_decision. Defined.

Inductive fsleep : Type := SBuf (i : Z) | SInode (i : Z).

(** [f_kmem] is kernel memory outside the structures below (buffers on kernel
    stacks), [f_umem] the memory of the running process, [f_pid] its pid and
    [f_cwd] its current directory. *)
Record fsst : Type := mkfs {
  f_held : list flock;
  f_pid : Z;
  disk : Z -> block;
  trace : list (Z * block);
  bufs : Z -> buf;
  log : logst;
  sb : superblock;
  itable : Z -> inode;
  f_kmem : mem;
  f_umem : mem;
  f_cwd : Z
}.

Definition with_held h s := mkfs h (f_pid s) (disk s) (trace s) (bufs s) (log s) (sb s) (itable s) (f_kmem s) (f_umem s) (f_cwd s).
Definition with_disk d t s := mkfs (f_held s) (f_pid s) d t (bufs s) (log s) (sb s) (itable s) (f_kmem s) (f_umem s) (f_cwd s).
Definition with_bufs b s := mkfs (f_held s) (f_pid s) (disk s) (trace s) b (log s) (sb s) (itable s) (f_kmem s) (f_umem s) (f_cwd s).
Definition with_log l s := mkfs (f_held s) (f_pid s) (disk s) (trace s) (bufs s) l (sb s) (itable s) (f_kmem s) (f_umem s) (f_cwd s).
Definition with_sb x s := mkfs (f_held s) (f_pid s) (disk s) (trace s) (bufs s) (log s) x (itable s) (f_kmem s) (f_umem s) (f_cwd s).
Definition with_itable x s := mkfs (f_held s) (f_pid s) (disk s) (trace s) (bufs s) (log s) (sb s) x (f_kmem s) (f_umem s) (f_cwd s).
Definition with_mems k u s := mkfs (f_held s) (f_pid s) (disk s) (trace s) (bufs s) (log s) (sb s) (itable s) k u (f_cwd s).
Definition with_pid p s := mkfs (f_held s) p (disk s) (trace s) (bufs s) (log s) (sb s) (itable s) (f_kmem s) (f_umem s) (f_cwd s).

Definition set_block (x : sleeplock) (b : buf) : buf :=
  mkbuf (b_valid b) (b_disk b) (b_dev b) (b_blockno b) x (b_refcnt b) (b_prev b) (b_next b) (b_data b).
Definition set_ilock (x : sleeplock) (i : inode) : inode :=
  mkinode (i_dev i) (i_inum i) (i_ref i) x (i_valid i) (i_type i) (i_major i) (i_minor i) (i_nlink i)
    (i_size i) (i_addrs i).

(** [p->field = v] on the buffer or the inode at an index. *)
Definition set_buf (i : Z) (f : buf -> buf) (s : fsst) : fsst := with_bufs (upd (bufs s) i (f (bufs s i))) s.
Definition set_ino (i : Z) (f : inode -> inode) (s : fsst) : fsst := with_itable (upd (itable s) i (f (itable s i))) s.

#[export] Instance fs_held : Held fsst flock := { held := f_held; put_held := with_held }.
#[export] Instance fs_held_laws : HeldLaws fsst flock.
Proof. split; try done. by intros []. Qed.

#[export] Instance fs_sleep : SleepState fsst flock fsleep := {
  sleep_of k s := match k with SBuf i => b_lock (bufs s i) | SInode i => i_lock (itable s i) end;
  put_sleep k x s := match k with SBuf i => set_buf i (set_block x) s | SInode i => set_ino i (set_ilock x) s end;
  spin_of k := match k with SBuf i => LBuf i | SInode i => LInode i end;
  mypid := f_pid
}.
#[export] Instance fs_sleep_laws : SleepLaws fsst flock fsleep.
Proof. split; by intros []. Qed.

(** ** Setters of single fields *)
Definition set_valid (v : Z) (b : buf) : buf :=
  mkbuf v (b_disk b) (b_dev b) (b_blockno b) (b_lock b) (b_refcnt b) (b_prev b) (b_next b) (b_data b).
Definition set_refcnt (v : Z) (b : buf) : buf :=
  mkbuf (b_valid b) (b_disk b) (b_dev b) (b_blockno b) (b_lock b) v (b_prev b) (b_next b) (b_data b).
Definition set_prev (v : Z) (b : buf) : buf :=
  mkbuf (b_valid b) (b_disk b) (b_dev b) (b_blockno b) (b_lock b) (b_refcnt b) v (b_next b) (b_data b).
Definition set_next (v : Z) (b : buf) : buf :=
  mkbuf (b_valid b) (b_disk b) (b_dev b) (b_blockno b) (b_lock b) (b_refcnt b) (b_prev b) v (b_data b).
Definition set_data (v : block) (b : buf) : buf :=
  mkbuf (b_valid b) (b_disk b) (b_dev b) (b_blockno b) (b_lock b) (b_refcnt b) (b_prev b) (b_next b) v.
(** What bget stores in a buffer it recycles. *)
Definition set_key (dev blockno : Z) (b : buf) : buf :=
  mkbuf 0 (b_disk b) dev blockno (b_lock b) 1 (b_prev b) (b_next b) (b_data b).

Definition set_lhn (n : Z) (l : logst) : logst :=
  mklog (lg_start l) (lg_size l) (lg_outstanding l) (lg_committing l) (lg_dev l) n (lh_block l).
Definition set_lhb (i b : Z) (l : logst) : logst :=
  mklog (lg_start l) (lg_size l) (lg_outstanding l) (lg_committing l) (lg_dev l) (lh_n l) (upd (lh_block l) i b).
Definition set_out (n : Z) (l : logst) : logst :=
  mklog (lg_start l) (lg_size l) n (lg_committing l) (lg_dev l) (lh_n l) (lh_block l).
Definition set_com (n : Z) (l : logst) : logst :=
  mklog (lg_start l) (lg_size l) (lg_outstanding l) n (lg_dev l) (lh_n l) (lh_block l).
Definition set_log (f : logst -> logst) (s : fsst) : fsst := with_log (f (log s)) s.
