(* ===== verification/Bio.v ===== *)
(** kernel/bio.c: the buffer cache.

    Buffers form a doubly linked list through [b_prev] and [b_next], the most
    recently used first; [bget] finds a block in it or recycles the least
    recently used buffer nobody refers to.

    The abstraction is a finite map [C] from the numbers of the blocks in use to
    [cent]: the buffer, its reference count, its contents and who has it locked.
    [brep] relates it to the buffers; the lemmas [bread_new], [bread_again],
    [bwrite_run], [brelse_last], [brelse_more], [bpin_run] and [bunpin_run] say
    what each routine does to [C] and to the disk, and are what the log and the
    file system are proved with. *)

From S2P Require Import Prelude Mem Riscv Held Sleeplock FsState.

(** &bcache.head *)
Definition HEAD : Z := NBUF.

(** virtio_disk_rw: the buffer's block is read from or written to the disk; the
    caller sleeps until the transfer is done. *)
Definition virtio_disk_rw (b : Z) (write : bool) : M fsst unit :=
  bf <- gets (fun s => bufs s b) ;;
  if write
  then modify (fun s => with_disk (upd (disk s) (b_blockno bf) (b_data bf))
                                  (trace s ++ [(b_blockno bf, b_data bf)]) s)
  else modify (fun s => set_buf b (set_data (disk s (b_blockno bf))) s).

(** One round of binit: buffer [b] goes to the front of the list. *)
Definition binit_one (b : Z) : M fsst unit :=
  modify (fun s => set_buf b (fun x => set_next (b_next (bufs s HEAD)) x) s) ;;
  modify (set_buf b (set_prev HEAD)) ;;
  modify (set_buf b (set_block (initsleeplock "buffer"))) ;;
  modify (fun s => set_buf (b_next (bufs s HEAD)) (set_prev b) s) ;;
  modify (set_buf HEAD (set_next b)).

Definition binit : M fsst unit :=
  modify (set_buf HEAD (fun x => set_next HEAD (set_prev HEAD x))) ;;
  for_each (seqZ 0 NBUF) binit_one.

(** [for(b = ...; b != &bcache.head; b = b->link) if(p(b)) ...]: the first buffer
    that satisfies [p]. *)
Fixpoint scan (link : buf -> Z) (p : buf -> bool) (fuel : nat) (b : Z) : M fsst (option Z) :=
  match fuel with
  | O => stuck "bget: the list of buffers does not end"
  | S fuel' =>
      if b =? HEAD then ret None else
      bf <- gets (fun s => bufs s b) ;;
      if p bf then ret (Some b) else scan link p fuel' (link bf)
  end.

Definition scan_fuel : nat := Eval cbv in S (Z.to_nat NBUF).

Definition bget (dev blockno : Z) : M fsst Z :=
  acquire LBcache ;;
  h <- gets (fun s => bufs s HEAD) ;;
  r <- scan b_next (fun b => (b_dev b =? dev) && (b_blockno b =? blockno)) scan_fuel (b_next h) ;;
  match r with
  | Some b =>
      modify (set_buf b (fun x => set_refcnt (u32 (b_refcnt x + 1)) x)) ;;
      release LBcache ;;
      acquiresleep (SBuf b) ;;
      ret b
  | None =>
      r <- scan b_prev (fun b => b_refcnt b =? 0) scan_fuel (b_prev h) ;;
      match r with
      | Some b =>
          modify (set_buf b (set_key dev blockno)) ;;
          release LBcache ;;
          acquiresleep (SBuf b) ;;
          ret b
      | None => panic "bget: no buffers"
      end
  end.

Definition bread (dev blockno : Z) : M fsst Z :=
  b <- bget dev blockno ;;
  bf <- gets (fun s => bufs s b) ;;
  when (b_valid bf =? 0) (virtio_disk_rw b false ;; modify (set_buf b (set_valid 1))) ;;
  ret b.

Definition bwrite (b : Z) : M fsst unit :=
  r <- holdingsleep (SBuf b) ;;
  if negb r then panic "bwrite" else virtio_disk_rw b true.

(** The unlink and relink of brelse. *)
Definition to_front (b : Z) : M fsst unit :=
  modify (fun s => set_buf (b_next (bufs s b)) (set_prev (b_prev (bufs s b))) s) ;;
  modify (fun s => set_buf (b_prev (bufs s b)) (set_next (b_next (bufs s b))) s) ;;
  modify (fun s => set_buf b (set_next (b_next (bufs s HEAD))) s) ;;
  modify (set_buf b (set_prev HEAD)) ;;
  modify (fun s => set_buf (b_next (bufs s HEAD)) (set_prev b) s) ;;
  modify (set_buf HEAD (set_next b)).

Definition brelse (b : Z) : M fsst unit :=
  r <- holdingsleep (SBuf b) ;;
  if negb r then panic "brelse" else
  releasesleep (SBuf b) ;;
  acquire LBcache ;;
  modify (set_buf b (fun x => set_refcnt (u32 (b_refcnt x - 1)) x)) ;;
  n <- gets (fun s => b_refcnt (bufs s b)) ;;
  when (n =? 0) (to_front b) ;;
  release LBcache.

Definition bpin (b : Z) : M fsst unit :=
  acquire LBcache ;;
  modify (set_buf b (fun x => set_refcnt (u32 (b_refcnt x + 1)) x)) ;;
  release LBcache.

Definition bunpin (b : Z) : M fsst unit :=
  acquire LBcache ;;
  modify (set_buf b (fun x => set_refcnt (u32 (b_refcnt x - 1)) x)) ;;
  release LBcache.

(** ** The list of buffers *)

(** Following [f] from [a] visits [l] and then [b]. *)
Fixpoint path (f : Z -> Z) (a : Z) (l : list Z) (b : Z) : Prop :=
  match l with
  | [] => f a = b
  | x :: l' => f a = x /\ path f x l' b
  end.

(** The buffers in order of use, the most recently released first. *)
Record lru (B : Z -> buf) (l : list Z) : Prop := {
  lru_next : path (fun i => b_next (B i)) HEAD l HEAD;
  lru_prev : path (fun i => b_prev (B i)) HEAD (reverse l) HEAD;
  lru_all : l ≡ₚ seqZ 0 NBUF
}.

(** An entry of the abstract cache. *)
Record cent : Type := mkcent {
  c_ix : Z;
  c_refs : Z;
  c_dat : block;
  c_lock : option Z
}.

Definition lock_is (lk : sleeplock) (o : option Z) : Prop :=
  match o with
  | None => sl_locked lk = 0
  | Some p => sl_locked lk = 1 /\ sl_pid lk = p
  end.

Definition in_cache (i : Z) : Prop := 0 <= i < NBUF.

(** Buffer [b] of index [i] is what entry [e] says of block [bn]. *)
Record is_cent (dev : Z) (i : Z) (b : buf) (bn : Z) (e : cent) : Prop := {
  ic_range : in_cache i;
  ic_ix : c_ix e = i;
  ic_dev : b_dev b = dev;
  ic_bn : b_blockno b = bn;
  ic_refs : b_refcnt b = c_refs e;
  ic_pos : 0 < c_refs e < 2 ^ 31;
  ic_dat : b_data b = c_dat e;
  ic_valid : b_valid b = 1;
  ic_lock : lock_is (b_lock b) (c_lock e)
}.

(** A buffer nobody refers to: unlocked, and a block of [dev] it holds is the
    one on the disk. *)
Record is_free (dev : Z) (d : Z -> block) (b : buf) : Prop := {
  if_refs : b_refcnt b = 0;
  if_lock : sl_locked (b_lock b) = 0;
  if_valid : b_valid b = 0 \/ b_valid b = 1;
  if_clean : b_dev b = dev -> b_valid b <> 0 -> b_data b = d (b_blockno b)
}.

Record cache (dev : Z) (d : Z -> block) (B : Z -> buf) (C : gmap Z cent) : Prop := {
  ca_cent : forall bn e, C !! bn = Some e -> is_cent dev (c_ix e) (B (c_ix e)) bn e;
  ca_buf : forall i, in_cache i ->
    is_free dev d (B i) \/ exists e, C !! b_blockno (B i) = Some e /\ c_ix e = i;
  ca_uniq : forall i j, in_cache i -> in_cache j -> b_dev (B i) = dev -> b_dev (B j) = dev ->
    b_blockno (B i) = b_blockno (B j) -> i = j
}.

Record brep (dev : Z) (s : fsst) (l : list Z) (C : gmap Z cent) : Prop := {
  br_lru : lru (bufs s) l;
  br_cache : cache dev (disk s) (bufs s) C;
  br_held : (LBcache ∉ f_held s) /\ (forall i, LBuf i ∉ f_held s)
}.

(** [B'] is [B] but for index [i], which holds [b]. *)
Definition only (B B' : Z -> buf) (i : Z) (b : buf) : Prop :=
  B' i = b /\ forall j, j <> i -> B' j = B j.

Lemma only_upd B i b : only B (upd B i b) i b.
Proof. split; [apply upd_eq|]. intros. by apply upd_ne. Qed.

Lemma only_upd2 B B' i b b' : only B B' i b -> only B (upd B' i b') i b'.
Proof. intros [_ H]. split; [apply upd_eq|]. intros. rewrite upd_ne by done. auto. Qed.

Lemma path_ext f g a l b :
  (forall x, x = a \/ x ∈ l -> f x = g x) -> path f a l b -> path g a l b.
Proof.
  revert a; induction l as [|x l IH]; intros a H; simpl.
  - intros <-. symmetry. apply H. by left.
  - intros [<- Hp]. split; [symmetry; apply H; by left|].
    apply IH; [|done]. intros y Hy. apply H. right. destruct Hy as [->|?]; [left|by right].
Qed.

Lemma path_app f a l1 x l2 b :
  path f a (l1 ++ x :: l2) b <-> path f a l1 x /\ path f x l2 b.
Proof. revert a; induction l1 as [|y l1 IH]; intros a; simpl; [tauto|]. rewrite IH. tauto. Qed.

Lemma lru_ext B B' l :
  (forall j, b_next (B' j) = b_next (B j) /\ b_prev (B' j) = b_prev (B j)) -> lru B l -> lru B' l.
Proof.
  intros H [H1 H2 H3]. split; [| |done]; eapply path_ext; [|eassumption| |eassumption];
    intros x _; by destruct (H x).
Qed.

Lemma lru_only B B' l i b :
  only B B' i b -> b_next b = b_next (B i) -> b_prev b = b_prev (B i) -> lru B l -> lru B' l.
Proof.
  intros [H1 H2] Hn Hp. apply lru_ext. intros j.
  destruct (decide (j = i)) as [->|]; [by rewrite H1|]. by rewrite H2.
Qed.

Lemma lru_in B l i : lru B l -> i ∈ l <-> in_cache i.
Proof. intros [_ _ H]. rewrite H, elem_of_seqZ. unfold in_cache. unconst. lia. Qed.

Lemma lru_head B l : lru B l -> HEAD ∉ l.
Proof. intros H. rewrite (lru_in B l _ H). unfold in_cache, HEAD. lia. Qed.

Lemma lru_nodup B l : lru B l -> NoDup l.
Proof. intros [_ _ ->]. apply NoDup_seqZ. Qed.

Lemma lru_length B l : lru B l -> length l = Z.to_nat NBUF.
Proof. intros [_ _ H]. by rewrite (Permutation_length H), length_seqZ. Qed.

(** The loop stops at the first buffer of the list that satisfies the test. *)
Lemma scan_run (link : buf -> Z) (p : buf -> bool) s l a fuel :
  path (fun i => link (bufs s i)) a l HEAD -> HEAD ∉ l -> (length l < fuel)%nat ->
  scan link p fuel (link (bufs s a)) s = Ret (List.find (fun i => p (bufs s i)) l) s.
Proof.
  revert a fuel; induction l as [|x l IH]; intros a fuel Hp Hl Hf; destruct fuel as [|fuel]; simpl in *; [lia| |lia|].
  - by rewrite Hp, Z.eqb_refl.
  - destruct Hp as [-> Hp]. destruct (Z.eqb_spec x HEAD) as [->|_]; [set_solver|]. mrun.
    destruct (p (bufs s x)); [done|]. rewrite (IH x fuel); [done|done|set_solver|lia].
Qed.

Lemma find_some_in {A} (p : A -> bool) l x : List.find p l = Some x -> x ∈ l /\ p x = true.
Proof. intros H. apply List.find_some in H. by rewrite list_elem_of_In. Qed.
Lemma find_none_in {A} (p : A -> bool) l x : List.find p l = None -> x ∈ l -> p x = false.
Proof. intros H. rewrite list_elem_of_In. by apply List.find_none. Qed.

Lemma scan_fuel_ok B l : lru B l -> (length l < scan_fuel)%nat.
Proof. intros H. rewrite (lru_length B l H). by apply Nat.ltb_lt. Qed.

(** ** bget *)
Definition key_is (dev bn : Z) (b : buf) : bool := (b_dev b =? dev) && (b_blockno b =? bn).

(** [b] with one more reference, or recycled for [bn], and locked by [pid]. *)
Definition bget_buf (dev bn pid : Z) (hit : bool) (b : buf) : buf :=
  set_block (mksleep 1 (sl_name (b_lock b)) pid)
    (if hit then set_refcnt (u32 (b_refcnt b + 1)) b else set_key dev bn b).

Section bget.
Context (dev bn : Z) (s : fsst) (l : list Z).
Hypothesis Hlru : lru (bufs s) l.
Hypothesis Hheld : (LBcache ∉ f_held s) /\ (forall i, LBuf i ∉ f_held s).

Let s1 := with_held (LBcache :: f_held s) s.

Lemma bget_scan_next : 
  scan b_next (key_is dev bn) scan_fuel (b_next (bufs s HEAD)) s1 =
  Ret (List.find (fun i => key_is dev bn (bufs s i)) l) s1.
Proof. 
  apply (scan_run b_next (key_is dev bn) s1 l HEAD);
    [apply Hlru|by eapply lru_head|by eapply scan_fuel_ok].
Qed.

Lemma bget_scan_prev : 
  scan b_prev (fun b => b_refcnt b =? 0) scan_fuel (b_prev (bufs s HEAD)) s1 =
  Ret (List.find (fun i => b_refcnt (bufs s i) =? 0) (reverse l)) s1.
Proof. 
  apply (scan_run b_prev (fun b => b_refcnt b =? 0) s1 (reverse l) HEAD).
  - apply Hlru.
  - rewrite elem_of_reverse. by eapply lru_head.
  - rewrite length_reverse. by eapply scan_fuel_ok.
Qed.

(** The end of both branches: drop the list's lock, take the buffer's. *)
Lemma bget_lock i f :
  sl_locked (b_lock (bufs s i)) = 0 -> (forall b, b_lock (f b) = b_lock b) ->
  exists B', (modify (set_buf i f) ;; release LBcache ;; acquiresleep (SBuf i) ;; ret i) s1 =
    Ret i (with_bufs B' s) /\
    only (bufs s) B' i (set_block (mksleep 1 (sl_name (b_lock (bufs s i))) (f_pid s)) (f (bufs s i))).
Proof.
  intros Hlk Hf. destruct Hheld as [Hh1 Hh2]. mstep.
  erewrite bind_ret by (by eapply release_run).
  erewrite bind_ret.
  2:{ apply (acquiresleep_run (SBuf i)); [apply Hh2|]. simpl. rewrite upd_eq, Hf. done. }
  eexists. split; [reflexivity|]. simpl. rewrite !upd_eq, Hf. eapply only_upd2, only_upd.
Qed.

Lemma bget_hit i :
  List.find (fun i => key_is dev bn (bufs s i)) l = Some i -> sl_locked (b_lock (bufs s i)) = 0 ->
  exists B', bget dev bn s = Ret i (with_bufs B' s) /\
    only (bufs s) B' i (bget_buf dev bn (f_pid s) true (bufs s i)).
Proof.
  intros Hf Hlk. unfold bget. erewrite bind_ret by (by apply acquire_run, Hheld). mstep.
  erewrite bind_ret by apply bget_scan_next. rewrite Hf. by apply bget_lock.
Qed.

Lemma bget_miss i :
  List.find (fun i => key_is dev bn (bufs s i)) l = None ->
  List.find (fun i => b_refcnt (bufs s i) =? 0) (reverse l) = Some i ->
  sl_locked (b_lock (bufs s i)) = 0 ->
  exists B', bget dev bn s = Ret i (with_bufs B' s) /\
    only (bufs s) B' i (bget_buf dev bn (f_pid s) false (bufs s i)).
Proof.
  intros Hf Hf2 Hlk. unfold bget. erewrite bind_ret by (by apply acquire_run, Hheld). mstep.
  erewrite bind_ret by apply bget_scan_next. rewrite Hf.
  erewrite bind_ret by apply bget_scan_prev. rewrite Hf2. by apply bget_lock.
Qed.

Lemma bget_full :
  List.find (fun i => key_is dev bn (bufs s i)) l = None ->
  List.find (fun i => b_refcnt (bufs s i) =? 0) (reverse l) = None ->
  bget dev bn s = Panic "bget: no buffers".
Proof.
  intros Hf Hf2. unfold bget. erewrite bind_ret by (by apply acquire_run, Hheld). mstep.
  erewrite bind_ret by apply bget_scan_next. rewrite Hf.
  erewrite bind_ret by apply bget_scan_prev. by rewrite Hf2.
Qed.
End bget.

(** ** Updates of the abstract cache *)
Section cache.
Context {dev : Z} {d : Z -> block} {B : Z -> buf} {C : gmap Z cent}.
Hypothesis HC : cache dev d B C.

Lemma cache_lookup bn e : C !! bn = Some e -> is_cent dev (c_ix e) (B (c_ix e)) bn e.
Proof. apply HC. Qed.

(** An entry's buffer determines its block. *)
Lemma cache_ix_inj bn e bn' e' :
  C !! bn = Some e -> C !! bn' = Some e' -> c_ix e = c_ix e' -> bn = bn'.
Proof. intros [_ _ _ <- _ _ _ _ _]%HC [_ _ _ <- _ _ _ _ _]%HC ->. done. Qed.

(** A block not in use is in no buffer, or in a free one. *)
Lemma cache_not_used bn i :
  C !! bn = None -> in_cache i -> b_blockno (B i) = bn -> is_free dev d (B i).
Proof. intros Hn Hi Hb. destruct (ca_buf _ _ _ _ HC i Hi) as [?|(e & He & _)]; [done|congruence]. Qed.

Lemma cache_insert B' i bn b e :
  only B B' i b -> is_cent dev i b bn e ->
  (is_free dev d (B i) \/ exists e0, C !! bn = Some e0 /\ c_ix e0 = i) ->
  (forall j, in_cache j -> j <> i -> b_dev (B j) = dev -> b_blockno (B j) <> bn) ->
  cache dev d B' (<[bn := e]> C).
Proof.
  intros [Hi Ho] Hc Hold Hu. pose proof Hc as [Hr Hix Hdev Hbn _ _ _ _ _].
  assert (Hother : forall bn' e', bn' <> bn -> C !! bn' = Some e' -> c_ix e' <> i).
  { intros bn' e' Hne He' E. pose proof (cache_lookup _ _ He') as Hc'. rewrite E in Hc'.
    destruct Hold as [Hf|(e0 & He0 & E0)].
    - pose proof (ic_refs _ _ _ _ _ Hc'). pose proof (ic_pos _ _ _ _ _ Hc'). pose proof (if_refs _ _ _ Hf). lia.
    - apply Hne. eapply cache_ix_inj; [done..|]. congruence. }
  split.
  - intros bn' e' [[<- <-]|[Hne He']]%lookup_insert_Some.
    + by rewrite Hix, Hi.
    + rewrite Ho by eauto. by apply HC.
  - intros j Hj. destruct (decide (j = i)) as [->|Hne].
    + right. exists e. rewrite Hi, Hbn, lookup_insert_eq. done.
    + rewrite Ho by done. destruct (ca_buf _ _ _ _ HC j Hj) as [?|(e' & He' & Hx)]; [by left|right].
      exists e'. split; [|done]. rewrite lookup_insert_ne; [done|]. intros E. subst j.
      apply (Hu (c_ix e') Hj Hne); [|done]. eapply ic_dev. apply (cache_lookup _ _ He').
  - intros j k Hj Hk. destruct (decide (j = i)) as [->|Hji], (decide (k = i)) as [->|Hki]; [done|..];
      rewrite ?Hi, ?Ho by done; rewrite ?Hbn; intros Hdj Hdk E.
    + by destruct (Hu k Hk Hki Hdk).
    + by destruct (Hu j Hj Hji Hdj).
    + by eapply (ca_uniq _ _ _ _ HC).
Qed.

(** The last reference is dropped. *)
Lemma cache_delete B' bn b e :
  C !! bn = Some e -> only B B' (c_ix e) b -> is_free dev d b ->
  b_dev b = dev -> b_blockno b = bn -> cache dev d B' (delete bn C).
Proof.
  intros He [Hi Ho] Hf Hdev Hbn. destruct (cache_lookup _ _ He) as [Hr _ Hdev0 Hbn0 _ _ _ _ _].
  split.
  - intros bn' e' [Hne He']%lookup_delete_Some. rewrite Ho; [by apply HC|].
    intros E. apply Hne. by eapply cache_ix_inj.
  - intros j Hj. destruct (decide (j = c_ix e)) as [->|Hne]; [left; by rewrite Hi|].
    rewrite Ho by done. destruct (ca_buf _ _ _ _ HC j Hj) as [?|(e' & He' & Hx)]; [by left|right].
    exists e'. split; [|done]. rewrite lookup_delete_ne; [done|]. intros E. apply Hne.
    rewrite <- E in He'. congruence.
  - intros j k Hj Hk. 
    assert (Hsame : forall x, b_dev (B' x) = b_dev (B x) /\ b_blockno (B' x) = b_blockno (B x)).
    { intros x. destruct (decide (x = c_ix e)) as [->|Hx]; [rewrite Hi|by rewrite Ho]. split; congruence. }
    destruct (Hsame j) as [-> ->], (Hsame k) as [-> ->]. by apply (ca_uniq _ _ _ _ HC).
Qed.

(** With fewer than [NBUF] blocks in use, some buffer is free. *)
Lemma cache_room : Z.of_nat (size C) < NBUF -> exists i, in_cache i /\ is_free dev d (B i).
Proof.
  intros Hs. 
  destruct (decide (Forall (fun i => b_refcnt (B i) <> 0) (seqZ 0 NBUF))) as [Ha|Ha].
  - exfalso. rewrite Forall_forall in Ha.
    assert (Hall : forall i, i ∈ seqZ 0 NBUF -> exists e, C !! b_blockno (B i) = Some e /\ c_ix e = i).
    { intros i Hi. pose proof (Ha i Hi). apply elem_of_seqZ in Hi.
      destruct (ca_buf _ _ _ _ HC i) as [Hf|?]; [unfold in_cache; lia| |done].
      by pose proof (if_refs _ _ _ Hf). }
    assert (Hnd : NoDup ((fun i => b_blockno (B i)) <$> seqZ 0 NBUF)).
    { apply NoDup_fmap_2_strong; [|apply NoDup_seqZ]. intros i j Hi Hj E.
      destruct (Hall i Hi) as (e & He & <-), (Hall j Hj) as (e' & He' & <-). congruence. }
    assert (Hsub : list_to_set ((fun i => b_blockno (B i)) <$> seqZ 0 NBUF) ⊆@{gset Z} dom C).
    { intros x. rewrite elem_of_list_to_set, list_elem_of_fmap. intros (i & -> & Hi).
      destruct (Hall i Hi) as (e & He & _). by apply elem_of_dom_2 in He. }
    apply subseteq_size in Hsub. rewrite size_list_to_set in Hsub by done.
    rewrite length_fmap, length_seqZ, size_dom in Hsub. lia.
  - apply not_Forall_Exists in Ha; [|apply _]. apply Exists_exists in Ha as (i & Hi & Hz).
    apply elem_of_seqZ in Hi. exists i. assert (in_cache i) by (unfold in_cache; lia). split; [done|].
    destruct (ca_buf _ _ _ _ HC i) as [Hf|(e & He & <-)]; [done|done|]. destruct Hz.
    intros E. destruct (cache_lookup _ _ He). lia.
Qed.
End cache.

(** ** bread *)

(** The buffer bread returns, given what bget left in it. *)
Definition filled (d : Z -> block) (b : buf) : buf :=
  if b_valid b =? 0 then set_valid 1 (set_data (d (b_blockno b)) b) else b.

Lemma bread_fill dev bn s i B' b :
  bget dev bn s = Ret i (with_bufs B' s) -> only (bufs s) B' i b ->
  exists B2, bread dev bn s = Ret i (with_bufs B2 s) /\ only (bufs s) B2 i (filled (disk s) b).
Proof.
  intros E [Hi Ho]. unfold bread. erewrite bind_ret by exact E. mstep. simpl.
  unfold filled. rewrite Hi. destruct (b_valid b =? 0) eqn:Ev; cbn [when].
  - unfold virtio_disk_rw. mstep. eexists. split; [reflexivity|]. simpl. rewrite !upd_eq, !Hi.
    do 2 eapply only_upd2. by split.
  - mstep. eexists. split; [reflexivity|]. by split.
Qed.

Lemma brep_bufs dev s l C B' C' :
  brep dev s l C -> lru B' l -> cache dev (disk s) B' C' -> brep dev (with_bufs B' s) l C'.
Proof. intros [_ _ Hh] ??. by split. Qed.

(** Reading a block that is not in use: it is in a buffer nobody refers to, or
    replaces the block of the free buffer that was released the longest ago. *)
Lemma bread_new dev bn s l C :
  brep dev s l C -> C !! bn = None -> Z.of_nat (size C) < NBUF ->
  exists i B', bread dev bn s = Ret i (with_bufs B' s) /\
    brep dev (with_bufs B' s) l (<[bn := mkcent i 1 (disk s bn) (Some (f_pid s))]> C) /\
    match List.find (fun i => key_is dev bn (bufs s i)) l with
    | Some j => i = j
    | None => List.find (fun i => b_refcnt (bufs s i) =? 0) (reverse l) = Some i
    end.
Proof.
  intros Hb Hn Hs. pose proof Hb as [Hl HC Hh].
  destruct (List.find (fun i => key_is dev bn (bufs s i)) l) as [i|] eqn:Ef.
  - pose proof Ef as [Hi Hk]%find_some_in. rewrite (lru_in _ _ _ Hl) in Hi.
    unfold key_is in Hk. assert (b_dev (bufs s i) = dev /\ b_blockno (bufs s i) = bn) as [Hd Hbn] by lia.
    destruct (cache_not_used HC bn i Hn Hi Hbn) as [Hr Hk0 Hv Hcl].
    destruct (bget_hit dev bn s l Hl Hh i Ef Hk0) as (B1 & E1 & O1).
    destruct (bread_fill _ _ _ _ _ _ E1 O1) as (B2 & E2 & O2).
    exists i, B2. split; [done|]. split; [|done]. apply (brep_bufs _ _ _ _ _ _ Hb).
    + eapply lru_only; [exact O2|..|done]; unfold filled; by destruct (_ =? 0).
    + eapply (cache_insert HC); [exact O2| |left; by split|].
      * unfold filled, bget_buf. simpl. rewrite Hr. unfold set_refcnt, set_block. simpl.
        destruct (Z.eqb_spec (b_valid (bufs s i)) 0); split; simpl; try done; try lia.
        -- by rewrite Hbn.
        -- rewrite <- Hbn. by apply Hcl.
      * intros j Hj Hne Hdj E. apply Hne. eapply (ca_uniq _ _ _ _ HC); congruence.
  - destruct (cache_room HC Hs) as (i0 & Hi0 & [Hr0 _ _ _]).
    destruct (List.find (fun i => b_refcnt (bufs s i) =? 0) (reverse l)) as [i|] eqn:Ef2.
    2:{ apply (find_none_in _ _ i0) in Ef2; [cbv beta in Ef2; lia|]. rewrite elem_of_reverse. by apply (lru_in _ _ _ Hl). }
    pose proof Ef2 as [Hi Hr]%find_some_in. cbv beta in Hr. rewrite elem_of_reverse, (lru_in _ _ _ Hl) in Hi.
    assert (Hfree : is_free dev (disk s) (bufs s i)).
    { destruct (ca_buf _ _ _ _ HC i Hi) as [?|(e & He & <-)]; [done|].
      destruct (cache_lookup HC _ _ He) as [_ _ _ _ Hr1 Hp1 _ _ _]. lia. }
    destruct (bget_miss dev bn s l Hl Hh i Ef Ef2 (if_lock _ _ _ Hfree)) as (B1 & E1 & O1).
    destruct (bread_fill _ _ _ _ _ _ E1 O1) as (B2 & E2 & O2).
    exists i, B2. split; [done|]. split; [|done]. apply (brep_bufs _ _ _ _ _ _ Hb).
    + by eapply lru_only; [exact O2|..|done].
    + eapply (cache_insert HC); [exact O2|by split|by left|].
      intros j Hj _ Hdj E. rewrite <- (lru_in _ _ _ Hl) in Hj. apply (find_none_in _ _ j Ef) in Hj.
      cbv beta in Hj. unfold key_is in Hj. lia.
Qed.

(** Reading a block in use that nobody has locked: the same buffer, locked, with
    one more reference. *)
Lemma bread_again dev bn s l C e :
  brep dev s l C -> C !! bn = Some e -> c_lock e = None -> c_refs e + 1 < 2 ^ 31 ->
  exists B', bread dev bn s = Ret (c_ix e) (with_bufs B' s) /\
    brep dev (with_bufs B' s) l
      (<[bn := mkcent (c_ix e) (c_refs e + 1) (c_dat e) (Some (f_pid s))]> C).
Proof.
  intros Hb He Hlk Hov. pose proof Hb as [Hl HC Hh].
  pose proof (cache_lookup HC _ _ He) as [Hi _ Hd Hbn Hr Hp Hdat Hv Hk].
  assert (Hu : forall j, in_cache j -> j <> c_ix e -> b_dev (bufs s j) = dev -> b_blockno (bufs s j) <> bn).
  { intros j Hj Hne Hdj E. apply Hne. eapply (ca_uniq _ _ _ _ HC); congruence. }
  assert (Ef : List.find (fun i => key_is dev bn (bufs s i)) l = Some (c_ix e)).
  { destruct (List.find _ l) as [j|] eqn:Ef.
    - apply find_some_in in Ef as [Hj Hkj]. rewrite (lru_in _ _ _ Hl) in Hj. unfold key_is in Hkj.
      destruct (decide (j = c_ix e)) as [->|Hne]; [done|]. exfalso. apply (Hu j Hj Hne); lia.
    - apply (find_none_in _ _ (c_ix e)) in Ef; [unfold key_is in Ef; lia|]. by apply (lru_in _ _ _ Hl). }
  rewrite Hlk in Hk. simpl in Hk.
  destruct (bget_hit dev bn s l Hl Hh _ Ef Hk) as (B1 & E1 & O1).
  destruct (bread_fill _ _ _ _ _ _ E1 O1) as (B2 & E2 & O2).
  unfold filled, bget_buf in O2. simpl in O2. rewrite Hv in O2. simpl in O2.
  exists B2. split; [done|]. apply (brep_bufs _ _ _ _ _ _ Hb).
  - by eapply lru_only; [exact O2|..|done].
  - eapply (cache_insert HC); [exact O2| |right; eauto|done].
    split; simpl; try done; try lia. rewrite Hr. unwrap. done.
Qed.

(** The limits: every buffer in use, or the block locked by someone. *)
Lemma bread_full dev bn s l C :
  brep dev s l C -> C !! bn = None -> (forall i, in_cache i -> b_refcnt (bufs s i) <> 0) ->
  bread dev bn s = Panic "bget: no buffers".
Proof.
  intros [Hl HC Hh] Hn Hall. unfold bread. apply bind_panicked, (bget_full dev bn s l Hl Hh).
  - destruct (List.find _ l) as [i|] eqn:Ef; [|done].
    apply find_some_in in Ef as [Hi Hk]. rewrite (lru_in _ _ _ Hl) in Hi. unfold key_is in Hk.
    destruct (Hall i Hi). eapply if_refs, (cache_not_used HC bn i); [done|done|lia].
  - destruct (List.find _ (reverse l)) as [i|] eqn:Ef; [|done].
    apply find_some_in in Ef as [Hi Hk]. rewrite elem_of_reverse, (lru_in _ _ _ Hl) in Hi.
    destruct (Hall i Hi). cbv beta in Hk. lia.
Qed.

(** ** Moving a buffer to the front of the list *)
Definition last_or (a : Z) (l : list Z) : Z := default a (last l).

Lemma last_or_cons a x l : last_or a (x :: l) = last_or x l.
Proof. unfold last_or. rewrite last_cons. by destruct (last l). Qed.

Lemma last_or_in a l : last_or a l = a \/ last_or a l ∈ l.
Proof. 
  unfold last_or. destruct (last l) as [x|] eqn:E; [right|by left]. by apply last_Some_elem_of in E.
Qed.

Lemma path_hd f a l b : path f a l b -> f a = default b (head l).
Proof. destruct l; simpl; tauto. Qed.

(** Redirecting the last pointer of a path. *)
Lemma path_upd_last f a l b c : NoDup (a :: l) -> path f a l b -> path (upd f (last_or a l) c) a l c.
Proof.
  revert a; induction l as [|x l IH]; intros a Hn Hp; simpl.
  - apply upd_eq.
  - destruct Hp as [Hx Hp]. rewrite last_or_cons.
    apply NoDup_cons in Hn as [Ha Hn]. split; [|by apply IH].
    rewrite upd_ne; [done|]. intros E. destruct (last_or_in x l) as [E'|E']; set_solver.
Qed.

Lemma path_remove f a l1 i l2 :
  NoDup (a :: l1 ++ i :: l2) -> path f a (l1 ++ i :: l2) a ->
  path (upd f (last_or a l1) (f i)) a (l1 ++ l2) a.
Proof.
  intros Hn [Hp1 Hp2]%path_app. rewrite (path_hd _ _ _ _ Hp2).
  assert (Hn1 : NoDup (a :: l1)).
  { apply NoDup_cons in Hn as [Ha Hn]. apply NoDup_app in Hn as (Hn1 & _ & _).
    constructor; [set_solver|done]. }
  destruct l2 as [|x l2]; simpl.
  - rewrite app_nil_r. by eapply path_upd_last.
  - destruct Hp2 as [Hx Hp2]. apply path_app. split; [by eapply path_upd_last|].
    eapply path_ext; [|exact Hp2]. intros y Hy. rewrite upd_ne; [done|]. intros ->.
    apply NoDup_cons in Hn as [Ha Hn]. apply NoDup_app in Hn as (_ & Hd & _).
    destruct (last_or_in a l1) as [E|E]; [rewrite E in Hy; set_solver|].
    apply (Hd _ E). set_solver.
Qed.

Lemma path_push f a l b i : i <> a -> i ∉ l -> a ∉ l -> path f a l b -> path (upd (upd f i (f a)) a i) a (i :: l) b.
Proof.
  intros Hi Hl Ha Hp. simpl. split; [apply upd_eq|].
  destruct l as [|x l]; simpl in *.
  - by rewrite upd_ne, upd_eq.
  - destruct Hp as [<- Hp]. split; [by rewrite upd_ne, upd_eq|].
    eapply path_ext; [|exact Hp]. intros y Hy. rewrite !upd_ne; [done|set_solver..].
Qed.

Lemma path_push_back f a l b i :
  NoDup (a :: l) -> i <> a -> i ∉ l -> path f a l b ->
  path (upd (upd f i b) (last_or a l) i) a (l ++ [i]) b.
Proof.
  intros Hn Hi Hl Hp. apply path_app. split.
  - apply (path_upd_last _ _ _ b); [done|]. eapply path_ext; [|exact Hp].
    intros y Hy. rewrite upd_ne; [done|set_solver].
  - simpl. rewrite upd_ne, upd_eq; [done|]. destruct (last_or_in a l); set_solver.
Qed.

(** The two link fields of every buffer, and everything else of a buffer. *)
Definition linked (B : Z -> buf) (nx pv : Z -> Z) : Prop := forall j, b_next (B j) = nx j /\ b_prev (B j) = pv j.
Definition nolink (b : buf) : buf := set_prev 0 (set_next 0 b).

Lemma linked_next B nx pv i v : linked B nx pv -> linked (upd B i (set_next v (B i))) (upd nx i v) pv.
Proof. intros H j. rewrite !upd_case. case_decide; [subst; simpl; split; [done|apply H]|apply H]. Qed.
Lemma linked_prev B nx pv i v : linked B nx pv -> linked (upd B i (set_prev v (B i))) nx (upd pv i v).
Proof. intros H j. rewrite !upd_case. case_decide; [subst; simpl; split; [apply H|done]|apply H]. Qed.
Lemma upd_proj {A} (f : buf -> A) B i b j : f b = f (B i) -> f (upd B i b j) = f (B j).
Proof. intros H. rewrite upd_case. case_decide; [by subst|done]. Qed.
Lemma nolink_upd B i b j : nolink b = nolink (B i) -> nolink (upd B i b j) = nolink (B j).
Proof. intros H. rewrite upd_case. case_decide; [by subst|done]. Qed.

Lemma is_cent_nolink dev i b b' bn e : nolink b' = nolink b -> is_cent dev i b bn e -> is_cent dev i b' bn e.
Proof. unfold nolink, set_prev, set_next. destruct b, b'; simpl. intros [= -> -> -> -> -> -> ->] []. by split. Qed.
Lemma is_free_nolink dev d b b' : nolink b' = nolink b -> is_free dev d b -> is_free dev d b'.
Proof. unfold nolink, set_prev, set_next. destruct b, b'; simpl. intros [= -> -> -> -> -> -> ->] []. by split. Qed.
Lemma key_nolink b b' : nolink b' = nolink b -> b_dev b' = b_dev b /\ b_blockno b' = b_blockno b.
Proof. unfold nolink, set_prev, set_next. destruct b, b'; simpl. by intros [= -> -> -> -> -> -> ->]. Qed.

Lemma cache_nolink dev d B B' C :
  (forall j, nolink (B' j) = nolink (B j)) -> cache dev d B C -> cache dev d B' C.
Proof.
  intros Hj [H1 H2 H3]. split.
  - intros bn e He. eapply is_cent_nolink; [apply Hj|auto].
  - intros i Hi. destruct (key_nolink _ _ (Hj i)) as [_ ->].
    destruct (H2 i Hi); [left; eapply is_free_nolink; [apply Hj|done]|by right].
  - intros i j Hi Hj'. destruct (key_nolink _ _ (Hj i)) as [-> ->], (key_nolink _ _ (Hj j)) as [-> ->]. auto.
Qed.

(** The links the six stores of to_front leave, in terms of those it found. *)
Lemma to_front_links s i nx pv :
  linked (bufs s) nx pv -> nx i <> i -> i <> HEAD ->
  let nx2 := upd nx (pv i) (nx i) in
  exists B', to_front i s = Ret tt (with_bufs B' s) /\
    linked B' (upd (upd nx2 i (nx2 HEAD)) HEAD i) (upd (upd (upd pv (nx i) (pv i)) i HEAD) (nx2 HEAD) i) /\
    forall j, nolink (B' j) = nolink (bufs s j).
Proof.
  intros HL Hni Hh nx2. unfold to_front. mstep. eexists. split; [reflexivity|].
  cbn [set_buf with_bufs bufs].
  destruct (HL i) as [En Ep]. rewrite En, Ep.
  set (B1 := upd (bufs s) (nx i) _).
  assert (L1 : linked B1 nx (upd pv (nx i) (pv i))) by by apply linked_prev.
  destruct (L1 i) as [-> ->]. rewrite (upd_ne _ _ i) by done.
  set (B2 := upd B1 (pv i) _).
  assert (L2 : linked B2 nx2 (upd pv (nx i) (pv i))) by by apply linked_next.
  destruct (L2 HEAD) as [-> _]. set (B3 := upd B2 i _).
  assert (L3 : linked B3 (upd nx2 i (nx2 HEAD)) (upd pv (nx i) (pv i))) by by apply linked_next.
  set (B4 := upd B3 i _).
  assert (L4 : linked B4 (upd nx2 i (nx2 HEAD)) (upd (upd pv (nx i) (pv i)) i HEAD)) by by apply linked_prev.
  destruct (L4 HEAD) as [-> _]. rewrite (upd_ne _ _ HEAD) by done. split.
  - by apply linked_next, linked_prev.
  - intros j. unfold B4, B3, B2, B1. by rewrite !nolink_upd.
Qed.

Lemma lru_linked B nx pv l :
  linked B nx pv -> path nx HEAD l HEAD -> path pv HEAD (reverse l) HEAD -> l ≡ₚ seqZ 0 NBUF -> lru B l.
Proof.
  intros HL H1 H2 H3. split; [| |done]; eapply path_ext; [|exact H1| |exact H2]; intros x _; symmetry; apply HL.
Qed.

Lemma to_front_run s l1 i l2 :
  lru (bufs s) (l1 ++ i :: l2) ->
  exists B', to_front i s = Ret tt (with_bufs B' s) /\ lru B' (i :: l1 ++ l2) /\
    forall j, nolink (B' j) = nolink (bufs s j).
Proof.
  intros Hl. pose proof (lru_head _ _ Hl) as Hh. pose proof (lru_nodup _ _ Hl) as Hnd.
  destruct Hl as [Hn Hp Ha]. rewrite reverse_app, reverse_cons in Hp. rewrite <- app_assoc in Hp. simpl in Hp.
  set (nx := fun j => b_next (bufs s j)) in *. set (pv := fun j => b_prev (bufs s j)) in *.
  assert (Hni : nx i = last_or HEAD (reverse l2)).
  { apply path_app in Hn as [_ Hn]. rewrite (path_hd _ _ _ _ Hn). unfold last_or. by rewrite last_reverse. }
  assert (Hpi : pv i = last_or HEAD l1).
  { apply path_app in Hp as [_ Hp]. rewrite (path_hd _ _ _ _ Hp). unfold last_or. by rewrite <- head_reverse. }
  pose proof Hnd as (Hn1 & Hd & Hn2)%NoDup_app. apply NoDup_cons in Hn2 as [Hi2 Hn2].
  assert (Hi1 : i ∉ l1) by (intros E; apply (Hd i E); left).
  assert (Hni' : nx i <> i).
  { rewrite Hni. destruct (last_or_in HEAD (reverse l2)) as [E|E]; [set_solver|].
    rewrite elem_of_reverse in E. set_solver. }
  destruct (to_front_links s i nx pv) as (B' & E & HL & Hno); [done|done|set_solver|].
  exists B'. split; [done|]. split; [|done].
  assert (Hp1 : path (upd nx (pv i) (nx i)) HEAD (l1 ++ l2) HEAD).
  { rewrite Hpi. apply path_remove; [|done]. by constructor. }
  assert (Hp2 : path (upd pv (nx i) (pv i)) HEAD (reverse (l1 ++ l2)) HEAD).
  { rewrite Hni, reverse_app. apply path_remove; [|done].
    change (reverse l2 ++ i :: reverse l1) with (reverse l2 ++ [i] ++ reverse l1).
    rewrite app_assoc, <- reverse_cons, <- reverse_app. constructor; [by rewrite elem_of_reverse|].
    by rewrite reverse_Permutation. }
  eapply lru_linked; [exact HL| | |].
  - apply path_push; [set_solver..|done].
  - rewrite reverse_cons. rewrite (path_hd _ _ _ _ Hp1).
    replace (default HEAD (head (l1 ++ l2))) with (last_or HEAD (reverse (l1 ++ l2)))
      by (unfold last_or; by rewrite last_reverse).
    apply path_push_back; [|set_solver|rewrite elem_of_reverse; set_solver|done].
    constructor; [rewrite elem_of_reverse; set_solver|]. rewrite reverse_Permutation.
    apply NoDup_app. split; [done|]. split; [|done]. intros x Hx ?. apply (Hd x Hx). by right.
  - rewrite <- Ha. by rewrite Permutation_middle.
Qed.

(** ** Writing, releasing and pinning a buffer *)
Section buffer.
Context {dev : Z} {s : fsst} {l : list Z} {C : gmap Z cent} {bn : Z} {e : cent}.
Hypothesis Hb : brep dev s l C.
Hypothesis He : C !! bn = Some e.

Let He' : is_cent dev (c_ix e) (bufs s (c_ix e)) bn e := cache_lookup (br_cache _ _ _ _ Hb) bn e He.

(** No other buffer holds the block. *)
Lemma buffer_uniq j :
  in_cache j -> j <> c_ix e -> b_dev (bufs s j) = dev -> b_blockno (bufs s j) <> bn.
Proof.
  intros Hj Hne Hd E. destruct He' as [Hr _ Hd' Hbn _ _ _ _ _]. apply Hne.
  eapply (ca_uniq _ _ _ _ (br_cache _ _ _ _ Hb)); congruence.
Qed.

(** An update of the buffer that keeps it linked where it is. *)
Lemma buffer_put B' b e' :
  only (bufs s) B' (c_ix e) b -> is_cent dev (c_ix e) b bn e' ->
  b_next b = b_next (bufs s (c_ix e)) -> b_prev b = b_prev (bufs s (c_ix e)) ->
  brep dev (with_bufs B' s) l (<[bn := e']> C).
Proof.
  intros Ho Hc Hn Hp. pose proof Hb as [Hl HC Hh]. apply (brep_bufs _ _ _ _ _ _ Hb).
  - by eapply lru_only.
  - eapply (cache_insert HC); [done|done|right; eauto|apply buffer_uniq].
Qed.

(** [b->data] is changed. *)
Lemma bdata_run v :
  brep dev (set_buf (c_ix e) (set_data v) s) l (<[bn := mkcent (c_ix e) (c_refs e) v (c_lock e)]> C).
Proof.
  eapply buffer_put; [apply only_upd| |done|done]. destruct He'. by split.
Qed.

Lemma holding_run :
  c_lock e = Some (f_pid s) -> holdingsleep (SBuf (c_ix e)) s = Ret true s.
Proof.
  intros Hk. destruct He' as [_ _ _ _ _ _ _ _ Hlk]. rewrite Hk in Hlk. destruct Hlk as [E1 E2].
  rewrite holdingsleep_run by apply Hb. simpl. rewrite E1, E2, Z.eqb_refl. done.
Qed.

Lemma bwrite_run :
  c_lock e = Some (f_pid s) ->
  let s' := with_disk (upd (disk s) bn (c_dat e)) (trace s ++ [(bn, c_dat e)]) s in
  bwrite (c_ix e) s = Ret tt s' /\ brep dev s' l C.
Proof.
  intros Hk s'. split.
  - unfold bwrite. erewrite bind_ret by by apply holding_run. unfold virtio_disk_rw. cbn [negb]. mstep.
    destruct He' as [_ _ _ Hbn _ _ Hd _ _]. rewrite Hbn, Hd. done.
  - pose proof Hb as [Hl [H1 H2 H3] Hh]. split; [done| |done]. split; [done| |done].
    intros i Hi. destruct (H2 i Hi) as [[Hr Hlk Hv Hcl]|?]; [left|by right].
    split; [done..|]. intros Hd Hv1. simpl. rewrite upd_ne; [auto|].
    apply buffer_uniq; [done| |done]. intros ->. destruct He'. lia.
Qed.

(** bpin, and bunpin when it is not the last reference. *)
Lemma bpin_run :
  c_refs e + 1 < 2 ^ 31 ->
  exists B', bpin (c_ix e) s = Ret tt (with_bufs B' s) /\
    brep dev (with_bufs B' s) l (<[bn := mkcent (c_ix e) (c_refs e + 1) (c_dat e) (c_lock e)]> C).
Proof.
  intros Hov. unfold bpin. erewrite bind_ret by (apply acquire_run, Hb). mstep.
  erewrite release_run by (done || apply Hb). eexists. split; [reflexivity|].
  eapply buffer_put; [apply only_upd| |done|done]. destruct He' as [? ? ? ? Hr Hp ? ? ?].
  split; simpl; try done; try lia. rewrite Hr. unwrap. done.
Qed.

Lemma bunpin_run :
  1 < c_refs e ->
  exists B', bunpin (c_ix e) s = Ret tt (with_bufs B' s) /\
    brep dev (with_bufs B' s) l (<[bn := mkcent (c_ix e) (c_refs e - 1) (c_dat e) (c_lock e)]> C).
Proof.
  intros Hov. unfold bunpin. erewrite bind_ret by (apply acquire_run, Hb). mstep.
  erewrite release_run by (done || apply Hb). eexists. split; [reflexivity|].
  eapply buffer_put; [apply only_upd| |done|done]. destruct He' as [? ? ? ? Hr Hp ? ? ?].
  split; simpl; try done; try lia. rewrite Hr. unwrap. done.
Qed.

(** brelse up to the decrement. *)
Let s1 : fsst := set_buf (c_ix e) (set_block (mksleep 0 (sl_name (b_lock (bufs s (c_ix e)))) 0)) s.
Let s2 : fsst := set_buf (c_ix e) (fun x => set_refcnt (u32 (b_refcnt x - 1)) x)
                   (with_held (LBcache :: f_held s) s1).

Lemma brelse_start :
  c_lock e = Some (f_pid s) ->
  brelse (c_ix e) s = (when (c_refs e - 1 =? 0) (to_front (c_ix e)) ;; release LBcache) s2.
Proof.
  intros Hk. unfold brelse. erewrite bind_ret by by apply holding_run. cbn [negb].
  erewrite bind_ret by (apply (releasesleep_run (SBuf (c_ix e))), Hb).
  erewrite bind_ret by (apply acquire_run, Hb). mstep. simpl. rewrite !upd_eq. simpl.
  destruct He' as [_ _ _ _ Hr Hp _ _ _]. rewrite Hr. unwrap. unfold s2, s1, set_buf. simpl.
  rewrite upd_eq. simpl. rewrite Hr. unwrap. done.
Qed.

Lemma brelse_more :
  c_lock e = Some (f_pid s) -> 1 < c_refs e ->
  exists B', brelse (c_ix e) s = Ret tt (with_bufs B' s) /\
    brep dev (with_bufs B' s) l (<[bn := mkcent (c_ix e) (c_refs e - 1) (c_dat e) None]> C).
Proof.
  intros Hk Hr. rewrite brelse_start by done. destruct (Z.eqb_spec (c_refs e - 1) 0); [lia|].
  mstep. erewrite release_run by (done || apply Hb). eexists. split; [reflexivity|]. simpl.
  eapply buffer_put; [eapply only_upd2, only_upd| | |]; rewrite upd_eq; [|done|done].
  destruct He' as [? ? ? ? Hr' Hp ? ? ?].
  split; simpl; try done; try lia. rewrite Hr'. unwrap. done.
Qed.

Lemma brelse_last :
  c_lock e = Some (f_pid s) -> c_refs e = 1 -> c_dat e = disk s bn ->
  exists B' l', brelse (c_ix e) s = Ret tt (with_bufs B' s) /\
    brep dev (with_bufs B' s) (c_ix e :: l') (delete bn C) /\
    exists l1 l2, l = l1 ++ c_ix e :: l2 /\ l' = l1 ++ l2.
Proof.
  intros Hk Hr Hd. rewrite brelse_start by done. rewrite Hr. cbn [Z.sub Z.eqb]. mstep.
  pose proof Hb as [Hl HC Hh]. destruct He' as [Hi _ Hdev Hbn Hrc Hp Hdat Hv Hlk].
  assert (O2 : only (bufs s) (bufs s2) (c_ix e) (set_refcnt 0 (bufs s1 (c_ix e)))).
  { unfold s2, s1. simpl. rewrite !upd_eq. simpl. rewrite Hrc, Hr. eapply only_upd2, only_upd. }
  assert (Hl2 : lru (bufs s2) l).
  { eapply lru_only; [exact O2| | |done]; unfold s1; simpl; by rewrite upd_eq. }
  apply (lru_in _ _ _ Hl), list_elem_of_split in Hi as (l1 & l2 & ->).
  destruct (to_front_run s2 l1 (c_ix e) l2 Hl2) as (B' & E & HL & Hno).
  erewrite bind_ret by exact E. erewrite release_run by (done || apply Hb).
  exists B', (l1 ++ l2). split; [reflexivity|]. split; [|by exists l1, l2].
  split; [done| |done]. simpl. apply (cache_nolink _ _ (bufs s2)); [done|].
  eapply (cache_delete HC); [done|exact O2| | |]; unfold s1; simpl; rewrite upd_eq; simpl; [|done..].
  split; simpl; [done|done|by right|]. rewrite Hbn, Hdat, Hd. done.
Qed.
End buffer.

(** ** The cache at boot *)
Definition zero_buf : buf := mkbuf 0 0 0 0 (mksleep 0 EmptyString 0) 0 0 0 (fun _ => 0).
Definition zero_log : logst := mklog 0 0 0 0 0 0 (fun _ => 0).
Definition zero_inode : inode :=
  mkinode 0 0 0 (mksleep 0 EmptyString 0) 0 0 0 0 0 0 (fun _ => 0).

(** The kernel's data segment is zero; [d] is what the disk holds. *)
Definition fs_boot (d : Z -> block) (pid : Z) : fsst :=
  mkfs [] pid d [] (fun _ => zero_buf) zero_log (mksb 0 0 0 0 0 0 0 0) (fun _ => zero_inode)
    (fun _ => 0) (fun _ => 0) 0.

(** Everything of a buffer but its links and its lock. *)
Definition nolock (b : buf) : buf := set_block (initsleeplock "buffer") (nolink b).

(** The list after the buffers [dn] have been linked. *)
Record linking (s : fsst) (dn : list Z) (B0 : Z -> buf) : Prop := {
  lk_next : path (fun i => b_next (bufs s i)) HEAD (reverse dn) HEAD;
  lk_prev : path (fun i => b_prev (bufs s i)) HEAD dn HEAD;
  lk_lock : forall i, i ∈ dn -> b_lock (bufs s i) = initsleeplock "buffer";
  lk_rest : forall i, nolock (bufs s i) = nolock (B0 i)
}.

Lemma binit_one_run s dn B0 x :
  linking s dn B0 -> NoDup dn -> HEAD ∉ dn -> x ∉ dn -> x <> HEAD ->
  exists B', binit_one x s = Ret tt (with_bufs B' s) /\ linking (with_bufs B' s) (dn ++ [x]) B0.
Proof.
  intros [Hn Hp Hk Hr] Hnd Hh Hx HxH. unfold binit_one. mstep. eexists. split; [reflexivity|].
  cbn [set_buf with_bufs bufs].
  set (nx := fun i => b_next (bufs s i)) in *. set (pv := fun i => b_prev (bufs s i)) in *.
  assert (HL : linked (bufs s) nx pv) by done. destruct (HL HEAD) as [-> _].
  set (B1 := upd (bufs s) x _).
  assert (L1 : linked B1 (upd nx x (nx HEAD)) pv) by by apply linked_next.
  set (B2 := upd B1 x _).
  assert (L2 : linked B2 (upd nx x (nx HEAD)) (upd pv x HEAD)) by by apply linked_prev.
  set (B3 := upd B2 x _).
  assert (L3 : linked B3 (upd nx x (nx HEAD)) (upd pv x HEAD)).
  { intros j. unfold B3. rewrite upd_case. case_decide; [subst; apply (L2 x)|apply L2]. }
  destruct (L3 HEAD) as [-> _]. rewrite (upd_ne nx x HEAD) by done.
  assert (Hk3 : forall i, i ∈ dn ++ [x] -> b_lock (B3 i) = initsleeplock "buffer").
  { intros i Hi. unfold B3. rewrite upd_case. case_decide; [done|]. unfold B2, B1. rewrite !upd_ne by done.
    apply Hk. set_solver. }
  assert (HL' := linked_next _ _ _ HEAD x (linked_prev _ _ _ (nx HEAD) x L3)). 
  split; cbn [bufs with_bufs].
  - rewrite reverse_snoc. eapply path_ext; [intros y _; symmetry; apply HL'|].
    apply path_push; [done|by rewrite elem_of_reverse..|done].
  - eapply path_ext; [intros y _; symmetry; apply HL'|]. rewrite (path_hd _ _ _ _ Hn), head_reverse.
    apply path_push_back; [by constructor|done..].
  - intros i Hi. by rewrite !(upd_proj b_lock), Hk3.
  - intros i. rewrite <- (Hr i). unfold B3, B2, B1. by rewrite !(upd_proj nolock).
Qed.

Lemma binit_loop xs s dn B0 :
  linking s dn B0 -> NoDup (dn ++ xs) -> HEAD ∉ dn ++ xs ->
  exists B', for_each xs binit_one s = Ret tt (with_bufs B' s) /\ linking (with_bufs B' s) (dn ++ xs) B0.
Proof.
  revert s dn; induction xs as [|x xs IH]; intros s dn Hl Hnd Hh; simpl.
  - exists (bufs s). rewrite app_nil_r. by destruct s.
  - pose proof Hnd as (Hnd1 & Hd & _)%NoDup_app.
    destruct (binit_one_run s dn B0 x) as (B1 & E1 & H1); [done|done|set_solver| |set_solver|].
    { intros Hx. apply (Hd x Hx). left. }
    replace (dn ++ x :: xs) with ((dn ++ [x]) ++ xs) in * by by rewrite <- app_assoc.
    destruct (IH _ _ H1 Hnd Hh) as (B2 & E2 & H2). exists B2. by erewrite bind_ret by exact E1.
Qed.

Lemma binit_run dev d pid :
  dev <> 0 ->
  exists B', binit (fs_boot d pid) = Ret tt (with_bufs B' (fs_boot d pid)) /\
    brep dev (with_bufs B' (fs_boot d pid)) (reverse (seqZ 0 NBUF)) ∅.
Proof.
  intros Hdev. unfold binit. mstep. set (s0 := set_buf HEAD _ _).
  destruct (binit_loop (seqZ 0 NBUF) s0 [] (fun _ => zero_buf)) as (B' & E & [Hn Hp Hk Hr]).
  - split; [done|done|by intros i ?%not_elem_of_nil|].
    intros i. unfold s0. simpl. rewrite upd_case. by case_decide.
  - apply NoDup_seqZ.
  - rewrite app_nil_l, elem_of_seqZ. unfold HEAD. lia.
  - exists B'. split; [exact E|].
    assert (Hf : forall i, in_cache i -> is_free dev d (B' i) /\ b_dev (B' i) = 0).
    { intros i Hi. pose proof (Hk i) as Hki. pose proof (Hr i) as Hri. simpl in Hki, Hri.
      destruct (B' i) as [v dk dv bno lk rc p n dat]. unfold nolock in Hri. simpl in Hri, Hki |- *.
      injection Hri as -> -> -> -> -> ->. split; [|done]. split; simpl; [done| |by left|congruence].
      rewrite Hki; [done|]. rewrite elem_of_seqZ. unfold in_cache in Hi. lia. }
    split; [| |split; [|intros ?]; apply not_elem_of_nil].
    + split; [done|by rewrite reverse_involutive|apply reverse_Permutation].
    + split.
      * by intros bn e ?%lookup_empty_Some.
      * intros i Hi. left. by apply Hf.
      * intros i j Hi Hj Hd. destruct (Hf i Hi) as [_ Hz]. simpl in Hd. congruence.
Qed.

(** ** What the cache promises *)

(** C29: bread implements a lookup in the abstract map of cached blocks.  A
    block in use that nobody has locked gets one more reference; a block not in
    use is read from the disk, unless a free buffer still holds it, into the free
    buffer released the longest ago; in both cases the caller gets it locked and
    every other entry and the order of the buffers stay.  With no free buffer
    bread panics. *)
Theorem bread_correct dev bn s l C :
  brep dev s l C ->
  match C !! bn with
  | Some e =>
      c_lock e = None -> c_refs e + 1 < 2 ^ 31 ->
      exists B', bread dev bn s = Ret (c_ix e) (with_bufs B' s) /\
        brep dev (with_bufs B' s) l (<[bn := mkcent (c_ix e) (c_refs e + 1) (c_dat e) (Some (f_pid s))]> C)
  | None =>
      (Z.of_nat (size C) < NBUF ->
       exists i B', bread dev bn s = Ret i (with_bufs B' s) /\
         brep dev (with_bufs B' s) l (<[bn := mkcent i 1 (disk s bn) (Some (f_pid s))]> C) /\
         match List.find (fun i => key_is dev bn (bufs s i)) l with
         | Some j => i = j
         | None => List.find (fun i => b_refcnt (bufs s i) =? 0) (reverse l) = Some i
         end) /\
      ((forall i, in_cache i -> b_refcnt (bufs s i) <> 0) -> bread dev bn s = Panic "bget: no buffers")
  end.
Proof.
  intros Hb. destruct (C !! bn) as [e|] eqn:He.
  - intros Hk Hr. by apply bread_again.
  - split; [by apply bread_new|]. by apply (bread_full dev bn s l C).
Qed.

(** Releasing a buffer the process has locked unlocks it and drops one
    reference.  The last release removes the block from the map and moves the
    buffer to the front of the list, so that it is the last to be recycled; its
    block must be on the disk by then.  Releasing a buffer locked by nobody
    panics. *)
Theorem brelse_correct dev s l C bn e :
  brep dev s l C -> C !! bn = Some e ->
  match c_lock e with
  | Some p => p = f_pid s -> (c_refs e = 1 -> c_dat e = disk s bn) ->
      exists B' l', brelse (c_ix e) s = Ret tt (with_bufs B' s) /\
        if c_refs e =? 1
        then (exists l1 l2, l = l1 ++ c_ix e :: l2 /\ l' = c_ix e :: l1 ++ l2) /\ brep dev (with_bufs B' s) l' (delete bn C)
        else l' = l /\ brep dev (with_bufs B' s) l (<[bn := mkcent (c_ix e) (c_refs e - 1) (c_dat e) None]> C)
  | None => brelse (c_ix e) s = Panic "brelse"
  end.
Proof.
  intros Hb He. pose proof (cache_lookup (br_cache _ _ _ _ Hb) _ _ He) as Hc. destruct (c_lock e) as [p|] eqn:Hk.
  - intros -> Hd. destruct (Z.eqb_spec (c_refs e) 1) as [H1|H1].
    + destruct (brelse_last Hb He Hk H1 (Hd H1)) as (B' & l' & E & Hb' & l1 & l2 & -> & ->).
      exists B', (c_ix e :: l1 ++ l2). split; [done|]. split; [by exists l1, l2|done].
    + destruct (brelse_more Hb He Hk) as (B' & E & Hb'); [destruct Hc; lia|].
      by exists B', l.
  - unfold brelse. destruct Hc as [_ _ _ _ _ _ _ _ Hlk]. rewrite Hk in Hlk. simpl in Hlk.
    erewrite bind_ret by (apply holdingsleep_run, Hb). simpl. by rewrite Hlk.
Qed.
