(* ===== verification/View.v ===== *)
(** The logical disk behind the buffer cache.

    [view dev s P H V]: through the cache, block [b] of the disk reads as [V b].
    [P] is the set of blocks pinned in the cache, [H] maps the blocks the running
    process has locked to their buffers.  A block that is not pinned is on the
    disk as [V] says; a pinned one may differ from it.

    The lemmas here are the interface of the cache for its clients: reading a
    block ([view_bread]), changing and writing it ([view_put]), releasing it
    ([view_brelse]), pinning and unpinning it. *)

From S2P Require Import Prelude Mem Riscv Held Sleeplock FsState Bio.

Definition b2z (b : bool) : Z := if b then 1 else 0.

(** What the cache knows of block [b]. *)
Record entry_ok (pid : Z) (P : gset Z) (H : gmap Z Z) (V : Z -> block) (b : Z) (e : cent) : Prop := {
  en_refs : c_refs e = b2z (bool_decide (b ∈ P)) + b2z (bool_decide (is_Some (H !! b)));
  en_lock : c_lock e = (fun _ => pid) <$> H !! b;
  en_ix : forall i, H !! b = Some i -> c_ix e = i;
  en_dat : c_dat e = V b
}.

Record view_at (dev : Z) (s : fsst) (P : gset Z) (H : gmap Z Z) (V : Z -> block)
    (l : list Z) (C : gmap Z cent) : Prop := {
  vw_brep : brep dev s l C;
  vw_dom : forall b, is_Some (C !! b) <-> b ∈ P \/ is_Some (H !! b);
  vw_ent : forall b e, C !! b = Some e -> entry_ok (f_pid s) P H V b e;
  vw_disk : forall b, b ∉ P -> V b = disk s b
}.

Definition view (dev : Z) (s : fsst) (P : gset Z) (H : gmap Z Z) (V : Z -> block) : Prop :=
  exists l C, view_at dev s P H V l C.

Definition cache_free (h : list flock) : Prop := (LBcache ∉ h) /\ (forall i, LBuf i ∉ h).

Lemma brep_ext dev s s' l C :
  bufs s' = bufs s -> disk s' = disk s -> cache_free (f_held s') -> brep dev s l C -> brep dev s' l C.
Proof. intros Eb Ed Hh [Hl Hc _]. split; by rewrite ?Eb, ?Ed. Qed.

(** The view depends on the buffers, the disk, the pid and the cache's locks. *)
Lemma view_ext dev s s' P H V :
  bufs s' = bufs s -> disk s' = disk s -> f_pid s' = f_pid s -> cache_free (f_held s') ->
  view dev s P H V -> view dev s' P H V.
Proof.
  intros Eb Ed Ep Eh (l & C & [Hb Hdom Hent Hdisk]). exists l, C.
  split; rewrite ?Ed, ?Ep; try done. by eapply brep_ext.
Qed.

Lemma view_free dev s P H V : view dev s P H V -> cache_free (f_held s).
Proof. intros (l & C & [[_ _ Hh] _ _ _]). exact Hh. Qed.

(** Only the values of [V] matter. *)
Lemma view_fun dev s P H V V' :
  (forall b, V b = V' b) -> view dev s P H V -> view dev s P H V'.
Proof.
  intros E (l & C & [Hb Hdom Hent Hdisk]). exists l, C. split; [done|done| |].
  - intros b e He. destruct (Hent b e He). split; try done. by rewrite <- E.
  - intros b Hb'. rewrite <- E. auto.
Qed.

Lemma view_unpinned dev s P H V b : view dev s P H V -> b ∉ P -> V b = disk s b.
Proof. intros (l & C & [_ _ _ Hd]). apply Hd. Qed.

(** A locked block's buffer. *)
Lemma view_locked dev s P H V b i :
  view dev s P H V -> H !! b = Some i ->
  b_data (bufs s i) = V b /\ b_blockno (bufs s i) = b /\ in_cache i.
Proof.
  intros (l & C & [Hb Hdom Hent Hdisk]) Hi.
  destruct (proj2 (Hdom b)) as [e He]; [right; by rewrite Hi|].
  destruct (Hent b e He) as [_ _ Hx Hd]. pose proof (cache_lookup (br_cache _ _ _ _ Hb) _ _ He) as [].
  rewrite (Hx i Hi) in *. split; [congruence|done].
Qed.

(** Two locked blocks are in different buffers. *)
Lemma view_locked_inj dev s P H V b b' i : 
  view dev s P H V -> H !! b = Some i -> H !! b' = Some i -> b = b'.
Proof.
  intros HV H1 H2. destruct (view_locked _ _ _ _ _ _ _ HV H1) as (_ & <- & _).
  by destruct (view_locked _ _ _ _ _ _ _ HV H2) as (_ & <- & _).
Qed.

(** ** Changing what is known of one block *)
Record agree_off (b : Z) (P P' : gset Z) (H H' : gmap Z Z) (V V' : Z -> block) : Prop := {
  ag_P : forall b', b' <> b -> b' ∈ P' <-> b' ∈ P;
  ag_H : forall b', b' <> b -> H' !! b' = H !! b';
  ag_V : forall b', b' <> b -> V' b' = V b'
}.

Lemma entry_ok_agree pid b P P' H H' V V' b' e :
  agree_off b P P' H H' V V' -> b' <> b -> entry_ok pid P H V b' e -> entry_ok pid P' H' V' b' e.
Proof.
  intros [HP HH HV] Hne [Hr Hl Hx Hd]. split.
  - rewrite Hr, HH by done. by rewrite (bool_decide_ext (b' ∈ P') (b' ∈ P)) by auto.
  - by rewrite HH.
  - intros i. rewrite HH by done. auto.
  - by rewrite HV.
Qed.

Section change.
Context {dev : Z} {s s' : fsst} {P P' : gset Z} {H H' : gmap Z Z} {V V' : Z -> block} {b : Z}.
Context {l l' : list Z} {C : gmap Z cent}.
Hypothesis HV : view_at dev s P H V l C.
Hypothesis Hag : agree_off b P P' H H' V V'.
Hypothesis Hpid : f_pid s' = f_pid s.
Hypothesis Hdisk : forall b', b' <> b -> disk s' b' = disk s b'.
Hypothesis Hb : b ∉ P' -> V' b = disk s' b.

Local Lemma change_disk b' : b' ∉ P' -> V' b' = disk s' b'.
Proof.
  intros Hb'. destruct (decide (b' = b)) as [->|Hne]; [auto|].
  rewrite (ag_V _ _ _ _ _ _ _ Hag), Hdisk by done. apply (vw_disk _ _ _ _ _ _ _ HV).
  by rewrite <- (ag_P _ _ _ _ _ _ _ Hag).
Qed.

Lemma view_insert e :
  brep dev s' l' (<[b := e]> C) -> b ∈ P' \/ is_Some (H' !! b) -> entry_ok (f_pid s) P' H' V' b e ->
  view dev s' P' H' V'.
Proof.
  intros Hbr Hin He. exists l', (<[b := e]> C). split; [done| | |exact change_disk].
  - intros b'. destruct (decide (b' = b)) as [->|Hne].
    + rewrite lookup_insert_eq. split; [done|eauto].
    + rewrite lookup_insert_ne by done. rewrite (vw_dom _ _ _ _ _ _ _ HV b').
      by rewrite (ag_P _ _ _ _ _ _ _ Hag), (ag_H _ _ _ _ _ _ _ Hag).
  - intros b' e'. rewrite Hpid. intros [[<- <-]|[Hne He']]%lookup_insert_Some; [done|].
    eapply entry_ok_agree; [done|done|]. by apply (vw_ent _ _ _ _ _ _ _ HV).
Qed.

Lemma view_delete :
  brep dev s' l' (delete b C) -> b ∉ P' -> H' !! b = None -> view dev s' P' H' V'.
Proof.
  intros Hbr HnP HnH. exists l', (delete b C). split; [done| | |exact change_disk].
  - intros b'. destruct (decide (b' = b)) as [->|Hne].
    + rewrite lookup_delete_eq, HnH. split; [by intros []|]. intros [?|[]]; done.
    + rewrite lookup_delete_ne by done. rewrite (vw_dom _ _ _ _ _ _ _ HV b').
      by rewrite (ag_P _ _ _ _ _ _ _ Hag), (ag_H _ _ _ _ _ _ _ Hag).
  - intros b' e'. rewrite Hpid. intros [Hne He']%lookup_delete_Some.
    eapply entry_ok_agree; [done|done|]. by apply (vw_ent _ _ _ _ _ _ _ HV).
Qed.
End change.

Lemma agree_H b P H i V : agree_off b P P H (<[b := i]> H) V V.
Proof. split; try done. intros. by rewrite lookup_insert_ne. Qed.
Lemma agree_delete b P H V : agree_off b P P H (delete b H) V V.
Proof. split; try done. intros. by rewrite lookup_delete_ne. Qed.
Lemma agree_V b P H V v : agree_off b P P H H V (upd V b v).
Proof. split; try done. intros. by rewrite upd_ne. Qed.
Lemma agree_pin b P H V : agree_off b P ({[b]} ∪ P) H H V V.
Proof. split; try done. set_solver. Qed.
Lemma agree_unpin b P H V : agree_off b P (P ∖ {[b]}) H H V V.
Proof. split; try done. set_solver. Qed.

Lemma view_size dev s P H V l C :
  view_at dev s P H V l C -> Z.of_nat (size C) <= Z.of_nat (size P) + Z.of_nat (size H).
Proof.
  intros [_ Hdom _ _]. rewrite <- (size_dom C), <- (size_dom H).
  assert (dom C ⊆ P ∪ dom H) as Hs.
  { intros b. rewrite elem_of_union, !elem_of_dom. apply Hdom. }
  apply subseteq_size in Hs. pose proof (size_union_alt P (dom H)).
  assert (size (dom H ∖ P) <= size (dom H))%nat by (apply subseteq_size; set_solver). lia.
Qed.

(** ** The operations of the cache on the view *)
Section ops.
Context {dev : Z} {s : fsst} {P : gset Z} {H : gmap Z Z} {V : Z -> block}.
Hypothesis HV : view dev s P H V.

Lemma view_bread b :
  H !! b = None -> b ∈ P \/ Z.of_nat (size P) + Z.of_nat (size H) < NBUF ->
  exists i B', bread dev b s = Ret i (with_bufs B' s) /\
    view dev (with_bufs B' s) P (<[b := i]> H) V /\ b_data (B' i) = V b.
Proof.
  intros HnH Hroom. destruct HV as (l & C & Hat). pose proof Hat as [Hbr Hdom Hent Hdisk].
  destruct (C !! b) as [e|] eqn:He.
  - destruct (Hent b e He) as [Hr Hl _ Hd]. rewrite HnH in Hl, Hr. simpl in Hl.
    assert (HbP : b ∈ P) by (destruct (proj1 (Hdom b)) as [?|[]]; [by rewrite He|done|congruence]).
    rewrite bool_decide_true, bool_decide_false in Hr by (done || by intros []). simpl in Hr.
    destruct (bread_again dev b s l C e Hbr He Hl) as (B' & E & Hbr'); [lia|].
    exists (c_ix e), B'. split; [done|]. rewrite Hr in Hbr'.
    assert (HV' : view dev (with_bufs B' s) P (<[b := c_ix e]> H) V).
    { eapply (view_insert Hat (agree_H b P H (c_ix e) V)); [done|done|auto|exact Hbr'|by left|].
      split; simpl; rewrite ?lookup_insert_eq; [|done|congruence|done].
      by rewrite !bool_decide_true by (done || eauto). }
    split; [done|]. eapply (view_locked _ _ _ _ _ _ _ HV'). apply lookup_insert_eq.
  - assert (HbP : b ∉ P) by (intros HbP; destruct (proj2 (Hdom b)); [by left|congruence]).
    destruct Hroom as [?|Hroom]; [done|].
    destruct (bread_new dev b s l C Hbr He) as (i & B' & E & Hbr' & _).
    { pose proof (view_size _ _ _ _ _ _ _ Hat). lia. }
    exists i, B'. split; [done|].
    assert (HV' : view dev (with_bufs B' s) P (<[b := i]> H) V).
    { eapply (view_insert Hat (agree_H b P H i V)); [done|done|auto|exact Hbr'|right; by rewrite lookup_insert_eq|].
      split; simpl; rewrite ?lookup_insert_eq; [|done|congruence|by rewrite Hdisk].
      by rewrite bool_decide_false, bool_decide_true by (done || eauto). }
    split; [done|]. eapply (view_locked _ _ _ _ _ _ _ HV'). apply lookup_insert_eq.
Qed.

(** The entry of a locked block. *)
Local Lemma locked_entry b i l C :
  view_at dev s P H V l C -> H !! b = Some i ->
  exists e, C !! b = Some e /\ c_ix e = i /\ c_lock e = Some (f_pid s) /\ c_dat e = V b /\
    c_refs e = b2z (bool_decide (b ∈ P)) + 1.
Proof.
  intros [_ Hdom Hent _] Hi. destruct (proj2 (Hdom b)) as [e He]; [right; by rewrite Hi|].
  exists e. destruct (Hent b e He) as [Hr Hl Hx Hd]. rewrite (bool_decide_true (is_Some (H !! b))) in Hr by eauto. rewrite Hi in Hl. auto.
Qed.

Lemma view_brelse b i :
  H !! b = Some i ->
  exists B', brelse i s = Ret tt (with_bufs B' s) /\ view dev (with_bufs B' s) P (delete b H) V.
Proof.
  intros Hi. destruct HV as (l & C & Hat). pose proof Hat as [Hbr Hdom Hent Hdisk].
  destruct (locked_entry b i l C Hat Hi) as (e & He & <- & Hl & Hd & Hr).
  destruct (decide (b ∈ P)) as [HbP|HbP].
  - rewrite bool_decide_true in Hr by done. simpl in Hr.
    destruct (brelse_more Hbr He Hl) as (B' & E & Hbr'); [lia|]. exists B'. split; [done|].
    eapply (view_insert Hat (agree_delete b P H V)); [done|done|done|exact Hbr'|by left|].
    split; simpl; rewrite ?lookup_delete_eq; [|done|done|done].
    rewrite bool_decide_true, bool_decide_false by (done || by intros []). simpl. lia.
  - rewrite bool_decide_false in Hr by done. simpl in Hr.
    destruct (brelse_last Hbr He Hl) as (B' & l' & E & Hbr' & _); [lia|by rewrite Hd, Hdisk|].
    exists B'. split; [done|].
    eapply (view_delete Hat (agree_delete b P H V)); [done|done|auto|exact Hbr'|done|].
    apply lookup_delete_eq.
Qed.

(** [b->data] is changed and written to the disk. *)
Lemma view_write b i v :
  H !! b = Some i ->
  let s' := with_disk (upd (disk s) b v) (trace s ++ [(b, v)]) (set_buf i (set_data v) s) in
  (modify (set_buf i (set_data v)) ;; bwrite i) s = Ret tt s' /\ view dev s' P H (upd V b v).
Proof.
  intros Hi s'. destruct HV as (l & C & Hat). pose proof Hat as [Hbr Hdom Hent Hdisk].
  destruct (locked_entry b i l C Hat Hi) as (e & He & <- & Hl & Hd & Hr).
  pose proof (bdata_run Hbr He v) as Hbr1. set (e1 := mkcent _ _ _ _) in Hbr1.
  destruct (bwrite_run (e := e1) Hbr1 (lookup_insert_eq _ _ _) Hl) as [E Hbr2].
  split; [exact E|].
  eapply (view_insert Hat (agree_V b P H V v)); [done| | |exact Hbr2|by right; rewrite Hi|].
  - intros b' Hne. simpl. by rewrite upd_ne.
  - intros _. simpl. by rewrite !upd_eq.
  - destruct (Hent b e He) as [H1 H2 H3 H4]. split; simpl; [done|done|done|by rewrite upd_eq].
Qed.

(** [b->data] of a pinned block is changed. *)
Lemma view_set b i v :
  H !! b = Some i -> b ∈ P -> view dev (set_buf i (set_data v) s) P H (upd V b v).
Proof.
  intros Hi HbP. destruct HV as (l & C & Hat). pose proof Hat as [Hbr Hdom Hent Hdisk].
  destruct (locked_entry b i l C Hat Hi) as (e & He & <- & Hl & Hd & Hr).
  eapply (view_insert Hat (agree_V b P H V v)); [done|done|done|exact (bdata_run Hbr He v)|by left|].
  destruct (Hent b e He) as [H1 H2 H3 H4]. split; simpl; [done|done|done|by rewrite upd_eq].
Qed.

(** [b->data] is changed and the block pinned; [s1] is [s] with the change. *)
Lemma view_set_pin b i v s1 :
  H !! b = Some i -> b ∉ P ->
  bufs s1 = bufs (set_buf i (set_data v) s) -> disk s1 = disk s -> f_pid s1 = f_pid s ->
  cache_free (f_held s1) ->
  exists B', bpin i s1 = Ret tt (with_bufs B' s1) /\
    view dev (with_bufs B' s1) ({[b]} ∪ P) H (upd V b v).
Proof.
  intros Hi HbP Eb Ed Ep Eh. destruct HV as (l & C & Hat). pose proof Hat as [Hbr Hdom Hent Hdisk].
  destruct (locked_entry b i l C Hat Hi) as (e & He & <- & Hl & Hd & Hr).
  pose proof (bdata_run Hbr He v) as Hbr1. set (e1 := mkcent _ _ _ _) in Hbr1.
  apply (brep_ext _ _ s1) in Hbr1; [|done|done|done].
  rewrite bool_decide_false in Hr by done. simpl in Hr.
  destruct (bpin_run (e := e1) Hbr1 (lookup_insert_eq _ _ _)) as (B' & E & Hbr2); [simpl; lia|].
  rewrite insert_insert_eq in Hbr2. exists B'. split; [exact E|].
  assert (Hag : agree_off b P ({[b]} ∪ P) H H V (upd V b v)).
  { split; [set_solver|done|]. intros. by rewrite upd_ne. }
  eapply (view_insert Hat Hag); [done| | |exact Hbr2|by right; rewrite Hi|].
  - intros b' Hne. simpl. by rewrite Ed.
  - set_solver.
  - destruct (Hent b e He) as [H1 H2 H3 H4]. split; simpl; [|done|done|by rewrite upd_eq].
    rewrite !bool_decide_true by (set_solver || by rewrite Hi). simpl. lia.
Qed.

Lemma view_unpin b i :
  H !! b = Some i -> b ∈ P -> V b = disk s b ->
  exists B', bunpin i s = Ret tt (with_bufs B' s) /\ view dev (with_bufs B' s) (P ∖ {[b]}) H V.
Proof.
  intros Hi HbP Hclean. destruct HV as (l & C & Hat). pose proof Hat as [Hbr Hdom Hent Hdisk].
  destruct (locked_entry b i l C Hat Hi) as (e & He & <- & Hl & Hd & Hr).
  rewrite bool_decide_true in Hr by done. simpl in Hr.
  destruct (bunpin_run Hbr He) as (B' & E & Hbr'); [lia|]. exists B'. split; [done|].
  eapply (view_insert Hat (agree_unpin b P H V)); [done|done|done|exact Hbr'|by right; rewrite Hi|].
  destruct (Hent b e He) as [H1 H2 H3 H4]. split; simpl; [|done|done|done].
  rewrite bool_decide_false, bool_decide_true by (set_solver || by rewrite Hi). simpl. lia.
Qed.
End ops.

(** The cache after binit shows the disk. *)
Lemma view_boot dev d pid :
  dev <> 0 ->
  exists B', binit (fs_boot d pid) = Ret tt (with_bufs B' (fs_boot d pid)) /\
    view dev (with_bufs B' (fs_boot d pid)) ∅ ∅ d.
Proof.
  intros Hdev. destruct (binit_run dev d pid Hdev) as (B' & E & Hbr). exists B'. split; [done|].
  exists (reverse (seqZ 0 NBUF)), ∅. split; [done| | |done].
  - intros b. rewrite !lookup_empty. split; [by intros []|]. intros [?|[]]; [set_solver|done].
  - by intros b e ?%lookup_empty_Some.
Qed.
