(* ===== verification/Log.v ===== *)
(** kernel/log.c: the write-ahead log.

    A transaction collects the numbers of the blocks it changes in the in-memory
    header and pins them in the cache.  [commit] copies them to the log area,
    writes the header (the commit point), installs the blocks in their home
    locations and clears the header; after a crash [initlog] installs what a
    committed header names.

    [commit_correct] gives the exact sequence of disk writes; [commit_crash_safe]
    is the theorem the log is there for: whatever prefix of those writes the disk
    has seen, recovery leaves the home blocks all as before the transaction or
    all as after it. *)

From S2P Require Import Prelude Mem Riscv Held Sleeplock FsState Bio View.

(** ** The code *)

(** [log.lh.block[i]], an array of LOGSIZE elements. *)
Definition lh_at (i : Z) : M fsst Z :=
  if (0 <=? i) && (i <? LOGSIZE) then gets (fun s => lh_block (log s) i)
  else stuck "log.lh.block: index out of bounds".

Definition install_one (recovering : bool) (tail : Z) : M fsst unit :=
  lg <- gets log ;;
  lbuf <- bread (lg_dev lg) (u32 (lg_start lg + tail + 1)) ;;
  b <- lh_at tail ;;
  dbuf <- bread (lg_dev lg) (u32 b) ;;
  modify (fun s => set_buf dbuf (set_data (b_data (bufs s lbuf))) s) ;;
  bwrite dbuf ;;
  when (negb recovering) (bunpin dbuf) ;;
  brelse lbuf ;;
  brelse dbuf.

Definition install_trans (recovering : bool) : M fsst unit :=
  n <- gets (fun s => lh_n (log s)) ;;
  for_each (seqZ 0 n) (install_one recovering).

(** The fields [n] and [block[i]] of a header block. *)
Definition head_n (data : block) : Z := i32 (load32 data 0).
Definition head_block (data : block) (i : Z) : Z := i32 (load32 data (4 + 4 * i)).

Definition read_head : M fsst unit :=
  lg <- gets log ;;
  buf <- bread (lg_dev lg) (u32 (lg_start lg)) ;;
  data <- gets (fun s => b_data (bufs s buf)) ;;
  modify (set_log (set_lhn (head_n data))) ;;
  for_each (seqZ 0 (head_n data)) (fun i =>
    if LOGSIZE <=? i then stuck "log.lh.block: index out of bounds"
    else modify (set_log (set_lhb i (head_block data i)))) ;;
  brelse buf.

(** The stores of write_head in the header block. *)
Definition put_head (lg : logst) (data : block) : block :=
  foldl (fun m i => store32 m (4 + 4 * i) (lh_block lg i)) (store32 data 0 (lh_n lg)) (seqZ 0 (lh_n lg)).

Definition write_head : M fsst unit :=
  lg <- gets log ;;
  buf <- bread (lg_dev lg) (u32 (lg_start lg)) ;;
  if LOGSIZE <? lh_n lg then stuck "log.lh.block: index out of bounds" else
  modify (fun s => set_buf buf (set_data (put_head lg (b_data (bufs s buf)))) s) ;;
  bwrite buf ;;
  brelse buf.

Definition recover_from_log : M fsst unit :=
  read_head ;;
  install_trans true ;;
  modify (set_log (set_lhn 0)) ;;
  write_head.

Definition initlog (dev : Z) (x : superblock) : M fsst unit :=
  if BSIZE <=? 4 + 4 * LOGSIZE then panic "initlog: too big logheader" else
  modify (fun s => with_log (mklog (sb_logstart x) (sb_nlog x) (lg_outstanding (log s))
            (lg_committing (log s)) dev (lh_n (log s)) (lh_block (log s))) s) ;;
  recover_from_log.

(** A process that has to wait sleeps; run on its own it would sleep forever. *)
Definition begin_op : M fsst unit :=
  acquire LLog ;;
  lg <- gets log ;;
  if negb (lg_committing lg =? 0) then stuck "begin_op: sleeping" else
  if LOGSIZE <? lh_n lg + (lg_outstanding lg + 1) * MAXOPBLOCKS then stuck "begin_op: sleeping" else
  modify (set_log (set_out (lg_outstanding lg + 1))) ;;
  release LLog.

Definition write_log_one (tail : Z) : M fsst unit :=
  lg <- gets log ;;
  to <- bread (lg_dev lg) (u32 (lg_start lg + tail + 1)) ;;
  b <- lh_at tail ;;
  from <- bread (lg_dev lg) (u32 b) ;;
  modify (fun s => set_buf to (set_data (b_data (bufs s from))) s) ;;
  bwrite to ;;
  brelse from ;;
  brelse to.

Definition write_log : M fsst unit :=
  n <- gets (fun s => lh_n (log s)) ;;
  for_each (seqZ 0 n) write_log_one.

Definition commit : M fsst unit :=
  n <- gets (fun s => lh_n (log s)) ;;
  when (0 <? n)
    (write_log ;;
     write_head ;;
     install_trans false ;;
     modify (set_log (set_lhn 0)) ;;
     write_head).

Definition end_op : M fsst unit :=
  acquire LLog ;;
  modify (fun s => set_log (set_out (lg_outstanding (log s) - 1)) s) ;;
  lg <- gets log ;;
  if negb (lg_committing lg =? 0) then panic "log.committing" else
  let do_commit := lg_outstanding lg =? 0 in
  when do_commit (modify (set_log (set_com 1))) ;;
  release LLog ;;
  when do_commit
    (commit ;;
     acquire LLog ;;
     modify (set_log (set_com 0)) ;;
     release LLog).

(** The first [i < n] with [log.lh.block[i] == blockno], or [n]. *)
Fixpoint log_find (fuel : nat) (lg : logst) (blockno i : Z) : Z :=
  match fuel with
  | O => i
  | S fuel' => if u32 (lh_block lg i) =? blockno then i else log_find fuel' lg blockno (i + 1)
  end.

Definition log_write (b : Z) : M fsst unit :=
  acquire LLog ;;
  lg <- gets log ;;
  if (LOGSIZE <=? lh_n lg) || (lg_size lg - 1 <=? lh_n lg) then panic "too big a transaction" else
  if lg_outstanding lg <? 1 then panic "log_write outside of trans" else
  blockno <- gets (fun s => b_blockno (bufs s b)) ;;
  let i := log_find (Z.to_nat (lh_n lg)) lg blockno 0 in
  modify (set_log (set_lhb i (i32 blockno))) ;;
  when (i =? lh_n lg)
    (bpin b ;;
     modify (fun s => set_log (set_lhn (lh_n (log s) + 1)) s)) ;;
  release LLog.

(** ** Abstraction *)

(** A sequence of block writes applied to a disk, or to the view of one. *)
Definition apply_writes (d : Z -> block) (w : list (Z * block)) : Z -> block :=
  foldl (fun d '(b, v) => upd d b v) d w.

(** A block outside the log area. *)
Definition home (lg : logst) (b : Z) : Prop :=
  0 <= b < 2 ^ 31 /\ (b < lg_start lg \/ lg_start lg + LOGSIZE < b).

(** The log area of device [dev]. *)
Record log_area (dev : Z) (lg : logst) : Prop := {
  la_dev : lg_dev lg = dev;
  la_start : 0 <= lg_start lg;
  la_end : lg_start lg + LOGSIZE + 1 < 2 ^ 31
}.

(** The header names the blocks [L]. *)
Record logged (lg : logst) (L : list Z) : Prop := {
  lo_n : lh_n lg = Z.of_nat (length L);
  lo_max : lh_n lg <= LOGSIZE;
  lo_block : forall i b, L !! i = Some b -> lh_block lg (Z.of_nat i) = b;
  lo_home : Forall (home lg) L
}.

(** [s'] is [s] after the disk writes [w], with log [lg]. *)
Definition wrote (s s' : fsst) (w : list (Z * block)) (lg : logst) : Prop :=
  s' = with_log lg (with_bufs (bufs s') (with_disk (apply_writes (disk s) w) (trace s ++ w) s)).

Definition slot (lg : logst) (i : Z) : Z := lg_start lg + i + 1.

(** The writes of write_log, install_trans and write_head. *)
Definition log_writes (lg : logst) (V : Z -> block) (L : list Z) : list (Z * block) :=
  imap (fun i b => (slot lg (Z.of_nat i), V b)) L.
Definition home_writes (lg : logst) (V : Z -> block) (L : list Z) : list (Z * block) :=
  imap (fun i b => (b, V (slot lg (Z.of_nat i)))) L.
Definition head_write (lg : logst) (V : Z -> block) : list (Z * block) :=
  [(lg_start lg, put_head lg (V (lg_start lg)))].

(** ** Header blocks: what write_head stores, read_head reads *)
Lemma put_head_fold f xs m a :
  (forall i, i ∈ xs -> a + 4 <= 4 + 4 * i \/ 4 + 4 * i + 4 <= a) ->
  load32 (foldl (fun m i => store32 m (4 + 4 * i) (f i)) m xs) a = load32 m a.
Proof.
  revert m; induction xs as [|x xs IH]; intros m Ha; simpl; [done|].
  rewrite IH by (intros; apply Ha; by right). apply load32_ne. apply Ha. left.
Qed.

Lemma put_head_n lg data : load32 (put_head lg data) 0 = u32 (lh_n lg).
Proof.
  unfold put_head. rewrite put_head_fold; [apply load32_eq|].
  intros i Hi%elem_of_seqZ. lia.
Qed.

Lemma put_head_block lg data i :
  0 <= i < lh_n lg -> load32 (put_head lg data) (4 + 4 * i) = u32 (lh_block lg i).
Proof.
  intros Hi. unfold put_head.
  replace (seqZ 0 (lh_n lg)) with (seqZ 0 i ++ i :: seqZ (i + 1) (lh_n lg - i - 1)).
  - rewrite foldl_app. simpl. rewrite put_head_fold; [apply load32_eq|].
    intros j Hj%elem_of_seqZ. lia.
  - replace (lh_n lg) with (i + (lh_n lg - i)) at 2 by lia. rewrite seqZ_app by lia.
    f_equal. rewrite (seqZ_cons (0 + i)) by lia. f_equal; lia.
Qed.

Lemma i32_u32 x : 0 <= x < 2 ^ 31 -> i32 (u32 x) = x.
Proof. intros. rewrite u32_small, i32_small by lia. done. Qed.

Lemma head_roundtrip lg L data :
  logged lg L ->
  head_n (put_head lg data) = lh_n lg /\
  forall i, 0 <= i < lh_n lg -> head_block (put_head lg data) i = lh_block lg i.
Proof.
  intros [Hn Hm Hb Hh]. unfold head_n, head_block. split.
  - rewrite put_head_n. apply i32_u32. unfold LOGSIZE in Hm. lia.
  - intros i Hi. rewrite put_head_block by done. apply i32_u32.
    destruct (lookup_lt_is_Some_2 L (Z.to_nat i)) as [b Hlk]; [lia|].
    rewrite <- (Z2Nat.id i) by lia. rewrite (Hb _ _ Hlk).
    rewrite Forall_forall in Hh. by apply list_elem_of_lookup_2, Hh in Hlk as [? _].
Qed.

(** The header block encodes the in-memory header: reading back what
    write_head stores gives the same count and the same block numbers. *)
Theorem log_head_roundtrip lg L data :
  logged lg L ->
  head_n (put_head lg data) = lh_n lg /\
  forall i, 0 <= i < lh_n lg -> head_block (put_head lg data) i = lh_block lg i.
Proof. apply head_roundtrip. Qed.

(** ** One block of write_log and of install_trans *)
Lemma apply_writes_app d w w' : apply_writes d (w ++ w') = apply_writes (apply_writes d w) w'.
Proof. unfold apply_writes. by rewrite foldl_app. Qed.

Lemma wrote_refl s : wrote s s [] (log s).
Proof. unfold wrote. rewrite app_nil_r. by destruct s. Qed.

Lemma wrote_trans s1 s2 s3 w w' lg lg' :
  wrote s1 s2 w lg -> wrote s2 s3 w' lg' -> wrote s1 s3 (w ++ w') lg'.
Proof. unfold wrote. intros -> ->. simpl. by rewrite apply_writes_app, app_assoc. Qed.

Lemma wrote_set_log s f : wrote s (set_log f s) [] (f (log s)).
Proof. unfold wrote. rewrite app_nil_r. by destruct s. Qed.

Lemma wrote_log s s' w lg : wrote s s' w lg -> log s' = lg.
Proof. by intros ->. Qed.

Lemma delete_two {A} (x y : Z) (i j : A) :
  x <> y -> delete x (delete y (<[y := j]> (<[x := i]> (∅ : gmap Z A)))) = ∅ /\
            delete y (delete x (<[y := j]> (<[x := i]> (∅ : gmap Z A)))) = ∅.
Proof.
  intros Hne. split; apply map_empty; intros z;
    destruct (decide (z = x)), (decide (z = y)); subst; simplify_map_eq; done.
Qed.

Section one.
Context (dev : Z) (s : fsst) (L : list Z) (P : gset Z) (V : Z -> block).
Let lg := log s.
Hypothesis Harea : log_area dev lg.
Hypothesis Hlog : logged lg L.
Hypothesis HV : view dev s P ∅ V.
Context (k : nat) (b : Z).
Hypothesis Hk : L !! k = Some b.

Lemma one_facts :
  u32 (lg_start lg + Z.of_nat k + 1) = slot lg (Z.of_nat k) /\
  (forall s', log s' = lg -> lh_at (Z.of_nat k) s' = Ret b s') /\ u32 b = b /\
  slot lg (Z.of_nat k) <> b.
Proof.
  destruct Harea as [_ Hs He]. destruct Hlog as [Hn Hm Hb Hh].
  apply lookup_lt_Some in Hk as Hlt. rewrite Forall_forall in Hh.
  destruct (Hh b) as [Hr Ho]; [by eapply list_elem_of_lookup_2|].
  assert (Z.of_nat k < LOGSIZE) by lia.
  split; [|split; [|split]].
  - unfold slot. apply u32_small. lia.
  - intros s' E. unfold lh_at. replace (_ && _) with true by lia.
    unfold gets. by rewrite E, (Hb _ _ Hk).
  - apply u32_small. lia.
  - unfold slot. lia.
Qed.

Lemma write_log_one_run :
  b ∈ P -> Z.of_nat (size P) < NBUF ->
  exists s', write_log_one (Z.of_nat k) s = Ret tt s' /\
    wrote s s' [(slot lg (Z.of_nat k), V b)] lg /\
    view dev s' P ∅ (upd V (slot lg (Z.of_nat k)) (V b)).
Proof.
  intros HbP Hsz. destruct one_facts as (E1 & E2 & E3 & Hne). unfold write_log_one. mstep.
  fold lg. rewrite (la_dev _ _ Harea), E1.
  set (x := slot lg (Z.of_nat k)) in *.
  destruct (view_bread HV x) as (i & B1 & R1 & HV1 & _); [done|right; rewrite map_size_empty; lia|].
  erewrite bind_ret by exact R1. erewrite bind_ret by by apply E2. rewrite E3.
  destruct (view_bread HV1 b) as (j & B2 & R2 & HV2 & D2); [by rewrite lookup_insert_ne|by left|].
  erewrite bind_ret by exact R2. mstep. cbn [bufs with_bufs]. rewrite D2.
  destruct (view_write HV2 x i (V b)) as [R3 HV3]; [rewrite lookup_insert_ne by done; apply lookup_insert_eq|].
  erewrite bind_ret by exact R3.
  destruct (view_brelse HV3 b j) as (B4 & R4 & HV4); [apply lookup_insert_eq|].
  erewrite bind_ret by exact R4.
  destruct (view_brelse HV4 x i) as (B5 & R5 & HV5).
  { rewrite lookup_delete_ne, lookup_insert_ne by done. apply lookup_insert_eq. }
  eexists. split; [exact R5|]. split; [reflexivity|].
  by rewrite (proj1 (delete_two x b i j Hne)) in HV5.
Qed.

(** [p] is the set of pinned blocks after the step. *)
Lemma install_one_run (recovering : bool) :
  (if recovering then Z.of_nat (size P) + 1 < NBUF else b ∈ P /\ Z.of_nat (size P) < NBUF) ->
  exists s', install_one recovering (Z.of_nat k) s = Ret tt s' /\
    wrote s s' [(b, V (slot lg (Z.of_nat k)))] lg /\
    view dev s' (if recovering then P else P ∖ {[b]}) ∅ (upd V b (V (slot lg (Z.of_nat k)))).
Proof.
  intros Hsz. destruct one_facts as (E1 & E2 & E3 & Hne). unfold install_one. mstep.
  fold lg. rewrite (la_dev _ _ Harea), E1.
  set (x := slot lg (Z.of_nat k)) in *.
  destruct (view_bread HV x) as (i & B1 & R1 & HV1 & D1); [done| |].
  { right. rewrite map_size_empty. destruct recovering; lia. }
  erewrite bind_ret by exact R1. erewrite bind_ret by by apply E2. rewrite E3.
  destruct (view_bread HV1 b) as (j & B2 & R2 & HV2 & D2); [by rewrite lookup_insert_ne| |].
  { destruct recovering; [right; rewrite map_size_insert_None, map_size_empty by done; lia|left; tauto]. }
  erewrite bind_ret by exact R2. mstep.
  destruct (view_locked _ _ _ _ _ x i HV2) as (D3 & _ & _); [rewrite lookup_insert_ne by done; apply lookup_insert_eq|].
  rewrite D3.
  destruct (view_write HV2 b j (V x)) as [R3 HV3]; [apply lookup_insert_eq|].
  erewrite bind_ret by exact R3.
  match type of HV3 with view _ ?st _ _ _ => set (s3 := st) in * end.
  assert (exists B4, when (negb recovering) (bunpin j) s3 = Ret tt (with_bufs B4 s3) /\
    view dev (with_bufs B4 s3) (if recovering then P else P ∖ {[b]})
      (<[b := j]> (<[x := i]> ∅)) (upd V b (V x))) as (B4 & R4 & HV4).
  { destruct recovering; simpl.
    - exists (bufs s3). by destruct s3.
    - apply (view_unpin HV3 b j); [apply lookup_insert_eq|tauto|]. simpl. by rewrite !upd_eq. }
  erewrite bind_ret by exact R4.
  destruct (view_brelse HV4 x i) as (B5 & R5 & HV5); [rewrite lookup_insert_ne by done; apply lookup_insert_eq|].
  erewrite bind_ret by exact R5.
  destruct (view_brelse HV5 b j) as (B6 & R6 & HV6); [rewrite lookup_delete_ne by done; apply lookup_insert_eq|].
  eexists. split; [exact R6|]. split; [reflexivity|].
  by rewrite (proj2 (delete_two x b i j Hne)) in HV6.
Qed.
End one.

(** ** The loops *)
Lemma apply_writes_out d w b : b ∉ w.*1 -> apply_writes d w b = d b.
Proof.
  revert d; induction w as [|[x v] w IH]; intros d Hb; [done|]. simpl in *.
  rewrite IH by set_solver. apply upd_ne. set_solver.
Qed.

Lemma log_writes_fst lg V L b : home lg b -> Z.of_nat (length L) <= LOGSIZE -> b ∉ (log_writes lg V L).*1.
Proof.
  intros [_ Hb] HL. unfold log_writes. rewrite fmap_imap, elem_of_lookup_imap.
  intros (i & x & -> & Hi). apply lookup_lt_Some in Hi. simpl in Hb. unfold slot in Hb. lia.
Qed.

Lemma home_writes_fst lg V L : (home_writes lg V L).*1 = L.
Proof.
  unfold home_writes. rewrite fmap_imap. apply list_eq. intros i. rewrite list_lookup_imap. simpl.
  by destruct (L !! i).
Qed.

Lemma slot_not_home lg i : 0 <= i < LOGSIZE -> ~ home lg (slot lg i).
Proof. unfold home, slot. lia. Qed.

Lemma start_not_home lg : ~ home lg (lg_start lg).
Proof. unfold home, LOGSIZE. lia. Qed.

(** A loop whose [k]-th round writes the [k]-th block of [W]. *)
Lemma write_loop dev s V (Pk : nat -> gset Z) (body : Z -> M fsst unit) (W : list (Z * block)) :
  (forall k b v sk, W !! k = Some (b, v) -> log sk = log s ->
    view dev sk (Pk k) ∅ (apply_writes V (take k W)) ->
    exists s', body (Z.of_nat k) sk = Ret tt s' /\ wrote sk s' [(b, v)] (log s) /\
      view dev s' (Pk (S k)) ∅ (upd (apply_writes V (take k W)) b v)) ->
  view dev s (Pk 0%nat) ∅ V ->
  exists s', for_each (seqZ 0 (Z.of_nat (length W))) body s = Ret tt s' /\ wrote s s' W (log s) /\
    view dev s' (Pk (length W)) ∅ (apply_writes V W).
Proof.
  intros Hbody HV.
  destruct (for_each_seq (fun k s' => wrote s s' (take (Z.to_nat k) W) (log s) /\
      view dev s' (Pk (Z.to_nat k)) ∅ (apply_writes V (take (Z.to_nat k) W)))
      body 0 (Z.of_nat (length W)) s) as (s' & E & Hw & Hv).
  - intros k sk Hk [Hw Hv]. destruct (lookup_lt_is_Some_2 W (Z.to_nat k)) as [[b v] Hb]; [lia|].
    destruct (Hbody _ _ _ sk Hb (wrote_log _ _ _ _ Hw) Hv) as (s' & E & Hw' & Hv').
    rewrite Z2Nat.id in E by lia. exists s'. split; [done|].
    replace (Z.to_nat (k + 1)) with (S (Z.to_nat k)) by lia. rewrite (take_S_r _ _ _ Hb).
    split; [by eapply wrote_trans|]. by rewrite apply_writes_app.
  - split; [apply wrote_refl|done].
  - lia.
  - exists s'. split; [exact E|]. rewrite Z.add_0_l, Nat2Z.id in Hw, Hv. by rewrite firstn_all in Hw, Hv.
Qed.

Section loops.
Context (dev : Z) (s : fsst) (L : list Z) (P : gset Z) (V : Z -> block).
Let lg := log s.
Hypothesis Harea : log_area dev lg.
Hypothesis Hlog : logged lg L.

Local Lemma length_ok : Z.of_nat (length L) <= LOGSIZE.
Proof. rewrite <- (lo_n _ _ Hlog). apply Hlog. Qed.

Local Lemma home_of b : b ∈ L -> home lg b.
Proof. intros Hb. destruct Hlog as [_ _ _ Hh]. rewrite Forall_forall in Hh. auto. Qed.

(** Neither loop changes the blocks it reads. *)
Local Lemma apply_log_home k b : b ∈ L -> apply_writes V (take k (log_writes lg V L)) b = V b.
Proof.
  intros Hb. apply apply_writes_out. rewrite fmap_take. intros (i & Hi & _)%elem_of_take.
  apply list_elem_of_lookup_2 in Hi. revert Hi. apply log_writes_fst; [by apply home_of|apply length_ok].
Qed.

Local Lemma apply_home_slot k i :
  0 <= i < LOGSIZE -> apply_writes V (take k (home_writes lg V L)) (slot lg i) = V (slot lg i).
Proof.
  intros Hi. apply apply_writes_out. rewrite fmap_take, home_writes_fst. intros (j & Hj & _)%elem_of_take.
  apply list_elem_of_lookup_2, home_of in Hj. by apply slot_not_home in Hj.
Qed.

Lemma write_log_run :
  view dev s P ∅ V -> (forall b, b ∈ L -> b ∈ P) -> Z.of_nat (size P) < NBUF ->
  exists s', write_log s = Ret tt s' /\ wrote s s' (log_writes lg V L) lg /\
    view dev s' P ∅ (apply_writes V (log_writes lg V L)).
Proof.
  intros HV HP Hsz. unfold write_log. mstep. fold lg. rewrite (lo_n _ _ Hlog).
  replace (length L) with (length (log_writes lg V L)) by apply length_imap.
  apply (write_loop dev s V (fun _ => P)); [|done].
  intros k x v sk Hk El Hv. unfold log_writes in Hk. rewrite list_lookup_imap in Hk.
  destruct (L !! k) as [b|] eqn:Hb; simpl in Hk; [|done]. injection Hk as <- <-.
  assert (HbL : b ∈ L) by by eapply list_elem_of_lookup_2.
  assert (Ha : log_area dev (log sk) /\ logged (log sk) L) by by rewrite El.
  destruct (write_log_one_run dev sk L P _ (proj1 Ha) (proj2 Ha) Hv k b Hb (HP b HbL) Hsz)
    as (s' & E & Hw' & Hv').
  exists s'. rewrite El, (apply_log_home k b HbL) in Hw', Hv'. done.
Qed.

Lemma install_trans_run (recovering : bool) :
  view dev s P ∅ V ->
  (if recovering then Z.of_nat (size P) + 1 < NBUF
   else NoDup L /\ (forall b, b ∈ L -> b ∈ P) /\ Z.of_nat (size P) < NBUF) ->
  exists s', install_trans recovering s = Ret tt s' /\ wrote s s' (home_writes lg V L) lg /\
    view dev s' (if recovering then P else P ∖ list_to_set L) ∅ (apply_writes V (home_writes lg V L)).
Proof.
  intros HV Hsz. unfold install_trans. mstep. fold lg. rewrite (lo_n _ _ Hlog).
  set (Pk k := if recovering then P else P ∖ list_to_set (take k L)).
  replace (length L) with (length (home_writes lg V L)) by apply length_imap.
  replace (if recovering then P else P ∖ list_to_set L) with (Pk (length (home_writes lg V L))).
  2:{ unfold Pk, home_writes. by rewrite length_imap, firstn_all. }
  apply (write_loop dev s V Pk).
  2:{ unfold Pk. destruct recovering; [done|]. simpl. by rewrite difference_empty_L. }
  intros k x v sk Hk El Hv. unfold home_writes in Hk. rewrite list_lookup_imap in Hk.
  destruct (L !! k) as [b|] eqn:Hb; simpl in Hk; [|done]. injection Hk as <- <-.
  assert (Hkl : (k < length L)%nat) by by eapply lookup_lt_Some.
  assert (Ha : log_area dev (log sk) /\ logged (log sk) L) by by rewrite El.
  destruct (install_one_run dev sk L (Pk k) _ (proj1 Ha) (proj2 Ha) Hv k b Hb recovering)
    as (s' & E & Hw' & Hv').
  - unfold Pk. destruct recovering; [done|]. destruct Hsz as (Hnd & HP & Hsz). split.
    + apply elem_of_difference. split; [apply HP; by eapply list_elem_of_lookup_2|].
      rewrite elem_of_list_to_set. intros (j & Hj & Hlt)%elem_of_take.
      pose proof (NoDup_lookup _ _ _ _ Hnd Hj Hb). lia.
    + assert (size (P ∖ list_to_set (take k L)) <= size P)%nat by (apply subseteq_size; set_solver). lia.
  - exists s'. rewrite El, apply_home_slot in Hw', Hv' by (pose proof length_ok; lia).
    split; [done|]. split; [done|].
    replace (Pk (S k)) with (if recovering then Pk k else Pk k ∖ {[b]}); [done|].
    unfold Pk. destruct recovering; [done|]. rewrite (take_S_r _ _ _ Hb), list_to_set_app_L. set_solver.
Qed.

Lemma write_head_run :
  view dev s P ∅ V -> lh_n lg <= LOGSIZE -> Z.of_nat (size P) < NBUF ->
  exists s', write_head s = Ret tt s' /\ wrote s s' (head_write lg V) lg /\
    view dev s' P ∅ (apply_writes V (head_write lg V)).
Proof.
  intros HV Hn Hsz. unfold write_head. mstep. fold lg. destruct Harea as [Hd Hs He]. rewrite Hd.
  rewrite u32_small by (unfold LOGSIZE in He; lia).
  destruct (view_bread HV (lg_start lg)) as (i & B1 & R1 & HV1 & D1); [done|right; rewrite map_size_empty; lia|].
  erewrite bind_ret by exact R1. destruct (Z.ltb_spec LOGSIZE (lh_n lg)); [lia|]. mstep.
  cbn [bufs with_bufs]. rewrite D1.
  destruct (view_write HV1 (lg_start lg) i (put_head lg (V (lg_start lg)))) as [R3 HV3]; [apply lookup_insert_eq|].
  erewrite bind_ret by exact R3.
  destruct (view_brelse HV3 (lg_start lg) i) as (B4 & R4 & HV4); [apply lookup_insert_eq|].
  eexists. split; [exact R4|]. split; [reflexivity|]. by rewrite delete_insert_id in HV4.
Qed.
End loops.

(** ** Recovery *)

(** The header block [data] names the blocks [L]. *)
Record header_is (data : block) (L : list Z) : Prop := {
  hd_n : head_n data = Z.of_nat (length L);
  hd_max : Z.of_nat (length L) <= LOGSIZE;
  hd_block : forall i b, L !! i = Some b -> head_block data (Z.of_nat i) = b
}.

Lemma put_head_empty lg data : lh_n lg = 0 -> put_head lg data = store32 data 0 0.
Proof. intros E. unfold put_head. by rewrite E. Qed.

Lemma head_n_cleared data : head_n (store32 data 0 0) = 0.
Proof. unfold head_n. by rewrite load32_eq. Qed.

(** [lg] with the in-memory header of the block [data]. *)
Definition same_area (lg lg' : logst) : Prop :=
  lg_start lg' = lg_start lg /\ lg_size lg' = lg_size lg /\ lg_outstanding lg' = lg_outstanding lg /\
  lg_committing lg' = lg_committing lg /\ lg_dev lg' = lg_dev lg.

Lemma home_area lg lg' b : same_area lg lg' -> home lg b -> home lg' b.
Proof. unfold home. intros (-> & _). done. Qed.

Lemma log_area_same dev lg lg' : same_area lg lg' -> log_area dev lg -> log_area dev lg'.
Proof. intros (E1 & _ & _ & _ & E2) []. split; congruence || lia. Qed.

Lemma read_head_run dev s P V L :
  log_area dev (log s) -> view dev s P ∅ V -> Z.of_nat (size P) < NBUF ->
  header_is (V (lg_start (log s))) L -> Forall (home (log s)) L ->
  exists s' lg, read_head s = Ret tt s' /\ wrote s s' [] lg /\ same_area (log s) lg /\ logged lg L /\
    view dev s' P ∅ V.
Proof.
  intros [Hd Hs He] HV Hsz [Hn Hm Hb] Hh. unfold read_head. mstep. rewrite Hd, u32_small by lia.
  set (st := lg_start (log s)) in *.
  destruct (view_bread HV st) as (i & B1 & R1 & HV1 & D1); [done|right; rewrite map_size_empty; lia|].
  erewrite bind_ret by exact R1. mstep. cbn [bufs with_bufs]. rewrite D1, Hn.
  set (s1 := set_log _ _).
  destruct (for_each_seq (fun k s' => exists lg, s' = with_log lg s1 /\ same_area (log s) lg /\
      lh_n lg = Z.of_nat (length L) /\ forall j, 0 <= j < k -> lh_block lg j = head_block (V st) j)
    (fun i => if LOGSIZE <=? i then stuck "log.lh.block: index out of bounds"
              else modify (set_log (set_lhb i (head_block (V st) i)))) 0 (Z.of_nat (length L)) s1)
    as (s2 & E2 & lg & -> & Ha & Hnl & Hbl).
  - intros k sk Hk (lg & -> & Ha & Hnl & Hbl). destruct (Z.leb_spec LOGSIZE k); [lia|].
    eexists. split; [reflexivity|]. eexists. split; [reflexivity|]. split; [done|]. split; [done|].
    intros j Hj. simpl. rewrite upd_case. case_decide; [by subst|]. apply Hbl. lia.
  - exists (log s1). split; [by destruct s|]. split; [done|]. split; [done|]. intros j Hj. lia.
  - lia.
  - erewrite bind_ret by exact E2.
    assert (HV2 : view dev (with_log lg s1) P (<[st := i]> ∅) V).
    { apply (view_ext _ (with_bufs B1 s)); [done..| |exact HV1]. apply (view_free _ _ _ _ _ HV1). }
    destruct (view_brelse HV2 st i) as (B3 & R3 & HV3); [apply lookup_insert_eq|].
    exists (with_bufs B3 (with_log lg s1)), lg. split; [exact R3|].
    split; [unfold wrote; simpl; by rewrite app_nil_r|]. split; [done|].
    split; [|by rewrite delete_insert_id in HV3].
    split; [done|lia| |].
    + intros j b Hj. rewrite Hbl; [by apply Hb|]. apply lookup_lt_Some in Hj. lia.
    + eapply Forall_impl; [exact Hh|]. intros b. by apply home_area.
Qed.

(** What recovery writes, given the disk it finds. *)
Definition recovery_writes (lg : logst) (d : Z -> block) (L : list Z) : list (Z * block) :=
  home_writes lg d L ++ [(lg_start lg, store32 (d (lg_start lg)) 0 0)].

Lemma home_writes_area lg lg' V L : lg_start lg' = lg_start lg -> home_writes lg' V L = home_writes lg V L.
Proof. intros E. unfold home_writes, slot. by rewrite E. Qed.

Lemma recover_run dev s d L :
  log_area dev (log s) -> view dev s ∅ ∅ d ->
  header_is (d (lg_start (log s))) L -> Forall (home (log s)) L ->
  exists s' lg, recover_from_log s = Ret tt s' /\ wrote s s' (recovery_writes (log s) d L) lg /\
    same_area (log s) lg /\ lh_n lg = 0 /\
    view dev s' ∅ ∅ (apply_writes d (recovery_writes (log s) d L)).
Proof.
  intros Ha HV Hd Hh. unfold recover_from_log.
  destruct (read_head_run dev s ∅ d L Ha HV) as (s1 & lg & E1 & W1 & Hsa & Hlo & HV1);
    [rewrite size_empty; unfold NBUF; lia|done|done|].
  erewrite bind_ret by exact E1. pose proof (wrote_log _ _ _ _ W1) as El1. 
  pose proof (log_area_same _ _ _ Hsa Ha) as Ha1. pose proof (proj1 Hsa) as Hst.
  destruct (install_trans_run dev s1 L ∅ d) with (recovering := true) as (s2 & E2 & W2 & HV2);
    rewrite ?El1; [done|done|done|rewrite size_empty; unfold NBUF; lia|].
  rewrite El1 in W2, HV2. rewrite (home_writes_area _ _ _ _ Hst) in W2, HV2.
  erewrite bind_ret by exact E2. mstep. set (s3 := set_log _ s2).
  assert (Hl3 : log s3 = set_lhn 0 lg) by (unfold s3; simpl; by rewrite (wrote_log _ _ _ _ W2)).
  set (d2 := apply_writes d (home_writes (log s) d L)) in *.
  destruct (write_head_run dev s3 ∅ d2) as (s4 & E4 & W4 & HV4); rewrite ?Hl3;
    [by destruct Ha1| |done|rewrite size_empty; unfold NBUF; lia|].
  { apply (view_ext _ s2); [done..| |exact HV2]. apply (view_free _ _ _ _ _ HV2). }
  rewrite Hl3 in W4, HV4. unfold head_write in W4, HV4. rewrite put_head_empty in W4, HV4 by done.
  simpl in W4, HV4. rewrite Hst in W4, HV4.
  assert (Ed : d2 (lg_start (log s)) = d (lg_start (log s))).
  { apply apply_writes_out. rewrite home_writes_fst. intros Hin.
    rewrite Forall_forall in Hh. apply Hh in Hin. by apply start_not_home in Hin. }
  rewrite Ed in W4, HV4. exists s4, (set_lhn 0 lg). split; [done|]. split_and!; [|done..|].
  - pose proof (wrote_set_log s2 (set_lhn 0)) as W3. rewrite (wrote_log _ _ _ _ W2) in W3.
    pose proof (wrote_trans _ _ _ _ _ _ _ W2 W3) as W23. rewrite app_nil_r in W23.
    exact (wrote_trans _ _ _ _ _ _ _ (wrote_trans _ _ _ _ _ _ _ W1 W23) W4).
  - unfold recovery_writes. rewrite apply_writes_app. exact HV4.
Qed.

(** ** Boot and commit *)
Definition boot_log (dev : Z) (x : superblock) : logst :=
  mklog (sb_logstart x) (sb_nlog x) 0 0 dev 0 (fun _ => 0).

Definition boot (dev : Z) (x : superblock) : M fsst unit := binit ;; initlog dev x.

Lemma boot_run dev x d pid L :
  dev <> 0 -> log_area dev (boot_log dev x) ->
  header_is (d (sb_logstart x)) L -> Forall (home (boot_log dev x)) L ->
  let W := recovery_writes (boot_log dev x) d L in
  exists s', boot dev x (fs_boot d pid) = Ret tt s' /\ disk s' = apply_writes d W /\ trace s' = W /\
    f_held s' = [] /\ f_pid s' = pid /\ same_area (boot_log dev x) (log s') /\ lh_n (log s') = 0 /\
    view dev s' ∅ ∅ (apply_writes d W).
Proof.
  intros Hdev Ha Hd Hh W. unfold boot. destruct (view_boot dev d pid Hdev) as (B & E & HV).
  erewrite bind_ret by exact E. unfold initlog. change (BSIZE <=? 4 + 4 * LOGSIZE) with false. cbv iota. mstep.
  set (s1 := with_log _ _).
  destruct (recover_run dev s1 d L) as (s' & lg & E' & HW & Hsa & Hn & HV'); [done| |done|done|].
  { apply (view_ext _ (with_bufs B (fs_boot d pid))); [done..| |exact HV].
    apply (view_free _ _ _ _ _ HV). }
  exists s'. split; [exact E'|]. split_and!; [by rewrite HW..|exact HV'].
Qed.

(** A sequence of writes that agree on every block's value. *)
Lemma apply_writes_fun d w f b :
  (forall x v, (x, v) ∈ w -> v = f x) ->
  apply_writes d w b = if decide (b ∈ w.*1) then f b else d b.
Proof.
  revert d; induction w as [|[x v] w IH]; intros d Hw.
  - case_decide as Hd; [by apply elem_of_nil in Hd|done].
  - simpl. rewrite IH by (intros; apply Hw; by right). rewrite upd_case.
    assert (v = f x) as -> by (apply Hw; left).
    repeat case_decide; subst; try done; set_solver.
Qed.

(** The disk writes of commit. *)
Definition commit_writes (lg : logst) (V : Z -> block) (L : list Z) : list (Z * block) :=
  let H1 := put_head lg (V (lg_start lg)) in
  log_writes lg V L ++ [(lg_start lg, H1)] ++ ((fun b => (b, V b)) <$> L) ++ [(lg_start lg, store32 H1 0 0)].

(** The state commit is called in: the blocks of [L] are pinned, nobody uses any
    other buffer, and the header on the disk is clear. *)
Record commit_ready (dev : Z) (s : fsst) (L : list Z) (V : Z -> block) : Prop := {
  cr_area : log_area dev (log s);
  cr_logged : logged (log s) L;
  cr_nodup : NoDup L;
  cr_view : view dev s (list_to_set L) ∅ V;
  cr_clear : head_n (disk s (lg_start (log s))) = 0
}.

Section commit.
Context (dev : Z) (s : fsst) (L : list Z) (V : Z -> block).
Let lg := log s.
Hypothesis Hr : commit_ready dev s L V.

Local Lemma cr_home b : b ∈ L -> home lg b.
Proof. intros Hb. destruct (cr_logged _ _ _ _ Hr) as [_ _ _ Hh]. rewrite Forall_forall in Hh. auto. Qed.

Local Lemma cr_length : Z.of_nat (length L) <= LOGSIZE.
Proof. destruct (cr_logged _ _ _ _ Hr) as [<- Hm _ _]. done. Qed.

(** The log area holds the new contents once write_log is done. *)
Lemma apply_log_slot d i b :
  L !! i = Some b -> apply_writes d (log_writes lg V L) (slot lg (Z.of_nat i)) = V b.
Proof.
  intros Hi. rewrite (apply_writes_fun _ _ (fun x => V (default 0 (L !! Z.to_nat (x - lg_start lg - 1))))).
  - rewrite decide_True.
    + unfold slot. replace (Z.to_nat _) with i by lia. by rewrite Hi.
    + unfold log_writes. rewrite fmap_imap, elem_of_lookup_imap. eauto.
  - intros x v (j & y & Ey & Hj)%elem_of_lookup_imap. injection Ey as -> ->.
    unfold slot. replace (Z.to_nat _) with j by lia. by rewrite Hj.
Qed.

Lemma apply_log_other d b :
  b = lg_start lg \/ home lg b -> apply_writes d (log_writes lg V L) b = d b.
Proof.
  intros Hb. apply apply_writes_out. destruct Hb as [->|Hb].
  - unfold log_writes. rewrite fmap_imap, elem_of_lookup_imap. intros (i & x & E & _).
    simpl in E. unfold slot in E. lia.
  - apply log_writes_fst; [done|apply cr_length].
Qed.

(** Installing from a log area that holds the new contents. *)
Lemma home_writes_new V' :
  (forall i b, L !! i = Some b -> V' (slot lg (Z.of_nat i)) = V b) ->
  home_writes lg V' L = (fun b => (b, V b)) <$> L.
Proof.
  intros HV'. apply list_eq. intros i. unfold home_writes. rewrite list_lookup_imap, list_lookup_fmap.
  destruct (L !! i) as [b|] eqn:E; simpl; [by rewrite (HV' _ _ E)|done].
Qed.

Lemma commit_run :
  L <> [] -> Z.of_nat (length L) < NBUF ->
  exists s', commit s = Ret tt s' /\ wrote s s' (commit_writes lg V L) (set_lhn 0 lg) /\
    view dev s' ∅ ∅ (apply_writes V (commit_writes lg V L)).
Proof.
  intros Hne Hfit. pose proof Hr as [Ha Hlo Hnd HV Hcl]. fold lg in Ha, Hlo.
  assert (Hsz : Z.of_nat (size (list_to_set L : gset Z)) < NBUF) by (rewrite size_list_to_set by done; lia).
  unfold commit. mstep. fold lg. rewrite (lo_n _ _ Hlo).
  destruct (Z.ltb_spec 0 (Z.of_nat (length L))); [|destruct L; [done|simpl in *; lia]]. cbn [when].
  destruct (write_log_run dev s L (list_to_set L) V) as (s1 & E1 & W1 & HV1); [done..|set_solver|done|].
  erewrite bind_ret by exact E1. fold lg in W1, HV1. pose proof (wrote_log _ _ _ _ W1) as El1.
  set (V1 := apply_writes V (log_writes lg V L)) in *.
  destruct (write_head_run dev s1 (list_to_set L) V1) as (s2 & E2 & W2 & HV2); rewrite ?El1; [done|done|apply Hlo|done|].
  erewrite bind_ret by exact E2. rewrite El1 in W2, HV2. pose proof (wrote_log _ _ _ _ W2) as El2.
  set (V2 := apply_writes V1 (head_write lg V1)) in *.
  destruct (install_trans_run dev s2 L (list_to_set L) V2) with (recovering := false) as (s3 & E3 & W3 & HV3);
    rewrite ?El2; [done|done|done|set_solver|].
  erewrite bind_ret by exact E3. rewrite El2 in W3, HV3. mstep.
  pose proof (wrote_set_log s3 (set_lhn 0)) as W3'. rewrite (wrote_log _ _ _ _ W3) in W3'.
  pose proof (wrote_trans _ _ _ _ _ _ _ W3 W3') as W4. rewrite app_nil_r in W4.
  pose proof (wrote_log _ _ _ _ W4) as El4. set (s4 := set_log _ s3) in *.
  replace (list_to_set L ∖ list_to_set L) with (∅ : gset Z) in HV3 by set_solver.
  set (V3 := apply_writes V2 (home_writes lg V2 L)) in *.
  destruct (write_head_run dev s4 ∅ V3) as (s5 & E5 & W5 & HV5); rewrite ?El4;
    [by destruct Ha| |done|rewrite size_empty; unfold NBUF; lia|].
  { apply (view_ext _ s3); [done..| |exact HV3]. apply (view_free _ _ _ _ _ HV3). }
  rewrite El4 in W5, HV5. exists s5. split; [exact E5|].
  pose proof (wrote_trans _ _ _ _ _ _ _ W1 (wrote_trans _ _ _ _ _ _ _ W2 (wrote_trans _ _ _ _ _ _ _ W4 W5))) as HW.
  assert (EW : log_writes lg V L ++ head_write lg V1 ++ home_writes lg V2 L ++ head_write (set_lhn 0 lg) V3 =
    commit_writes lg V L).
  { unfold commit_writes, head_write. f_equal. rewrite (put_head_empty (set_lhn 0 lg)) by done. simpl.
    unfold V1 at 1. rewrite apply_log_other by by left. f_equal.
    rewrite (home_writes_new V2).
    - f_equal. do 2 f_equal. unfold V3. rewrite apply_writes_out.
      + unfold V2, V1. simpl. by rewrite upd_eq, apply_log_other by by left.
      + rewrite home_writes_fst. intros Hin%cr_home. by apply start_not_home in Hin.
    - intros i b Hi. unfold V2. simpl. rewrite upd_ne by (unfold slot; lia). by apply apply_log_slot. }
  rewrite <- EW. split; [exact HW|]. rewrite !apply_writes_app. exact HV5.
Qed.
End commit.

(** ** Crashes *)

(** Recovery of disk [d] puts [f] in the home blocks. *)
Definition recovers_to (lg : logst) (d f : Z -> block) : Prop :=
  exists L, header_is (d (lg_start lg)) L /\ Forall (home lg) L /\
    forall b, home lg b -> apply_writes d (home_writes lg d L) b = f b.

Lemma apply_writes_same d d' w b : b ∈ w.*1 \/ d b = d' b -> apply_writes d w b = apply_writes d' w b.
Proof.
  revert d d'; induction w as [|[x v] w IH]; intros d d' Hb; simpl in *.
  - destruct Hb as [?%elem_of_nil|?]; done.
  - apply IH. rewrite !upd_case. case_decide; [by right|]. set_solver.
Qed.

Lemma recovers_clear lg d f :
  head_n (d (lg_start lg)) = 0 -> (forall b, home lg b -> d b = f b) -> recovers_to lg d f.
Proof.
  intros Hn Hf. exists []. split; [|done]. split; simpl; [done|unfold LOGSIZE; lia|done].
Qed.

Lemma boot_recovers dev x d pid f :
  dev <> 0 -> log_area dev (boot_log dev x) -> recovers_to (boot_log dev x) d f ->
  exists s', boot dev x (fs_boot d pid) = Ret tt s' /\ view dev s' ∅ ∅ (disk s') /\
    log_area dev (log s') /\ logged (log s') [] /\ head_n (disk s' (lg_start (log s'))) = 0 /\
    (forall b, home (boot_log dev x) b -> disk s' b = f b) /\
    (forall j, recovers_to (boot_log dev x) (apply_writes d (take j (trace s'))) f).
Proof.
  intros Hdev Ha (L & Hd & Hh & Hf).
  destruct (boot_run dev x d pid L Hdev Ha Hd Hh) as (s' & E & Ed & Et & _ & _ & Hsa & Hn & HV).
  set (lg := boot_log dev x) in *. rewrite <- Ed in HV.
  assert (Hst : forall w, w `prefix_of` home_writes lg d L -> apply_writes d w (lg_start lg) = d (lg_start lg)).
  { intros w Hw. apply apply_writes_out. intros Hin. rewrite Forall_forall in Hh.
    apply (start_not_home lg), Hh. rewrite <- (home_writes_fst lg d L). destruct Hw as [w' ->].
    rewrite fmap_app. set_solver. }
  assert (Hsl : forall w i, w `prefix_of` home_writes lg d L -> 0 <= i < LOGSIZE ->
      apply_writes d w (slot lg i) = d (slot lg i)).
  { intros w i Hw Hi. apply apply_writes_out. intros Hin. rewrite Forall_forall in Hh.
    apply (slot_not_home lg i Hi), Hh. rewrite <- (home_writes_fst lg d L). destruct Hw as [w' ->].
    rewrite fmap_app. set_solver. }
  assert (Hhome : forall b v, home lg b -> upd (apply_writes d (home_writes lg d L)) (lg_start lg) v b = f b).
  { intros b v Hb. rewrite upd_ne; [by apply Hf|]. intros ->. by apply start_not_home in Hb. }
  exists s'. split; [done|]. split; [done|]. split; [by eapply log_area_same|].
  split; [split; rewrite ?Hn; simpl; [done|unfold LOGSIZE; lia|done|constructor]|].
  split; [|split].
  - rewrite (proj1 Hsa), Ed. unfold recovery_writes. rewrite apply_writes_app. simpl.
    rewrite upd_eq. apply head_n_cleared.
  - intros b Hb. rewrite Ed. unfold recovery_writes. rewrite apply_writes_app. by apply Hhome.
  - intros j. rewrite Et. unfold recovery_writes. rewrite take_app.
    destruct (j - length (home_writes lg d L))%nat as [|m] eqn:Ej.
    + rewrite app_nil_r. set (w := take j _). assert (Hp : w `prefix_of` home_writes lg d L) by apply prefix_take.
      exists L. rewrite Hst by done. split; [done|]. split; [done|]. intros b Hb.
      replace (home_writes lg (apply_writes d w) L) with (home_writes lg d L).
      * rewrite <- Hf by done. apply apply_writes_same. rewrite home_writes_fst.
        destruct (decide (b ∈ L)) as [?|Hn']; [by left|right]. apply apply_writes_out.
        intros Hin. apply Hn'. rewrite <- (home_writes_fst lg d L). destruct Hp as [w' ->].
        rewrite fmap_app. set_solver.
      * apply list_eq. intros i. unfold home_writes at 1 2. rewrite !list_lookup_imap.
        destruct (L !! i) as [b'|] eqn:Ei; [|done]. simpl. rewrite Hsl; [done|done|].
        apply lookup_lt_Some in Ei. destruct Hd. lia.
    + rewrite take_ge by lia. replace (take (S m) _) with [(lg_start lg, store32 (d (lg_start lg)) 0 0)]
        by (destruct m; done).
      rewrite apply_writes_app. simpl. apply recovers_clear; [rewrite upd_eq; apply head_n_cleared|].
      intros b Hb. by apply Hhome.
Qed.

(** Boots interrupted by a crash at any point of recovery, any number of times. *)
Inductive interrupted (dev : Z) (x : superblock) (pid : Z) (d : Z -> block) : (Z -> block) -> Prop :=
| int_here : interrupted dev x pid d d
| int_crash d1 s' j :
    interrupted dev x pid d d1 -> boot dev x (fs_boot d1 pid) = Ret tt s' ->
    interrupted dev x pid d (apply_writes d1 (take j (trace s'))).

Lemma interrupted_recovers dev x pid d d' f :
  dev <> 0 -> log_area dev (boot_log dev x) ->
  recovers_to (boot_log dev x) d f -> interrupted dev x pid d d' -> recovers_to (boot_log dev x) d' f.
Proof.
  intros Hdev Ha Hr HI. induction HI as [|d1 s' j _ IH E]; [done|].
  destruct (boot_recovers dev x d1 pid f Hdev Ha IH) as (s2 & E2 & _ & _ & _ & _ & _ & Hj).
  rewrite E in E2. by injection E2 as ->.
Qed.

(** The disk after any prefix of commit's writes. *)
Section prefix.
Context (dev : Z) (s : fsst) (L : list Z) (V : Z -> block).
Let lg := log s.
Hypothesis Hr : commit_ready dev s L V.
Let H1 := put_head lg (V (lg_start lg)).
Let LW := log_writes lg V L.
Let IW := (fun b => (b, V b)) <$> L.

(** Before the header is written, nothing the old state depends on changes. *)
Lemma prefix_old k : (k <= length L)%nat -> recovers_to lg (apply_writes (disk s) (take k LW)) (disk s).
Proof.
  intros Hk.
  assert (Ho : forall b, b = lg_start lg \/ home lg b -> apply_writes (disk s) (take k LW) b = disk s b).
  { intros b Hb. apply apply_writes_out. rewrite fmap_take. intros (i & Hi & _)%elem_of_take.
    apply list_elem_of_lookup_2 in Hi. unfold LW, log_writes in Hi.
    rewrite fmap_imap, elem_of_lookup_imap in Hi. destruct Hi as (j & x & E & Hj). simpl in E.
    apply lookup_lt_Some in Hj. pose proof (cr_length dev s L V Hr). fold lg in E.
    destruct Hb as [->|Hb]; [unfold slot in E; lia|]. rewrite E in Hb.
    eapply slot_not_home; [|exact Hb]. lia. }
  apply recovers_clear; [|auto]. rewrite Ho by by left. apply Hr.
Qed.

(** The blocks installed so far, and the others, once the log area is written. *)
Local Lemma install_home d w b :
  w `prefix_of` IW -> home lg b -> (b ∉ w.*1 -> d b = V b) -> apply_writes d w b = V b.
Proof.
  intros [w' Ew] Hb Hd. rewrite (apply_writes_fun _ _ V).
  - case_decide; auto.
  - intros y v Hin. assert (Hin' : (y, v) ∈ IW) by (rewrite Ew; set_solver).
    apply list_elem_of_fmap in Hin' as (z & Ez & _). congruence.
Qed.

Local Lemma install_out d w b : w `prefix_of` IW -> ~ home lg b -> apply_writes d w b = d b.
Proof.
  intros [w' Ew] Hb. apply apply_writes_out. intros Hin. apply Hb, (cr_home dev s L V Hr).
  assert (Hin' : b ∈ IW.*1) by (rewrite Ew, fmap_app; set_solver).
  apply list_elem_of_fmap in Hin' as ([y v] & -> & Hy). by apply list_elem_of_fmap in Hy as (z & [= -> ->] & Hz).
Qed.

Local Lemma IW_fst : IW.*1 = L.
Proof. unfold IW. rewrite <- list_fmap_compose. apply list_fmap_id. Qed.

Local Lemma d0_home b : home lg b -> b ∉ L -> disk s b = V b.
Proof.
  intros _ Hn. symmetry. apply (view_unpinned _ _ _ _ _ b (cr_view _ _ _ _ Hr)).
  by rewrite elem_of_list_to_set.
Qed.

(** Once the header is written, recovery finishes the installation. *)
Lemma prefix_new w :
  w `prefix_of` IW -> recovers_to lg (apply_writes (disk s) (LW ++ (lg_start lg, H1) :: w)) V.
Proof.
  intros Hw. rewrite apply_writes_app. simpl.
  set (d1 := upd (apply_writes (disk s) LW) (lg_start lg) H1).
  assert (Hh1 : header_is H1 L).
  { pose proof (cr_logged _ _ _ _ Hr) as Hlo. destruct (head_roundtrip lg L (V (lg_start lg)) Hlo) as [E1 E2].
    destruct Hlo as [Hn Hm Hb Hh]. fold lg in Hn, Hm, Hb. split; [by rewrite <- Hn|lia|].
    intros i b Hi. unfold H1. rewrite E2; [by apply Hb|]. apply lookup_lt_Some in Hi. lia. }
  assert (Hhome : Forall (home lg) L) by (apply Forall_forall; apply (cr_home dev s L V Hr)).
  exists L. split; [|split; [done|]].
  - rewrite install_out by (done || apply start_not_home). unfold d1. by rewrite upd_eq.
  - intros b Hb. rewrite (home_writes_new s L V).
    + apply (install_home _ IW); [done|done|]. rewrite IW_fst. intros Hn.
      apply install_home; [done|done|]. intros _. unfold d1.
      rewrite upd_ne by (intros ->; by apply start_not_home in Hb).
      rewrite (apply_log_other dev s L V Hr) by by right. by apply d0_home.
    + intros i x Hi. apply lookup_lt_Some in Hi as Hlt. pose proof (cr_length dev s L V Hr).
      rewrite install_out by (done || (apply slot_not_home; lia)). unfold d1.
      rewrite upd_ne by (unfold slot, lg; lia). by apply apply_log_slot.
Qed.

(** After the header is cleared. *)
Lemma prefix_done : recovers_to lg (apply_writes (disk s) (commit_writes lg V L)) V.
Proof.
  unfold commit_writes. fold LW H1 IW. simpl. rewrite apply_writes_app. simpl. rewrite apply_writes_app. simpl.
  apply recovers_clear; [rewrite upd_eq; apply head_n_cleared|]. intros b Hb.
  rewrite upd_ne by (intros ->; by apply start_not_home in Hb).
  apply (install_home _ IW); [done|done|]. rewrite IW_fst. intros Hn.
  rewrite upd_ne by (intros ->; by apply start_not_home in Hb).
  rewrite (apply_log_other dev s L V Hr) by by right. by apply d0_home.
Qed.

Lemma commit_prefix k :
  recovers_to lg (apply_writes (disk s) (take k (commit_writes lg V L)))
    (if decide (k <= length L)%nat then disk s else V).
Proof.
  assert (HLW : length LW = length L) by apply length_imap.
  assert (HIW : length IW = length L) by apply length_fmap.
  case_decide as Hk.
  - unfold commit_writes. fold LW. rewrite take_app_le by lia. by apply prefix_old.
  - destruct (decide (k <= 2 * length L + 1)%nat) as [Hk2|Hk2].
    + unfold commit_writes. fold LW H1 IW. rewrite take_app, take_ge by lia. rewrite HLW.
      replace (k - length L)%nat with (S (k - length L - 1)) by lia. cbn [app take].
      rewrite take_app_le by lia. apply prefix_new. apply prefix_take.
    + rewrite take_ge; [apply prefix_done|]. unfold commit_writes. fold LW H1 IW.
      rewrite length_app. cbn [length app]. rewrite length_app. cbn [length]. unfold block in *. lia.
Qed.
End prefix.

Lemma commit_final dev s L V d :
  commit_ready dev s L V ->
  (forall b, home (log s) b -> (b ∉ L -> d b = V b) ->
     apply_writes d (commit_writes (log s) V L) b = V b) /\
  head_n (apply_writes d (commit_writes (log s) V L) (lg_start (log s))) = 0.
Proof.
  intros Hr. unfold commit_writes. rewrite !apply_writes_app. simpl.
  split; [|rewrite upd_eq; apply head_n_cleared]. intros b Hb Hd.
  rewrite upd_ne by (intros ->; by apply start_not_home in Hb).
  apply (install_home dev s L V Hr); [done|done|]. rewrite IW_fst. intros Hn.
  rewrite upd_ne by (intros ->; by apply start_not_home in Hb).
  rewrite (apply_log_other dev s L V Hr) by by right. auto.
Qed.

Lemma commit_spec dev s L V :
  commit_ready dev s L V -> Z.of_nat (length L) < NBUF ->
  exists s', commit s = Ret tt s' /\
    wrote s s' (if decide (L = []) then [] else commit_writes (log s) V L) (set_lhn 0 (log s)) /\
    (forall b, home (log s) b -> disk s' b = V b) /\
    commit_ready dev s' [] (disk s').
Proof.
  intros Hr Hfit. case_decide as Hne.
  - exists s. pose proof Hr as [Ha [Hn Hm _ _] Hnd HV Hc]. subst L. simpl in Hn.
    split; [|split; [|split]].
    + unfold commit. mstep. by rewrite Hn.
    + replace (set_lhn 0 (log s)) with (log s) by (destruct (log s); simpl in *; by subst). apply wrote_refl.
    + intros b _. symmetry. eapply view_unpinned; [exact HV|set_solver].
    + split; [done|split; done|done| |done]. eapply view_fun; [|exact HV].
      intros b. eapply view_unpinned; [exact HV|set_solver].
  - destruct (commit_run dev s L V Hr Hne Hfit) as (s' & E & W & HV).
    exists s'. split; [done|]. split; [done|].
    assert (Ed : disk s' = apply_writes (disk s) (commit_writes (log s) V L)) by by rewrite W.
    pose proof (wrote_log _ _ _ _ W) as El.
    destruct (commit_final dev s L V (disk s) Hr) as [Hh Hc].
    split; [intros b Hb; rewrite Ed; apply Hh; [done|]; intros; by eapply d0_home|].
    destruct (cr_area _ _ _ _ Hr), (cr_logged _ _ _ _ Hr).
    split; [by rewrite El|rewrite El|constructor| |rewrite El, Ed; exact Hc].
    + split; simpl; [done|unfold LOGSIZE; lia|done|constructor].
    + eapply view_fun; [|exact HV]. intros b. by eapply view_unpinned.
Qed.

(** C2: commit writes the logged blocks to the log area, the header, the
    blocks in their home locations and the cleared header, in this order, and
    nothing when no block is logged; after it every home block is on the disk as
    the transaction left it, and no block is pinned. *)
Theorem commit_correct dev s L V :
  commit_ready dev s L V -> Z.of_nat (length L) < NBUF ->
  exists s', commit s = Ret tt s' /\
    trace s' = trace s ++ (if decide (L = []) then [] else commit_writes (log s) V L) /\
    (forall b, home (log s) b -> disk s' b = V b) /\
    commit_ready dev s' [] (disk s').
Proof.
  intros Hr Hfit. destruct (commit_spec dev s L V Hr Hfit) as (s' & E & W & Hh & Hr').
  exists s'. split; [done|]. split; [by rewrite W|done].
Qed.


(** C32: the reservation of begin_op lets a transaction reach LOGSIZE
    blocks, but LOGSIZE pinned buffers are all NBUF buffers of the cache: commit
    of a full transaction cannot read the log area and panics. *)
Theorem commit_full_panics dev s L V :
  commit_ready dev s L V -> lh_n (log s) = LOGSIZE -> commit s = Panic "bget: no buffers".
Proof.
  intros Hr Hn. pose proof Hr as [[Hd Hs Hend] Hlo Hnd HV _].
  unfold commit. mstep. rewrite Hn. cbn [when Z.ltb Z.compare LOGSIZE].
  apply bind_panicked. unfold write_log. mstep. rewrite Hn. rewrite seqZ_cons by (unfold LOGSIZE; lia).
  cbn [for_each]. apply bind_panicked. unfold write_log_one. mstep.
  apply bind_panicked. rewrite Hd. destruct HV as (l & C & [Hbr Hdom Hent Hdisk]).
  assert (HC : forall b, is_Some (C !! b) <-> b ∈ L).
  { intros b. rewrite Hdom, elem_of_list_to_set, lookup_empty. split; [intros [?|[]]; done|by left]. }
  eapply (bread_full _ _ _ l C Hbr).
  - rewrite u32_small by (unfold LOGSIZE in *; lia). apply eq_None_not_Some. rewrite HC.
    intros Hin%(cr_home dev s L V Hr). revert Hin. apply (slot_not_home _ 0). unfold LOGSIZE. lia.
  - intros i Hi E. pose proof (br_cache _ _ _ _ Hbr) as Hca.
    pose (ixs := (fun b => default 0 (c_ix <$> C !! b)) <$> L).
    assert (Hix : forall b, b ∈ L -> exists e, C !! b = Some e /\ is_cent dev (c_ix e) (bufs s (c_ix e)) b e).
    { intros b [e He]%HC. exists e. split; [done|]. by apply (cache_lookup Hca). }
    assert (Hsub : i :: ixs ⊆+ seqZ 0 NBUF).
    { apply NoDup_submseteq.
      - constructor.
        + intros (b & -> & Hb)%list_elem_of_fmap. destruct (Hix b Hb) as (e & He & []). rewrite He in E. simpl in E. lia.
        + apply NoDup_fmap_2_strong; [|done]. intros b b' Hb Hb'.
          destruct (Hix b Hb) as (e & He & Hc), (Hix b' Hb') as (e' & He' & Hc'). rewrite He, He'. simpl.
          intros Ei. by eapply (cache_ix_inj Hca).
      - intros j [->|(b & -> & Hb)%list_elem_of_fmap]%elem_of_cons; apply elem_of_seqZ.
        + unfold in_cache in Hi. lia.
        + destruct (Hix b Hb) as (e & He & []). rewrite He. simpl. unfold in_cache in *. lia. }
    apply submseteq_length in Hsub. rewrite length_seqZ in Hsub. simpl in Hsub. unfold ixs in Hsub.
    rewrite length_fmap in Hsub. pose proof (lo_n _ _ Hlo). unfold LOGSIZE, NBUF in *. lia.
Qed.
