(* ===== verification/Txn.v ===== *)
(** File system transactions: kernel/log.c between begin_op and end_op.

    [tx dev s L H V]: a transaction is open; it has logged the blocks [L], the
    process has the blocks of [H] locked, and through the cache the disk reads as
    [V].  Reading, logging and releasing a block are steps on [V]; the file system
    is verified against these.  Several processes share one transaction: the last
    part interleaves their operations and shows that the space begin_op reserves
    is enough. *)

From S2P Require Import Prelude Mem Riscv Held Sleeplock FsState Bio View Log.

Record tx (dev : Z) (s : fsst) (L : list Z) (H : gmap Z Z) (V : Z -> block) : Prop := {
  tx_area : log_area dev (log s);
  tx_logged : logged (log s) L;
  tx_nodup : NoDup L;
  tx_view : view dev s (list_to_set L) H V;
  tx_clear : head_n (disk s (lg_start (log s))) = 0;
  tx_held : LLog ∉ f_held s;
  tx_open : 1 <= lg_outstanding (log s);
  tx_idle : lg_committing (log s) = 0
}.

(** Only the cache and the in-memory header differ. *)
Definition tframe (s s' : fsst) : Prop :=
  exists B lg, s' = with_log lg (with_bufs B s) /\ same_area (log s) lg.

Lemma same_area_refl lg : same_area lg lg.
Proof. done. Qed.
Lemma same_area_trans lg1 lg2 lg3 : same_area lg1 lg2 -> same_area lg2 lg3 -> same_area lg1 lg3.
Proof. unfold same_area. intuition congruence. Qed.

Lemma tframe_refl s : tframe s s.
Proof. exists (bufs s), (log s). by destruct s. Qed.
Lemma tframe_bufs s B : tframe s (with_bufs B s).
Proof. exists B, (log s). by destruct s. Qed.
Lemma tframe_trans s1 s2 s3 : tframe s1 s2 -> tframe s2 s3 -> tframe s1 s3.
Proof.
  intros (B & lg & -> & Ha) (B' & lg' & -> & Ha'). exists B', lg'. split; [done|].
  by eapply same_area_trans.
Qed.

#[export] Hint Resolve tframe_refl tframe_bufs : core.

(** ** The steps of a transaction *)
Section steps.
Context {dev : Z} {s : fsst} {L : list Z} {H : gmap Z Z} {V : Z -> block}.
Hypothesis Ht : tx dev s L H V.

Lemma tx_bufs B H' : view dev (with_bufs B s) (list_to_set L) H' V -> tx dev (with_bufs B s) L H' V.
Proof. intros. by destruct Ht. Qed.

Lemma tx_bread b :
  H !! b = None -> b ∈ L \/ Z.of_nat (length L) + Z.of_nat (size H) < NBUF ->
  exists i B', bread dev b s = Ret i (with_bufs B' s) /\
    tx dev (with_bufs B' s) L (<[b := i]> H) V /\ b_data (B' i) = V b.
Proof.
  intros HnH Hroom. destruct (view_bread (tx_view _ _ _ _ _ Ht) b HnH) as (i & B' & E & HV & Hd).
  - rewrite elem_of_list_to_set, size_list_to_set by apply Ht. done.
  - exists i, B'. split; [done|]. split; [|done]. by apply tx_bufs.
Qed.

Lemma tx_brelse b i :
  H !! b = Some i ->
  exists B', brelse i s = Ret tt (with_bufs B' s) /\ tx dev (with_bufs B' s) L (delete b H) V.
Proof.
  intros Hi. destruct (view_brelse (tx_view _ _ _ _ _ Ht) b i Hi) as (B' & E & HV).
  exists B'. split; [done|]. by apply tx_bufs.
Qed.

Lemma tx_locked b i : H !! b = Some i -> b_data (bufs s i) = V b /\ b_blockno (bufs s i) = b.
Proof. intros Hi. destruct (view_locked _ _ _ _ _ _ _ (tx_view _ _ _ _ _ Ht) Hi) as (? & ? & _). done. Qed.
End steps.

(** log_find stops at the first match. *)
Lemma log_find_spec fuel lg b i :
  let r := log_find fuel lg b i in
  i <= r <= i + Z.of_nat fuel /\ (forall j, i <= j < r -> u32 (lh_block lg j) <> b) /\
  (r < i + Z.of_nat fuel -> u32 (lh_block lg r) = b).
Proof.
  revert i; induction fuel as [|fuel IH]; intros i; cbn [log_find].
  - split; [lia|]. split; [lia|]. lia.
  - destruct (Z.eqb_spec (u32 (lh_block lg i)) b) as [E|E].
    + split; [lia|]. split; [lia|done].
    + destruct (IH (i + 1)) as (H1 & H2 & H3). split; [lia|]. split; [|intros; apply H3; lia].
      intros j Hj. destruct (decide (j = i)) as [->|]; [done|]. apply H2. lia.
Qed.

Lemma logged_u32 lg L j b : logged lg L -> L !! j = Some b -> u32 (lh_block lg (Z.of_nat j)) = b.
Proof.
  intros [_ _ Hb Hh] Hj. rewrite (Hb _ _ Hj). rewrite Forall_forall in Hh.
  destruct (Hh b); [by eapply list_elem_of_lookup_2|]. apply u32_small. lia.
Qed.

Lemma log_find_in lg L b :
  logged lg L -> b ∈ L ->
  exists r, log_find (length L) lg b 0 = Z.of_nat r /\ L !! r = Some b.
Proof.
  intros Hl [k Hk]%list_elem_of_lookup. destruct (log_find_spec (length L) lg b 0) as (H1 & H2 & H3).
  set (r := log_find _ _ _ _) in *. apply lookup_lt_Some in Hk as Hlt.
  assert (Hr : r <= Z.of_nat k).
  { destruct (Z.le_gt_cases r (Z.of_nat k)); [done|]. exfalso. apply (H2 (Z.of_nat k)); [lia|].
    by eapply logged_u32. }
  exists (Z.to_nat r). split; [lia|].
  destruct (lookup_lt_is_Some_2 L (Z.to_nat r)) as [b' Hb']; [lia|]. rewrite Hb'. f_equal.
  rewrite <- (logged_u32 lg L _ _ Hl Hb'), Z2Nat.id by lia. apply H3. lia.
Qed.

Lemma log_find_out lg L b : logged lg L -> b ∉ L -> log_find (length L) lg b 0 = Z.of_nat (length L).
Proof.
  intros Hl Hn. destruct (log_find_spec (length L) lg b 0) as (H1 & H2 & H3).
  set (r := log_find _ _ _ _) in *. destruct (Z.lt_ge_cases r (Z.of_nat (length L))) as [Hlt|]; [|lia].
  exfalso. apply Hn. destruct (lookup_lt_is_Some_2 L (Z.to_nat r)) as [b' Hb']; [lia|].
  assert (b' = b) as <-; [|by eapply list_elem_of_lookup_2].
  rewrite <- (logged_u32 lg L _ _ Hl Hb'), Z2Nat.id by lia. apply H3. lia.
Qed.

Definition add_block (b : Z) (L : list Z) : list Z := if decide (b ∈ L) then L else L ++ [b].

Lemma add_block_length b L : (length (add_block b L) <= S (length L))%nat.
Proof. unfold add_block. case_decide; [lia|]. rewrite length_app. simpl. lia. Qed.
Lemma add_block_in b b' L : b' ∈ add_block b L <-> b' = b \/ b' ∈ L.
Proof. unfold add_block. case_decide; set_solver. Qed.

Lemma logged_upd_same lg L r b :
  logged lg L -> L !! r = Some b -> logged (set_lhb (Z.of_nat r) b lg) L.
Proof.
  intros [Hn Hm Hb Hh] Hr. split; [done|done| |done]. intros i b' Hi. simpl. rewrite upd_case.
  case_decide as E; [|by apply Hb]. apply Nat2Z.inj in E. congruence.
Qed.

Lemma logged_add lg L b :
  logged lg L -> lh_n lg < LOGSIZE -> home lg b ->
  logged (set_lhn (lh_n lg + 1) (set_lhb (lh_n lg) b lg)) (L ++ [b]).
Proof.
  intros [Hn Hm Hb Hh] Hlt Hhb. split; simpl.
  - rewrite length_app. simpl. lia.
  - lia.
  - intros i b' Hi. rewrite upd_case. apply lookup_snoc_Some in Hi as [[Hi Hi']|[-> ->]].
    + rewrite decide_False by lia. by apply Hb.
    + by rewrite decide_True by done.
  - apply Forall_app. split; [done|]. by constructor.
Qed.

(** The block [b], locked in buffer [i], gets the contents [v] in the transaction. *)
Lemma tx_write {dev s L H V} b i v :
  tx dev s L H V -> H !! b = Some i -> home (log s) b ->
  lh_n (log s) < LOGSIZE -> lh_n (log s) < lg_size (log s) - 1 ->
  exists s', (modify (set_buf i (set_data v)) ;; log_write i) s = Ret tt s' /\
    tx dev s' (add_block b L) H (upd V b v) /\ tframe s s'.
Proof.
  intros Ht Hi Hhome H1 H2. pose proof Ht as [Ha Hlo Hnd HV Hcl Hh Ho Hc].
  destruct (view_locked _ _ _ _ _ _ _ HV Hi) as (_ & Hbn & Hix).
  destruct (view_free _ _ _ _ _ HV) as [Hf1 Hf2].
  mstep. set (s1 := set_buf i (set_data v) s). unfold log_write.
  erewrite bind_ret by (by apply acquire_run). mstep. simpl.
  replace ((LOGSIZE <=? lh_n (log s)) || (lg_size (log s) - 1 <=? lh_n (log s))) with false by lia.
  destruct (Z.ltb_spec (lg_outstanding (log s)) 1); [lia|]. mstep. simpl. rewrite upd_eq. simpl. rewrite Hbn.
  rewrite (lo_n _ _ Hlo), Nat2Z.id. destruct Hhome as [Hrange Hout].
  rewrite i32_small by lia. unfold add_block. case_decide as HbL.
  - destruct (log_find_in _ _ _ Hlo HbL) as (r & -> & Hr). apply lookup_lt_Some in Hr as Hlt.
    destruct (Z.eqb_spec (Z.of_nat r) (Z.of_nat (length L))); [lia|]. mstep.
    erewrite release_run by (done || apply Hh). eexists. split; [reflexivity|]. split.
    + split; simpl; [by destruct Ha|by apply logged_upd_same|done| |done..].
      apply (view_ext _ s1); [done..|]. apply (view_set HV); [done|by rewrite elem_of_list_to_set].
    + eexists _, _. split; [reflexivity|]. done.
  - rewrite (log_find_out _ _ _ Hlo HbL), Z.eqb_refl. cbn [when].
    match goal with |- context [bind _ _ ?st = _] => set (s2 := st) end.
    destruct (view_set_pin HV b i v s2) as (B' & E & HV'); [done|by rewrite elem_of_list_to_set|done..| |].
    { split; simpl; [|intros j]; set_solver. }
    mstep. erewrite bind_ret by exact E. mstep. erewrite release_run by (done || apply Hh).
    eexists. split; [reflexivity|]. split.
    + split; simpl; [by destruct Ha| | | |done..].
      * rewrite <- (lo_n _ _ Hlo). by apply logged_add.
      * apply NoDup_app. split; [done|]. split; [set_solver|]. apply NoDup_singleton.
      * apply (view_ext _ (with_bufs B' s2)); [done..|].
        rewrite list_to_set_app_L. simpl. rewrite union_empty_r_L, (union_comm_L (list_to_set L)). done.
    + eexists _, _. split; [reflexivity|]. done.
Qed.

(** ** Opening and closing a transaction *)

(** The log between operations: [L] is what the open transaction has logged. *)
Record log_ok (dev : Z) (s : fsst) (L : list Z) (V : Z -> block) : Prop := {
  lk_area : log_area dev (log s);
  lk_logged : logged (log s) L;
  lk_nodup : NoDup L;
  lk_view : view dev s (list_to_set L) ∅ V;
  lk_clear : head_n (disk s (lg_start (log s))) = 0;
  lk_held : f_held s = [];
  lk_idle : lg_committing (log s) = 0
}.

Lemma tx_log_ok dev s L V : f_held s = [] -> tx dev s L ∅ V -> log_ok dev s L V.
Proof. intros Hh []. by split. Qed.
Lemma log_ok_tx dev s L V : 1 <= lg_outstanding (log s) -> log_ok dev s L V -> tx dev s L ∅ V.
Proof. intros Ho []. split; try done. rewrite lk_held0. apply not_elem_of_nil. Qed.

Lemma view_pid dev s P V p : view dev s P ∅ V -> view dev (with_pid p s) P ∅ V.
Proof.
  intros (l & C & [[Hl Hc Hh] Hdom Hent Hdisk]). exists l, C. split; [by split|done| |done].
  intros b e He. destruct (Hent b e He) as [H1 H2 H3 H4]. by split.
Qed.

Lemma log_ok_pid dev s L V p : log_ok dev s L V -> log_ok dev (with_pid p s) L V.
Proof. intros []. split; try done. by apply view_pid. Qed.

Definition reserve (lg : logst) : Z := lh_n lg + (lg_outstanding lg + 1) * MAXOPBLOCKS.

Lemma begin_op_run dev s L V :
  log_ok dev s L V -> reserve (log s) <= LOGSIZE ->
  exists s', begin_op s = Ret tt s' /\ s' = set_log (set_out (lg_outstanding (log s) + 1)) s /\
    log_ok dev s' L V.
Proof.
  intros [Ha Hlo Hnd HV Hc Hh Hi] Hr. unfold begin_op.
  erewrite bind_ret by (apply acquire_run; simpl; rewrite Hh; apply not_elem_of_nil). mstep. simpl.
  rewrite Hi. cbn [Z.eqb negb]. unfold reserve in Hr. destruct (Z.ltb_spec LOGSIZE (lh_n (log s) + (lg_outstanding (log s) + 1) * MAXOPBLOCKS)); [lia|].
  mstep. erewrite release_run by (done || (simpl; rewrite Hh; apply not_elem_of_nil)).
  eexists. split; [reflexivity|]. split; [by destruct s|].
  split; simpl; [by destruct Ha|by destruct Hlo|done| |done..].
  apply (view_ext _ s); [done..| |done]. by apply (view_free _ _ _ _ _ HV).
Qed.

(** begin_op that would exceed the log waits. *)
Lemma begin_op_waits dev s L V :
  log_ok dev s L V -> LOGSIZE < reserve (log s) -> begin_op s = Stuck "begin_op: sleeping".
Proof.
  intros [Ha Hlo Hnd HV Hc Hh Hi] Hr. unfold begin_op.
  erewrite bind_ret by (apply acquire_run; simpl; rewrite Hh; apply not_elem_of_nil). mstep. simpl.
  rewrite Hi. cbn [Z.eqb negb]. unfold reserve in Hr.
  destruct (Z.ltb_spec LOGSIZE (lh_n (log s) + (lg_outstanding (log s) + 1) * MAXOPBLOCKS)); [done|lia].
Qed.

Lemma end_op_start dev s L V :
  log_ok dev s L V ->
  end_op s =
    (let s1 := set_log (set_out (lg_outstanding (log s) - 1)) s in
     if lg_outstanding (log s) - 1 =? 0
     then (commit ;; acquire LLog ;; modify (set_log (set_com 0)) ;; release LLog) (set_log (set_com 1) s1)
     else Ret tt s1).
Proof.
  intros [Ha Hlo Hnd HV Hc Hh Hi]. unfold end_op.
  erewrite bind_ret by (apply acquire_run; simpl; rewrite Hh; apply not_elem_of_nil). mstep. simpl.
  rewrite Hi. cbn [Z.eqb negb].
  destruct (lg_outstanding (log s) - 1 =? 0) eqn:E; cbn [when]; mstep;
    erewrite bind_ret by (apply release_run; [done|simpl; rewrite Hh; apply not_elem_of_nil]).
  - mstep. by destruct s as [? ? ? ? ? []].
  - by destruct s as [? ? ? ? ? []].
Qed.

(** Not the last operation: only the count changes. *)
Lemma end_op_more dev s L V :
  log_ok dev s L V -> lg_outstanding (log s) <> 1 ->
  exists s', end_op s = Ret tt s' /\ s' = set_log (set_out (lg_outstanding (log s) - 1)) s /\ log_ok dev s' L V.
Proof.
  intros Hl Ho. rewrite (end_op_start _ _ _ _ Hl). destruct (Z.eqb_spec (lg_outstanding (log s) - 1) 0); [lia|].
  eexists. split; [reflexivity|]. split; [done|]. destruct Hl as [Ha Hlo Hnd HV Hc Hh Hi].
  split; simpl; [by destruct Ha|by destruct Hlo|done| |done..].
  apply (view_ext _ s); [done..| |done]. by apply (view_free _ _ _ _ _ HV).
Qed.

(** The last operation commits the transaction. *)
Lemma end_op_last dev s L V :
  log_ok dev s L V -> lg_outstanding (log s) = 1 -> Z.of_nat (length L) < NBUF ->
  exists s', end_op s = Ret tt s' /\ log_ok dev s' [] (disk s') /\
    (forall b, home (log s) b -> disk s' b = V b) /\ same_area (set_out 0 (log s)) (log s') /\ f_pid s' = f_pid s.
Proof.
  intros Hl Ho Hfit. rewrite (end_op_start _ _ _ _ Hl), Ho. cbn [Z.sub Z.add Z.opp Z.pos_sub Z.eqb].
  set (s1 := set_log (set_com 1) _). destruct Hl as [Ha Hlo Hnd HV Hc Hh Hi].
  assert (Hr : commit_ready dev s1 L V).
  { split; simpl; [by destruct Ha|by destruct Hlo|done| |done].
    apply (view_ext _ s); [done..| |done]. by apply (view_free _ _ _ _ _ HV). }
  destruct (commit_spec dev s1 L V Hr Hfit) as (s2 & E & W & Hhome & [Ha2 Hlo2 _ HV2 Hc2]).
  erewrite bind_ret by exact E.
  assert (Hh2 : f_held s2 = []) by by rewrite W.
  assert (Hp2 : f_pid s2 = f_pid s) by by rewrite W.
  pose proof (wrote_log _ _ _ _ W) as El.
  erewrite bind_ret by (apply acquire_run; simpl; rewrite Hh2; apply not_elem_of_nil). mstep.
  erewrite release_run; [|done|simpl; rewrite Hh2; apply not_elem_of_nil].
  eexists. split; [reflexivity|]. split_and!.
  - split; simpl; [by destruct Ha2|by destruct Hlo2|constructor| |done..].
    apply (view_ext _ s2); [done..| |done]. rewrite Hh2. split; [|intros i]; apply not_elem_of_nil.
  - exact Hhome.
  - simpl. rewrite El. done.
  - done.
Qed.

(** ** Several processes in one transaction *)

(** The use of log_write its comment describes: read a block, change it, log it,
    release it. *)
Definition log_block (dev b : Z) (v : block) : M fsst unit :=
  i <- bread dev b ;;
  modify (set_buf i (set_data v)) ;;
  log_write i ;;
  brelse i.

Lemma log_block_run dev s L V b v :
  tx dev s L ∅ V -> home (log s) b ->
  lh_n (log s) < LOGSIZE -> lh_n (log s) < lg_size (log s) - 1 -> Z.of_nat (length L) < NBUF ->
  exists s', log_block dev b v s = Ret tt s' /\ tx dev s' (add_block b L) ∅ (upd V b v) /\ tframe s s'.
Proof.
  intros Ht Hb H1 H2 H3. unfold log_block.
  destruct (tx_bread Ht b) as (i & B & E & Ht1 & _); [done|right; rewrite map_size_empty; lia|].
  erewrite bind_ret by exact E.
  destruct (tx_write b i v Ht1) as (s2 & E2 & Ht2 & F2); [apply lookup_insert_eq|done..|].
  rewrite <- bind_assoc. erewrite bind_ret by exact E2.
  destruct (tx_brelse Ht2 b i) as (B3 & E3 & Ht3); [apply lookup_insert_eq|].
  exists (with_bufs B3 s2). split; [exact E3|]. rewrite delete_insert_id in Ht3 by done. split; [done|].
  eapply tframe_trans; [apply tframe_bufs|]. eapply tframe_trans; [exact F2|apply tframe_bufs].
Qed.

(** [act] maps each process inside an operation to the blocks the operation has
    logged; [K] bounds their number. *)
Section machine.
Context (dev K : Z).

Inductive lstep : fsst * gmap Z (gset Z) -> fsst * gmap Z (gset Z) -> Prop :=
| step_begin p s act s' :
    act !! p = None -> begin_op (with_pid p s) = Ret tt s' ->
    lstep (s, act) (s', <[p := ∅]> act)
| step_write p s act B b v s' :
    act !! p = Some B -> Z.of_nat (size ({[b]} ∪ B)) <= K -> home (log s) b ->
    log_block dev b v (with_pid p s) = Ret tt s' ->
    lstep (s, act) (s', <[p := {[b]} ∪ B]> act)
| step_end p s act B s' :
    act !! p = Some B -> end_op (with_pid p s) = Ret tt s' ->
    lstep (s, act) (s', delete p act).

(** What the operations in progress may still log. *)
Definition left_over (act : gmap Z (gset Z)) : Z :=
  map_fold (fun _ B n => n + (MAXOPBLOCKS - Z.of_nat (size B))) 0 act.

Lemma left_over_insert p B act :
  act !! p = None -> left_over (<[p := B]> act) = left_over act + (MAXOPBLOCKS - Z.of_nat (size B)).
Proof. intros Hp. unfold left_over. rewrite map_fold_insert_L; [done| |done]. intros. lia. Qed.

Lemma left_over_delete p B act :
  act !! p = Some B -> left_over act = left_over (delete p act) + (MAXOPBLOCKS - Z.of_nat (size B)).
Proof.
  intros Hp. rewrite <- (left_over_insert p B) by apply lookup_delete_eq. by rewrite insert_delete_id.
Qed.

Lemma left_over_bounds act :
  (forall p B, act !! p = Some B -> Z.of_nat (size B) <= K) -> K < MAXOPBLOCKS ->
  Z.of_nat (size act) <= left_over act <= Z.of_nat (size act) * MAXOPBLOCKS.
Proof.
  intros Hact HK. induction act as [|p B act Hp IH] using map_ind.
  - unfold left_over. rewrite map_fold_empty, map_size_empty. lia.
  - rewrite left_over_insert, map_size_insert_None by done.
    assert (Z.of_nat (size B) <= K) by (apply (Hact p); apply lookup_insert_eq).
    destruct IH as [? ?]; [|lia]. intros q B' Hq. apply (Hact q). rewrite lookup_insert_ne; [done|congruence].
Qed.

Record machine_inv (c : fsst * gmap Z (gset Z)) (L : list Z) (V : Z -> block) : Prop := {
  mi_log : log_ok dev (fst c) L V;
  mi_size : LOGSIZE < lg_size (log (fst c));
  mi_out : lg_outstanding (log (fst c)) = Z.of_nat (size (snd c));
  mi_bound : forall p B, snd c !! p = Some B -> Z.of_nat (size B) <= K;
  mi_blocks : forall p B b, snd c !! p = Some B -> b ∈ B -> b ∈ L;
  mi_room : Z.of_nat (length L) + left_over (snd c) <= LOGSIZE
}.

Hypothesis HK : 0 <= K < MAXOPBLOCKS.

Lemma begin_inv s act L V p s' :
  machine_inv (s, act) L V -> act !! p = None -> begin_op (with_pid p s) = Ret tt s' ->
  machine_inv (s', <[p := ∅]> act) L V.
Proof.
  intros [Hl Hs Ho Hb Hbl Hr] Hp E. simpl in *. pose proof (log_ok_pid _ _ _ _ p Hl) as Hl'.
  destruct (Z.le_gt_cases (reserve (log s)) LOGSIZE) as [Hres|Hres].
  - destruct (begin_op_run dev _ L V Hl' Hres) as (s2 & E2 & Es & Hl2). rewrite E in E2. injection E2 as <-.
    split; simpl; [done|by rewrite Es|..].
    + rewrite Es. simpl. rewrite map_size_insert_None by done. lia.
    + intros q B [[<- <-]|[_ Hq]]%lookup_insert_Some; [rewrite size_empty; lia|eauto].
    + intros q B b [[<- <-]|[_ Hq]]%lookup_insert_Some; [set_solver|eauto].
    + rewrite left_over_insert, size_empty by done. unfold reserve in Hres.
      pose proof (left_over_bounds act Hb). destruct (lk_logged _ _ _ _ Hl) as [Hn _ _ _]. lia.
  - by rewrite (begin_op_waits dev _ L V Hl' Hres) in E.
Qed.

Lemma write_inv s act L V p B b v :
  machine_inv (s, act) L V -> act !! p = Some B -> Z.of_nat (size ({[b]} ∪ B)) <= K -> home (log s) b ->
  exists s', log_block dev b v (with_pid p s) = Ret tt s' /\
    machine_inv (s', <[p := {[b]} ∪ B]> act) (add_block b L) (upd V b v).
Proof.
  intros [Hl Hs Ho Hb Hbl Hr] Hp Hsz Hh. simpl in *. pose proof (log_ok_pid _ _ _ _ p Hl) as Hl'.
  pose proof (left_over_bounds act Hb) as Hlo. pose proof (left_over_delete _ _ _ Hp) as Hdel.
  pose proof (lk_logged _ _ _ _ Hl) as [Hn _ _ _].
  assert (Hact : 0 < Z.of_nat (size act)).
  { destruct (decide (size act = 0%nat)) as [E0|]; [|lia]. apply map_size_empty_inv in E0. subst. done. }
  destruct (log_block_run dev (with_pid p s) L V b v) as (s' & E & Ht & F); [|done|simpl; unfold LOGSIZE, NBUF in *; lia..|].
  { apply log_ok_tx; [simpl; lia|done]. }
  exists s'. split; [done|]. destruct F as (B' & lg & -> & Hsa).
  destruct Hsa as (Es1 & Es2 & Es3 & Es4 & Es5). simpl in Es1, Es2, Es3, Es4, Es5.
  split; simpl; [apply tx_log_ok; [apply Hl|done]|lia|..].
  - rewrite map_size_insert_Some by eauto. lia.
  - intros q B2 [[<- <-]|[_ Hq]]%lookup_insert_Some; eauto.
  - intros q B2 b2 [[<- <-]|[_ Hq]]%lookup_insert_Some Hb2; apply add_block_in; [set_solver|eauto].
  - rewrite <- insert_delete_eq, left_over_insert by apply lookup_delete_eq.
    unfold add_block. case_decide as HbL.
    + assert (size B <= size ({[b]} ∪ B))%nat by (apply subseteq_size; set_solver). lia.
    + assert (b ∉ B) by (intros ?; apply HbL; eauto).
      rewrite size_union, size_singleton by set_solver. rewrite length_app. simpl. lia.
Qed.

Lemma end_inv s act L V p B :
  machine_inv (s, act) L V -> act !! p = Some B ->
  exists s' L' V', end_op (with_pid p s) = Ret tt s' /\ machine_inv (s', delete p act) L' V'.
Proof.
  intros [Hl Hs Ho Hb Hbl Hr] Hp. simpl in *. pose proof (log_ok_pid _ _ _ _ p Hl) as Hl'.
  pose proof (left_over_bounds act Hb) as Hlo. pose proof (left_over_delete _ _ _ Hp) as Hdel.
  assert (HBK : Z.of_nat (size B) <= K) by eauto.
  assert (Hsd : Z.of_nat (size (delete p act)) = Z.of_nat (size act) - 1).
  { pose proof (map_size_delete_Some p act) as Hd. rewrite Hd by eauto.
    assert (size act <> 0)%nat; [|lia]. intros E0%map_size_empty_inv. by subst. }
  assert (Hbd : forall q B2, delete p act !! q = Some B2 -> Z.of_nat (size B2) <= K).
  { intros q B2 [_ Hq]%lookup_delete_Some. eauto. }
  destruct (decide (lg_outstanding (log s) = 1)) as [H1|H1].
  - assert (Hz : delete p act = ∅) by (apply map_size_empty_inv; lia).
    destruct (end_op_last dev _ L V Hl') as (s' & E & Hl2 & _ & Hsa & _);
      [done|unfold LOGSIZE, NBUF in *; lia|].
    destruct Hsa as (Es1 & Es2 & Es3 & Es4 & Es5). simpl in Es1, Es2, Es3, Es4, Es5.
    exists s', [], (disk s'). split; [done|]. rewrite Hz.
    split; simpl; [done|lia|rewrite map_size_empty; lia|done|done|].
    unfold left_over. rewrite map_fold_empty. unfold LOGSIZE. lia.
  - destruct (end_op_more dev _ L V Hl') as (s' & E & Es & Hl2); [done|].
    exists s', L, V. split; [done|]. split; simpl; [done|by rewrite Es|rewrite Es; simpl; lia|done| |lia].
    intros q B2 b [_ Hq]%lookup_delete_Some. eauto.
Qed.

Lemma lsteps_inv c c' L V :
  machine_inv c L V -> rtc lstep c c' -> exists L' V', machine_inv c' L' V'.
Proof.
  intros HI Hs. revert L V HI. induction Hs as [|c1 c2 c3 Hst _ IH]; intros L V HI; [eauto|].
  destruct Hst as [p s act s' Hp E|p s act B b v s' Hp Hsz Hh E|p s act B s' Hp E].
  - eapply IH, begin_inv; eauto.
  - destruct (write_inv s act L V p B b v HI Hp Hsz Hh) as (s2 & E2 & HI2).
    rewrite E in E2. injection E2 as <-. eauto.
  - destruct (end_inv s act L V p B HI Hp) as (s2 & L' & V' & E2 & HI2).
    rewrite E in E2. injection E2 as <-. eauto.
Qed.
End machine.

