(* ===== verification/Fs.v ===== *)
(** kernel/fs.c: blocks, inodes, file contents, directories and path names.

    Pointers to inodes are indices of the inode table, [NULL] is the null pointer.
    [path], [name] and [&de] are addresses of kernel memory [f_kmem].

    Copying to and from user memory goes through [UserMem]: [copyout] and [copyin]
    of kernel/vm.c as the file system sees them, on the memory of the process by
    virtual address.  Both may fail part of the way. *)

From S2P Require Import Prelude Mem Riscv Str Held Sleeplock FsState Bio View Log Txn.

(** ** Constants and layout (fs.h, stat.h) *)
Definition ROOTINO : Z := 1.
Definition FSMAGIC : Z := 270544960.
Definition NDIRECT : Z := 12.
Definition NINDIRECT : Z := Eval cbv in BSIZE / 4.
Definition MAXFILE : Z := Eval cbv in NDIRECT + NINDIRECT.
Definition DINODE : Z := 64.                        (* sizeof(struct dinode) *)
Definition IPB : Z := Eval cbv in BSIZE / DINODE.
Definition BPB : Z := Eval cbv in BSIZE * 8.
Definition DIRSIZ : Z := 14.
Definition DIRENT : Z := 16.                        (* sizeof(struct dirent) *)
Definition T_DIR : Z := 1.
Definition T_FILE : Z := 2.
Definition T_DEVICE : Z := 3.
Definition NULL : Z := -1.

Definition IBLOCK (i : Z) (x : superblock) : Z := u32 (i / IPB + sb_inodestart x).
Definition BBLOCK (b : Z) (x : superblock) : Z := u32 (b / BPB + sb_bmapstart x).

(** Offsets of the fields of struct dinode from its start. *)
Definition di_type (a : Z) : Z := a.
Definition di_major (a : Z) : Z := a + 2.
Definition di_minor (a : Z) : Z := a + 4.
Definition di_nlink (a : Z) : Z := a + 6.
Definition di_size (a : Z) : Z := a + 8.
Definition di_addr (a i : Z) : Z := a + 12 + 4 * i.

(** The offset of inode [inum] in its block: element [inum%IPB]. *)
Definition dinode_at (inum : Z) : Z := DINODE * (inum mod IPB).

(** ** Setters of an inode *)
Definition set_iref (v : Z) (i : inode) : inode :=
  mkinode (i_dev i) (i_inum i) v (i_lock i) (i_valid i) (i_type i) (i_major i) (i_minor i) (i_nlink i) (i_size i) (i_addrs i).
Definition set_ivalid (v : Z) (i : inode) : inode :=
  mkinode (i_dev i) (i_inum i) (i_ref i) (i_lock i) v (i_type i) (i_major i) (i_minor i) (i_nlink i) (i_size i) (i_addrs i).
Definition set_itype (v : Z) (i : inode) : inode :=
  mkinode (i_dev i) (i_inum i) (i_ref i) (i_lock i) (i_valid i) v (i_major i) (i_minor i) (i_nlink i) (i_size i) (i_addrs i).
Definition set_isize (v : Z) (i : inode) : inode :=
  mkinode (i_dev i) (i_inum i) (i_ref i) (i_lock i) (i_valid i) (i_type i) (i_major i) (i_minor i) (i_nlink i) v (i_addrs i).
Definition set_iaddr (k v : Z) (i : inode) : inode :=
  mkinode (i_dev i) (i_inum i) (i_ref i) (i_lock i) (i_valid i) (i_type i) (i_major i) (i_minor i) (i_nlink i) (i_size i)
    (upd (i_addrs i) k v).
(** What iget stores in an entry it recycles. *)
Definition set_ikey (dev inum : Z) (i : inode) : inode :=
  mkinode dev inum 1 (i_lock i) 0 (i_type i) (i_major i) (i_minor i) (i_nlink i) (i_size i) (i_addrs i).

(** [ip->x] *)
Definition ino (ip : Z) : M fsst inode := gets (fun s => itable s ip).

(** ** Superblock and blocks *)
Definition readsb (dev : Z) : M fsst unit :=
  bp <- bread dev 1 ;;
  d <- gets (fun s => b_data (bufs s bp)) ;;
  modify (with_sb (mksb (load32 d 0) (load32 d 4) (load32 d 8) (load32 d 12)
                        (load32 d 16) (load32 d 20) (load32 d 24) (load32 d 28))) ;;
  brelse bp.

Definition fsinit (dev : Z) : M fsst unit :=
  readsb dev ;;
  x <- gets sb ;;
  if negb (sb_magic x =? FSMAGIC) then panic "invalid file system" else
  initlog dev x.

Definition bzero (dev bno : Z) : M fsst unit :=
  bp <- bread dev (u32 bno) ;;
  modify (fun s => set_buf bp (set_data (fill (b_data (bufs s bp)) 0 BSIZE 0)) s) ;;
  log_write bp ;;
  brelse bp.

(** [bp->data[bi/8] & m] and [| m], [& ~m], with [m = 1 << (bi % 8)]. *)
Definition bit_set (d : block) (bi : Z) : bool := Z.testbit (d (bi / 8)) (bi mod 8).
Definition mark_bit (d : block) (bi : Z) : block := upd d (bi / 8) (Z.lor (d (bi / 8)) (Z.shiftl 1 (bi mod 8))).
Definition clear_bit (d : block) (bi : Z) : block :=
  upd d (bi / 8) (Z.land (d (bi / 8)) (Z.lnot (Z.shiftl 1 (bi mod 8)))).

(** The inner loop of balloc: the first clear bit from [bi] on. *)
Fixpoint balloc_bits (fuel : nat) (d : block) (b bi size : Z) : option Z :=
  match fuel with
  | O => None
  | S fuel' =>
      if (bi <? BPB) && (b + bi <? size) then
        if negb (bit_set d bi) then Some bi else balloc_bits fuel' d b (bi + 1) size
      else None
  end.

Definition balloc_fuel : nat := S (Z.to_nat BPB).

Fixpoint balloc_loop (fuel : nat) (dev b : Z) : M fsst Z :=
  x <- gets sb ;;
  if negb (b <? sb_size x) then ret 0 else
  match fuel with
  | O => stuck "balloc: out of fuel"
  | S fuel' =>
      bp <- bread dev (BBLOCK b x) ;;
      d <- gets (fun s => b_data (bufs s bp)) ;;
      match balloc_bits balloc_fuel d b 0 (sb_size x) with
      | Some bi =>
          modify (set_buf bp (set_data (mark_bit d bi))) ;;
          log_write bp ;;
          brelse bp ;;
          bzero dev (b + bi) ;;
          ret (b + bi)
      | None => brelse bp ;; balloc_loop fuel' dev (b + BPB)
      end
  end.

Definition balloc (dev : Z) : M fsst Z :=
  x <- gets sb ;;
  balloc_loop (S (Z.to_nat (sb_size x / BPB))) dev 0.

Definition bfree (dev b : Z) : M fsst unit :=
  x <- gets sb ;;
  bp <- bread dev (BBLOCK b x) ;;
  d <- gets (fun s => b_data (bufs s bp)) ;;
  let bi := b mod BPB in
  if negb (bit_set d bi) then panic "freeing free block" else
  modify (set_buf bp (set_data (clear_bit d bi))) ;;
  log_write bp ;;
  brelse bp.

(** ** Inodes *)
Definition iinit : M fsst unit :=
  for_each (seqZ 0 NINODE) (fun i => modify (set_ino i (set_ilock (initsleeplock "inode")))).

(** The loop of iget: the entry of the inode, or the first empty entry. *)
Fixpoint iget_scan (fuel : nat) (t : Z -> inode) (dev inum ip : Z) (empty : option Z) : Z + option Z :=
  match fuel with
  | O => inr empty
  | S fuel' =>
      if (0 <? i_ref (t ip)) && (i_dev (t ip) =? dev) && (i_inum (t ip) =? inum) then inl ip
      else iget_scan fuel' t dev inum (ip + 1)
             (match empty with None => if i_ref (t ip) =? 0 then Some ip else None | Some _ => empty end)
  end.

Definition iget (dev inum : Z) : M fsst Z :=
  acquire LItable ;;
  t <- gets itable ;;
  match iget_scan (Z.to_nat NINODE) t dev inum 0 None with
  | inl ip =>
      modify (set_ino ip (fun i => set_iref (i_ref i + 1) i)) ;;
      release LItable ;;
      ret ip
  | inr None => panic "iget: no inodes"
  | inr (Some ip) =>
      modify (set_ino ip (set_ikey dev inum)) ;;
      release LItable ;;
      ret ip
  end.

Fixpoint ialloc_loop (fuel : nat) (dev type inum : Z) : M fsst Z :=
  x <- gets sb ;;
  if negb (inum <? sb_ninodes x) then ret NULL else
  match fuel with
  | O => stuck "ialloc: out of fuel"
  | S fuel' =>
      bp <- bread dev (IBLOCK inum x) ;;
      d <- gets (fun s => b_data (bufs s bp)) ;;
      let dip := dinode_at inum in
      if i16 (load16 d (di_type dip)) =? 0 then
        modify (set_buf bp (set_data (store16 (fill d dip DINODE 0) (di_type dip) type))) ;;
        log_write bp ;;
        brelse bp ;;
        iget dev inum
      else brelse bp ;; ialloc_loop fuel' dev type (inum + 1)
  end.

Definition ialloc (dev type : Z) : M fsst Z :=
  x <- gets sb ;;
  ialloc_loop (Z.to_nat (sb_ninodes x)) dev type 1.

(** The on-disk image of an inode: stores of iupdate, loads of ilock. *)
Definition put_dinode (d : block) (a : Z) (i : inode) : block :=
  let d := store16 d (di_type a) (i_type i) in
  let d := store16 d (di_major a) (i_major i) in
  let d := store16 d (di_minor a) (i_minor i) in
  let d := store16 d (di_nlink a) (i_nlink i) in
  let d := store32 d (di_size a) (i_size i) in
  foldl (fun d k => store32 d (di_addr a k) (i_addrs i k)) d (seqZ 0 (NDIRECT + 1)).

Definition get_dinode (d : block) (a : Z) (i : inode) : inode :=
  mkinode (i_dev i) (i_inum i) (i_ref i) (i_lock i) (i_valid i)
    (i16 (load16 d (di_type a))) (i16 (load16 d (di_major a))) (i16 (load16 d (di_minor a)))
    (i16 (load16 d (di_nlink a))) (load32 d (di_size a))
    (fun k => if (0 <=? k) && (k <=? NDIRECT) then load32 d (di_addr a k) else i_addrs i k).

Definition iupdate (ip : Z) : M fsst unit :=
  i <- ino ip ;;
  x <- gets sb ;;
  bp <- bread (i_dev i) (IBLOCK (i_inum i) x) ;;
  modify (fun s => set_buf bp (set_data (put_dinode (b_data (bufs s bp)) (dinode_at (i_inum i)) i)) s) ;;
  log_write bp ;;
  brelse bp.

Definition idup (ip : Z) : M fsst Z :=
  acquire LItable ;;
  modify (set_ino ip (fun i => set_iref (i_ref i + 1) i)) ;;
  release LItable ;;
  ret ip.

Definition ilock (ip : Z) : M fsst unit :=
  i <- ino ip ;;
  if (ip =? NULL) || (i_ref i <? 1) then panic "ilock" else
  acquiresleep (SInode ip) ;;
  i <- ino ip ;;
  when (i_valid i =? 0)
    (x <- gets sb ;;
     bp <- bread (i_dev i) (IBLOCK (i_inum i) x) ;;
     modify (fun s => set_ino ip (get_dinode (b_data (bufs s bp)) (dinode_at (i_inum i))) s) ;;
     brelse bp ;;
     modify (set_ino ip (set_ivalid 1)) ;;
     i <- ino ip ;;
     when (i_type i =? 0) (panic "ilock: no type")).

Definition iunlock (ip : Z) : M fsst unit :=
  if ip =? NULL then panic "iunlock" else
  h <- holdingsleep (SInode ip) ;;
  i <- ino ip ;;
  if negb h || (i_ref i <? 1) then panic "iunlock" else
  releasesleep (SInode ip).

(** The direct blocks, then the indirect block and what it lists. *)
Definition itrunc (ip : Z) : M fsst unit :=
  for_each (seqZ 0 NDIRECT) (fun k =>
    i <- ino ip ;;
    when (negb (i_addrs i k =? 0))
      (bfree (i_dev i) (i_addrs i k) ;; modify (set_ino ip (set_iaddr k 0)))) ;;
  i <- ino ip ;;
  when (negb (i_addrs i NDIRECT =? 0))
    (bp <- bread (i_dev i) (i_addrs i NDIRECT) ;;
     for_each (seqZ 0 NINDIRECT) (fun j =>
       a <- gets (fun s => load32 (b_data (bufs s bp)) (4 * j)) ;;
       when (negb (a =? 0)) (bfree (i_dev i) a)) ;;
     brelse bp ;;
     bfree (i_dev i) (i_addrs i NDIRECT) ;;
     modify (set_ino ip (set_iaddr NDIRECT 0))) ;;
  modify (set_ino ip (set_isize 0)) ;;
  iupdate ip.

Definition iput (ip : Z) : M fsst unit :=
  acquire LItable ;;
  i <- ino ip ;;
  when ((i_ref i =? 1) && negb (i_valid i =? 0) && (i_nlink i =? 0))
    (acquiresleep (SInode ip) ;;
     release LItable ;;
     itrunc ip ;;
     modify (set_ino ip (set_itype 0)) ;;
     iupdate ip ;;
     modify (set_ino ip (set_ivalid 0)) ;;
     releasesleep (SInode ip) ;;
     acquire LItable) ;;
  modify (set_ino ip (fun i => set_iref (i_ref i - 1) i)) ;;
  release LItable.

Definition iunlockput (ip : Z) : M fsst unit := iunlock ip ;; iput ip.

(** ** File contents *)
Definition bmap (ip bn : Z) : M fsst Z :=
  i <- ino ip ;;
  if bn <? NDIRECT then
    if negb (i_addrs i bn =? 0) then ret (i_addrs i bn) else
    addr <- balloc (i_dev i) ;;
    if addr =? 0 then ret 0 else
    modify (set_ino ip (set_iaddr bn addr)) ;;
    ret addr
  else
  let bn := bn - NDIRECT in
  if bn <? NINDIRECT then
    ind <- (if negb (i_addrs i NDIRECT =? 0) then ret (i_addrs i NDIRECT) else
            addr <- balloc (i_dev i) ;;
            if addr =? 0 then ret 0 else
            modify (set_ino ip (set_iaddr NDIRECT addr)) ;;
            ret addr) ;;
    if ind =? 0 then ret 0 else
    bp <- bread (i_dev i) ind ;;
    a <- gets (fun s => load32 (b_data (bufs s bp)) (4 * bn)) ;;
    addr <- (if negb (a =? 0) then ret a else
             addr <- balloc (i_dev i) ;;
             when (negb (addr =? 0))
               (modify (fun s => set_buf bp (set_data (store32 (b_data (bufs s bp)) (4 * bn) addr)) s) ;;
                log_write bp) ;;
             ret addr) ;;
    brelse bp ;;
    ret addr
  else panic "bmap: out of range".

(** struct stat *)
Record stat : Type := mkstat { st_dev : Z; st_ino : Z; st_type : Z; st_nlink : Z; st_size : Z }.

Definition stati (ip : Z) : M fsst stat :=
  i <- ino ip ;;
  ret (mkstat (i32 (i_dev i)) (i_inum i) (i_type i) (i_nlink i) (i_size i)).

Section user.
Context {U : UserMem}.

(** proc.c: copy [len] bytes of [d] from [off] on to a user or kernel address. *)
Definition either_copyout (user_dst : bool) (dst : Z) (d : block) (off len : Z) : M fsst Z :=
  s <- gets id ;;
  if user_dst then
    let '(m, ok) := ucopyout (f_umem s) dst (fun i => d (off + i)) len in
    modify (with_mems (f_kmem s) m) ;;
    ret (if ok : bool then 0 else -1)
  else
    modify (with_mems (fun a => if (dst <=? a) && (a <? dst + len) then d (off + (a - dst)) else f_kmem s a)
              (f_umem s)) ;;
    ret 0.

(** proc.c: [len] bytes of user or kernel memory to [bp->data + off]. *)
Definition either_copyin (bp off : Z) (user_src : bool) (src len : Z) : M fsst Z :=
  s <- gets id ;;
  let d := b_data (bufs s bp) in
  let put d' := modify (set_buf bp (set_data (fun a => if off <=? a then d' (a - off) else d a))) in
  if user_src then
    let '(d', ok) := ucopyin (f_umem s) src len (fun i => d (off + i)) in
    put d' ;;
    ret (if ok : bool then 0 else -1)
  else
    put (fun i => if (0 <=? i) && (i <? len) then f_kmem s (src + i) else d (off + i)) ;;
    ret 0.

(** Every round but the first starts at a block boundary, so [n / BSIZE + 2]
    rounds are enough. *)
Definition io_fuel (n : Z) : nat := Z.to_nat (n / BSIZE + 2).

Fixpoint readi_loop (fuel : nat) (ip : Z) (user_dst : bool) (dst off n tot : Z) : M fsst Z :=
  if negb (tot <? n) then ret tot else
  match fuel with
  | O => stuck "readi: out of fuel"
  | S fuel' =>
      addr <- bmap ip (off / BSIZE) ;;
      if addr =? 0 then ret tot else
      i <- ino ip ;;
      bp <- bread (i_dev i) addr ;;
      let m := Z.min (n - tot) (BSIZE - off mod BSIZE) in
      d <- gets (fun s => b_data (bufs s bp)) ;;
      r <- either_copyout user_dst dst d (off mod BSIZE) m ;;
      if r =? -1 then brelse bp ;; ret (-1)
      else brelse bp ;; readi_loop fuel' ip user_dst (dst + m) (off + m) n (tot + m)
  end.

Definition readi (ip : Z) (user_dst : bool) (dst off n : Z) : M fsst Z :=
  i <- ino ip ;;
  if (i_size i <? off) || (u32 (off + n) <? off) then ret 0 else
  let n := if i_size i <? off + n then i_size i - off else n in
  readi_loop (io_fuel n) ip user_dst dst off n 0.

(** The loop returns the bytes written and the offset reached. *)
Fixpoint writei_loop (fuel : nat) (ip : Z) (user_src : bool) (src off n tot : Z) : M fsst (Z * Z) :=
  if negb (tot <? n) then ret (tot, off) else
  match fuel with
  | O => stuck "writei: out of fuel"
  | S fuel' =>
      addr <- bmap ip (off / BSIZE) ;;
      if addr =? 0 then ret (tot, off) else
      i <- ino ip ;;
      bp <- bread (i_dev i) addr ;;
      let m := Z.min (n - tot) (BSIZE - off mod BSIZE) in
      r <- either_copyin bp (off mod BSIZE) user_src src m ;;
      if r =? -1 then brelse bp ;; ret (tot, off)
      else log_write bp ;; brelse bp ;; writei_loop fuel' ip user_src (src + m) (off + m) n (tot + m)
  end.

Definition writei (ip : Z) (user_src : bool) (src off n : Z) : M fsst Z :=
  i <- ino ip ;;
  if (i_size i <? off) || (u32 (off + n) <? off) then ret (-1) else
  if MAXFILE * BSIZE <? u32 (off + n) then ret (-1) else
  r <- writei_loop (io_fuel n) ip user_src src off n 0 ;;
  i <- ino ip ;;
  when (i_size i <? snd r) (modify (set_ino ip (set_isize (snd r)))) ;;
  iupdate ip ;;
  ret (fst r).

(** ** Directories *)
Definition namecmp (s t : Z) : M fsst Z := gets (fun st => strncmp (f_kmem st) s t DIRSIZ).

(** The struct dirent on the stack of dirlookup and dirlink. *)
Definition de : Z := 0.
Definition de_name : Z := 2.

(** The loop of dirlookup: the inode number and the offset of the entry. *)
Fixpoint dirlookup_loop (fuel : nat) (dp name off : Z) : M fsst (option (Z * Z)) :=
  i <- ino dp ;;
  if negb (off <? i_size i) then ret None else
  match fuel with
  | O => stuck "dirlookup: out of fuel"
  | S fuel' =>
      r <- readi dp false de off DIRENT ;;
      if negb (r =? DIRENT) then panic "dirlookup read" else
      inum <- gets (fun s => load16 (f_kmem s) de) ;;
      if inum =? 0 then dirlookup_loop fuel' dp name (off + DIRENT) else
      c <- namecmp name de_name ;;
      if c =? 0 then ret (Some (inum, off)) else dirlookup_loop fuel' dp name (off + DIRENT)
  end.

Definition dir_fuel (size : Z) : nat := Z.to_nat (size / DIRENT + 1).

(** The inode, or NULL, and the offset stored in [*poff]. *)
Definition dirlookup (dp name : Z) : M fsst (Z * Z) :=
  i <- ino dp ;;
  if negb (i_type i =? T_DIR) then panic "dirlookup not DIR" else
  r <- dirlookup_loop (dir_fuel (i_size i)) dp name 0 ;;
  match r with
  | Some (inum, off) => ip <- iget (i_dev i) inum ;; ret (ip, off)
  | None => ret (NULL, 0)
  end.

(** The first free entry, or the end of the directory. *)
Fixpoint dirlink_loop (fuel : nat) (dp off : Z) : M fsst Z :=
  i <- ino dp ;;
  if negb (off <? i_size i) then ret off else
  match fuel with
  | O => stuck "dirlink: out of fuel"
  | S fuel' =>
      r <- readi dp false de off DIRENT ;;
      if negb (r =? DIRENT) then panic "dirlink read" else
      inum <- gets (fun s => load16 (f_kmem s) de) ;;
      if inum =? 0 then ret off else dirlink_loop fuel' dp (off + DIRENT)
  end.

Definition dirlink (dp name inum : Z) : M fsst Z :=
  r <- dirlookup dp name ;;
  if negb (fst r =? NULL) then iput (fst r) ;; ret (-1) else
  i <- ino dp ;;
  off <- dirlink_loop (dir_fuel (i_size i)) dp 0 ;;
  modify (fun s => with_mems (store16 (strncpy (f_kmem s) de_name name DIRSIZ) de inum) (f_umem s) s) ;;
  w <- writei dp false de off DIRENT ;;
  if negb (w =? DIRENT) then ret (-1) else ret 0.

(** ** Path names *)

(** '/' *)
Definition SLASH : Z := 47.

(** [while(p( *path)) path++].  A path has at most MAXPATH bytes. *)
Fixpoint skip_while (fuel : nat) (p : Z -> bool) (m : mem) (path : Z) : option Z :=
  match fuel with
  | O => None
  | S fuel' => if p (m path) then skip_while fuel' p m (path + 1) else Some path
  end.

Definition path_fuel : nat := S (Z.to_nat MAXPATH).

(** The memory with the element at [name], and the rest of the path, or None
    when there is no element; the outer option is a path that does not end. *)
Definition skipelem (m : mem) (path name : Z) : option (mem * option Z) :=
  match skip_while path_fuel (fun c => c =? SLASH) m path with
  | None => None
  | Some s =>
      if m s =? 0 then Some (m, None) else
      match skip_while path_fuel (fun c => negb (c =? SLASH) && negb (c =? 0)) m s with
      | None => None
      | Some e =>
          let len := e - s in
          let m' := if DIRSIZ <=? len then copy m name s DIRSIZ
                    else upd (copy m name s len) (name + len) 0 in
          match skip_while path_fuel (fun c => c =? SLASH) m' e with
          | None => None
          | Some p => Some (m', Some p)
          end
      end
  end.

Fixpoint namex_loop (fuel : nat) (ip path : Z) (nameiparent : bool) (name : Z) : M fsst Z :=
  s <- gets id ;;
  match skipelem (f_kmem s) path name with
  | None => stuck "skipelem: the path does not end"
  | Some (m, None) =>
      if nameiparent then iput ip ;; ret NULL else ret ip
  | Some (m, Some path) =>
      match fuel with
      | O => stuck "namex: out of fuel"
      | S fuel' =>
          modify (fun s => with_mems m (f_umem s) s) ;;
          ilock ip ;;
          i <- ino ip ;;
          if negb (i_type i =? T_DIR) then iunlockput ip ;; ret NULL else
          if nameiparent && (m path =? 0) then iunlock ip ;; ret ip else
          r <- dirlookup ip name ;;
          if fst r =? NULL then iunlockput ip ;; ret NULL else
          iunlockput ip ;;
          namex_loop fuel' (fst r) path nameiparent name
      end
  end.

Definition namex (path : Z) (nameiparent : bool) (name : Z) : M fsst Z :=
  s <- gets id ;;
  ip <- (if f_kmem s path =? SLASH then iget ROOTDEV ROOTINO else idup (f_cwd s)) ;;
  namex_loop (Z.to_nat MAXPATH) ip path nameiparent name.

(** [char name[DIRSIZ]] of namei. *)
Definition name_buf : Z := 32.
Definition namei (path : Z) : M fsst Z := namex path false name_buf.
Definition nameiparent (path name : Z) : M fsst Z := namex path true name.
End user.
