(* ===== verification/FsBlock.v ===== *)
(** The block allocator of kernel/fs.c (balloc, bfree, bzero) and its on-disk
    structures, proved on the view of an open transaction.

    [used x V b] reads the bitmap of view [V]: whether block [b] is allocated. *)

From S2P Require Import Prelude Mem Riscv Str Held Sleeplock FsState Bio View Log Txn Fs.

(** The layout of the disk: log, inode blocks, bitmap, data, in this order. *)
Record geo (x : superblock) (lg : logst) : Prop := {
  geo_log : 0 <= lg_start lg;
  geo_ino : lg_start lg + LOGSIZE < sb_inodestart x;
  geo_nino : 0 <= sb_ninodes x;
  geo_bmap : sb_inodestart x + sb_ninodes x / IPB < sb_bmapstart x;
  geo_data : sb_bmapstart x + sb_size x / BPB < sb_size x;
  geo_size : sb_size x < 2 ^ 30
}.

Definition data_start (x : superblock) : Z := sb_bmapstart x + sb_size x / BPB + 1.

(** What the transaction can still take: [k] more blocks, with the buffers of [H]
    locked. *)
Definition budget (lg : logst) (L : list Z) (H : gmap Z Z) (k : Z) : Prop :=
  Z.of_nat (length L) + Z.of_nat (size H) + k <= NBUF /\ Z.of_nat (length L) + k < lg_size lg.

Lemma geo_home x lg b : geo x lg -> sb_inodestart x <= b < sb_size x -> home lg b.
Proof. intros []. unfold home, LOGSIZE in *. lia. Qed.

Lemma geo_same x lg lg' : same_area lg lg' -> geo x lg -> geo x lg'.
Proof. intros (E & _) []. split; rewrite ?E; done. Qed.

Lemma budget_weaken lg L H k k' : k' <= k -> budget lg L H k -> budget lg L H k'.
Proof. unfold budget. lia. Qed.

Lemma budget_same lg lg' L H k : same_area lg lg' -> budget lg L H k -> budget lg' L H k.
Proof. intros (_ & E & _). unfold budget. by rewrite E. Qed.

Lemma budget_add lg L H k b : budget lg L H k -> budget lg (add_block b L) H (k - 1).
Proof. unfold budget. pose proof (add_block_length b L). lia. Qed.

Lemma BBLOCK_small x lg b :
  geo x lg -> 0 <= b < sb_size x ->
  BBLOCK b x = b / BPB + sb_bmapstart x /\ sb_inodestart x <= b / BPB + sb_bmapstart x < data_start x.
Proof.
  intros [H1 H2 H3 H4 H5 H6] Hb. unfold BBLOCK, data_start. unfold LOGSIZE in H2.
  assert (0 <= b / BPB <= sb_size x / BPB).
  { unfold BPB. split; [apply Z.div_pos; lia|apply Z.div_le_mono; lia]. }
  assert (0 <= sb_ninodes x / IPB) by (unfold IPB; apply Z.div_pos; lia).
  rewrite u32_small by lia. lia.
Qed.

(** ** Bitmaps *)
Definition used (x : superblock) (V : Z -> block) (b : Z) : bool := bit_set (V (BBLOCK b x)) (b mod BPB).

Lemma bit_set_mark d bi j :
  0 <= bi -> 0 <= j -> bit_set (mark_bit d bi) j = (j =? bi) || bit_set d j.
Proof.
  intros Hb Hj. unfold bit_set, mark_bit. rewrite upd_case. case_decide as E.
  - rewrite Z.lor_spec, Z.shiftl_1_l, Z.pow2_bits_eqb, orb_comm, E by dlia.
    f_equal. apply eq_bool_prop_intro. rewrite !Is_true_true, !Z.eqb_eq. dlia.
  - destruct (Z.eqb_spec j bi) as [->|]; done.
Qed.

Lemma bit_set_clear d bi j :
  0 <= bi -> 0 <= j -> bit_set (clear_bit d bi) j = negb (j =? bi) && bit_set d j.
Proof.
  intros Hb Hj. unfold bit_set, clear_bit. rewrite upd_case. case_decide as E.
  - rewrite Z.land_spec, Z.lnot_spec, Z.shiftl_1_l, Z.pow2_bits_eqb, andb_comm, E by dlia.
    f_equal. f_equal. apply eq_bool_prop_intro. rewrite !Is_true_true, !Z.eqb_eq. dlia.
  - destruct (Z.eqb_spec j bi) as [->|]; done.
Qed.

(** The inner loop of balloc finds the first clear bit. *)
Lemma balloc_bits_spec fuel d b bi size :
  0 <= bi -> BPB - bi < Z.of_nat fuel ->
  match balloc_bits fuel d b bi size with
  | Some r => bi <= r < BPB /\ b + r < size /\ bit_set d r = false /\ forall j, bi <= j < r -> bit_set d j = true
  | None => forall j, bi <= j < BPB -> b + j < size -> bit_set d j = true
  end.
Proof.
  revert bi; induction fuel as [|fuel IH]; intros bi Hbi Hf; cbn [balloc_bits]; [lia|].
  destruct (Z.ltb_spec bi BPB), (Z.ltb_spec (b + bi) size); cbn [andb]; try (intros; lia).
  destruct (bit_set d bi) eqn:E; cbn [negb].
  - specialize (IH (bi + 1)). destruct (balloc_bits fuel d b (bi + 1) size) as [r|].
    + destruct IH as (H1 & H2 & H3 & H4); [lia|lia|]. split; [lia|]. split; [done|]. split; [done|].
      intros j Hj. destruct (decide (j = bi)) as [->|]; [done|]. apply H4. lia.
    + intros j Hj Hs. destruct (decide (j = bi)) as [->|]; [done|]. apply IH; lia.
  - split; [lia|]. split; [done|]. split; [done|]. lia.
Qed.

(** What changing one bit of a bitmap block does to the bitmap. *)
Lemma used_other x V b0 v b : BBLOCK b x <> b0 -> used x (upd V b0 v) b = used x V b.
Proof. intros Hne. unfold used. by rewrite upd_ne. Qed.

Lemma used_update x lg V b b' (f : block -> Z -> block) (g : bool -> bool) :
  geo x lg -> 0 <= b < sb_size x -> 0 <= b' < sb_size x ->
  (forall d j, 0 <= j -> bit_set (f d (b mod BPB)) j = if j =? b mod BPB then g (bit_set d j) else bit_set d j) ->
  used x (upd V (BBLOCK b x) (f (V (BBLOCK b x)) (b mod BPB))) b' =
    if b' =? b then g (used x V b') else used x V b'.
Proof.
  intros Hg Hb Hb' Hf. unfold used. rewrite upd_case.
  destruct (BBLOCK_small x lg b Hg Hb) as [Eb _], (BBLOCK_small x lg b' Hg Hb') as [Eb' _].
  assert (0 <= b' mod BPB) by (unfold BPB; dlia).
  case_decide as E.
  - rewrite Hf, E by done. assert (b / BPB = b' / BPB) by lia.
    destruct (Z.eqb_spec (b' mod BPB) (b mod BPB)), (Z.eqb_spec b' b); subst; try done; exfalso;
      unfold BPB in *; dlia.
  - destruct (Z.eqb_spec b' b) as [->|]; done.
Qed.

Lemma used_mark x lg V b b' :
  geo x lg -> 0 <= b < sb_size x -> 0 <= b' < sb_size x ->
  used x (upd V (BBLOCK b x) (mark_bit (V (BBLOCK b x)) (b mod BPB))) b' = (b' =? b) || used x V b'.
Proof.
  intros Hg Hb Hb'. rewrite (used_update x lg V b b' mark_bit (fun _ => true)); [|done..|].
  - by destruct (b' =? b).
  - intros d j Hj. rewrite bit_set_mark by (unfold BPB; dlia). by destruct (j =? b mod BPB).
Qed.

Lemma used_clear x lg V b b' :
  geo x lg -> 0 <= b < sb_size x -> 0 <= b' < sb_size x ->
  used x (upd V (BBLOCK b x) (clear_bit (V (BBLOCK b x)) (b mod BPB))) b' = negb (b' =? b) && used x V b'.
Proof.
  intros Hg Hb Hb'. rewrite (used_update x lg V b b' clear_bit (fun _ => false)); [|done..|].
  - by destruct (b' =? b).
  - intros d j Hj. rewrite bit_set_clear by (unfold BPB; dlia). by destruct (j =? b mod BPB).
Qed.

(** Running three statements at once. *)
Lemma run3 {S B} (m1 m2 m3 : M S unit) (k : M S B) s s' :
  (m1 ;; m2 ;; m3) s = Ret tt s' -> (m1 ;; m2 ;; m3 ;; k) s = k s'.
Proof. unfold bind. destruct (m1 s) as [[] s1| |]; try done. destruct (m2 s1) as [[] s2| |]; try done. by intros ->. Qed.

(** ** Read, modify, log, release *)
Section rmw.
Context {dev : Z} {s : fsst} {L : list Z} {H : gmap Z Z} {V : Z -> block}.
Hypothesis Ht : tx dev s L H V.

(** The end of such a sequence, with block [b] in buffer [i]. *)
Lemma tx_finish b i v :
  H !! b = Some i -> home (log s) b -> budget (log s) L (delete b H) 1 ->
  exists s', (modify (set_buf i (set_data v)) ;; log_write i ;; brelse i) s = Ret tt s' /\
    tx dev s' (add_block b L) (delete b H) (upd V b v) /\ tframe s s'.
Proof.
  intros Hi Hh [Hb1 Hb2].
  destruct (tx_write b i v Ht Hi Hh) as (s1 & E1 & Ht1 & F1);
    [rewrite (lo_n _ _ (tx_logged _ _ _ _ _ Ht)); unfold NBUF, LOGSIZE in *; lia..|].
  rewrite <- bind_assoc. erewrite bind_ret by exact E1.
  destruct (tx_brelse Ht1 b i Hi) as (B2 & E2 & Ht2).
  exists (with_bufs B2 s1). split; [exact E2|]. split; [done|]. eapply tframe_trans; [exact F1|apply tframe_bufs].
Qed.

End rmw.

Lemma tx_modify {dev s L H V} b (f : block -> block) :
  tx dev s L H V -> H !! b = None -> home (log s) b -> budget (log s) L H 1 ->
  exists s', (bp <- bread dev b ;;
              modify (fun s => set_buf bp (set_data (f (b_data (bufs s bp)))) s) ;;
              log_write bp ;; brelse bp) s = Ret tt s' /\
    tx dev s' (add_block b L) H (upd V b (f (V b))) /\ tframe s s'.
Proof.
  intros Ht HnH Hh Hb. destruct (tx_bread Ht b HnH) as (i & B & E & Ht1 & Hd); [right; unfold budget in Hb; lia|].
  erewrite bind_ret by exact E. rewrite bind_modify. cbv beta. cbn [bufs with_bufs]. rewrite Hd. clear Hd.
  set (v := f (V b)). set (s1 := with_bufs B s) in *.
  destruct (tx_finish Ht1 b i v) as (s2 & E2 & Ht2 & F2);
    [apply lookup_insert_eq|done|by rewrite delete_insert_id|].
  rewrite delete_insert_id in Ht2 by done. exists s2. split; [exact E2|]. split; [done|].
  eapply tframe_trans; [apply tframe_bufs|exact F2].
Qed.

Lemma bzero_run dev s L H V b :
  tx dev s L H V -> H !! b = None -> home (log s) b -> budget (log s) L H 1 ->
  exists s', bzero dev b s = Ret tt s' /\
    tx dev s' (add_block b L) H (upd V b (fill (V b) 0 BSIZE 0)) /\ tframe s s'.
Proof.
  intros Ht HnH Hh Hb. unfold bzero. rewrite u32_small by (destruct Hh; lia).
  by apply (tx_modify b (fun d => fill d 0 BSIZE 0)).
Qed.

(** ** balloc *)

(** The blocks before the data area are marked as used, as mkfs leaves them. *)
Definition bitmap_ok (x : superblock) (V : Z -> block) : Prop :=
  forall b, 0 <= b < data_start x -> used x V b = true.

(** The view after allocating block [r]. *)
Definition alloc_view (x : superblock) (V : Z -> block) (r : Z) : Z -> block :=
  let V1 := upd V (BBLOCK r x) (mark_bit (V (BBLOCK r x)) (r mod BPB)) in
  upd V1 r (fill (V1 r) 0 BSIZE 0).

(** The outcome of balloc: out of blocks, or the first free one. *)
Definition allocated (x : superblock) (V : Z -> block) (r : Z) (V' : Z -> block) : Prop :=
  (r = 0 /\ V' = V /\ forall b, 0 <= b < sb_size x -> used x V b = true) \/
  (data_start x <= r < sb_size x /\ used x V r = false /\
   (forall b, 0 <= b < r -> used x V b = true) /\ V' = alloc_view x V r).

(** Locked blocks are data blocks in use. *)
Definition locks_data (x : superblock) (V : Z -> block) (H : gmap Z Z) : Prop :=
  forall b, is_Some (H !! b) -> data_start x <= b < sb_size x /\ used x V b = true.

Lemma locks_data_none x V : locks_data x V ∅.
Proof. intros b' [i Hi]. by rewrite lookup_empty in Hi. Qed.

Lemma data_start_pos x lg : geo x lg -> sb_bmapstart x < data_start x /\ 0 < data_start x /\ sb_inodestart x <= data_start x.
Proof.
  intros [H1 H2 H3 H4 H5 H6]. unfold data_start, LOGSIZE in *.
  assert (0 <= sb_ninodes x / IPB) by (unfold IPB; apply Z.div_pos; lia).
  assert (0 < sb_size x \/ sb_size x <= 0) as [|] by lia; [|unfold BPB in *; dlia].
  assert (0 <= sb_size x / BPB) by (unfold BPB; apply Z.div_pos; lia). lia.
Qed.

Section balloc.
Context (dev : Z) (L : list Z) (H : gmap Z Z) (V : Z -> block).

(** A bitmap block is not locked. *)
Local Lemma bmap_unlocked x lg b :
  geo x lg -> locks_data x V H -> 0 <= b < sb_size x -> H !! BBLOCK b x = None.
Proof.
  intros Hg HL Hb. destruct (BBLOCK_small x lg b Hg Hb) as [E Hr]. rewrite <- E in Hr.
  destruct (H !! BBLOCK b x) eqn:Eh; [|done]. destruct (HL (BBLOCK b x)); [by rewrite Eh|lia].
Qed.

(** One bitmap block has a free bit: it is marked, and the block is zeroed. *)
Lemma balloc_take s i B b bi :
  let x := sb s in let r := b + bi in
  geo x (log s) -> budget (log s) L H 2 -> bitmap_ok x V -> locks_data x V H ->
  0 <= b -> b mod BPB = 0 -> 0 <= bi < BPB -> r < sb_size x -> used x V r = false ->
  tx dev (with_bufs B s) L (<[BBLOCK r x := i]> H) V ->
  exists s' L', (modify (set_buf i (set_data (mark_bit (V (BBLOCK r x)) bi))) ;;
      log_write i ;; brelse i ;; bzero dev r ;; ret r) (with_bufs B s) = Ret r s' /\
    data_start x <= r /\ (length L' <= length L + 2)%nat /\
    tx dev s' L' H (alloc_view x V r) /\ tframe s s'.
Proof.
  intros x r Hg Hbud Hbm HL Hb Hbm0 Hbi Hr Hu Ht.
  destruct (BBLOCK_small x (log s) r Hg) as [Eb Hrb]; [lia|].
  destruct (data_start_pos x (log s) Hg) as (Hd1 & Hd2 & Hd3).
  assert (Hds : data_start x <= r).
  { destruct (Z.le_gt_cases (data_start x) r); [done|]. rewrite Hbm in Hu by lia. done. }
  assert (Hmod : r mod BPB = bi) by (unfold r, BPB in *; dlia).
  assert (HnH : H !! BBLOCK r x = None) by (eapply bmap_unlocked; eauto; lia).
  assert (Hhome : home (log s) (BBLOCK r x)).
  { apply (geo_home x); [done|]. destruct Hg. unfold data_start in *. lia. }
  destruct (tx_finish Ht (BBLOCK r x) i (mark_bit (V (BBLOCK r x)) bi)) as (s1 & E1 & Ht1 & F1);
    [apply lookup_insert_eq|done|rewrite delete_insert_id by done; eapply budget_weaken; [|exact Hbud]; lia|].
  rewrite delete_insert_id in Ht1 by done.
  erewrite run3 by exact E1.
  assert (Hbud1 : budget (log s1) (add_block (BBLOCK r x) L) H 1).
  { destruct F1 as (? & lg & -> & Hsa). apply (budget_same (log s)); [done|].
    by apply (budget_add _ _ _ 2). }
  destruct (bzero_run dev s1 _ H _ r Ht1) as (s2 & E2 & Ht2 & F2); [| |done|].
  { destruct (H !! r) eqn:Eh; [|done]. destruct (HL r) as [_ Hur]; [by rewrite Eh|]. congruence. }
  { destruct F1 as (? & lg & -> & Hsa). apply (geo_home x); [by eapply geo_same|]. lia. }
  erewrite bind_ret by exact E2. exists s2, (add_block r (add_block (BBLOCK r x) L)). split; [done|].
  split; [done|]. split; [pose proof (add_block_length r (add_block (BBLOCK r x) L));
    pose proof (add_block_length (BBLOCK r x) L); lia|].
  split; [unfold alloc_view; by rewrite Hmod|].
  eapply tframe_trans; [apply tframe_bufs|]. by eapply tframe_trans.
Qed.

Lemma balloc_loop_run fuel s b :
  let x := sb s in
  tx dev s L H V -> geo x (log s) -> budget (log s) L H 2 -> bitmap_ok x V -> locks_data x V H ->
  0 <= b -> b mod BPB = 0 -> (forall b', 0 <= b' < b -> b' < sb_size x -> used x V b' = true) ->
  sb_size x - b < BPB * Z.of_nat fuel ->
  exists r s' L' V', balloc_loop fuel dev b s = Ret r s' /\ allocated x V r V' /\
    (length L' <= length L + 2)%nat /\ tx dev s' L' H V' /\ tframe s s'.
Proof.
  revert s b; induction fuel as [|fuel IH]; intros s b x Ht Hg Hbud Hbm HL Hb Hb0 Hall Hf.
  { exists 0, s, L, V. cbn [balloc_loop]. mstep. fold x. destruct (Z.ltb_spec b (sb_size x)); [lia|]. cbn [negb].
    split; [done|]. split; [|split; [lia|done]]. left. split; [done|]. split; [done|]. intros b' Hb'. apply Hall; lia. }
  cbn [balloc_loop]. mstep. fold x. destruct (Z.ltb_spec b (sb_size x)) as [Hlt|Hge]; cbn [negb].
  2:{ exists 0, s, L, V. split; [done|]. split; [|split; [lia|done]].
      left. split; [done|]. split; [done|]. intros b' Hb'. apply Hall; lia. }
  assert (HnH : H !! BBLOCK b x = None) by (eapply bmap_unlocked; eauto; lia).
  destruct (tx_bread Ht (BBLOCK b x) HnH) as (i & B & E & Ht1 & Hd); [right; unfold budget in Hbud; lia|].
  erewrite bind_ret by exact E. rewrite bind_gets. cbv beta. cbn [bufs with_bufs]. rewrite Hd.
  assert (Hbb : forall j, 0 <= j < BPB -> b + j < sb_size x -> BBLOCK (b + j) x = BBLOCK b x /\ (b + j) mod BPB = j).
  { intros j Hj Hs. split; [|unfold BPB in *; dlia]. unfold BBLOCK. f_equal. f_equal. unfold BPB in *; dlia. }
  pose proof (balloc_bits_spec balloc_fuel (V (BBLOCK b x)) b 0 (sb_size x)) as Hbits.
  destruct (balloc_bits balloc_fuel (V (BBLOCK b x)) b 0 (sb_size x)) as [bi|].
  - destruct Hbits as (Hbi & Hs & Hfree & Hbefore); [lia|unfold balloc_fuel; lia|].
    destruct (Hbb bi Hbi Hs) as [Ebb Ebm].
    assert (Hu : used x V (b + bi) = false) by (unfold used; by rewrite Ebb, Ebm).
    rewrite <- Ebb in Ht1. rewrite <- Ebb.
    destruct (balloc_take s i B b bi) as (s' & L' & E2 & Hds & Hlen & Ht2 & F2); [done..|].
    exists (b + bi), s', L', (alloc_view x V (b + bi)). split; [exact E2|]. split; [|done].
    right. fold x in Hds. split; [lia|]. split; [done|]. split; [|done]. intros b' Hb'.
    destruct (Z.lt_ge_cases b' b); [apply Hall; lia|].
    destruct (Hbb (b' - b)) as [E1' E2']; [lia|lia|]. replace (b + (b' - b)) with b' in * by lia.
    unfold used. rewrite E1', E2'. apply Hbefore. lia.
  - destruct (tx_brelse Ht1 (BBLOCK b x) i) as (B2 & E2 & Ht2); [apply lookup_insert_eq|].
    erewrite bind_ret by exact E2. rewrite delete_insert_id in Ht2 by done.
    destruct (IH (with_bufs B2 (with_bufs B s)) (b + BPB)) as (r & s' & L' & V' & E3 & Hal & Hlen & Ht3 & F3);
      [done..|unfold BPB; lia|unfold BPB in *; dlia| |unfold BPB in *; cbn [sb with_bufs]; fold x; lia|].
    { intros b' Hb' Hs'. destruct (Z.lt_ge_cases b' b); [apply Hall; [lia|done]|]. simpl in Hs'.
      destruct (Hbb (b' - b)) as [E1' E2']; [lia|fold x in Hs'; lia|]. replace (b + (b' - b)) with b' in * by lia.
      unfold used. simpl. fold x. rewrite E1', E2'. apply Hbits; [lia|unfold balloc_fuel; lia|lia|fold x in Hs'; lia]. }
    exists r, s', L', V'. split; [exact E3|]. split; [done|]. split; [done|]. split; [done|].
    eapply tframe_trans; [apply (tframe_bufs s B)|]. eapply tframe_trans; [apply tframe_bufs|exact F3].
Qed.

Lemma balloc_run s :
  tx dev s L H V -> geo (sb s) (log s) -> budget (log s) L H 2 -> bitmap_ok (sb s) V -> locks_data (sb s) V H ->
  exists r s' L' V', balloc dev s = Ret r s' /\ allocated (sb s) V r V' /\
    (length L' <= length L + 2)%nat /\ tx dev s' L' H V' /\ tframe s s'.
Proof.
  intros Ht Hg Hbud Hbm HL. unfold balloc. mstep.
  apply balloc_loop_run; try done; [intros; lia|].
  destruct Hg as [H1 H2 H3 H4 H5 H6]. unfold BPB, LOGSIZE in *. 
  destruct (Z.lt_ge_cases (sb_size (sb s)) 0); dlia.
Qed.
End balloc.

Lemma alloc_view_facts x lg V r :
  geo x lg -> data_start x <= r < sb_size x ->
  let V' := alloc_view x V r in
  (forall b, 0 <= b < sb_size x -> used x V' b = (b =? r) || used x V b) /\
  (forall a, 0 <= a < BSIZE -> V' r a = 0) /\
  (forall b, b <> r -> b <> BBLOCK r x -> V' b = V b).
Proof.
  intros Hg Hr V'. destruct (data_start_pos x lg Hg) as (Hd1 & Hd2 & Hd3).
  assert (Hne : forall b, 0 <= b < sb_size x -> BBLOCK b x <> r).
  { intros b Hb. destruct (BBLOCK_small x lg b Hg Hb) as [-> ?]. lia. }
  split; [|split].
  - intros b Hb. unfold V', alloc_view. rewrite used_other by by apply Hne.
    apply (used_mark x lg); [done|lia|done].
  - intros a Ha. unfold V', alloc_view. rewrite upd_eq. apply fill_in. lia.
  - intros b H1 H2. unfold V', alloc_view. by rewrite !upd_ne.
Qed.

(** C30: balloc returns the lowest block the bitmap shows as free, marked as
    used and filled with zeroes, and changes nothing else on the disk; or 0, with
    the disk unchanged, when every block is used. *)
Theorem balloc_correct dev s L V :
  tx dev s L ∅ V -> geo (sb s) (log s) -> budget (log s) L ∅ 2 -> bitmap_ok (sb s) V ->
  exists r s' L' V', balloc dev s = Ret r s' /\ tx dev s' L' ∅ V' /\ tframe s s' /\
    ((r = 0 /\ V' = V /\ forall b, 0 <= b < sb_size (sb s) -> used (sb s) V b = true) \/
     (data_start (sb s) <= r < sb_size (sb s) /\
      used (sb s) V r = false /\ (forall b, 0 <= b < r -> used (sb s) V b = true) /\
      (forall b, 0 <= b < sb_size (sb s) -> used (sb s) V' b = (b =? r) || used (sb s) V b) /\
      (forall a, 0 <= a < BSIZE -> V' r a = 0) /\
      (forall b, b <> r -> b <> BBLOCK r (sb s) -> V' b = V b))).
Proof.
  intros Ht Hg Hbud Hbm.
  destruct (balloc_run dev L ∅ V s Ht Hg Hbud Hbm (locks_data_none _ _))
    as (r & s' & L' & V' & E & Hal & _ & Ht' & F).
  exists r, s', L', V'. split; [done|]. split; [done|]. split; [done|].
  destruct Hal as [?|(Hr & Hu & Hb & ->)]; [by left|right].
  destruct (alloc_view_facts (sb s) (log s) V r Hg Hr) as (H1 & H2 & H3).
  split_and!; try done; lia.
Qed.

Definition free_view (x : superblock) (V : Z -> block) (b : Z) : Z -> block :=
  upd V (BBLOCK b x) (clear_bit (V (BBLOCK b x)) (b mod BPB)).

Lemma bfree_run dev s L H V b :
  tx dev s L H V -> geo (sb s) (log s) -> budget (log s) L H 1 -> 0 <= b < sb_size (sb s) ->
  H !! BBLOCK b (sb s) = None -> used (sb s) V b = true ->
  exists s', bfree dev b s = Ret tt s' /\
    tx dev s' (add_block (BBLOCK b (sb s)) L) H (free_view (sb s) V b) /\ tframe s s'.
Proof.
  intros Ht Hg Hbud Hb HnH Hu. unfold bfree. mstep. set (x := sb s) in *.
  destruct (BBLOCK_small x (log s) b Hg Hb) as [Eb Hrb].
  assert (Hhome : home (log s) (BBLOCK b x)).
  { apply (geo_home x); [done|]. destruct Hg. unfold data_start in *. lia. }
  destruct (tx_bread Ht (BBLOCK b x) HnH) as (i & B & E & Ht1 & Hd); [right; unfold budget in Hbud; lia|].
  erewrite bind_ret by exact E. rewrite bind_gets. cbv beta. cbn [bufs with_bufs]. rewrite Hd.
  unfold used in Hu. rewrite Hu. cbn [negb].
  destruct (tx_finish Ht1 (BBLOCK b x) i (clear_bit (V (BBLOCK b x)) (b mod BPB))) as (s1 & E1 & Ht2 & F1);
    [apply lookup_insert_eq|done|by rewrite delete_insert_id|].
  rewrite delete_insert_id in Ht2 by done. exists s1. split; [exact E1|]. split; [done|].
  eapply tframe_trans; [apply tframe_bufs|exact F1].
Qed.

Lemma bfree_free_block dev s L H V b :
  tx dev s L H V -> geo (sb s) (log s) -> budget (log s) L H 1 -> 0 <= b < sb_size (sb s) ->
  H !! BBLOCK b (sb s) = None -> used (sb s) V b = false -> bfree dev b s = Panic "freeing free block".
Proof.
  intros Ht Hg Hbud Hb HnH Hu. unfold bfree. mstep.
  destruct (tx_bread Ht (BBLOCK b (sb s)) HnH) as (i & B & E & Ht1 & Hd); [right; unfold budget in Hbud; lia|].
  erewrite bind_ret by exact E. rewrite bind_gets. cbv beta. cbn [bufs with_bufs]. rewrite Hd.
  unfold used in Hu. by rewrite Hu.
Qed.

(** C31: bfree clears the bit of a used block, so that the bitmap is as before
    the block was allocated, and panics on a block that is free. *)
Theorem bfree_correct dev s L V b :
  tx dev s L ∅ V -> geo (sb s) (log s) -> budget (log s) L ∅ 1 -> 0 <= b < sb_size (sb s) ->
  if used (sb s) V b then
    exists s' L' V', bfree dev b s = Ret tt s' /\ tx dev s' L' ∅ V' /\ tframe s s' /\
      (forall b', 0 <= b' < sb_size (sb s) -> used (sb s) V' b' = negb (b' =? b) && used (sb s) V b') /\
      (forall b', b' <> BBLOCK b (sb s) -> V' b' = V b')
  else bfree dev b s = Panic "freeing free block".
Proof.
  intros Ht Hg Hbud Hb. destruct (used (sb s) V b) eqn:Hu.
  - destruct (bfree_run dev s L ∅ V b) as (s' & E & Ht' & F); [done..|].
    eexists s', _, (free_view (sb s) V b). split; [done|]. split; [done|]. split; [done|]. split.
    + intros b' Hb'. by apply (used_clear _ (log s)).
    + intros b' Hne. unfold free_view. by rewrite upd_ne.
  - by apply (bfree_free_block dev s L ∅ V).
Qed.
