(* ===== verification/FsInode.v ===== *)
(** Inodes of kernel/fs.c: the on-disk image, the inode table and its reference
    counts (iupdate, ilock, iget, idup, iunlock). *)

From S2P Require Import Prelude Mem Riscv Str Held Sleeplock FsState Bio View Log Txn Fs FsBlock.

(** ** The on-disk image of an inode *)
Record inode_wf (i : inode) : Prop := {
  iw_type : - 2 ^ 15 <= i_type i < 2 ^ 15;
  iw_major : - 2 ^ 15 <= i_major i < 2 ^ 15;
  iw_minor : - 2 ^ 15 <= i_minor i < 2 ^ 15;
  iw_nlink : - 2 ^ 15 <= i_nlink i < 2 ^ 15;
  iw_size : 0 <= i_size i < 2 ^ 32;
  iw_addrs : forall k, 0 <= k <= NDIRECT -> 0 <= i_addrs i k < 2 ^ 32
}.

Lemma i16_u16 v : - 2 ^ 15 <= v < 2 ^ 15 -> i16 (u16 v) = v.
Proof. intros. unfold i16, u16. dlia. Qed.

(** Loads at an address a store does not touch. *)
Lemma load16_store16_ne m a v b : b + 2 <= a \/ a + 2 <= b -> load16 (store16 m a v) b = load16 m b.
Proof. intros. apply load16_ext. intros. apply store16_out. lia. Qed.
Lemma load16_store32_ne m a v b : b + 2 <= a \/ a + 4 <= b -> load16 (store32 m a v) b = load16 m b.
Proof. intros. apply load16_ext. intros. apply store32_out. lia. Qed.
Lemma load32_store16_ne m a v b : b + 4 <= a \/ a + 2 <= b -> load32 (store16 m a v) b = load32 m b.
Proof. intros. apply load32_ext. intros. apply store16_out. lia. Qed.

(** The loop that stores the block addresses. *)
Definition put_addrs (d : block) (a : Z) (i : inode) (ks : list Z) : block :=
  foldl (fun d k => store32 d (di_addr a k) (i_addrs i k)) d ks.

Lemma put_addrs_out ks d a i y :
  (forall k, k ∈ ks -> y < di_addr a k \/ di_addr a k + 4 <= y) -> put_addrs d a i ks y = d y.
Proof.
  revert d; induction ks as [|k ks IH]; intros d Hy; simpl; [done|].
  rewrite IH by (intros; apply Hy; by right). apply store32_out. apply Hy. left.
Qed.

Lemma put_addrs_in ks d a i k :
  k ∈ ks -> NoDup ks -> load32 (put_addrs d a i ks) (di_addr a k) = u32 (i_addrs i k).
Proof.
  intros (k1 & k2 & ->)%list_elem_of_split (_ & _ & [Hk _]%NoDup_cons)%NoDup_app.
  unfold put_addrs. rewrite foldl_app. simpl.
  rewrite (load32_ext _ (store32 (foldl (fun d k => store32 d (di_addr a k) (i_addrs i k)) d k1) (di_addr a k) (i_addrs i k)));
    [apply load32_eq|].
  intros y Hy. apply (put_addrs_out k2). intros k' Hk'. unfold di_addr in *.
  assert (k' <> k) by congruence. lia.
Qed.

Lemma put_dinode_addrs d a i :
  exists d0, put_dinode d a i = put_addrs d0 a i (seqZ 0 (NDIRECT + 1)) /\
    (forall y, y < a \/ a + 12 <= y -> d0 y = d y) /\
    load16 d0 (di_type a) = u16 (i_type i) /\ load16 d0 (di_major a) = u16 (i_major i) /\
    load16 d0 (di_minor a) = u16 (i_minor i) /\ load16 d0 (di_nlink a) = u16 (i_nlink i) /\
    load32 d0 (di_size a) = u32 (i_size i).
Proof.
  exists (store32 (store16 (store16 (store16 (store16 d (di_type a) (i_type i)) (di_major a) (i_major i))
    (di_minor a) (i_minor i)) (di_nlink a) (i_nlink i)) (di_size a) (i_size i)).
  split; [unfold put_dinode, put_addrs; reflexivity|]. unfold di_type, di_major, di_minor, di_nlink, di_size.
  split; [intros y Hy; rewrite store32_out, !store16_out by lia; done|].
  split_and!; rewrite ?load16_store32_ne, ?load16_store16_ne, ?load16_eq, ?load32_eq by lia; done.
Qed.

Local Lemma put_dinode_low d a i d0 b n :
  put_dinode d a i = put_addrs d0 a i (seqZ 0 (NDIRECT + 1)) -> b + n <= a + 12 ->
  forall y, b <= y < b + n -> put_dinode d a i y = d0 y.
Proof.
  intros -> Hb y Hy. apply put_addrs_out. intros k Hk%elem_of_seqZ. unfold di_addr. lia.
Qed.

Lemma dinode_get_put d a i j :
  inode_wf i ->
  let i' := get_dinode (put_dinode d a i) a j in
  i_type i' = i_type i /\ i_major i' = i_major i /\ i_minor i' = i_minor i /\ i_nlink i' = i_nlink i /\
  i_size i' = i_size i /\ forall k, 0 <= k <= NDIRECT -> i_addrs i' k = i_addrs i k.
Proof.
  intros [Ht Hma Hmi Hn Hs Ha] i'. destruct (put_dinode_addrs d a i) as (d0 & E & _ & E1 & E2 & E3 & E4 & E5).
  pose proof (put_dinode_low d a i d0) as Hlow.
  unfold i'. cbn [get_dinode i_type i_major i_minor i_nlink i_size i_addrs].
  rewrite !(load16_ext (put_dinode d a i) d0), (load32_ext (put_dinode d a i) d0 (di_size a))
    by (apply Hlow; [done|unfold di_type, di_major, di_minor, di_nlink, di_size; lia]).
  rewrite E1, E2, E3, E4, E5, !i16_u16, u32_small by lia. do 5 (split; [reflexivity|]).
  intros k Hk. replace ((0 <=? k) && (k <=? NDIRECT)) with true by lia. rewrite E, put_addrs_in.
  - apply u32_small. by apply Ha.
  - apply elem_of_seqZ. lia.
  - apply NoDup_seqZ.
Qed.

Lemma dinode_other d a i y : y < a \/ a + DINODE <= y -> put_dinode d a i y = d y.
Proof.
  intros Hy. destruct (put_dinode_addrs d a i) as (d0 & E & Hout & _). rewrite E.
  rewrite put_addrs_out; [apply Hout; unfold DINODE in Hy; lia|].
  intros k Hk%elem_of_seqZ. unfold di_addr, DINODE, NDIRECT in *. lia.
Qed.

(** What iupdate stores in an inode's slot of its block, ilock reads
    back unchanged, and no other slot of the block changes. *)
Theorem dinode_roundtrip d inum i j :
  inode_wf i ->
  let d' := put_dinode d (dinode_at inum) i in
  let i' := get_dinode d' (dinode_at inum) j in
  (i_type i' = i_type i /\ i_major i' = i_major i /\ i_minor i' = i_minor i /\ i_nlink i' = i_nlink i /\
   i_size i' = i_size i /\ forall k, 0 <= k <= NDIRECT -> i_addrs i' k = i_addrs i k) /\
  (forall inum' y, inum' mod IPB <> inum mod IPB -> dinode_at inum' <= y < dinode_at inum' + DINODE -> d' y = d y) /\
  0 <= dinode_at inum /\ dinode_at inum + DINODE <= BSIZE.
Proof.
  intros Hi d' i'. split; [by apply dinode_get_put|]. split.
  - intros inum' y Hne Hy. apply dinode_other. unfold dinode_at, DINODE, IPB in *. dlia.
  - unfold dinode_at, DINODE, IPB, BSIZE. dlia.
Qed.

(** ** The inode table *)
Definition islot (i : Z) : Prop := 0 <= i < NINODE.

(** Entry [ip] is in use for inode [inum]. *)
Definition is_entry (t : Z -> inode) (dev inum ip : Z) : bool :=
  (0 <? i_ref (t ip)) && (i_dev (t ip) =? dev) && (i_inum (t ip) =? inum).

(** At most one entry per inode, and no negative reference count. *)
Record itab_ok (t : Z -> inode) : Prop := {
  it_ref : forall i, islot i -> 0 <= i_ref (t i);
  it_uniq : forall dev inum i j, islot i -> islot j -> is_entry t dev inum i = true -> is_entry t dev inum j = true -> i = j
}.

Lemma iget_scan_spec fuel t dev inum ip empty :
  let hi := ip + Z.of_nat fuel in
  match iget_scan fuel t dev inum ip empty with
  | inl r => ip <= r < hi /\ is_entry t dev inum r = true
  | inr e => (forall j, ip <= j < hi -> is_entry t dev inum j = false) /\
      match empty with
      | Some _ => e = empty
      | None => match e with
                | Some r => ip <= r < hi /\ i_ref (t r) = 0 /\ forall j, ip <= j < r -> i_ref (t j) <> 0
                | None => forall j, ip <= j < hi -> i_ref (t j) <> 0
                end
      end
  end.
Proof.
  revert ip empty; induction fuel as [|fuel IH]; intros ip empty hi; cbn [iget_scan].
  { split; [intros; lia|]. destruct empty; [done|intros; lia]. }
  fold (is_entry t dev inum ip). destruct (is_entry t dev inum ip) eqn:E; [split; [lia|done]|].
  set (e1 := match empty with None => _ | Some _ => _ end).
  specialize (IH (ip + 1) e1). cbv zeta in IH. destruct (iget_scan fuel t dev inum (ip + 1) e1) as [r|e].
  - split; [lia|tauto].
  - destruct IH as [Hn He]. split.
    + intros j Hj. destruct (decide (j = ip)) as [->|]; [done|]. apply Hn. lia.
    + unfold e1 in He. destruct empty as [x|]; [done|].
      destruct (Z.eqb_spec (i_ref (t ip)) 0) as [E0|E0].
      * rewrite He. split; [lia|]. split; [done|]. intros; lia.
      * destruct e as [r|].
        -- destruct He as (H1 & H2 & H3). split; [lia|]. split; [done|].
           intros j Hj. destruct (decide (j = ip)) as [->|]; [done|]. apply H3. lia.
        -- intros j Hj. destruct (decide (j = ip)) as [->|]; [done|]. apply He. lia.
Qed.

(** Changing one entry. *)
Lemma upd_itable_ok t ip i :
  itab_ok t -> islot ip -> 0 <= i_ref i ->
  (forall dev inum j, islot j -> j <> ip -> 0 < i_ref i -> i_dev i = dev -> i_inum i = inum -> is_entry t dev inum j = false) ->
  itab_ok (upd t ip i).
Proof.
  intros [Hr Hu] Hip Hi Hn. split.
  - intros j Hj. rewrite upd_case. case_decide; auto.
  - intros dev inum j k Hj Hk. unfold is_entry. rewrite !upd_case.
    case_decide as Ej; case_decide as Ek; subst; try done; intros H1 H2.
    + assert (is_entry t dev inum k = false) by (apply Hn; try done; lia). unfold is_entry in *. congruence.
    + assert (is_entry t dev inum j = false) by (apply Hn; try done; lia). unfold is_entry in *. congruence.
    + by eapply (Hu dev inum).
Qed.

(** What iget does, by the state of the table. *)
Definition iget_result (s : fsst) (dev inum : Z) (r : result fsst Z) : Prop :=
  (exists ip, islot ip /\ is_entry (itable s) dev inum ip = true /\
     r = Ret ip (set_ino ip (fun i => set_iref (i_ref i + 1) i) s)) \/
  ((forall j, islot j -> is_entry (itable s) dev inum j = false) /\
   ((exists ip, islot ip /\ i_ref (itable s ip) = 0 /\ (forall j, 0 <= j < ip -> i_ref (itable s j) <> 0) /\
       r = Ret ip (set_ino ip (set_ikey dev inum) s)) \/
    ((forall j, islot j -> i_ref (itable s j) <> 0) /\ r = Panic "iget: no inodes"))).

Lemma iget_run s dev inum : LItable ∉ f_held s -> iget_result s dev inum (iget dev inum s).
Proof.
  intros Hh. unfold iget, iget_result. erewrite bind_ret by by apply acquire_run. mstep. cbn [itable put_held fs_held with_held].
  pose proof (iget_scan_spec (Z.to_nat NINODE) (itable s) dev inum 0 None) as Hs.
  destruct (iget_scan _ _ _ _ _ _) as [ip|[ip|]]; cbv zeta in Hs.
  - destruct Hs as [Hr He]. left. exists ip. split; [unfold islot; lia|]. split; [done|]. mstep.
    by erewrite bind_ret by (apply release_run; [done|exact Hh]).
  - destruct Hs as [Hn (H1 & H2 & H3)]. right. split; [intros j Hj; apply Hn; unfold islot in Hj; lia|].
    left. exists ip. split; [unfold islot; lia|]. split; [done|]. split; [done|]. mstep.
    by erewrite bind_ret by (apply release_run; [done|exact Hh]).
  - destruct Hs as [Hn Ha]. right. split; [intros j Hj; apply Hn; unfold islot in Hj; lia|].
    right. split; [|done]. intros j Hj. apply Ha. unfold islot in Hj. lia.
Qed.

(** Iget returns the entry of the inode when the table has one, with one
    more reference, and otherwise recycles the first free entry, or panics; the
    table keeps at most one entry per inode, whatever is asked for. *)
Theorem iget_correct s dev inum :
  LItable ∉ f_held s -> itab_ok (itable s) ->
  iget_result s dev inum (iget dev inum s) /\
  forall ip s', iget dev inum s = Ret ip s' ->
    itab_ok (itable s') /\ is_entry (itable s') dev inum ip = true /\
    (forall j, j <> ip -> itable s' j = itable s j).
Proof.
  intros Hh Ht. pose proof (iget_run s dev inum Hh) as Hr. split; [done|].
  intros ip s' E. rewrite E in Hr.
  destruct Hr as [(ip' & Hi & He & [= <- ->])|[Hn [(ip' & Hi & He & _ & [= <- ->])|[_ ?]]]]; [| |done].
  - unfold set_ino. cbn [itable with_itable]. split_and!.
    + apply upd_itable_ok; [done|done|pose proof (it_ref _ Ht ip Hi); simpl; lia|].
      simpl. intros dev' inum' j Hj Hne _ <- <-. unfold is_entry in He. apply not_true_iff_false.
      intros He'. apply Hne. eapply (it_uniq _ Ht); [done|done|exact He'|]. unfold is_entry. lia.
    + unfold is_entry in *. rewrite upd_eq. simpl. lia.
    + intros j Hj. by rewrite upd_ne.
  - unfold set_ino. cbn [itable with_itable]. split_and!.
    + apply upd_itable_ok; [done|done|simpl; lia|]. simpl. intros dev' inum' j Hj _ _ <- <-. auto.
    + unfold is_entry. rewrite upd_eq. simpl. lia.
    + intros j Hj. by rewrite upd_ne.
Qed.
