(* ===== verification/FsFile.v ===== *)
(** File contents in kernel/fs.c: bmap, readi and writei.

    A file is a sequence of blocks: the first NDIRECT listed in the inode, the
    rest in the indirect block.  [faddr V i p] is the disk block of its [p]-th
    block on view [V], 0 when it has none; [content V i o] is the byte at offset
    [o]. *)

From S2P Require Import Prelude Mem Riscv Str Held Sleeplock FsState Bio View Log Txn Fs FsBlock FsInode.

(** Position MAXFILE stands for the indirect block itself. *)
Definition faddr (V : Z -> block) (i : inode) (p : Z) : Z :=
  if p =? MAXFILE then i_addrs i NDIRECT
  else if p <? NDIRECT then i_addrs i p
  else if i_addrs i NDIRECT =? 0 then 0
  else load32 (V (i_addrs i NDIRECT)) (4 * (p - NDIRECT)).

Definition content (V : Z -> block) (i : inode) (o : Z) : Z := V (faddr V i (o / BSIZE)) (o mod BSIZE).

(** The blocks of a file are data blocks in use, all different. *)
Record file_ok (x : superblock) (V : Z -> block) (i : inode) : Prop := {
  fo_data : forall p, 0 <= p <= MAXFILE -> faddr V i p <> 0 ->
    data_start x <= faddr V i p < sb_size x /\ used x V (faddr V i p) = true;
  fo_inj : forall p q, 0 <= p <= MAXFILE -> 0 <= q <= MAXFILE ->
    faddr V i p = faddr V i q -> faddr V i p <> 0 -> p = q
}.

(** ** States that differ outside the cache and the log *)
Lemma tx_ext dev s s' L H V :
  bufs s' = bufs s -> disk s' = disk s -> f_pid s' = f_pid s -> f_held s' = f_held s -> log s' = log s ->
  tx dev s L H V -> tx dev s' L H V.
Proof.
  intros Eb Ed Ep Eh El [H1 H2 H3 H4 H5 H6 H7 H8]. split; rewrite ?El, ?Ed, ?Eh; try done.
  apply (view_ext _ s); try done. rewrite Eh. by apply (view_free _ _ _ _ _ H4).
Qed.

(** Reading changes buffers and the memory read into. *)
Definition rframe (s s' : fsst) : Prop := exists B k u, s' = with_mems k u (with_bufs B s).

Lemma rframe_trans s1 s2 s3 : rframe s1 s2 -> rframe s2 s3 -> rframe s1 s3.
Proof. intros (B & k & u & ->) (B' & k' & u' & ->). by exists B', k', u'. Qed.
Lemma rframe_bufs s B : rframe s (with_bufs B s).
Proof. exists B, (f_kmem s), (f_umem s). by destruct s. Qed.
Lemma rframe_mems s k u : rframe s (with_mems k u s).
Proof. exists (bufs s), k, u. by destruct s. Qed.
Lemma rframe_refl s : rframe s s.
Proof. exists (bufs s), (f_kmem s), (f_umem s). by destruct s. Qed.

(** ** bmap of a block the file has *)
Lemma bmap_mapped dev s L V ip bn :
  let i := itable s ip in
  tx dev s L ∅ V -> i_dev i = dev -> 0 <= bn < MAXFILE -> faddr V i bn <> 0 -> Z.of_nat (length L) < NBUF ->
  exists B, bmap ip bn s = Ret (faddr V i bn) (with_bufs B s) /\ tx dev (with_bufs B s) L ∅ V.
Proof.
  intros i Ht Hdev Hbn Hf Hroom. unfold bmap, ino. mstep. fold i. unfold faddr in Hf |- *.
  destruct (Z.eqb_spec bn MAXFILE); [lia|]. destruct (Z.ltb_spec bn NDIRECT) as [Hd|Hd].
  - destruct (Z.eqb_spec (i_addrs i bn) 0); [done|]. cbn [negb]. exists (bufs s). by destruct s.
  - destruct (Z.ltb_spec (bn - NDIRECT) NINDIRECT) as [Hn|Hn]; [|unfold MAXFILE, NDIRECT, NINDIRECT in *; lia].
    destruct (Z.eqb_spec (i_addrs i NDIRECT) 0) as [?|Hz]; [done|]. cbn [negb]. mstep.
    destruct (Z.eqb_spec (i_addrs i NDIRECT) 0) as [?|_]; [done|]. rewrite Hdev.
    destruct (tx_bread Ht (i_addrs i NDIRECT)) as (j & B & E & Ht1 & Hdat); [done|right; rewrite map_size_empty; lia|].
    erewrite bind_ret by exact E. mstep. cbn [bufs with_bufs]. rewrite Hdat.
    destruct (Z.eqb_spec (load32 (V (i_addrs i NDIRECT)) (4 * (bn - NDIRECT))) 0); [done|]. cbn [negb]. mstep.
    destruct (tx_brelse Ht1 (i_addrs i NDIRECT) j) as (B2 & E2 & Ht2); [apply lookup_insert_eq|].
    erewrite bind_ret by exact E2. exists B2. split; [done|]. by rewrite delete_insert_id in Ht2.
Qed.

(** ** readi *)
Definition dmem (user : bool) (s : fsst) : mem := if user then f_umem s else f_kmem s.

Section user.
Context {U : UserMem} {UL : UserMemLaws}.

Lemma either_copyout_run user dst d off len s :
  exists r k u, either_copyout user dst d off len s = Ret r (with_mems k u s) /\
    ((r = -1 /\ user = true) \/
     (r = 0 /\ (forall a, dmem user (with_mems k u s) a =
                  if (dst <=? a) && (a <? dst + len) then d (off + (a - dst)) else dmem user s a) /\
      dmem (negb user) (with_mems k u s) = dmem (negb user) s)).
Proof.
  unfold either_copyout. mstep. unfold id. destruct user.
  - destruct (ucopyout (f_umem s) dst (fun i => d (off + i)) len) as [m ok] eqn:E. mstep.
    eexists _, _, _. split; [reflexivity|]. destruct ok; [right|by left].
    split; [done|]. split; [|done]. intros a. exact (ucopyout_ok _ _ _ _ _ E a).
  - mstep. eexists _, _, _. split; [reflexivity|]. right. done.
Qed.

(** The blocks of the byte range [off, off + n) exist. *)
Definition mapped (V : Z -> block) (i : inode) (off n : Z) : Prop :=
  forall o, off <= o < off + n -> faddr V i (o / BSIZE) <> 0.

Lemma readi_loop_run dev L V ip user fuel s dst off n tot :
  let i := itable s ip in
  tx dev s L ∅ V -> i_dev i = dev -> Z.of_nat (length L) < NBUF ->
  0 <= off -> 0 <= tot <= n -> off + (n - tot) <= MAXFILE * BSIZE -> mapped V i off (n - tot) ->
  tot = n \/ off mod BSIZE + (n - tot) <= BSIZE * Z.of_nat fuel ->
  exists r s', readi_loop fuel ip user dst off n tot s = Ret r s' /\ tx dev s' L ∅ V /\ rframe s s' /\
    ((r = -1 /\ user = true) \/
     (r = n /\ (forall a, dmem user s' a =
        if (dst <=? a) && (a <? dst + (n - tot)) then content V i (off + (a - dst)) else dmem user s a) /\
      dmem (negb user) s' = dmem (negb user) s)).
Proof.
  revert s dst off tot; induction fuel as [|fuel IH]; intros s dst off tot i Ht Hdev Hroom Hoff Htot Hmax Hmap Hfuel.
  { assert (tot = n) as -> by (destruct Hfuel; [done|unfold BSIZE in *; dlia]). cbn [readi_loop]. rewrite Z.ltb_irrefl. cbn [negb].
    exists n, s. split; [done|]. split; [done|]. split; [apply rframe_refl|]. right. split; [done|].
    split; [|done]. intros a. rewrite Z.sub_diag. destruct (Z.leb_spec dst a), (Z.ltb_spec a (dst + 0)); done || lia. }
  cbn [readi_loop]. destruct (Z.ltb_spec tot n) as [Hlt|Hge]; cbn [negb].
  2:{ exists tot, s. split; [done|]. split; [done|]. split; [apply rframe_refl|]. right. split; [lia|].
      split; [|done]. intros a. replace (n - tot) with 0 by lia.
      destruct (Z.leb_spec dst a), (Z.ltb_spec a (dst + 0)); done || lia. }
  destruct (bmap_mapped dev s L V ip (off / BSIZE) Ht Hdev) as (B & E & Ht1);
    [unfold BSIZE, MAXFILE in *; dlia|apply Hmap; lia|done|]. fold i in E.
  erewrite bind_ret by exact E. pose proof (Hmap off) as Hf. destruct (Z.eqb_spec (faddr V i (off / BSIZE)) 0); [lia|].
  unfold ino. rewrite bind_gets. cbv beta. cbn [itable with_bufs]. fold i. rewrite Hdev.
  destruct (tx_bread Ht1 (faddr V i (off / BSIZE))) as (j & B2 & E2 & Ht2 & Hd2);
    [done|right; rewrite map_size_empty; lia|].
  erewrite bind_ret by exact E2. cbv zeta. rewrite bind_gets. cbv beta. cbn [bufs with_bufs]. rewrite Hd2.
  set (m := Z.min (n - tot) (BSIZE - off mod BSIZE)). set (s2 := with_bufs B2 (with_bufs B s)).
  destruct (either_copyout_run user dst (V (faddr V i (off / BSIZE))) (off mod BSIZE) m s2) as (r & k & u & E3 & Hr).
  erewrite bind_ret by exact E3. set (s3 := with_mems k u s2) in *.
  assert (Ht3 : tx dev s3 L (<[faddr V i (off / BSIZE) := j]> ∅) V) by (apply (tx_ext _ s2); done).
  destruct (tx_brelse Ht3 (faddr V i (off / BSIZE)) j) as (B4 & E4 & Ht4); [apply lookup_insert_eq|].
  rewrite delete_insert_id in Ht4 by done.
  assert (F : rframe s (with_bufs B4 s3)).
  { eapply rframe_trans; [apply (rframe_bufs s B)|]. eapply rframe_trans; [apply (rframe_bufs _ B2)|].
    eapply rframe_trans; [apply (rframe_mems _ k u)|apply rframe_bufs]. }
  destruct Hr as [[-> Hu]|(-> & Hm & Ho)].
  { change (-1 =? -1) with true. cbv iota. erewrite bind_ret by exact E4. eexists _, _. split; [reflexivity|]. split; [done|]. split; [done|].
    by left. }
  change (0 =? -1) with false. cbv iota. erewrite bind_ret by exact E4.
  assert (Hmr : 0 < m <= n - tot /\ m <= BSIZE - off mod BSIZE) by (unfold m, BSIZE; dlia).
  assert (Hnext : n - (tot + m) = 0 \/ (off + m) mod BSIZE = 0) by (unfold m, BSIZE in *; dlia).
  destruct (IH (with_bufs B4 s3) (dst + m) (off + m) (tot + m)) as (r & s' & E5 & Ht5 & F5 & Hr5);
    [done|done|done|lia|lia|lia| | |].
  - intros o Hoo. apply Hmap. lia.
  - destruct Hnext as [Hz|Hz]; [left; lia|right]. rewrite Hz. unfold BSIZE in *; dlia.
  - exists r, s'. split; [exact E5|]. split; [done|]. split; [eapply rframe_trans; [exact F|exact F5]|].
    destruct Hr5 as [?|(-> & Hm5 & Ho5)]; [by left|right]. split; [done|]. split; [|by rewrite Ho5].
    intros a. rewrite Hm5. change (dmem user (with_bufs B4 s3) a) with (dmem user s3 a). rewrite Hm.
    change (itable (with_bufs B4 s3) ip) with i. change (dmem user s2 a) with (dmem user s a).
    replace (off + m + (a - (dst + m))) with (off + (a - dst)) by lia.
    destruct (Z.leb_spec (dst + m) a), (Z.ltb_spec a (dst + m + (n - (tot + m)))), (Z.leb_spec dst a),
      (Z.ltb_spec a (dst + m)), (Z.ltb_spec a (dst + (n - tot))); cbn [andb]; try lia; try done.
    unfold content. replace ((off + (a - dst)) / BSIZE) with (off / BSIZE) by (unfold BSIZE in *; dlia).
    f_equal. unfold BSIZE in *; dlia.
Qed.

End user.
