(* ===== verification/FsWrite.v ===== *)
(** Growing and writing files in kernel/fs.c: bmap when it has to allocate, and
    writei. *)

From S2P Require Import Prelude Mem Riscv Str Held Sleeplock FsState Bio View Log Txn Fs FsBlock FsInode FsFile.

(** ** A file gets one more block *)
Section grow.
Context (x : superblock) (lg : logst) (V : Z -> block) (i : inode).
Hypothesis Hg : geo x lg.
Hypothesis Hf : file_ok x V i.

(** If the new position [p] has block [r], which was free, and nothing else of the
    file's map changes, the file stays well-formed. *)
Lemma file_ok_extend V' i' p r :
  0 <= p <= MAXFILE -> data_start x <= r < sb_size x -> used x V r = false ->
  (forall b, 0 <= b < sb_size x -> used x V' b = (b =? r) || used x V b) ->
  faddr V' i' p = r -> (forall q, 0 <= q <= MAXFILE -> q <> p -> faddr V' i' q = faddr V i q) ->
  file_ok x V' i'.
Proof.
  intros Hp Hr Hu Hu' Ep Hq. destruct (data_start_pos x lg Hg) as (_ & Hd & _). destruct Hf as [Hdata Hinj].
  assert (Hold : forall q, 0 <= q <= MAXFILE -> faddr V i q <> r).
  { intros q Hq0 E. destruct (Hdata q Hq0) as [_ Hq']; [lia|]. congruence. }
  split.
  - intros q Hq0 Hne. destruct (decide (q = p)) as [->|Hqp].
    + rewrite Ep. split; [done|]. rewrite Hu', Z.eqb_refl by lia. done.
    + rewrite Hq in * by done. destruct (Hdata q Hq0 Hne) as [H1 H2]. split; [done|].
      rewrite Hu', H2, orb_true_r by lia. done.
  - intros q1 q2 H1 H2 E Hne. destruct (decide (q1 = p)) as [->|Hq1], (decide (q2 = p)) as [->|Hq2]; [done|..].
    + rewrite Ep, Hq in E by done. by destruct (Hold q2 H2).
    + rewrite Ep, Hq in E by done. by destruct (Hold q1 H1).
    + rewrite !Hq in * by done. eauto.
Qed.

Local Lemma ind_facts :
  i_addrs i NDIRECT <> 0 -> data_start x <= i_addrs i NDIRECT < sb_size x /\ used x V (i_addrs i NDIRECT) = true.
Proof. intros Hne. apply (fo_data _ _ _ Hf MAXFILE); [unfold MAXFILE; lia|done]. Qed.

(** Allocation keeps every block in use but the bitmap. *)
Lemma alloc_view_keep r b :
  data_start x <= r < sb_size x -> used x V r = false -> 0 <= b -> used x V b = true ->
  data_start x <= b \/ b < sb_bmapstart x -> alloc_view x V r b = V b.
Proof.
  intros Hr Hu Hb Hub Hor. apply (alloc_view_facts x lg V r Hg Hr); [congruence|].
  destruct (BBLOCK_small x lg r Hg) as [E Hbb]; [pose proof (data_start_pos x lg Hg); lia|].
  unfold BBLOCK in *. intros ->. rewrite E in Hor.
  assert (0 <= r / BPB) by (unfold BPB; apply Z.div_pos; pose proof (data_start_pos x lg Hg); lia). lia.
Qed.

(** A block listed in the inode itself: [k] is its index there, [p] its position. *)
Lemma file_alloc_slot r k p :
  data_start x <= r < sb_size x -> used x V r = false -> i_addrs i k = 0 ->
  (0 <= k < NDIRECT /\ p = k) \/ (k = NDIRECT /\ p = MAXFILE) ->
  let V' := alloc_view x V r in let i' := set_iaddr k r i in
  file_ok x V' i' /\ faddr V' i' p = r /\ (forall q, 0 <= q <= MAXFILE -> q <> p -> faddr V' i' q = faddr V i q).
Proof.
  intros Hr Hu Hk Hp V' i'. destruct (alloc_view_facts x lg V r Hg Hr) as (Hu' & Hz & Hsame). fold V' in Hu', Hz, Hsame.
  assert (Ep : faddr V' i' p = r).
  { unfold faddr, i'. simpl. destruct Hp as [[? ->]|[-> ->]].
    - destruct (Z.eqb_spec k MAXFILE); [unfold MAXFILE, NDIRECT in *; lia|].
      destruct (Z.ltb_spec k NDIRECT); [|lia]. apply upd_eq.
    - rewrite Z.eqb_refl. apply upd_eq. }
  assert (Hq : forall q, 0 <= q <= MAXFILE -> q <> p -> faddr V' i' q = faddr V i q).
  { intros q Hq0 Hqp. unfold faddr, i'. simpl. destruct Hp as [[Hk0 ->]|[-> ->]].
    - rewrite (upd_ne _ k NDIRECT) by lia. destruct (q =? MAXFILE); [done|].
      destruct (q <? NDIRECT); [by rewrite upd_ne|]. destruct (Z.eqb_spec (i_addrs i NDIRECT) 0) as [|Hne]; [done|].
      destruct (ind_facts Hne) as [H1 H2]. unfold V'. by rewrite alloc_view_keep by (done || lia || (pose proof (data_start_pos x lg Hg); lia)).
    - destruct (Z.eqb_spec q MAXFILE); [done|]. destruct (Z.ltb_spec q NDIRECT) as [|Hge]; [by rewrite upd_ne by lia|].
      rewrite upd_eq, Hk. rewrite Z.eqb_refl. destruct (Z.eqb_spec r 0); [done|].
      unfold V', alloc_view. rewrite upd_eq. apply load32_fill_zero; unfold NDIRECT, MAXFILE, BSIZE in *; lia. }
  split; [|done]. apply (file_ok_extend V' i' p r); try done.
  destruct Hp as [[? ->]|[-> ->]]; unfold MAXFILE, NDIRECT in *; lia.
Qed.

(** A block listed in the indirect block. *)
Lemma file_alloc_entry r p :
  let ind := i_addrs i NDIRECT in
  data_start x <= r < sb_size x -> used x V r = false -> NDIRECT <= p < MAXFILE -> ind <> 0 -> faddr V i p = 0 ->
  let V' := upd (alloc_view x V r) ind (store32 (alloc_view x V r ind) (4 * (p - NDIRECT)) r) in
  file_ok x V' i /\ faddr V' i p = r /\ (forall q, 0 <= q <= MAXFILE -> q <> p -> faddr V' i q = faddr V i q) /\
  (forall b, 0 <= b < sb_size x -> used x V' b = (b =? r) || used x V b).
Proof.
  intros ind Hr Hu Hp Hne H0 V'. destruct (alloc_view_facts x lg V r Hg Hr) as (Hu' & Hz & Hsame).
  destruct (ind_facts Hne) as [Hi1 Hi2]. fold ind in Hi1, Hi2.
  destruct (data_start_pos x lg Hg) as (Hd1 & Hd2 & Hd3).
  assert (Ei : alloc_view x V r ind = V ind) by (apply alloc_view_keep; done || lia).
  assert (HuV : forall b, 0 <= b < sb_size x -> used x V' b = (b =? r) || used x V b).
  { intros b Hb. unfold V'. rewrite used_other; [auto|]. destruct (BBLOCK_small x lg b Hg Hb) as [-> ?]. lia. }
  assert (Hfa : forall q, NDIRECT <= q < MAXFILE -> faddr V' i q = if q =? p then r else faddr V i q).
  { intros q Hq. unfold faddr. destruct (Z.eqb_spec q MAXFILE); [lia|]. destruct (Z.ltb_spec q NDIRECT); [lia|].
    fold ind. destruct (Z.eqb_spec ind 0); [done|]. unfold V'. rewrite upd_eq, Ei.
    destruct (Z.eqb_spec q p) as [->|Hqp]; [rewrite load32_eq; apply u32_small; destruct Hg; lia|].
    apply load32_ne. lia. }
  assert (Ep : faddr V' i p = r) by (rewrite Hfa, Z.eqb_refl by done; done).
  assert (Hq : forall q, 0 <= q <= MAXFILE -> q <> p -> faddr V' i q = faddr V i q).
  { intros q Hq0 Hqp. destruct (Z.lt_ge_cases q NDIRECT).
    - unfold faddr. destruct (Z.eqb_spec q MAXFILE); [done|]. destruct (Z.ltb_spec q NDIRECT); [done|lia].
    - destruct (decide (q = MAXFILE)) as [->|]; [unfold faddr; by rewrite Z.eqb_refl|].
      rewrite Hfa by lia. by destruct (Z.eqb_spec q p). }
  split; [|done]. apply (file_ok_extend V' i p r); try done. unfold NDIRECT in *. lia.
Qed.
End grow.

(** ** What growing a file leaves alone *)
Record grows (x : superblock) (V : Z -> block) (i : inode) (V' : Z -> block) (i' : inode) : Prop := {
  gw_map : forall q, 0 <= q <= MAXFILE -> faddr V i q <> 0 -> faddr V' i' q = faddr V i q;
  gw_new : forall q, 0 <= q <= MAXFILE -> faddr V' i' q <> 0 ->
    faddr V' i' q = faddr V i q \/ used x V (faddr V' i' q) = false;
  gw_used : forall b, 0 <= b < sb_size x -> used x V b = true -> used x V' b = true;
  gw_other : forall b, data_start x <= b < sb_size x -> used x V b = true ->
    (forall q, 0 <= q <= MAXFILE -> faddr V i q <> b) -> V' b = V b;
  gw_ino : forall b, sb_inodestart x <= b < sb_bmapstart x -> V' b = V b
}.

Lemma grows_refl x V i : grows x V i V i.
Proof. split; auto. Qed.

Lemma grows_trans x lg V1 i1 V2 i2 V3 i3 :
  geo x lg -> file_ok x V2 i2 -> file_ok x V3 i3 -> grows x V1 i1 V2 i2 -> grows x V2 i2 V3 i3 -> grows x V1 i1 V3 i3.
Proof.
  intros Hg Hf2 Hf3 [A1 A2 A3 A4 A5] [B1 B2 B3 B4 B5]. destruct (data_start_pos x lg Hg) as (_ & Hd & _). split.
  - intros q Hq Hne. rewrite B1; [auto|done|by rewrite A1].
  - intros q Hq Hne. destruct (B2 q Hq Hne) as [E|Hu].
    + rewrite E in *. auto.
    + right. destruct (used x V1 (faddr V3 i3 q)) eqn:E; [|done].
      apply A3 in E; [congruence|]. destruct (fo_data _ _ _ Hf3 q Hq Hne). lia.
  - auto.
  - intros b Hb Hu Hq. rewrite B4; [auto|done|apply A3; [lia|done]|].
    intros q Hq0 E. destruct (A2 q Hq0) as [E'|E']; [lia|by apply (Hq q Hq0); congruence|congruence].
  - intros b Hb. rewrite B5 by done. auto.
Qed.

Definition meta_same (i i' : inode) : Prop :=
  i_dev i' = i_dev i /\ i_inum i' = i_inum i /\ i_ref i' = i_ref i /\ i_lock i' = i_lock i /\ i_valid i' = i_valid i /\
  i_type i' = i_type i /\ i_major i' = i_major i /\ i_minor i' = i_minor i /\ i_nlink i' = i_nlink i.

Lemma meta_same_refl i : meta_same i i.
Proof. done. Qed.
Lemma meta_same_trans i1 i2 i3 : meta_same i1 i2 -> meta_same i2 i3 -> meta_same i1 i3.
Proof. unfold meta_same. intuition congruence. Qed.

(** Writing to the file of inode [ip] changes the cache, the log and that inode. *)
Definition wframe (ip : Z) (s s' : fsst) : Prop :=
  exists B lg t, s' = with_itable t (with_log lg (with_bufs B s)) /\ same_area (log s) lg /\
    (forall j, j <> ip -> t j = itable s j) /\ meta_same (itable s ip) (t ip).

Lemma wframe_t ip s s' : tframe s s' -> wframe ip s s'.
Proof. intros (B & lg & -> & Ha). exists B, lg, (itable s). by destruct s. Qed.
Lemma wframe_trans ip s1 s2 s3 : wframe ip s1 s2 -> wframe ip s2 s3 -> wframe ip s1 s3.
Proof.
  intros (B & lg & t & -> & Ha & Ht & Hm) (B' & lg' & t' & -> & Ha' & Ht' & Hm'). simpl in *.
  exists B', lg', t'. split; [done|]. split; [by eapply same_area_trans|]. split; [|by eapply meta_same_trans].
  intros j Hj. rewrite Ht' by done. auto.
Qed.
Lemma wframe_ino ip s f : meta_same (itable s ip) (f (itable s ip)) -> wframe ip s (set_ino ip f s).
Proof.
  intros Hm. exists (bufs s), (log s), (upd (itable s) ip (f (itable s ip))). split; [by destruct s|].
  split; [done|]. split; [intros; by rewrite upd_ne|by rewrite upd_eq].
Qed.

Record fs_ok (dev ip : Z) (s : fsst) (L : list Z) (V : Z -> block) : Prop := {
  fk_tx : tx dev s L ∅ V;
  fk_geo : geo (sb s) (log s);
  fk_bitmap : bitmap_ok (sb s) V;
  fk_file : file_ok (sb s) V (itable s ip);
  fk_dev : i_dev (itable s ip) = dev
}.

(** What looking up or adding block [bn] of a file promises: the state after it,
    with at most [c] more blocks logged, the blocks of the file, and the outcome
    [a]: the block, or 0 because every block of the disk is in use. *)
Record bmapped (c : nat) (dev ip bn : Z) (s : fsst) (L : list Z) (V : Z -> block) (a : Z) (s' : fsst) (L' : list Z)
    (V' : Z -> block) : Prop := {
  bm_ok : fs_ok dev ip s' L' V';
  bm_len : (length L' <= length L + c)%nat;
  bm_frame : wframe ip s s';
  bm_size : i_size (itable s' ip) = i_size (itable s ip);
  bm_grows : grows (sb s) V (itable s ip) V' (itable s' ip);
  bm_same : forall q, 0 <= q < MAXFILE -> q <> bn -> faddr V' (itable s' ip) q = faddr V (itable s ip) q;
  bm_data : forall q, 0 <= q < MAXFILE -> faddr V (itable s ip) q <> 0 ->
    V' (faddr V (itable s ip) q) = V (faddr V (itable s ip) q);
  bm_result :
    (a = 0 /\ faddr V (itable s ip) bn = 0 /\ faddr V' (itable s' ip) bn = 0 /\
     forall b, 0 <= b < sb_size (sb s) -> used (sb s) V' b = true) \/
    (a <> 0 /\ faddr V' (itable s' ip) bn = a /\
     (faddr V (itable s ip) bn = 0 -> forall o, 0 <= o < BSIZE -> V' a o = 0))
}.

Lemma wframe_refl ip s : wframe ip s s.
Proof. apply wframe_t, tframe_refl. Qed.
Lemma wframe_sb ip s s' : wframe ip s s' -> sb s' = sb s.
Proof. by intros (B & lg & t & -> & _). Qed.
Lemma wframe_area ip s s' : wframe ip s s' -> same_area (log s) (log s').
Proof. by intros (B & lg & t & -> & ? & _). Qed.

(** Nothing to allocate. *)
Lemma bmapped_found c dev ip bn s L V B :
  fs_ok dev ip s L V -> tx dev (with_bufs B s) L ∅ V -> faddr V (itable s ip) bn <> 0 ->
  bmapped c dev ip bn s L V (faddr V (itable s ip) bn) (with_bufs B s) L V.
Proof.
  intros [] Ht Hne. split; try done; [lia|apply wframe_t, tframe_bufs|apply grows_refl|by right].
Qed.

(** No block left. *)
Lemma bmapped_full c dev ip bn s L V s' L' :
  fs_ok dev ip s L V -> tx dev s' L' ∅ V -> tframe s s' -> (length L' <= length L + c)%nat ->
  faddr V (itable s ip) bn = 0 -> (forall b, 0 <= b < sb_size (sb s) -> used (sb s) V b = true) ->
  bmapped c dev ip bn s L V 0 s' L' V.
Proof.
  intros [] Ht F Hlen H0 Hall. pose proof F as (B & lg & -> & Ha). split; try done; [|by apply wframe_t|apply grows_refl|by left].
  split; try done. by eapply geo_same.
Qed.

Lemma bmapped_trans c1 c2 dev ip bn s L V a1 s1 L1 V1 a2 s2 L2 V2 :
  geo (sb s) (log s) -> 0 <= bn < MAXFILE ->
  bmapped c1 dev ip MAXFILE s L V a1 s1 L1 V1 -> bmapped c2 dev ip bn s1 L1 V1 a2 s2 L2 V2 ->
  bmapped (c1 + c2) dev ip bn s L V a2 s2 L2 V2.
Proof.
  intros Hg Hbn [A1 A2 A3 A4 A5 A6 A7 A8] [B1 B2 B3 B4 B5 B6 B7 B8].
  assert (Es : sb s1 = sb s) by by eapply wframe_sb. rewrite Es in *.
  assert (Es2 : sb s2 = sb s) by (rewrite <- Es; by eapply wframe_sb).
  split; try done; [lia|by eapply wframe_trans|congruence|..].
  - eapply grows_trans; [done| | |done|done]; [rewrite <- Es; apply A1|rewrite <- Es2; apply B1].
  - intros q Hq Hne. rewrite B6, A6 by (done || lia). done.
  - intros q Hq Hne. assert (E : faddr V1 (itable s1 ip) q = faddr V (itable s ip) q) by (apply A6; lia).
    rewrite <- E in *. rewrite B7 by done. rewrite E in *. auto.
  - destruct B8 as [(? & ? & ? & ?)|(? & ? & Hz)]; [left|right]; [by rewrite <- A6 by lia|]. split; [done|]. split; [done|]. intros HV0. apply Hz.
    rewrite A6 by lia. done.
Qed.

(** A block listed in the inode itself. *)
Section slot.
Context (dev ip : Z) (s : fsst) (L : list Z) (V : Z -> block) (k p : Z).
Hypothesis Hok : fs_ok dev ip s L V.
Hypothesis Hslot : (0 <= k < NDIRECT /\ p = k) \/ (k = NDIRECT /\ p = MAXFILE).

Let i := itable s ip.

Local Lemma slot_faddr : faddr V i p = i_addrs i k.
Proof.
  unfold faddr. destruct Hslot as [[? ->]|[-> ->]]; [|by rewrite Z.eqb_refl].
  destruct (Z.eqb_spec k MAXFILE); [unfold MAXFILE, NDIRECT in *; lia|]. destruct (Z.ltb_spec k NDIRECT); [done|lia].
Qed.

Lemma grows_alloc V' i' q r :
  0 <= q <= MAXFILE -> data_start (sb s) <= r < sb_size (sb s) -> used (sb s) V r = false ->
  (forall b, 0 <= b < sb_size (sb s) -> used (sb s) V' b = (b =? r) || used (sb s) V b) ->
  faddr V i q = 0 -> faddr V' i' q = r -> (forall q', 0 <= q' <= MAXFILE -> q' <> q -> faddr V' i' q' = faddr V i q') ->
  (forall b, b <> r -> b <> BBLOCK r (sb s) -> (forall q', 0 <= q' <= MAXFILE -> faddr V i q' <> b) -> V' b = V b) ->
  (forall b, sb_inodestart (sb s) <= b < sb_bmapstart (sb s) -> V' b = V b) ->
  grows (sb s) V i V' i'.
Proof.
  intros Hq Hr Hu Hu' E0 E1 Hoth HV Hino. destruct Hok as [? Hg ? ? ?].
  destruct (data_start_pos _ _ Hg) as (? & ? & ?). split; [..|done].
  - intros q' Hq' Hne. apply Hoth; [done|]. intros ->. congruence.
  - intros q' Hq' Hne. destruct (decide (q' = q)) as [->|]; [right; congruence|left; auto].
  - intros b Hb Hub. rewrite Hu', Hub by done. apply orb_true_r.
  - intros b Hb Hub Hno. apply HV; [congruence| |done].
    destruct (BBLOCK_small (sb s) (log s) r Hg) as [-> ?]; lia.
Qed.

Lemma slot_run :
  budget (log s) L ∅ 2 ->
  exists a s' L' V',
    (if negb (i_addrs i k =? 0) then ret (i_addrs i k) else
     addr <- balloc (i_dev i) ;;
     if addr =? 0 then ret 0 else modify (set_ino ip (set_iaddr k addr)) ;; ret addr) s = Ret a s' /\
    bmapped 2 dev ip p s L V a s' L' V'.
Proof.
  intros Hbud. pose proof Hok as [Ht Hg Hbm Hf Hdev]. fold i in Hf, Hdev. pose proof slot_faddr as Ef.
  destruct (Z.eqb_spec (i_addrs i k) 0) as [H0|Hne]; cbn [negb].
  2:{ exists (faddr V i p), (with_bufs (bufs s) s), L, V. rewrite <- Ef in Hne |- *. split; [by destruct s|].
      apply bmapped_found; [done|by destruct s|done]. }
  rewrite Hdev. destruct (balloc_run dev L ∅ V s Ht Hg Hbud Hbm (locks_data_none _ _))
    as (r & s1 & L1 & V1 & E & Hal & Hlen & Ht1 & F). erewrite bind_ret by exact E.
  destruct Hal as [(-> & -> & Hall)|(Hr & Hu & Hb & ->)].
  { exists 0, s1, L1, V. split; [done|]. apply bmapped_full; try done. fold i. congruence. }
  destruct (data_start_pos _ _ Hg) as (Hd1 & Hd2 & Hd3). destruct (Z.eqb_spec r 0); [lia|].
  rewrite bind_modify. destruct F as (B & lg & -> & Ha).
  eexists r, _, L1, (alloc_view (sb s) V r). split; [reflexivity|].
  destruct (file_alloc_slot (sb s) (log s) V i Hg Hf r k p) as (Hf' & Ep & Hq); [done..|].
  destruct (alloc_view_facts (sb s) (log s) V r Hg Hr) as (Hu' & Hz & Hsame).
  assert (Ei : itable (set_ino ip (set_iaddr k r) (with_log lg (with_bufs B s))) ip = set_iaddr k r i) by apply upd_eq.
  assert (Hp : 0 <= p <= MAXFILE) by (destruct Hslot as [[? ->]|[? ->]]; unfold MAXFILE, NDIRECT in *; lia).
  split; rewrite ?Ei; try done.
  - split; rewrite ?Ei; try done.
    + by apply (tx_ext _ (with_log lg (with_bufs B s))).
    + by eapply geo_same.
    + intros b Hb'. cbn [sb set_ino with_itable with_log with_bufs] in *.
      rewrite Hu' by (destruct Hg; unfold data_start in *; lia). rewrite Hbm by done. apply orb_true_r.
  - eapply wframe_trans; [apply wframe_t|apply wframe_ino; done]. by exists B, lg.
  - apply (grows_alloc _ _ p r); try done; [by rewrite Ef|..].
    + intros b H1 H2 _. by apply Hsame.
    + intros b Hb'. apply Hsame; [lia|]. destruct (BBLOCK_small (sb s) (log s) r Hg) as [-> ?]; [lia|].
      assert (0 <= r / BPB) by (unfold BPB; apply Z.div_pos; lia). lia.
  - intros q Hq' Hne. apply Hq; [lia|done].
  - intros q Hq' Hne. destruct (fo_data _ _ _ Hf q) as [H1 H2]; [lia|done|].
    fold i. apply (alloc_view_keep (sb s) (log s)); [done..|lia|done|lia].
  - right. split; [lia|]. split; [done|]. intros _. done.
Qed.
End slot.

(** A block listed in the indirect block. *)
Section entry.
Context (dev ip : Z) (s : fsst) (L : list Z) (V : Z -> block) (bn : Z).
Hypothesis Hok : fs_ok dev ip s L V.
Hypothesis Hbn : NDIRECT <= bn < MAXFILE.

Let i := itable s ip.
Let ind := i_addrs i NDIRECT.
Hypothesis Hind : ind <> 0.

Local Lemma entry_faddr : faddr V i bn = load32 (V ind) (4 * (bn - NDIRECT)).
Proof.
  unfold faddr. fold ind. destruct (Z.eqb_spec bn MAXFILE); [lia|]. destruct (Z.ltb_spec bn NDIRECT); [lia|].
  by destruct (Z.eqb_spec ind 0).
Qed.

(** The new block is entered. *)
Lemma entry_new r B lg s' L' :
  let V1 := alloc_view (sb s) V r in
  let V' := upd V1 ind (store32 (V1 ind) (4 * (bn - NDIRECT)) r) in
  data_start (sb s) <= r < sb_size (sb s) -> used (sb s) V r = false -> faddr V i bn = 0 ->
  s' = with_log lg (with_bufs B s) -> same_area (log s) lg -> tx dev s' L' ∅ V' -> (length L' <= length L + 3)%nat ->
  bmapped 3 dev ip bn s L V r s' L' V'.
Proof.
  intros V1 V' Hr Hu H0 -> Ha Ht Hlen. pose proof Hok as [_ Hg Hbm Hf Hdev]. fold i in Hf, Hdev.
  destruct (data_start_pos _ _ Hg) as (Hd1 & Hd2 & Hd3).
  destruct (alloc_view_facts (sb s) (log s) V r Hg Hr) as (Hu' & Hz & Hsame). fold V1 in Hu', Hz, Hsame.
  destruct (file_alloc_entry (sb s) (log s) V i Hg Hf r bn) as (Hf' & Ep & Hq & Hu2); [done..|].
  fold ind in Hf', Ep, Hq, Hu2. fold V1 in Hf', Ep, Hq, Hu2. fold V' in Hf', Ep, Hq, Hu2.
  destruct (fo_data _ _ _ Hf MAXFILE) as [Hi1 Hi2]; [unfold MAXFILE; lia|done|]. change (faddr V i MAXFILE) with ind in Hi1, Hi2.
  destruct (BBLOCK_small (sb s) (log s) r Hg) as [Ebb Hbb]; [lia|].
  assert (Hir : ind <> r) by congruence.
  assert (HV' : forall b, b <> ind -> V' b = V1 b) by (intros; unfold V'; by rewrite upd_ne).
  split; try done.
  - split; try done; [by eapply geo_same|].
    intros b Hb'. cbn [sb with_log with_bufs] in *. rewrite Hu2 by (destruct Hg; unfold data_start in *; lia).
    rewrite Hbm by done. apply orb_true_r.
  - apply wframe_t. by exists B, lg.
  - apply (grows_alloc dev ip s L V Hok _ _ bn r); try done; [unfold NDIRECT in *; lia|..].
    + intros b H1 H2 Hno. rewrite HV' by (intros ->; apply (Hno MAXFILE); [unfold MAXFILE; lia|done]). by apply Hsame.
    + intros b Hb'. rewrite HV' by lia. apply Hsame; [lia|]. rewrite Ebb.
      assert (0 <= r / BPB) by (unfold BPB; apply Z.div_pos; lia). lia.
  - intros q Hq' Hne. apply Hq; [lia|done].
  - intros q Hq' Hne. fold i in Hne |- *. destruct (fo_data _ _ _ Hf q) as [H1 H2]; [lia|done|].
    rewrite HV'; [apply (alloc_view_keep (sb s) (log s)); [done..|lia|done|lia]|].
    intros E. change ind with (faddr V i MAXFILE) in E. apply (fo_inj _ _ _ Hf) in E; [|unfold MAXFILE in *; lia..|done]. lia.
  - right. split; [lia|]. split; [done|]. intros _ o Ho. rewrite HV' by done. by apply Hz.
Qed.

Lemma entry_run :
  budget (log s) L ∅ 3 ->
  exists a s' L' V',
    (bp <- bread dev ind ;;
     a <- gets (fun s => load32 (b_data (bufs s bp)) (4 * (bn - NDIRECT))) ;;
     addr <- (if negb (a =? 0) then ret a else
              addr <- balloc dev ;;
              when (negb (addr =? 0))
                (modify (fun s => set_buf bp (set_data (store32 (b_data (bufs s bp)) (4 * (bn - NDIRECT)) addr)) s) ;;
                 log_write bp) ;;
              ret addr) ;;
     brelse bp ;;
     ret addr) s = Ret a s' /\ bmapped 3 dev ip bn s L V a s' L' V'.
Proof.
  intros Hbud. pose proof Hok as [Ht Hg Hbm Hf Hdev]. fold i in Hf, Hdev. pose proof entry_faddr as Ef.
  destruct (fo_data _ _ _ Hf MAXFILE) as [Hi1 Hi2]; [unfold MAXFILE; lia|done|]. change (faddr V i MAXFILE) with ind in Hi1, Hi2.
  destruct (data_start_pos _ _ Hg) as (Hd1 & Hd2 & Hd3).
  assert (Hroom := Hbud). destruct Hroom as [Hroom _]. rewrite map_size_empty in Hroom.
  destruct (tx_bread Ht ind) as (j & B & E & Ht1 & Hdat); [done|right; rewrite map_size_empty; lia|].
  erewrite bind_ret by exact E. rewrite bind_gets. cbv beta. cbn [bufs with_bufs]. rewrite Hdat, <- Ef. clear E Hdat.
  destruct (Z.eqb_spec (faddr V i bn) 0) as [H0|Hne]; cbn [negb].
  2:{ mstep. destruct (tx_brelse Ht1 ind j) as (B2 & E2 & Ht2); [apply lookup_insert_eq|].
      erewrite bind_ret by exact E2. exists (faddr V i bn), (with_bufs B2 s), L, V. split; [done|].
      apply bmapped_found; [done| |done]. by rewrite delete_insert_id in Ht2. }
  destruct (balloc_run dev L (<[ind := j]> ∅) V (with_bufs B s)) as (r & s1 & L1 & V1 & E & Hal & Hlen & Ht2 & F);
    [done|done| |done| |].
  { destruct Hbud as [_ Hb2]. split; [rewrite map_size_insert_None, map_size_empty by done; lia|cbn [log with_bufs]; lia]. }
  { intros b' [j' Hj']. cbn [sb with_bufs]. apply lookup_insert_Some in Hj' as [[<- _]|[_ Hj']]; [done|].
    by rewrite lookup_empty in Hj'. }
  rewrite bind_assoc. erewrite bind_ret by exact E.
  destruct Hal as [(-> & -> & Hall)|(Hr & Hu & Hb & ->)].
  { change (negb (0 =? 0)) with false. cbn [when]. mstep.
    destruct (tx_brelse Ht2 ind j) as (B2 & E2 & Ht3); [apply lookup_insert_eq|].
    erewrite bind_ret by exact E2. exists 0, (with_bufs B2 s1), L1, V. split; [done|].
    rewrite delete_insert_id in Ht3 by done. apply bmapped_full; [done..| |lia|done|done].
    eapply tframe_trans; [apply (tframe_bufs s B)|]. eapply tframe_trans; [exact F|apply tframe_bufs]. }
  cbn [sb with_bufs] in Hr, Hu, Ht2. destruct (Z.eqb_spec r 0); [lia|]. cbn [negb when].
  destruct F as (B1 & lg1 & -> & Ha1). cbn [log with_bufs] in Ha1.
  destruct (tx_locked Ht2 ind j) as [Hdat _]; [apply lookup_insert_eq|].
  rewrite !bind_assoc, bind_modify. cbv beta. rewrite Hdat. set (V1 := alloc_view (sb s) V r) in *.
  set (v := store32 (V1 ind) (4 * (bn - NDIRECT)) r). set (s1 := with_log lg1 (with_bufs B1 (with_bufs B s))) in *.
  destruct (tx_finish Ht2 ind j v) as (s2 & E2 & Ht3 & F2); [apply lookup_insert_eq| | |].
  { apply (geo_home (sb s)); [by eapply geo_same|]. lia. }
  { destruct Hbud as [_ Hb2]. split; [rewrite delete_insert_id, map_size_empty by done; lia|].
    cbn [log with_log s1]. destruct Ha1 as (_ & -> & _). lia. }
  rewrite delete_insert_id in Ht3 by done.
  exists r, s2, (add_block ind L1), (upd V1 ind v). split; [exact (run3 _ _ _ (ret r) s1 s2 E2)|].
  destruct F2 as (B2 & lg2 & -> & Ha2).
  apply (entry_new r B2 lg2); try done; [by eapply same_area_trans|].
  pose proof (add_block_length ind L1). lia.
Qed.
End entry.

Lemma faddr_no_ind V i bn : NDIRECT <= bn < MAXFILE -> faddr V i MAXFILE = 0 -> faddr V i bn = 0.
Proof.
  intros Hbn E. change (i_addrs i NDIRECT = 0) in E. unfold faddr. rewrite E.
  destruct (Z.eqb_spec bn MAXFILE); [done|]. by destruct (Z.ltb_spec bn NDIRECT); [lia|].
Qed.

Lemma bmap_run dev ip s L V bn :
  fs_ok dev ip s L V -> budget (log s) L ∅ 5 -> 0 <= bn < MAXFILE ->
  exists a s' L' V', bmap ip bn s = Ret a s' /\ bmapped 5 dev ip bn s L V a s' L' V'.
Proof.
  intros Hok Hbud Hbn. unfold bmap, ino. rewrite bind_gets. cbv beta zeta.
  destruct (Z.ltb_spec bn NDIRECT) as [Hd|Hd].
  { destruct (slot_run dev ip s L V bn bn Hok) as (a & s' & L' & V' & E & Hb);
      [left; lia|by eapply budget_weaken; [|exact Hbud]|].
    exists a, s', L', V'. split; [exact E|]. destruct Hb. split; try done. lia. }
  destruct (Z.ltb_spec (bn - NDIRECT) NINDIRECT) as [Hn|Hn]; [|unfold MAXFILE, NDIRECT, NINDIRECT in *; lia].
  destruct (slot_run dev ip s L V NDIRECT MAXFILE Hok) as (a & s1 & L1 & V1 & E & Hb);
    [by right|by eapply budget_weaken; [|exact Hbud]|].
  erewrite bind_ret by exact E. rewrite (fk_dev _ _ _ _ _ Hok).
  destruct (Z.eqb_spec a 0) as [->|Ha].
  { exists 0, s1, L1, V1. split; [done|]. destruct Hb as [A1 A2 A3 A4 A5 A6 A7 A8]. split; try done; [lia|..].
    - intros q Hq Hne. apply A6; [done|lia].
    - destruct A8 as [(_ & H0 & H1 & Hall)|[? _]]; [left|done]. split; [done|]. split; [|split; [|done]]; (apply faddr_no_ind; [lia|done]). }
  pose proof Hb as [A1 A2 A3 A4 A5 A6 A7 A8]. destruct A8 as [[? _]|(_ & Efa & _)]; [done|].
  change (faddr V1 (itable s1 ip) MAXFILE) with (i_addrs (itable s1 ip) NDIRECT) in Efa. rewrite <- Efa in Ha |- *.
  destruct (entry_run dev ip s1 L1 V1 bn A1) as (a2 & s2 & L2 & V2 & E2 & Hb2); [lia|done| |].
  { apply (budget_same (log s)); [by eapply wframe_area|]. unfold budget in *. lia. }
  exists a2, s2, L2, V2. split; [exact E2|].
  eapply (bmapped_trans 2 3); [apply Hok|lia|exact Hb|exact Hb2].
Qed.

(** ** Writing *)

(** The byte at offset [o]; a hole reads as 0. *)
Definition byte_at (V : Z -> block) (i : inode) (o : Z) : Z :=
  if faddr V i (o / BSIZE) =? 0 then 0 else content V i o.

(** Looking up a block changes no byte of the file. *)
Lemma bmapped_bytes c dev ip bn s L V a s' L' V' o :
  bmapped c dev ip bn s L V a s' L' V' -> 0 <= o < MAXFILE * BSIZE ->
  byte_at V' (itable s' ip) o = byte_at V (itable s ip) o.
Proof.
  intros Hb Ho. assert (Hq : 0 <= o / BSIZE < MAXFILE) by (unfold BSIZE, MAXFILE in *; dlia).
  assert (Hm : 0 <= o mod BSIZE < BSIZE) by (unfold BSIZE; dlia).
  unfold byte_at, content. destruct (decide (o / BSIZE = bn)) as [Eb|Hne].
  - destruct (bm_result _ _ _ _ _ _ _ _ _ _ _ Hb) as [(_ & E0 & E1 & _)|(Ha & E & Hz)].
    { by rewrite Eb, E0, E1. }
    rewrite Eb in *. rewrite E. destruct (Z.eqb_spec a 0); [done|].
    destruct (Z.eqb_spec (faddr V (itable s ip) bn) 0) as [E0|E0]; [by apply Hz|].
    assert (E1 : a = faddr V (itable s ip) bn).
    { rewrite <- E. apply (gw_map _ _ _ _ _ (bm_grows _ _ _ _ _ _ _ _ _ _ _ Hb)); [lia|done]. }
    rewrite E1. by rewrite (bm_data _ _ _ _ _ _ _ _ _ _ _ Hb).
  - rewrite (bm_same _ _ _ _ _ _ _ _ _ _ _ Hb) by done.
    destruct (Z.eqb_spec (faddr V (itable s ip) (o / BSIZE)) 0); [done|].
    by rewrite (bm_data _ _ _ _ _ _ _ _ _ _ _ Hb).
Qed.

(** Storing [v] in data block [bn] of the file. *)
Section store.
Context (x : superblock) (lg : logst) (V : Z -> block) (i : inode) (bn : Z) (v : block).
Hypothesis Hg : geo x lg.
Hypothesis Hf : file_ok x V i.
Hypothesis Hbn : 0 <= bn < MAXFILE.
Let a := faddr V i bn.
Hypothesis Ha : a <> 0.
Let V' := upd V a v.

Lemma store_faddr q : 0 <= q <= MAXFILE -> faddr V' i q = faddr V i q.
Proof.
  intros Hq. unfold faddr. destruct (q =? MAXFILE); [done|]. destruct (q <? NDIRECT); [done|].
  destruct (Z.eqb_spec (i_addrs i NDIRECT) 0); [done|]. unfold V'. rewrite upd_ne; [done|].
  change (i_addrs i NDIRECT) with (faddr V i MAXFILE). intros E. apply (fo_inj _ _ _ Hf) in E; unfold MAXFILE in *; [lia..|done].
Qed.

Lemma store_used b : 0 <= b < sb_size x -> used x V' b = used x V b.
Proof.
  intros Hb. apply used_other. destruct (BBLOCK_small x lg b Hg Hb) as [-> ?].
  destruct (fo_data _ _ _ Hf bn) as [? _]; [lia|done|]. unfold a. lia.
Qed.

Lemma store_file : file_ok x V' i.
Proof.
  destruct Hf as [Hd Hi]. destruct (data_start_pos x lg Hg) as (? & ? & ?). split.
  - intros q Hq. rewrite store_faddr by done. intros Hne. destruct (Hd q Hq Hne). split; [done|].
    by rewrite store_used by lia.
  - intros q1 q2 Hq1 Hq2. rewrite !store_faddr by done. auto.
Qed.

Lemma store_grows : grows x V i V' i.
Proof.
  destruct (data_start_pos x lg Hg) as (? & ? & ?). destruct (fo_data _ _ _ Hf bn) as [Hda _]; [lia|done|]. fold a in Hda. split.
  - intros. by apply store_faddr.
  - intros. left. by apply store_faddr.
  - intros. by rewrite store_used.
  - intros b _ _ Hno. unfold V'. rewrite upd_ne; [done|]. intros ->. apply (Hno bn); [lia|done].
  - intros b Hb. unfold V'. rewrite upd_ne; [done|lia].
Qed.

Lemma store_bytes o :
  0 <= o < MAXFILE * BSIZE ->
  byte_at V' i o = if o / BSIZE =? bn then v (o mod BSIZE) else byte_at V i o.
Proof.
  intros Ho. assert (Hq : 0 <= o / BSIZE < MAXFILE) by (unfold BSIZE, MAXFILE in *; dlia).
  unfold byte_at, content. rewrite store_faddr by lia. destruct (Z.eqb_spec (o / BSIZE) bn) as [->|Hne].
  - fold a. destruct (Z.eqb_spec a 0); [done|]. unfold V'. by rewrite upd_eq.
  - destruct (Z.eqb_spec (faddr V i (o / BSIZE)) 0) as [|H0]; [done|]. unfold V'. rewrite upd_ne; [done|].
    intros E. apply Hne. by apply (fo_inj _ _ _ Hf); [lia..|unfold a in E|].
Qed.
End store.

(** Storing an inode block changes no file. *)
Section meta.
Context (x : superblock) (lg : logst) (V : Z -> block) (i i' : inode) (b0 : Z) (v : block).
Hypothesis Hg : geo x lg.
Hypothesis Hf : file_ok x V i.
Hypothesis Hb0 : b0 < sb_bmapstart x.
Hypothesis Hi : i_addrs i' = i_addrs i.
Let V' := upd V b0 v.

Lemma meta_used b : 0 <= b < sb_size x -> used x V' b = used x V b.
Proof.
  intros Hb. apply used_other. destruct (BBLOCK_small x lg b Hg Hb) as [-> ?].
  assert (0 <= b / BPB) by (unfold BPB; apply Z.div_pos; lia). lia.
Qed.

Lemma meta_faddr q : 0 <= q <= MAXFILE -> faddr V' i' q = faddr V i q.
Proof.
  intros Hq. destruct (data_start_pos x lg Hg) as (? & ? & ?).
  unfold faddr. rewrite Hi. destruct (q =? MAXFILE); [done|]. destruct (q <? NDIRECT); [done|].
  destruct (Z.eqb_spec (i_addrs i NDIRECT) 0) as [|Hne]; [done|]. unfold V'. rewrite upd_ne; [done|].
  destruct (fo_data _ _ _ Hf MAXFILE) as [? _]; [unfold MAXFILE; lia|done|].
  change (faddr V i MAXFILE) with (i_addrs i NDIRECT) in *. lia.
Qed.

Lemma meta_file : file_ok x V' i'.
Proof.
  destruct (data_start_pos x lg Hg) as (? & ? & ?). pose proof Hf as [Hd Hin]. split.
  - intros q Hq. rewrite meta_faddr by done. intros Hne. destruct (Hd q Hq Hne). split; [done|].
    by rewrite meta_used by lia.
  - intros q1 q2 Hq1 Hq2. rewrite !meta_faddr by done. auto.
Qed.

Lemma meta_bytes o : 0 <= o < MAXFILE * BSIZE -> byte_at V' i' o = byte_at V i o.
Proof.
  intros Ho. destruct (data_start_pos x lg Hg) as (? & ? & ?).
  assert (Hq : 0 <= o / BSIZE <= MAXFILE) by (unfold BSIZE, MAXFILE in *; dlia).
  unfold byte_at, content. rewrite meta_faddr by done. destruct (Z.eqb_spec (faddr V i (o / BSIZE)) 0) as [|Hne]; [done|].
  destruct (fo_data _ _ _ Hf (o / BSIZE) Hq Hne) as [? _]. unfold V'. rewrite upd_ne; [done|lia].
Qed.
End meta.

Lemma IBLOCK_small x lg inum :
  geo x lg -> 0 <= inum < sb_ninodes x -> sb_inodestart x <= IBLOCK inum x < sb_bmapstart x.
Proof.
  intros Hg Hin. destruct (data_start_pos x lg Hg) as (Hd & _). destruct Hg as [H1 H2 H3 H4 H5 H6]. unfold IBLOCK, LOGSIZE, data_start in *.
  assert (0 <= inum / IPB <= sb_ninodes x / IPB).
  { unfold IPB. split; [apply Z.div_pos; lia|apply Z.div_le_mono; lia]. }
  assert (0 <= sb_size x / BPB) by lia.
  rewrite u32_small by lia. lia.
Qed.

Lemma iupdate_run dev ip s L V :
  let i := itable s ip in
  let ib := IBLOCK (i_inum i) (sb s) in
  fs_ok dev ip s L V -> 0 <= i_inum i < sb_ninodes (sb s) -> budget (log s) L ∅ 1 ->
  exists s', iupdate ip s = Ret tt s' /\ tframe s s' /\
    fs_ok dev ip s' (add_block ib L) (upd V ib (put_dinode (V ib) (dinode_at (i_inum i)) i)).
Proof.
  intros i ib [Ht Hg Hbm Hf Hdev] Hin Hbud. pose proof (IBLOCK_small _ _ _ Hg Hin) as Hib. fold ib in Hib.
  destruct (data_start_pos _ _ Hg) as (Hd1 & Hd2 & Hd3).
  unfold iupdate, ino. rewrite !bind_gets. cbv beta. fold i. fold ib. unfold i at 1. rewrite Hdev.
  destruct (tx_modify ib (fun d => put_dinode d (dinode_at (i_inum i)) i) Ht) as (s1 & E & Ht1 & F);
    [done| |done|].
  { apply (geo_home (sb s)); [done|]. destruct Hg. unfold data_start in *. lia. }
  exists s1. split; [exact E|]. split; [done|]. destruct F as (B & lg & -> & Ha). split; try done.
  - by eapply geo_same.
  - intros b Hb. cbn [sb with_log with_bufs] in *. rewrite (meta_used _ (log s)); [auto|done|lia|destruct Hg; unfold data_start in *; lia].
  - apply (meta_file (sb s) (log s) V i); [done..|lia|done].
Qed.

Section writei.
Context {U : UserMem} {UL : UserMemLaws}.

(** The source can be read: kernel memory, or user memory copyin accepts. *)
Definition readable (user : bool) (s : fsst) (src n : Z) : Prop :=
  user = true -> forall a len d, src <= a -> a + len <= src + n -> snd (ucopyin (f_umem s) a len d) = true.

Lemma either_copyin_run bp off user src len s n :
  readable user s src n -> 0 <= len <= n -> 0 <= off ->
  exists v, either_copyin bp off user src len s = Ret 0 (set_buf bp (set_data v) s) /\
    forall o, v o = if (off <=? o) && (o <? off + len) then dmem user s (src + (o - off)) else b_data (bufs s bp) o.
Proof.
  intros Hr Hlen Hoff. unfold either_copyin. rewrite bind_gets. unfold id. cbv zeta.
  set (d := b_data (bufs s bp)). destruct user.
  - specialize (Hr eq_refl src len (fun i => d (off + i))).
    destruct (ucopyin (f_umem s) src len (fun i => d (off + i))) as [d' ok] eqn:E. simpl in Hr. rewrite Hr in E |- * by lia. mstep.
    eexists. split; [reflexivity|]. intros o. simpl. pose proof (ucopyin_ok _ _ _ _ _ E (o - off)) as Hd'. rewrite Hd'.
    replace (off + (o - off)) with o by lia.
    destruct (Z.leb_spec off o), (Z.leb_spec 0 (o - off)), (Z.ltb_spec o (off + len)), (Z.ltb_spec (o - off) len);
      cbn [andb]; done || lia.
  - mstep. eexists. split; [reflexivity|]. intros o. simpl. replace (off + (o - off)) with o by lia.
    destruct (Z.leb_spec off o), (Z.leb_spec 0 (o - off)), (Z.ltb_spec o (off + len)), (Z.ltb_spec (o - off) len);
      cbn [andb]; done || lia.
Qed.

(** One round of the loop, after bmap returned block [a]. *)
Lemma put_round {A} dev ip s L V a s1 L1 V1 user src off m n (x : A) (k : M fsst A) :
  bmapped 5 dev ip (off / BSIZE) s L V a s1 L1 V1 -> a <> 0 -> budget (log s) L ∅ 6 ->
  0 <= off -> off + m <= MAXFILE * BSIZE -> 0 < m <= n -> off mod BSIZE + m <= BSIZE -> readable user s src n ->
  exists s2 v, (i <- ino ip ;; bp <- bread (i_dev i) a ;; r <- either_copyin bp (off mod BSIZE) user src m ;;
      if r =? -1 then brelse bp ;; ret x else log_write bp ;; brelse bp ;; k) s1 = k s2 /\
    fs_ok dev ip s2 (add_block a L1) (upd V1 a v) /\ tframe s1 s2 /\
    (forall o, v o = if (off mod BSIZE <=? o) && (o <? off mod BSIZE + m) then dmem user s (src + (o - off mod BSIZE)) else V1 a o).
Proof.
  intros Hb Ha Hbud Hoff Hmax Hm Hmb Hr. pose proof (bm_ok _ _ _ _ _ _ _ _ _ _ _ Hb) as [Ht Hg Hbm Hf Hdev].
  pose proof (bm_len _ _ _ _ _ _ _ _ _ _ _ Hb) as Hlen. pose proof (bm_frame _ _ _ _ _ _ _ _ _ _ _ Hb) as F.
  destruct (bm_result _ _ _ _ _ _ _ _ _ _ _ Hb) as [(? & _)|(_ & Ea & _)]; [done|].
  assert (Hq : 0 <= off / BSIZE < MAXFILE) by (unfold BSIZE, MAXFILE in *; dlia).
  assert (Hbud1 : budget (log s1) L1 ∅ 1).
  { apply (budget_same (log s)); [by eapply wframe_area|]. unfold budget in *. lia. }
  unfold ino. rewrite bind_gets. cbv beta. rewrite Hdev.
  destruct (tx_bread Ht a) as (j & B & E & Ht1 & Hd); [done|right; unfold budget in Hbud1; lia|].
  erewrite bind_ret by exact E.
  assert (Em : forall u, dmem u (with_bufs B s1) = dmem u s) by (intros u; by destruct F as (? & ? & ? & -> & _)).
  destruct (either_copyin_run j (off mod BSIZE) user src m (with_bufs B s1) n) as (v & E2 & Hv);
    [by destruct F as (? & ? & ? & -> & _)|lia|unfold BSIZE; dlia|].
  erewrite bind_ret by exact E2. change (0 =? -1) with false. cbv iota.
  destruct (fo_data _ _ _ Hf (off / BSIZE)) as [Hda _]; [lia|congruence|]. rewrite Ea in Hda.
  destruct (data_start_pos _ _ Hg) as (Hd1 & Hd2 & Hd3).
  destruct (tx_finish Ht1 a j v) as (s2 & E3 & Ht2 & F2); [apply lookup_insert_eq| |by rewrite delete_insert_id|].
  { apply (geo_home (sb s1)); [done|]. lia. }
  rewrite delete_insert_id in Ht2 by done. exists s2, v.
  rewrite bind_modify in E3. split; [|split; [|split]].
  - rewrite <- bind_assoc. by erewrite bind_ret by exact E3.
  - destruct F2 as (B2 & lg2 & -> & Ha2). rewrite <- Ea in Ha |- *. split; try done.
    + by rewrite Ea.
    + by eapply geo_same.
    + intros b Hb'. cbn [sb with_log with_bufs] in *.
      rewrite (store_used _ (log s1) _ (itable s1 ip)); [auto|done..|destruct Hg; unfold data_start in *; lia].
    + by apply (store_file _ (log s1)).
  - eapply tframe_trans; [apply tframe_bufs|exact F2].
  - intros o. rewrite Hv, Em. cbn [bufs with_bufs]. by rewrite Hd.
Qed.

(** [n'] of [n] bytes are written: the range has the source's bytes, and no other
    byte of the file or block of the disk changes. *)
Record written (c : nat) (dev ip : Z) (user : bool) (src off n : Z) (s : fsst) (L : list Z) (V : Z -> block)
    (n' : Z) (s' : fsst) (L' : list Z) (V' : Z -> block) : Prop := {
  wr_ok : fs_ok dev ip s' L' V';
  wr_len : (length L' <= length L + c)%nat;
  wr_frame : wframe ip s s';
  wr_size : i_size (itable s' ip) = i_size (itable s ip);
  wr_grows : grows (sb s) V (itable s ip) V' (itable s' ip);
  wr_n : 0 <= n' <= n;
  wr_full : n' = n \/ forall b, 0 <= b < sb_size (sb s) -> used (sb s) V' b = true;
  wr_mapped : mapped V' (itable s' ip) off n';
  wr_bytes : forall o, 0 <= o < MAXFILE * BSIZE ->
    byte_at V' (itable s' ip) o =
      if (off <=? o) && (o <? off + n') then dmem user s (src + (o - off)) else byte_at V (itable s ip) o
}.

Lemma written_none c dev ip user src off n s L V :
  fs_ok dev ip s L V -> n = 0 -> written c dev ip user src off n s L V 0 s L V.
Proof.
  intros Hok ->. split; try done; [lia|apply wframe_refl|apply grows_refl|by left|intros o; lia|].
  intros o Ho. destruct (Z.leb_spec off o), (Z.ltb_spec o (off + 0)); done || lia.
Qed.

Lemma written_full c dev ip user src off n s L V s1 L1 V1 :
  bmapped 5 dev ip (off / BSIZE) s L V 0 s1 L1 V1 -> 0 <= n -> (5 <= c)%nat ->
  written c dev ip user src off n s L V 0 s1 L1 V1.
Proof.
  intros Hb Hn Hc. pose proof Hb as [A1 A2 A3 A4 A5 A6 A7 A8]. split; try done; [lia| |intros o; lia|].
  - right. by destruct A8 as [(_ & _ & _ & ?)|[? _]].
  - intros o Ho. destruct (Z.leb_spec off o), (Z.ltb_spec o (off + 0)); try lia; cbn [andb]; by eapply bmapped_bytes.
Qed.

(** A round followed by the rest of the loop. *)
Lemma written_round c dev ip user src off m n s L V a s1 L1 V1 s2 v n' s' L' V' :
  geo (sb s) (log s) -> bmapped 5 dev ip (off / BSIZE) s L V a s1 L1 V1 -> a <> 0 ->
  0 <= off -> off + n <= MAXFILE * BSIZE -> 0 < m <= n -> off mod BSIZE + m <= BSIZE ->
  fs_ok dev ip s2 (add_block a L1) (upd V1 a v) -> tframe s1 s2 ->
  (forall o, v o = if (off mod BSIZE <=? o) && (o <? off mod BSIZE + m) then dmem user s (src + (o - off mod BSIZE)) else V1 a o) ->
  written c dev ip user (src + m) (off + m) (n - m) s2 (add_block a L1) (upd V1 a v) n' s' L' V' ->
  written (6 + c) dev ip user src off n s L V (m + n') s' L' V'.
Proof.
  intros Hg Hb Ha Hoff Hmax Hm Hmb Hok2 F2 Hv [W1 W2 W3 W4 W5 W6 W7 W8 W9].
  pose proof Hb as [A1 A2 A3 A4 A5 A6 A7 A8]. destruct A8 as [(? & _)|(_ & Ea & _)]; [done|].
  pose proof F2 as (B2 & lg2 & E2 & _). assert (Ei : itable s2 = itable s1) by by rewrite E2.
  assert (Es1 : sb s1 = sb s) by by eapply wframe_sb. assert (Es2 : sb s2 = sb s) by (rewrite E2; exact Es1).
  assert (Es' : sb s' = sb s) by (rewrite <- Es2; by eapply wframe_sb).
  assert (Em : forall u, dmem u s2 = dmem u s) by (intros u; rewrite E2; by destruct A3 as (? & ? & ? & -> & _)).
  rewrite Ei, ?Es2 in *. destruct A1 as [_ Hg1 _ Hf1 _]. rewrite Es1 in Hf1, Hg1.
  assert (Hq : 0 <= off / BSIZE < MAXFILE) by (unfold BSIZE, MAXFILE in *; dlia).
  assert (Hst : grows (sb s) V1 (itable s1 ip) (upd V1 a v) (itable s1 ip)).
  { rewrite <- Ea. apply (store_grows _ (log s1)); [done..|congruence]. }
  assert (Hfs : file_ok (sb s) (upd V1 a v) (itable s1 ip)).
  { rewrite <- Ea. apply (store_file _ (log s1)); [done..|congruence]. }
  assert (Hby : forall o, 0 <= o < MAXFILE * BSIZE -> byte_at (upd V1 a v) (itable s1 ip) o =
    if (off <=? o) && (o <? off + m) then dmem user s (src + (o - off)) else byte_at V (itable s ip) o).
  { intros o Ho. rewrite <- (bmapped_bytes _ _ _ _ _ _ _ _ _ _ _ o Hb Ho), <- Ea.
    rewrite (store_bytes (sb s)); [|done..|congruence|done]. rewrite Hv.
    destruct (Z.eqb_spec (o / BSIZE) (off / BSIZE)) as [E|E].
    - assert (Eo : o mod BSIZE - off mod BSIZE = o - off) by (unfold BSIZE in *; dlia).
      destruct (Z.leb_spec (off mod BSIZE) (o mod BSIZE)), (Z.ltb_spec (o mod BSIZE) (off mod BSIZE + m)),
        (Z.leb_spec off o), (Z.ltb_spec o (off + m)); try lia; cbn [andb]; rewrite ?Eo; try done.
      all: unfold byte_at, content; rewrite E, Ea; by destruct (Z.eqb_spec a 0).
    - destruct (Z.leb_spec off o), (Z.ltb_spec o (off + m)); cbn [andb]; try done.
      exfalso. unfold BSIZE in *; dlia. }
  assert (Hgr : grows (sb s) V (itable s ip) V' (itable s' ip)).
  { eapply grows_trans; [exact Hg|exact Hf1| |exact A5|]; [rewrite <- Es'; apply W1|].
    eapply grows_trans; [exact Hg|exact Hfs| |exact Hst|exact W5]. rewrite <- Es'. apply W1. }
  split; try done.
  - pose proof (add_block_length a L1). lia.
  - eapply wframe_trans; [exact A3|]. eapply wframe_trans; [by apply wframe_t|exact W3].
  - congruence.
  - lia.
  - destruct W7 as [->|?]; [left; lia|by right].
  - intros o Ho. destruct (Z.lt_ge_cases o (off + m)); [|apply W8; lia].
    assert (Eo : o / BSIZE = off / BSIZE) by (unfold BSIZE in *; dlia). rewrite Eo.
    assert (Ea2 : faddr (upd V1 a v) (itable s1 ip) (off / BSIZE) = a).
    { transitivity (faddr V1 (itable s1 ip) (off / BSIZE)); [|done]. rewrite <- Ea at 1. apply (store_faddr (sb s)); [done..|congruence|lia]. }
    rewrite (gw_map _ _ _ _ _ W5); [by rewrite Ea2|lia|by rewrite Ea2].
  - intros o Ho. rewrite W9, Hby, Em by done.
    destruct (Z.leb_spec (off + m) o), (Z.ltb_spec o (off + m + n')), (Z.leb_spec off o), (Z.ltb_spec o (off + m)),
      (Z.ltb_spec o (off + (m + n'))); try lia; cbn [andb]; try done. f_equal. lia.
Qed.

Lemma writei_loop_run k dev ip user fuel s L V src off n tot :
  fs_ok dev ip s L V -> budget (log s) L ∅ (6 * Z.of_nat k) -> (k <= fuel)%nat ->
  0 <= off -> tot <= n -> off + (n - tot) <= MAXFILE * BSIZE -> readable user s src (n - tot) ->
  tot = n \/ off mod BSIZE + (n - tot) <= BSIZE * Z.of_nat k ->
  exists n' s' L' V', writei_loop fuel ip user src off n tot s = Ret (tot + n', off + n') s' /\
    written (6 * k) dev ip user src off (n - tot) s L V n' s' L' V'.
Proof.
  revert fuel s L V src off tot; induction k as [|k IH]; intros fuel s L V src off tot Hok Hbud Hk Hoff Htot Hmax Hr Hf.
  { assert (tot = n) as -> by (destruct Hf; [done|unfold BSIZE in *; dlia]). exists 0, s, L, V. rewrite !Z.add_0_r.
    split; [destruct fuel; cbn [writei_loop]; by rewrite Z.ltb_irrefl|]. apply written_none; [done|lia]. }
  destruct fuel as [|fuel]; [lia|]. cbn [writei_loop]. destruct (Z.ltb_spec tot n) as [Hlt|Hge]; cbn [negb].
  2:{ exists 0, s, L, V. rewrite !Z.add_0_r. split; [done|]. apply written_none; [done|lia]. }
  destruct (bmap_run dev ip s L V (off / BSIZE) Hok) as (a & s1 & L1 & V1 & E & Hb);
    [eapply budget_weaken; [|exact Hbud]; lia|unfold BSIZE, MAXFILE in *; dlia|].
  erewrite bind_ret by exact E. destruct (Z.eqb_spec a 0) as [->|Ha].
  { exists 0, s1, L1, V1. rewrite !Z.add_0_r. split; [done|]. apply written_full; [done|lia|lia]. }
  set (m := Z.min (n - tot) (BSIZE - off mod BSIZE)).
  assert (Hm : 0 < m <= n - tot /\ off mod BSIZE + m <= BSIZE) by (unfold m, BSIZE; dlia). destruct Hm as [Hm Hmb].
  assert (Hnext : n - (tot + m) = 0 \/ (off + m) mod BSIZE = 0) by (unfold m, BSIZE in *; dlia).
  destruct (put_round dev ip s L V a s1 L1 V1 user src off m (n - tot) (tot, off)
              (writei_loop fuel ip user (src + m) (off + m) n (tot + m)) Hb Ha) as (s2 & v & E2 & Hok2 & F2 & Hv);
    [eapply budget_weaken; [|exact Hbud]; lia|done|lia|done|done|done|].
  cbv zeta. rewrite E2. pose proof (bm_frame _ _ _ _ _ _ _ _ _ _ _ Hb) as F1. pose proof (bm_len _ _ _ _ _ _ _ _ _ _ _ Hb) as Hlen.
  destruct (IH fuel s2 (add_block a L1) (upd V1 a v) (src + m) (off + m) (tot + m)) as (n' & s' & L' & V' & E3 & W);
    [done| |lia|lia|lia|lia| | |].
  - apply (budget_same (log s)).
    { eapply same_area_trans; [by eapply wframe_area|]. by destruct F2 as (? & ? & -> & ?). }
    pose proof (add_block_length a L1). unfold budget in *. lia.
  - intros Hu a' len d H1 H2. assert (f_umem s2 = f_umem s) as ->.
    { destruct F2 as (? & ? & -> & _). by destruct F1 as (? & ? & ? & -> & _). }
    apply Hr; [done|lia|lia].
  - destruct Hnext as [Hz|Hz]; [left; lia|right]. rewrite Hz. unfold BSIZE in *; dlia.
  - exists (m + n'), s', L', V'. rewrite E3. split; [f_equal; f_equal; lia|].
    replace (6 * S k)%nat with (6 + 6 * k)%nat by lia.
    eapply written_round; try done; [apply Hok|].
    replace (n - tot - m) with (n - (tot + m)) by lia. exact W.
Qed.

(** The number of blocks that [n] bytes at [off] touch. *)
Definition rounds (off n : Z) : Z := (off mod BSIZE + n + (BSIZE - 1)) / BSIZE.

(** The inode on the disk is that in memory, and its neighbours are as before. *)
Definition saved (x : superblock) (V : Z -> block) (i : inode) (V' : Z -> block) : Prop :=
  let ib := IBLOCK (i_inum i) x in
  let i' := get_dinode (V' ib) (dinode_at (i_inum i)) i in
  (i_type i' = i_type i /\ i_major i' = i_major i /\ i_minor i' = i_minor i /\ i_nlink i' = i_nlink i /\
   i_size i' = i_size i /\ forall k, 0 <= k <= NDIRECT -> i_addrs i' k = i_addrs i k) /\
  (forall y, y < dinode_at (i_inum i) \/ dinode_at (i_inum i) + DINODE <= y -> V' ib y = V ib y) /\
  (forall b, sb_inodestart x <= b < sb_bmapstart x -> b <> ib -> V' b = V b).

Lemma grow_size dev ip s L V o :
  let i := itable s ip in
  fs_ok dev ip s L V -> inode_wf i -> 0 <= o < 2 ^ 32 ->
  exists s', when (i_size i <? o) (modify (set_ino ip (set_isize o))) s = Ret tt s' /\
    fs_ok dev ip s' L V /\ wframe ip s s' /\ log s' = log s /\ inode_wf (itable s' ip) /\
    i_size (itable s' ip) = Z.max (i_size i) o /\ i_addrs (itable s' ip) = i_addrs i.
Proof.
  intros i Hok Hwf Ho. destruct (Z.ltb_spec (i_size i) o) as [Hlt|Hge]; cbn [when].
  - exists (set_ino ip (set_isize o) s).
    assert (Ei : itable (set_ino ip (set_isize o) s) ip = set_isize o i) by apply upd_eq. rewrite Ei.
    split; [done|]. split; [|split; [by apply wframe_ino|split; [done|]]].
    + destruct Hok as [Ht Hg Hbm Hf Hdev]. split; rewrite ?Ei; try done; [by apply (tx_ext _ s)|]. destruct Hf as [H1 H2]. split; [exact H1|exact H2].
    + split; [destruct Hwf; split; cbn [set_isize i_size]; (done || lia)|]. cbn [set_isize i_size]. split; [lia|done].
  - exists s. do 4 (split; [done || apply wframe_refl|]). split; [done|]. split; [fold i; lia|done].
Qed.

(** The fields of the inode stay within their C types. *)
Lemma written_wf c dev ip user src off n s L V n' s' L' V' :
  inode_wf (itable s ip) -> written c dev ip user src off n s L V n' s' L' V' -> inode_wf (itable s' ip).
Proof.
  intros [H1 H2 H3 H4 H5 H6] W. pose proof (wr_ok _ _ _ _ _ _ _ _ _ _ _ _ _ _ W) as [_ Hg _ Hf _].
  pose proof (wr_size _ _ _ _ _ _ _ _ _ _ _ _ _ _ W) as Esz.
  pose proof (wr_frame _ _ _ _ _ _ _ _ _ _ _ _ _ _ W) as (? & ? & t & -> & _ & _ & (_ & _ & _ & _ & _ & E1 & E2 & E3 & E4)).
  cbn [itable with_itable with_log with_bufs] in *. split; rewrite ?E1, ?E2, ?E3, ?E4, ?Esz; try done.
  intros k Hk. destruct (data_start_pos _ _ Hg) as (_ & Hd & _).
  assert (exists p, 0 <= p <= MAXFILE /\ faddr V' (t ip) p = i_addrs (t ip) k) as (p & Hp & E).
  { destruct (decide (k = NDIRECT)) as [->|]; [exists MAXFILE; split; [unfold MAXFILE; lia|done]|].
    exists k. split; [unfold MAXFILE, NDIRECT in *; lia|]. unfold faddr.
    destruct (Z.eqb_spec k MAXFILE); [unfold MAXFILE, NDIRECT in *; lia|]. destruct (Z.ltb_spec k NDIRECT); [done|lia]. }
  destruct (decide (i_addrs (t ip) k = 0)) as [->|Hne]; [lia|].
  destruct (fo_data _ _ _ Hf p Hp) as [Hr _]; [congruence|]. rewrite E in Hr. destruct Hg. simpl in *. lia.
Qed.

Lemma saved_from x V0 V i V' :
  (forall b, sb_inodestart x <= b < sb_bmapstart x -> V b = V0 b) ->
  sb_inodestart x <= IBLOCK (i_inum i) x < sb_bmapstart x -> saved x V i V' -> saved x V0 i V'.
Proof.
  intros HV Hib (H1 & H2 & H3). split; [done|]. split.
  - intros y Hy. rewrite H2, HV; done.
  - intros b Hb Hne. rewrite H3; auto.
Qed.

Lemma used_bitmap x lg V V' b :
  geo x lg -> (forall b, sb_bmapstart x <= b -> V' b = V b) -> 0 <= b < sb_size x -> used x V' b = used x V b.
Proof.
  intros Hg HV Hb. unfold used. rewrite HV; [done|]. destruct (BBLOCK_small x lg b Hg Hb) as [-> ?].
  assert (0 <= b / BPB) by (unfold BPB; apply Z.div_pos; lia). lia.
Qed.

Lemma writei_finish dev ip s L V (r o : Z) :
  let i := itable s ip in
  fs_ok dev ip s L V -> inode_wf i -> 0 <= i_inum i < sb_ninodes (sb s) -> 0 <= o < 2 ^ 32 -> budget (log s) L ∅ 1 ->
  exists s' L' V', (i <- gets (fun s => itable s ip) ;; when (i_size i <? o) (modify (set_ino ip (set_isize o))) ;;
      iupdate ip ;; ret r) s = Ret r s' /\
    fs_ok dev ip s' L' V' /\ wframe ip s s' /\ i_size (itable s' ip) = Z.max (i_size i) o /\
    (forall a, 0 <= a < MAXFILE * BSIZE -> byte_at V' (itable s' ip) a = byte_at V i a) /\
    (forall b, sb_bmapstart (sb s) <= b -> V' b = V b) /\
    saved (sb s) V (itable s' ip) V'.
Proof.
  intros i Hok Hwf Hin Ho Hbud. rewrite bind_gets. fold i. cbv beta.
  destruct (grow_size dev ip s L V o Hok Hwf Ho) as (s1 & E1 & Hok1 & F1 & El & Hwf1 & Esz & Ead). fold i in E1, Esz, Ead.
  erewrite bind_ret by exact E1. assert (Es : sb s1 = sb s) by by eapply wframe_sb.
  assert (Ein : i_inum (itable s1 ip) = i_inum i).
  { destruct F1 as (? & ? & t & -> & _ & _ & Hm). by destruct Hm as (? & ? & _). }
  destruct (iupdate_run dev ip s1 L V Hok1) as (s2 & E2 & F2 & Hok2); [by rewrite Ein, Es|by rewrite El|].
  erewrite bind_ret by exact E2. set (ib := IBLOCK (i_inum (itable s1 ip)) (sb s1)) in *.
  assert (Hib : sb_inodestart (sb s) <= ib < sb_bmapstart (sb s)).
  { unfold ib. rewrite Es. eapply IBLOCK_small; [apply Hok|by rewrite Ein]. }
  assert (Ei2 : itable s2 = itable s1) by by destruct F2 as (? & ? & -> & _).
  eexists s2, _, _. split; [reflexivity|]. split; [exact Hok2|]. rewrite Ei2. split_and!.
  - eapply wframe_trans; [exact F1|by apply wframe_t].
  - done.
  - intros a Ha. rewrite (meta_bytes (sb s) (log s) V i); [done|apply Hok|apply Hok|lia|done|done].
  - intros b Hb. rewrite upd_ne by lia. done.
  - rewrite <- Es. unfold saved. fold ib. rewrite upd_eq. split_and!; try by apply dinode_get_put.
    + intros y Hy. by apply dinode_other.
    + intros b _ Hne. by rewrite upd_ne.
Qed.

(** C4: writing at an offset up to the end of the file, from memory that can
    be read, puts the source's bytes in the file and nothing else: every other byte
    of the file, every block of another file and every other inode stay; the size
    grows to cover them and the inode on the disk is updated.  Less than [n] bytes
    are written only when no block of the disk is free.  Out of range it returns -1
    and does nothing. *)
Theorem writei_correct dev ip user s L V src off n :
  let i := itable s ip in
  fs_ok dev ip s L V -> inode_wf i -> 0 <= i_inum i < sb_ninodes (sb s) -> 0 <= off -> 0 <= n -> off + n < 2 ^ 32 ->
  readable user s src n -> budget (log s) L ∅ (6 * rounds off n + 1) ->
  if (i_size i <? off) || (MAXFILE * BSIZE <? off + n) then writei ip user src off n s = Ret (-1) s else
  exists n' s' L' V', writei ip user src off n s = Ret n' s' /\
    fs_ok dev ip s' L' V' /\ wframe ip s s' /\ 0 <= n' <= n /\
    (n' = n \/ forall b, 0 <= b < sb_size (sb s) -> used (sb s) V' b = true) /\
    i_size (itable s' ip) = Z.max (i_size i) (off + n') /\
    (forall o, 0 <= o < MAXFILE * BSIZE -> byte_at V' (itable s' ip) o =
       if (off <=? o) && (o <? off + n') then dmem user s (src + (o - off)) else byte_at V i o) /\
    (forall b, data_start (sb s) <= b < sb_size (sb s) -> used (sb s) V b = true ->
       (forall q, 0 <= q <= MAXFILE -> faddr V i q <> b) -> V' b = V b) /\
    saved (sb s) V (itable s' ip) V'.
Proof.
  intros i Hok Hwf Hin Hoff Hn Hov Hr Hbud. unfold writei, ino. rewrite bind_gets. cbv beta. fold i.
  rewrite !(u32_small (off + n)) by lia. destruct (Z.ltb_spec (off + n) off); [lia|]. rewrite orb_false_r.
  destruct (Z.ltb_spec (i_size i) off) as [|Hsz]; cbn [orb]; [done|].
  destruct (Z.ltb_spec (MAXFILE * BSIZE) (off + n)) as [|Hmax]; [done|].
  destruct (writei_loop_run (Z.to_nat (rounds off n)) dev ip user (io_fuel n) s L V src off n 0 Hok)
    as (n' & s1 & L1 & V1 & E & W); [eapply budget_weaken; [|exact Hbud]; unfold rounds, BSIZE in *; dlia|
      unfold rounds, io_fuel, BSIZE; dlia|lia|lia|lia|by rewrite Z.sub_0_r|unfold rounds, BSIZE; right; dlia|].
  rewrite Z.sub_0_r in W. erewrite bind_ret by exact E. cbn [fst snd].
  pose proof W as [W1 W2 W3 W4 W5 W6 W7 W8 W9]. assert (Es : sb s1 = sb s) by by eapply wframe_sb.
  assert (Hmeta : meta_same i (itable s1 ip)) by by destruct W3 as (? & ? & ? & -> & _ & _ & ?).
  pose proof Hmeta as (_ & Ein & _).
  assert (0 <= rounds off n) by (unfold rounds, BSIZE; dlia).
  destruct (writei_finish dev ip s1 L1 V1 n' (off + n')) as (s2 & L2 & V2 & E2 & Hok2 & F2 & Hsz2 & Hby & Hoth & Hsv);
    [done|by eapply written_wf|by rewrite Ein, Es|lia| |].
  { apply (budget_same (log s)); [by eapply wframe_area|]. unfold budget in *. lia. }
  exists n', s2, L2, V2. split; [exact E2|]. split; [done|]. split; [by eapply wframe_trans|]. split; [done|].
  split; [|split; [|split; [|split]]].
  - destruct W7 as [?|Hall]; [by left|right]. intros b Hb. rewrite <- (Hall b Hb).
    apply (used_bitmap _ (log s)); [apply Hok| |done]. by rewrite <- Es.
  - rewrite Hsz2, W4. done.
  - intros o Ho. rewrite Hby by done. auto.
  - intros b Hb Hu Hno. rewrite Hoth by (rewrite Es; pose proof (data_start_pos _ _ (fk_geo _ _ _ _ _ Hok)); lia).
    by apply (gw_other _ _ _ _ _ W5).
  - rewrite Es in Hsv. apply (saved_from _ _ V1); [apply W5| |done].
    assert (i_inum (itable s2 ip) = i_inum i) as ->.
    { destruct F2 as (? & ? & t & -> & _ & _ & (_ & E3 & _)). simpl. congruence. }
    eapply IBLOCK_small; [apply Hok|done].
Qed.
End writei.
