(* ===== verification/FsDemo.v ===== *)
(** A small disk on which the theorems about the file system are instantiated.

    The disk has 2000 blocks: the log from block 2, inodes from 34, the bitmap at
    47 and data from 48 on.  Block 48 belongs to inode 5, a file of five bytes;
    all later blocks are free. *)

From S2P Require Import Prelude Mem Riscv Str Held Sleeplock FsState Bio View Log Txn Fs FsBlock FsInode FsFile FsWrite.

Definition demo_sb : superblock := mksb FSMAGIC 2000 1900 200 31 2 34 47.
Definition demo_disk : Z -> block :=
  upd (upd (fun _ _ => 0) 47 (fun a => if a <? 6 then 255 else if a =? 6 then 1 else 0)) 48
    (fun a => if a <? 5 then 104 + a else 0).
Definition demo_file : inode :=
  mkinode 1 5 1 (mksleep 1 "inode" 7) 1 T_FILE 0 0 1 5 (fun k => if k =? 0 then 48 else 0).

(** The machine after boot, and inside an operation of process 7. *)
Definition demo_boot : fsst :=
  match boot 1 demo_sb (fs_boot demo_disk 7) with Ret _ s => s | _ => fs_boot demo_disk 7 end.
Definition demo_ready : fsst := with_itable (fun ip => if ip =? 0 then demo_file else zero_inode) (with_sb demo_sb demo_boot).
Definition demo_tx : fsst := set_log (set_out 1) demo_ready.

Lemma demo_load32 (m : mem) a : (forall y, a <= y < a + 4 -> m y = 0) -> load32 m a = 0.
Proof. intros Hz. rewrite (load32_ext m (fill m a 4 0)); [apply load32_fill_zero; lia|]. intros y Hy. by rewrite Hz, fill_in by lia. Qed.

Lemma demo_boot_ok :
  f_held demo_boot = [] /\ f_pid demo_boot = 7 /\ same_area (boot_log 1 demo_sb) (log demo_boot) /\ lh_n (log demo_boot) = 0 /\
  view 1 demo_boot ∅ ∅ (disk demo_boot) /\ head_n (disk demo_boot 2) = 0 /\ (forall b, b <> 2 -> disk demo_boot b = demo_disk b).
Proof.
  destruct (boot_run 1 demo_sb demo_disk 7 []) as (s' & E & Ed & _ & Hh & Hp & Ha & Hn & HV); [done|by split|..].
  - split; [|done|done]. change (demo_disk (sb_logstart demo_sb)) with (fun _ : Z => 0). unfold head_n.
    rewrite demo_load32; done.
  - constructor.
  - assert (demo_boot = s') as -> by (unfold demo_boot; by rewrite E).
    clear E. rewrite <- Ed in HV.
    assert (Hd : disk s' = upd demo_disk 2 (store32 (demo_disk 2) 0 0)) by exact Ed. clear Ed.
    do 5 (split; [assumption|]). split.
    + rewrite Hd, upd_eq. unfold head_n. by rewrite load32_eq.
    + intros b Hb. rewrite Hd. by apply upd_ne.
Qed.

#[global] Opaque demo_boot.

(** The superblock and the inode table are no concern of the log. *)
Lemma log_ok_meta dev s L V t x : log_ok dev s L V -> log_ok dev (with_itable t (with_sb x s)) L V.
Proof.
  intros [H1 H2 H3 H4 H5 H6 H7]. split; [exact H1|exact H2|exact H3| |exact H5|exact H6|exact H7].
  apply (view_ext _ s); [reflexivity..| |exact H4]. exact (view_free _ _ _ _ _ H4).
Qed.

Lemma tx_of_log_ok dev s L V : log_ok dev s L V -> tx dev (set_log (set_out 1) s) L ∅ V.
Proof.
  intros [H1 H2 H3 H4 H5 H6 H7]. apply log_ok_tx; [simpl; lia|].
  split; [by destruct H1|by destruct H2|exact H3| |exact H5|exact H6|exact H7].
  apply (view_ext _ s); [reflexivity..| |exact H4]. exact (view_free _ _ _ _ _ H4).
Qed.

Lemma demo_ready_ok : log_ok 1 demo_ready [] (disk demo_boot).
Proof.
  apply log_ok_meta. destruct demo_boot_ok as (Hh & Hp & (E1 & E2 & E3 & E4 & E5) & Hn & HV & Hhd & _).
  split; [split|split|..].
  - rewrite E5. reflexivity.
  - rewrite E1. simpl. lia.
  - rewrite E1. reflexivity.
  - exact Hn.
  - rewrite Hn. unfold LOGSIZE. lia.
  - intros i b. rewrite lookup_nil. discriminate.
  - constructor.
  - constructor.
  - exact HV.
  - rewrite E1. exact Hhd.
  - exact Hh.
  - exact E4.
Qed.

Lemma tx_log s t x : log (set_log (set_out 1) (with_itable t (with_sb x s))) = set_out 1 (log s).
Proof. reflexivity. Qed.
Lemma demo_tx_log : log demo_tx = set_out 1 (log demo_boot).
Proof. apply tx_log. Qed.
Lemma tx_sb s t x f : sb (set_log f (with_itable t (with_sb x s))) = x.
Proof. reflexivity. Qed.
Lemma demo_tx_sb : sb demo_tx = demo_sb.
Proof. apply tx_sb. Qed.

Lemma demo_log : lg_start (log demo_tx) = 2 /\ lg_size (log demo_tx) = 31 /\ lg_outstanding (log demo_tx) = 1 /\ lh_n (log demo_tx) = 0.
Proof.
  destruct demo_boot_ok as (Hh & Hp & (E1 & E2 & E3 & E4 & E5) & Hn & _). rewrite demo_tx_log.
  cbn [lg_start lg_size lg_outstanding lh_n set_out]. rewrite E1, E2, Hn. clear. done.
Qed.

Lemma demo_tx_ok : tx 1 demo_tx [] ∅ (disk demo_boot).
Proof. apply tx_of_log_ok, demo_ready_ok. Qed.

Lemma demo_geo : geo demo_sb (log demo_tx).
Proof. destruct demo_log as (E & _). clear -E. split; rewrite ?E; done. Qed.

Lemma demo_budget k : k <= 30 -> budget (log demo_tx) [] ∅ k.
Proof. destruct demo_log as (_ & E & _). intros Hk. split; [rewrite map_size_empty; unfold NBUF; cbn [length]; lia|rewrite E; cbn [length]; lia]. Qed.

Lemma demo_used b : 0 <= b < 2000 -> used demo_sb (disk demo_boot) b = (b <? 49).
Proof.
  intros Hb. destruct demo_boot_ok as (_ & _ & _ & _ & _ & _ & Hd). unfold used.
  destruct (BBLOCK_small demo_sb (log demo_tx) b demo_geo Hb) as [-> _].
  replace (b / BPB + sb_bmapstart demo_sb) with 47 by (change (sb_bmapstart demo_sb) with 47; unfold BPB; dlia).
  rewrite Hd by lia. clear Hd.
  change (demo_disk 47) with (fun a : Z => if a <? 6 then 255 else if a =? 6 then 1 else 0).
  rewrite Z.mod_small by (unfold BPB; lia). unfold bit_set.
  destruct (Z.ltb_spec (b / 8) 6), (Z.ltb_spec b 49); try dlia.
  - assert (Hm : 0 <= b mod 8 < 8) by dlia. 
    assert (Hall : Forall (fun j => Z.testbit 255 j = true) (seqZ 0 8)) by by repeat constructor.
    rewrite Forall_forall in Hall. apply Hall, elem_of_seqZ. lia.
  - assert (b = 48) as -> by dlia. done.
  - destruct (Z.eqb_spec (b / 8) 6); [|by rewrite Z.bits_0].
    assert (Hm : 1 <= b mod 8 < 8) by dlia.
    assert (Hall : Forall (fun j => Z.testbit 1 j = false) (seqZ 1 7)) by by repeat constructor.
    rewrite Forall_forall in Hall. apply Hall, elem_of_seqZ. lia.
Qed.

Lemma demo_bitmap : bitmap_ok demo_sb (disk demo_boot).
Proof. intros b Hb. change (data_start demo_sb) with 48 in Hb. rewrite demo_used by lia. lia. Qed.

(** ** The buffer cache *)
Lemma demo_cache : exists l, brep 1 demo_tx l ∅.
Proof.
  destruct (tx_view _ _ _ _ _ demo_tx_ok) as (l & C & [Hb Hdom _ _]). exists l.
  replace (∅ : gmap Z cent) with C; [exact Hb|]. apply map_eq. intros b. rewrite lookup_empty.
  destruct (C !! b) eqn:E; [|reflexivity]. exfalso.
  destruct (proj1 (Hdom b)) as [H|[? H]]; [by rewrite E|by apply elem_of_list_to_set, elem_of_nil in H|by rewrite lookup_empty in H].
Qed.

Lemma bread_correct_witness : exists i B', bread 1 48 demo_tx = Ret i (with_bufs B' demo_tx).
Proof.
  destruct demo_cache as [l Hb]. pose proof (bread_correct 1 48 demo_tx l ∅ Hb) as H. rewrite lookup_empty in H.
  destruct H as [H _]. destruct H as (i & B' & E & _); [rewrite map_size_empty; reflexivity|].
  exists i, B'. exact E.
Defined.

(** Block 48 is read and released again. *)
Lemma brelse_correct_witness :
  exists i B1 B2, bread 1 48 demo_tx = Ret i (with_bufs B1 demo_tx) /\
    brelse i (with_bufs B1 demo_tx) = Ret tt (with_bufs B2 (with_bufs B1 demo_tx)).
Proof.
  destruct demo_cache as [l Hb]. revert Hb. generalize demo_tx. intros s Hb.
  destruct (bread_new 1 48 s l ∅ Hb) as (i & B1 & E & Hb' & _); [apply lookup_empty|rewrite map_size_empty; reflexivity|].
  pose proof (brelse_correct _ _ _ _ 48 _ Hb' (lookup_insert_eq _ _ _)) as H. cbn [c_lock] in H.
  destruct H as (B2 & l' & E2 & _); [reflexivity|reflexivity|]. exists i, B1, B2. split; [exact E|exact E2].
Defined.

(** ** The log *)
Definition demo_log2 : logst := mklog 2 31 1 0 1 2 (fun i => 50 + i).

Lemma demo_log2_ok : logged demo_log2 [50; 51].
Proof.
  split; [done|done| |].
  - intros [|[|i]] b; [intros [= <-]; done|intros [= <-]; done|simpl; rewrite lookup_nil; discriminate].
  - repeat constructor; unfold home; simpl; lia.
Qed.

Lemma log_head_roundtrip_witness :
  head_n (put_head demo_log2 (fun _ => 7)) = 2 /\ head_block (put_head demo_log2 (fun _ => 7)) 1 = 51.
Proof.
  destruct (log_head_roundtrip demo_log2 [50; 51] (fun _ => 7) demo_log2_ok) as [H1 H2].
  split; [exact H1|]. rewrite H2; [reflexivity|]. simpl. lia.
Defined.

(** A state inside a transaction is one commit can be called in. *)
Lemma tx_commit_ready dev s L V : tx dev s L ∅ V -> commit_ready dev s L V.
Proof. intros []. by split. Qed.

Definition run (m : M fsst unit) (s : fsst) : fsst := match m s with Ret _ s' => s' | _ => s end.

Lemma run_ret m s s' : m s = Ret tt s' -> run m s = s'.
Proof. unfold run. by intros ->. Qed.

(** Logging several blocks. *)
Lemma log_many dev v bs s L V :
  tx dev s L ∅ V -> NoDup (L ++ bs) -> Forall (home (log s)) bs -> (length L + length bs <= 30)%nat -> lg_size (log s) = 31 ->
  exists s' V', for_each bs (fun b => log_block dev b v) s = Ret tt s' /\ tx dev s' (L ++ bs) ∅ V' /\ tframe s s'.
Proof.
  revert s L V; induction bs as [|b bs IH]; intros s L V Ht Hnd Hh Hlen Hsz; cbn [for_each].
  { exists s, V. rewrite app_nil_r. split; [done|]. split; [done|apply tframe_refl]. }
  apply Forall_cons in Hh as [Hb Hh]. cbn [length] in Hlen. pose proof (lo_n _ _ (tx_logged _ _ _ _ _ Ht)) as Hn.
  destruct (log_block_run dev s L V b v Ht Hb) as (s1 & E1 & Ht1 & F1); [unfold LOGSIZE, NBUF; lia..|].
  erewrite bind_ret by exact E1.
  assert (Ea : add_block b L = L ++ [b]).
  { unfold add_block. case_decide as Hin; [|done]. apply NoDup_app in Hnd as (_ & Hd & _). destruct (Hd b Hin). left. }
  rewrite Ea in Ht1. destruct F1 as (B & lg & Es & Ha). destruct (IH s1 _ _ Ht1) as (s2 & V2 & E2 & Ht2 & F2).
  - by rewrite <- app_assoc.
  - rewrite Es. eapply Forall_impl; [exact Hh|]. intros x. by apply home_area.
  - rewrite length_app. cbn [length]. lia.
  - rewrite Es. cbn [log with_log]. destruct Ha as (_ & -> & _). done.
  - exists s2, V2. rewrite <- app_assoc in Ht2. split; [exact E2|]. split; [done|].
    eapply tframe_trans; [|exact F2]. by exists B, lg.
Qed.

Definition demo_bs (n : Z) : M fsst unit := for_each (seqZ 60 n) (fun b => log_block 1 b (fun _ => 9)).
Definition demo_logged (n : Z) : fsst := run (demo_bs n) demo_tx.

Lemma demo_logged_ok n :
  0 <= n <= 30 -> exists V, tx 1 (demo_logged n) (seqZ 60 n) ∅ V /\ lg_start (log (demo_logged n)) = 2.
Proof.
  intros Hn. destruct demo_log as (E1 & E2 & _).
  destruct (log_many 1 (fun _ => 9) (seqZ 60 n) demo_tx [] (disk demo_boot) demo_tx_ok) as (s' & V' & E & Ht & F).
  - apply NoDup_seqZ.
  - apply Forall_forall. intros b Hb%elem_of_seqZ. unfold home. rewrite E1. unfold LOGSIZE. lia.
  - rewrite length_seqZ. cbn [length]. lia.
  - exact E2.
  - exists V'. unfold demo_logged, demo_bs. rewrite (run_ret _ _ _ E). split; [exact Ht|].
    destruct F as (B & lg & -> & Ha). cbn [log with_log]. destruct Ha as (-> & _). exact E1.
Qed.

Lemma commit_correct_witness :
  exists V s', commit (demo_logged 3) = Ret tt s' /\ forall b, home (log (demo_logged 3)) b -> disk s' b = V b.
Proof.
  destruct (demo_logged_ok 3) as (V & Ht & _); [lia|].
  destruct (commit_correct 1 (demo_logged 3) (seqZ 60 3) V) as (s' & E & _ & Hh & _);
    [exact (tx_commit_ready _ _ _ _ Ht)|rewrite length_seqZ; unfold NBUF; lia|].
  exists V, s'. split; [exact E|exact Hh].
Defined.


Lemma commit_full_panics_witness : commit (demo_logged 30) = Panic "bget: no buffers".
Proof.
  destruct (demo_logged_ok 30) as (V & Ht & Es); [lia|].
  apply (commit_full_panics 1 _ (seqZ 60 30) V (tx_commit_ready _ _ _ _ Ht)).
  rewrite (lo_n _ _ (tx_logged _ _ _ _ _ Ht)). reflexivity.
Defined.

(** Process 3 starts an operation. *)
Definition demo_begun : fsst := run begin_op (with_pid 3 demo_ready).

Lemma ready_log s t x p : log (with_pid p (with_itable t (with_sb x s))) = log s.
Proof. reflexivity. Qed.
Lemma ready_log0 s t x : log (with_itable t (with_sb x s)) = log s.
Proof. reflexivity. Qed.

Lemma demo_reserve : reserve (log (with_pid 3 demo_ready)) <= LOGSIZE.
Proof.
  destruct demo_log as (_ & _ & _ & Hn). destruct demo_boot_ok as (_ & _ & (_ & _ & E3 & _) & _).
  rewrite demo_tx_log in Hn. unfold reserve.
  assert (El : log (with_pid 3 demo_ready) = log demo_boot) by apply ready_log.
  rewrite El. cbn [lh_n set_out] in Hn. rewrite Hn, E3. clear. done.
Qed.

Lemma demo_begun_ok : begin_op (with_pid 3 demo_ready) = Ret tt demo_begun.
Proof.
  destruct (begin_op_run 1 (with_pid 3 demo_ready) [] (disk demo_boot)
              (log_ok_pid _ _ _ _ _ demo_ready_ok) demo_reserve) as (s' & E & _ & _).
  unfold demo_begun, run. rewrite E. reflexivity.
Qed.
#[global] Opaque demo_begun.

Lemma demo_machine : machine_inv 1 5 (demo_ready, ∅) [] (disk demo_boot).
Proof.
  destruct demo_log as (_ & E2 & _). rewrite demo_tx_log in E2. cbn [lg_size set_out] in E2.
  destruct demo_boot_ok as (_ & _ & (_ & _ & E3 & _) & _). pose proof demo_ready_ok as Hok.
  assert (El : log demo_ready = log demo_boot) by apply ready_log0.
  generalize dependent demo_ready. intros s Hok El. split; cbn [fst snd]; rewrite ?El; [exact Hok| | | | |].
  - rewrite E2. unfold LOGSIZE. lia.
  - rewrite E3. reflexivity.
  - intros p B. rewrite lookup_empty. discriminate.
  - intros p B b. rewrite lookup_empty. discriminate.
  - unfold left_over. rewrite map_fold_empty. unfold LOGSIZE. cbn [length]. lia.
Qed.


(** ** Blocks and inodes *)
Lemma balloc_correct_witness :
  exists r s' V', balloc 1 demo_tx = Ret r s' /\ 48 <= r < 2000 /\ used demo_sb V' r = true.
Proof.
  destruct (balloc_correct 1 demo_tx [] (disk demo_boot) demo_tx_ok) as (r & s' & L' & V' & E & _ & _ & Hor).
  - rewrite demo_tx_sb. exact demo_geo.
  - apply demo_budget. lia.
  - rewrite demo_tx_sb. exact demo_bitmap.
  - rewrite demo_tx_sb in Hor. exists r, s', V'. split; [exact E|].
    destruct Hor as [(_ & _ & Hall)|(Hr & _ & _ & Hu & _)].
    + specialize (Hall 1000). rewrite demo_used in Hall by lia. discriminate Hall. cbn. lia.
    + change (data_start demo_sb) with 48 in Hr. change (sb_size demo_sb) with 2000 in Hr, Hu.
      split; [exact Hr|]. rewrite Hu by lia. by rewrite Z.eqb_refl.
Defined.

Lemma bfree_correct_witness :
  (exists s', bfree 1 48 demo_tx = Ret tt s') /\ bfree 1 1000 demo_tx = Panic "freeing free block".
Proof.
  pose proof (bfree_correct 1 demo_tx [] (disk demo_boot) 48 demo_tx_ok) as H1.
  pose proof (bfree_correct 1 demo_tx [] (disk demo_boot) 1000 demo_tx_ok) as H2.
  rewrite demo_tx_sb, demo_used in H1, H2 by lia. change (sb_size demo_sb) with 2000 in H1, H2. cbn [Z.ltb Z.compare Pos.compare Pos.compare_cont] in H1, H2.
  split.
  - destruct H1 as (s' & _ & _ & E & _); [exact demo_geo|apply demo_budget; lia|lia|]. exists s'. exact E.
  - apply H2; [exact demo_geo|apply demo_budget; lia|lia].
Defined.

Lemma demo_file_wf : inode_wf demo_file.
Proof. split; cbn; try lia; [unfold T_FILE; lia|]. intros k _. destruct (k =? 0); lia. Qed.

Lemma dinode_roundtrip_witness :
  i_size (get_dinode (put_dinode (fun _ => 3) (dinode_at 21) demo_file) (dinode_at 21) zero_inode) = 5.
Proof. apply (dinode_roundtrip (fun _ => 3) 21 demo_file zero_inode demo_file_wf). Defined.

Lemma tx_f_held f s t x : f_held (set_log f (with_itable t (with_sb x s))) = f_held s.
Proof. reflexivity. Qed.
Lemma demo_held : f_held demo_tx = [].
Proof. unfold demo_tx, demo_ready. rewrite tx_f_held. apply demo_boot_ok. Qed.

Lemma tx_itable s t x f : itable (set_log f (with_itable t (with_sb x s))) = t.
Proof. reflexivity. Qed.
Lemma demo_tx_itable : itable demo_tx = fun ip => if ip =? 0 then demo_file else zero_inode.
Proof. apply tx_itable. Qed.

Lemma demo_itab_ok : itab_ok (fun ip => if ip =? 0 then demo_file else zero_inode).
Proof.
  split.
  - intros i _. destruct (i =? 0); simpl; lia.
  - intros dev inum i j _ _. unfold is_entry. destruct (Z.eqb_spec i 0), (Z.eqb_spec j 0); simpl; subst; done.
Qed.

(** Inode 5 is in the table, inode 6 is not. *)
Lemma iget_correct_witness :
  iget_result demo_tx 1 6 (iget 1 6 demo_tx) /\
  forall ip s', iget 1 5 demo_tx = Ret ip s' -> is_entry (itable s') 1 5 ip = true.
Proof.
  assert (Hh : LItable ∉ f_held demo_tx) by (rewrite demo_held; apply not_elem_of_nil).
  assert (Hi : itab_ok (itable demo_tx)) by (rewrite demo_tx_itable; exact demo_itab_ok).
  split; [apply (iget_correct demo_tx 1 6 Hh Hi)|].
  intros ip s' E. destruct (iget_correct demo_tx 1 5 Hh Hi) as [_ H]. apply (H ip s' E).
Defined.

(** ** Files *)

(** A process with one page of memory at address 0. *)
#[local] Instance demo_umem : UserMem := {
  ucopyout m dst src n :=
    if (0 <=? dst) && (dst + n <=? 4096)
    then (fun a => if (dst <=? a) && (a <? dst + n) then src (a - dst) else m a, true) else (m, false);
  ucopyin m src n d :=
    if (0 <=? src) && (src + n <=? 4096)
    then (fun i => if (0 <=? i) && (i <? n) then m (src + i) else d i, true) else (d, false)
}.
#[local] Instance demo_umem_laws : UserMemLaws.
Proof.
  split; simpl.
  - intros m dst src n m'. destruct (_ && _); [|discriminate]. intros [= <-] a. reflexivity.
  - intros m src n d d'. destruct (_ && _); [|discriminate]. intros [= <-] a. reflexivity.
Qed.

Lemma demo_faddr V p : 0 <= p -> faddr V demo_file p = if p =? 0 then 48 else 0.
Proof.
  intros Hp. unfold faddr, MAXFILE, NDIRECT, demo_file. cbn [i_addrs].
  destruct (Z.eqb_spec p 268) as [->|]; [reflexivity|]. destruct (Z.ltb_spec p 12); [reflexivity|].
  destruct (Z.eqb_spec p 0); [lia|]. reflexivity.
Qed.

Lemma demo_file_ok : file_ok demo_sb (disk demo_boot) demo_file.
Proof.
  split.
  - intros p Hp. rewrite demo_faddr by lia. destruct (Z.eqb_spec p 0); [|done]. intros _.
    split; [done|]. by rewrite demo_used by lia.
  - intros p q Hp Hq. rewrite !demo_faddr by lia. destruct (Z.eqb_spec p 0), (Z.eqb_spec q 0); subst; done.
Qed.

Lemma demo_ino : itable demo_tx 0 = demo_file.
Proof. by rewrite demo_tx_itable. Qed.

Lemma demo_fs_ok : fs_ok 1 0 demo_tx [] (disk demo_boot).
Proof.
  split; rewrite ?demo_tx_sb, ?demo_ino; [exact demo_tx_ok|exact demo_geo|exact demo_bitmap|exact demo_file_ok|reflexivity].
Qed.

Lemma demo_mapped : mapped (disk demo_boot) demo_file 0 5.
Proof. intros o Ho. rewrite demo_faddr by (unfold BSIZE; dlia). rewrite Z.div_small by (unfold BSIZE; lia). discriminate. Qed.


Lemma if_false {A} (b : bool) (x y : A) : b = false -> (if b then x else y) = y.
Proof. by intros ->. Qed.

Lemma demo_readable s : readable true s 100 4.
Proof. intros _ a len d Ha Hl. simpl. destruct (Z.leb_spec 0 a), (Z.leb_spec (a + len) 4096); try lia. reflexivity. Qed.

(** Writing four bytes of user memory at offset 3. *)
Lemma writei_correct_witness :
  exists n' s' V', writei 0 true 100 3 4 demo_tx = Ret n' s' /\ 0 <= n' <= 4 /\
    i_size (itable s' 0) = Z.max 5 (3 + n') /\ byte_at V' (itable s' 0) 1 = byte_at (disk demo_boot) demo_file 1.
Proof.
  pose proof (writei_correct 1 0 true demo_tx [] (disk demo_boot) 100 3 4 demo_fs_ok) as H.
  cbv zeta in H. rewrite demo_ino, demo_tx_sb in H.
  assert (Hif : (i_size demo_file <? 3) || (MAXFILE * BSIZE <? 3 + 4) = false) by reflexivity. rewrite Hif in H.
  cbv iota in H. destruct H as (n' & s' & L' & V' & E & _ & _ & Hn & _ & Hsz & Hby & _).
  - exact demo_file_wf.
  - split; [discriminate|reflexivity].
  - lia.
  - lia.
  - lia.
  - apply demo_readable.
  - apply demo_budget. discriminate.
  - exists n', s', V'. split; [exact E|]. split; [exact Hn|]. split; [exact Hsz|].
    rewrite Hby by (unfold MAXFILE, BSIZE; lia). apply if_false. reflexivity.
Defined.
