(* ===== verification/Pipe.v ===== *)
(** kernel/pipe.c: a ring buffer of PIPESIZE bytes between writers and readers.

    The pipe's lock is held from acquire to release or to a call of sleep, so the
    code in between is one step: [pipewrite_loop] and [piperead] run up to the
    return or to the next sleep, and record the channels they wake.  [nread] and
    [nwrite] are unsigned 32-bit counters that wrap around.

    [pipe_rep p q]: the buffer holds the bytes [q].  The last part interleaves any
    number of readers and writers. *)

From S2P Require Import Prelude Mem.

Definition PIPESIZE : Z := 512.

Record pipe : Type := mkpipe {
  p_data : mem;
  nread : Z;
  nwrite : Z;
  readopen : Z;
  writeopen : Z
}.

(** The channels [&pi->nread] and [&pi->nwrite]. *)
Inductive chan : Type := CRead | CWrite.
#[export] Instance chan_eq_dec : EqDecision chan.
Proof. solve_decision. Defined.

(** The pipe, the channels woken since the lock was taken, and the memory of the
    running process. *)
Record pst : Type := mkpst { pp : pipe; woken : list chan; pmem : mem }.

Definition set_pipe (f : pipe -> pipe) (s : pst) : pst := mkpst (f (pp s)) (woken s) (pmem s).
Definition wakeup (c : chan) : M pst unit := modify (fun s => mkpst (pp s) (woken s ++ [c]) (pmem s)).

(** How a run under the lock ends: the call returns, or it sleeps, having copied
    [i] bytes so far. *)
Inductive outcome : Type := Done (r : Z) | Sleep (i : Z).
#[export] Instance outcome_eq_dec : EqDecision outcome.
Proof. solve_decision. Defined.

(** The initialisation in pipealloc. *)
Definition pipe_init (d : mem) : pipe := mkpipe d 0 0 1 1.

(** [pi->data[pi->nwrite++ % PIPESIZE] = ch] and its counterpart. *)
Definition push (ch : Z) (p : pipe) : pipe :=
  mkpipe (upd (p_data p) (nwrite p mod PIPESIZE) ch) (nread p) (u32 (nwrite p + 1)) (readopen p) (writeopen p).
Definition pop (p : pipe) : pipe :=
  mkpipe (p_data p) (u32 (nread p + 1)) (nwrite p) (readopen p) (writeopen p).

(** The result tells whether the pipe was freed. *)
Definition pipeclose (writable : bool) : M pst bool :=
  (if writable then
     modify (set_pipe (fun p => mkpipe (p_data p) (nread p) (nwrite p) (readopen p) 0)) ;; wakeup CRead
   else
     modify (set_pipe (fun p => mkpipe (p_data p) (nread p) (nwrite p) 0 (writeopen p))) ;; wakeup CWrite) ;;
  p <- gets pp ;;
  ret ((readopen p =? 0) && (writeopen p =? 0)).

Section user.
Context {U : UserMem}.

(** [killed i] is what killed(pr) returns when [i] bytes have been copied. *)
Fixpoint pipewrite_loop (fuel : nat) (killed : Z -> bool) (addr n i : Z) : M pst outcome :=
  if negb (i <? n) then wakeup CRead ;; ret (Done i) else
  match fuel with
  | O => stuck "pipewrite: out of fuel"
  | S fuel' =>
      p <- gets pp ;;
      if (readopen p =? 0) || killed i then ret (Done (-1)) else
      if nwrite p =? u32 (nread p + PIPESIZE) then wakeup CRead ;; ret (Sleep i) else
      m <- gets pmem ;;
      let '(d, ok) := ucopyin m (u64 (addr + i)) 1 (fun _ => 0) in
      if negb ok then wakeup CRead ;; ret (Done i) else
      modify (set_pipe (push (d 0))) ;;
      pipewrite_loop fuel' killed addr n (i + 1)
  end.

(** From the start, or from the return of sleep with [i] bytes copied. *)
Definition pipewrite (killed : Z -> bool) (addr n i : Z) : M pst outcome :=
  pipewrite_loop (Z.to_nat (n - i)) killed addr n i.

Fixpoint piperead_loop (fuel : nat) (addr n i : Z) : M pst outcome :=
  p <- gets pp ;;
  if negb (i <? n) || (nread p =? nwrite p) then wakeup CWrite ;; ret (Done i) else
  match fuel with
  | O => stuck "piperead: out of fuel"
  | S fuel' =>
      m <- gets pmem ;;
      modify (set_pipe pop) ;;
      let '(m', ok) := ucopyout m (u64 (addr + i)) (fun _ => p_data p (nread p mod PIPESIZE)) 1 in
      modify (fun s => mkpst (pp s) (woken s) m') ;;
      if negb ok then wakeup CWrite ;; ret (Done i) else
      piperead_loop fuel' addr n (i + 1)
  end.

Definition piperead (killed : bool) (addr n : Z) : M pst outcome :=
  p <- gets pp ;;
  if (nread p =? nwrite p) && negb (writeopen p =? 0) then
    if killed then ret (Done (-1)) else ret (Sleep 0)
  else piperead_loop (Z.to_nat n) addr n 0.

End user.

(** ** The bytes in the buffer *)
Record pipe_rep (p : pipe) (q : list Z) : Prop := {
  pr_nread : 0 <= nread p < 2 ^ 32;
  pr_nwrite : nwrite p = u32 (nread p + Z.of_nat (length q));
  pr_room : Z.of_nat (length q) <= PIPESIZE;
  pr_data : forall k b, q !! k = Some b -> p_data p ((nread p + Z.of_nat k) mod PIPESIZE) = b
}.

Lemma pipe_init_rep d : pipe_rep (pipe_init d) [].
Proof. split; try done. Qed.

Lemma pipe_empty p q : pipe_rep p q -> (nread p =? nwrite p) = bool_decide (q = []).
Proof.
  intros [Hn Hw Hr _]. rewrite Hw. unfold u32. case_bool_decide as E.
  - subst. simpl. apply Z.eqb_eq. dlia.
  - assert (length q <> 0)%nat by by destruct q. apply Z.eqb_neq. unfold PIPESIZE in *. dlia.
Qed.

Lemma pipe_full p q :
  pipe_rep p q -> (nwrite p =? u32 (nread p + PIPESIZE)) = bool_decide (Z.of_nat (length q) = PIPESIZE).
Proof.
  intros [Hn Hw Hr _]. rewrite Hw. unfold u32, PIPESIZE in *. case_bool_decide as E.
  - rewrite E. apply Z.eqb_refl.
  - apply Z.eqb_neq. dlia.
Qed.

(** The wrap-around of the counters does not disturb the index, as PIPESIZE
    divides 2^32. *)
Lemma wrap_index a : u32 a mod PIPESIZE = a mod PIPESIZE.
Proof. unfold u32, PIPESIZE. dlia. Qed.

Lemma push_rep p q ch : pipe_rep p q -> Z.of_nat (length q) < PIPESIZE -> pipe_rep (push ch p) (q ++ [ch]).
Proof.
  intros [Hn Hw Hr Hd] Hlt. split; cbn [push nread nwrite p_data].
  - done.
  - rewrite Hw, length_app. simpl. unfold u32. dlia.
  - rewrite length_app. simpl. lia.
  - intros k b Hk. rewrite Hw, wrap_index, upd_case. apply lookup_app_Some in Hk as [Hk|[Hk1 Hk2]].
    + pose proof (lookup_lt_Some _ _ _ Hk). rewrite decide_False; [by apply Hd|]. unfold PIPESIZE in *. dlia.
    + destruct (k - length q)%nat eqn:E; [|by destruct n]. injection Hk2 as <-.
      rewrite decide_True; [done|]. f_equal. lia.
Qed.

Lemma pop_rep p b q : pipe_rep p (b :: q) -> pipe_rep (pop p) q /\ p_data p (nread p mod PIPESIZE) = b.
Proof.
  intros [Hn Hw Hr Hd]. cbn [length] in *. split; [split|]; cbn [pop nread nwrite p_data].
  - unfold u32. dlia.
  - rewrite Hw. unfold u32. dlia.
  - lia.
  - intros k b' Hk. specialize (Hd (S k) b' Hk). rewrite <- Hd. f_equal. unfold u32, PIPESIZE. dlia.
  - specialize (Hd 0%nat b eq_refl). by rewrite Z.add_0_r in Hd.
Qed.

(** ** One run under the lock *)
Definition same_ends (p p' : pipe) : Prop := readopen p' = readopen p /\ writeopen p' = writeopen p.

Section runs.
Context {U : UserMem} {UL : UserMemLaws}.

(** What a run of pipewrite does, the buffer holding [q] before: it appends the
    bytes [bs] of user memory from [addr + i] on. *)
Record wrote_run (killed : Z -> bool) (addr n i : Z) (s : pst) (q bs : list Z) (o : outcome) (s' : pst) : Prop := {
  ww_rep : pipe_rep (pp s') (q ++ bs);
  ww_ends : same_ends (pp s) (pp s');
  ww_nread : nread (pp s') = nread (pp s);
  ww_mem : pmem s' = pmem s;
  ww_bytes : forall k b, bs !! k = Some b -> b = pmem s (u64 (addr + i + Z.of_nat k));
  ww_out : let j := i + Z.of_nat (length bs) in
    match o with
    | Sleep j' => j' = j /\ j < n /\ Z.of_nat (length (q ++ bs)) = PIPESIZE /\ readopen (pp s) <> 0 /\
        woken s' = woken s ++ [CRead]
    | Done r =>
        (r = j /\ woken s' = woken s ++ [CRead] /\
         (j = n \/ (j < n /\ snd (ucopyin (pmem s) (u64 (addr + j)) 1 (fun _ => 0)) = false))) \/
        (r = -1 /\ j < n /\ woken s' = woken s /\ (readopen (pp s) = 0 \/ killed j = true))
    end
}.

Lemma wrote_stop killed addr n i s q o s' :
  pipe_rep (pp s) q -> pp s' = pp s -> pmem s' = pmem s ->
  match o with
  | Sleep j => j = i /\ i < n /\ Z.of_nat (length q) = PIPESIZE /\ readopen (pp s) <> 0 /\ woken s' = woken s ++ [CRead]
  | Done r =>
      (r = i /\ woken s' = woken s ++ [CRead] /\
       (i = n \/ (i < n /\ snd (ucopyin (pmem s) (u64 (addr + i)) 1 (fun _ => 0)) = false))) \/
      (r = -1 /\ i < n /\ woken s' = woken s /\ (readopen (pp s) = 0 \/ killed i = true))
  end -> wrote_run killed addr n i s q [] o s'.
Proof.
  intros Hr Ep Em Ho. split; rewrite ?Ep, ?app_nil_r; try done. cbn [length]. cbv zeta. by rewrite Z.add_0_r.
Qed.

Lemma wrote_cons killed addr n i s q ch bs o s1 s' :
  pp s1 = push ch (pp s) -> woken s1 = woken s -> pmem s1 = pmem s -> ch = pmem s (u64 (addr + i)) ->
  wrote_run killed addr n (i + 1) s1 (q ++ [ch]) bs o s' -> wrote_run killed addr n i s q (ch :: bs) o s'.
Proof.
  intros Ep Ew Em Ech [H1 H2 H2' H3 H4 H5]. split.
  - by rewrite <- app_assoc in H1.
  - unfold same_ends in *. rewrite Ep in H2. exact H2.
  - rewrite H2', Ep. done.
  - congruence.
  - intros [|k] b Hk; simpl in Hk; [injection Hk as <-; by rewrite Z.add_0_r|].
    rewrite (H4 k b Hk), Em. f_equal. f_equal. lia.
  - cbv zeta in *. cbn [length]. replace (i + Z.of_nat (S (length bs))) with (i + 1 + Z.of_nat (length bs)) by lia.
    rewrite <- app_assoc in H5. rewrite Ep, Ew, Em in H5. exact H5.
Qed.

Lemma pipewrite_run killed addr n i s q :
  pipe_rep (pp s) q -> i <= n ->
  exists bs o s', pipewrite killed addr n i s = Ret o s' /\ wrote_run killed addr n i s q bs o s'.
Proof.
  intros Hr Hi. unfold pipewrite. remember (Z.to_nat (n - i)) as fuel eqn:Ef.
  revert i s q Hr Hi Ef; induction fuel as [|fuel IH]; intros i s q Hr Hi Ef; cbn [pipewrite_loop].
  { assert (n = i) as -> by lia. rewrite Z.ltb_irrefl. eexists [], _, _. split; [reflexivity|].
    apply wrote_stop; [done..|]. left. auto. }
  destruct (Z.ltb_spec i n); [|lia]. cbn [negb]. rewrite bind_gets. cbv beta.
  destruct (Z.eqb_spec (readopen (pp s)) 0) as [H0|H0]; cbn [orb].
  { eexists [], _, _. split; [reflexivity|]. apply wrote_stop; [done..|]. right. auto. }
  destruct (killed i) eqn:Hk.
  { eexists [], _, _. split; [reflexivity|]. apply wrote_stop; [done..|]. right. auto. }
  rewrite (pipe_full _ _ Hr). case_bool_decide as Hfull.
  { eexists [], _, _. split; [reflexivity|]. by apply wrote_stop. }
  rewrite bind_gets. cbv beta.
  destruct (ucopyin (pmem s) (u64 (addr + i)) 1 (fun _ => 0)) as [d ok] eqn:Ec. destruct ok; cbn [negb].
  2:{ eexists [], _, _. split; [reflexivity|]. apply wrote_stop; [done..|]. left. rewrite Ec. auto. }
  rewrite bind_modify. set (s1 := set_pipe _ s).
  assert (Ech : d 0 = pmem s (u64 (addr + i))).
  { pose proof (ucopyin_ok _ _ _ _ _ Ec 0) as Hd. simpl in Hd. by rewrite Z.add_0_r in Hd. }
  destruct (IH (i + 1) s1 (q ++ [d 0])) as (bs & o & s' & E & W); [|lia|lia|].
  { apply push_rep; [done|]. destruct Hr. lia. }
  exists (d 0 :: bs), o, s'. split; [exact E|]. by apply (wrote_cons _ _ _ _ _ _ _ _ _ s1).
Qed.

(** What the copying loop of piperead does: it takes the bytes [bs] out of the
    buffer and leaves [q'].  A byte that cannot be stored in user memory is lost. *)
Record took (addr n i : Z) (s : pst) (bs q' : list Z) (r : Z) (s' : pst) : Prop := {
  tk_rep : pipe_rep (pp s') q';
  tk_ends : same_ends (pp s) (pp s');
  tk_nwrite : nwrite (pp s') = nwrite (pp s);
  tk_woken : woken s' = woken s ++ [CWrite];
  tk_out :
    (r = i + Z.of_nat (length bs) /\ (r = n \/ (r < n /\ q' = [])) /\
     forall a, pmem s' a =
       if (addr + i <=? a) && (a <? addr + r) then nth (Z.to_nat (a - (addr + i))) bs 0 else pmem s a) \/
    (r + 1 = i + Z.of_nat (length bs) /\ r < n)
}.

Lemma took_none addr n i s q r :
  pipe_rep (pp s) q -> r = i -> i = n \/ (i < n /\ q = []) ->
  took addr n i s [] q r (mkpst (pp s) (woken s ++ [CWrite]) (pmem s)).
Proof.
  intros Hr -> Ho. split; [done|done|done|done|]. left. cbn [length]. split; [lia|]. split; [done|]. intros a.
  destruct (Z.leb_spec (addr + i) a), (Z.ltb_spec a (addr + i)); try lia; done.
Qed.

Lemma took_cons addr n i s s1 b bs q' r s' :
  same_ends (pp s) (pp s1) -> nwrite (pp s1) = nwrite (pp s) -> woken s1 = woken s ->
  (forall a, pmem s1 a = if (addr + i <=? a) && (a <? addr + i + 1) then b else pmem s a) ->
  took addr n (i + 1) s1 bs q' r s' -> took addr n i s (b :: bs) q' r s'.
Proof.
  intros He En Ew Hm [R1 R2 Rn R3 R4]. split; [done| |congruence|congruence|].
  { unfold same_ends in *. intuition congruence. }
  cbn [length]. destruct R4 as [(-> & Hr & Ha)|(E & Hr)]; [left|right; lia].
  split; [lia|]. split; [done|]. intros a. rewrite Ha, Hm.
  destruct (Z.leb_spec (addr + (i + 1)) a), (Z.ltb_spec a (addr + (i + 1 + Z.of_nat (length bs)))), (Z.leb_spec (addr + i) a),
    (Z.ltb_spec a (addr + i + 1)); try lia; cbn [andb]; try done.
  - replace (Z.to_nat (a - (addr + i))) with (S (Z.to_nat (a - (addr + (i + 1))))) by lia. done.
  - by replace (Z.to_nat (a - (addr + i))) with 0%nat by lia.
Qed.

Lemma piperead_loop_run addr n i s q :
  pipe_rep (pp s) q -> 0 <= addr -> 0 <= i <= n -> addr + n < 2 ^ 64 ->
  exists bs q' r s', q = bs ++ q' /\ piperead_loop (Z.to_nat (n - i)) addr n i s = Ret (Done r) s' /\
    took addr n i s bs q' r s'.
Proof.
  intros Hr Ha Hi Hov. remember (Z.to_nat (n - i)) as fuel eqn:Ef.
  revert i s q Hr Hi Ef; induction fuel as [|fuel IH]; intros i s q Hr Hi Ef; cbn [piperead_loop]; rewrite bind_gets; cbv beta;
    rewrite (pipe_empty _ _ Hr).
  { assert (n = i) as -> by lia. rewrite Z.ltb_irrefl. cbn [negb orb]. eexists [], q, _, _. split; [done|]. split; [reflexivity|].
    apply took_none; auto. }
  destruct (Z.ltb_spec i n); [|lia]. cbn [negb orb]. case_bool_decide as Hq.
  { subst q. eexists [], [], _, _. split; [done|]. split; [reflexivity|]. apply took_none; auto. }
  destruct q as [|b q]; [done|]. destruct (pop_rep _ _ _ Hr) as [Hr' Hb]. rewrite bind_gets. cbv beta.
  rewrite bind_modify. rewrite Hb, (u64_small (addr + i)) by lia.
  destruct (ucopyout (pmem s) (addr + i) (fun _ => b) 1) as [m' ok] eqn:Ec. rewrite bind_modify.
  destruct ok; cbn [negb].
  2:{ eexists [b], q, _, _. split; [done|]. split; [reflexivity|]. split; [done|done|done|done|].
      right. cbn [length]. lia. }
  set (s1 := mkpst _ _ _). destruct (IH (i + 1) s1 q) as (bs & q' & r & s' & Eq & E & T); [done|lia|lia|].
  exists (b :: bs), q', r, s'. split; [by rewrite Eq|]. split; [exact E|].
  apply (took_cons _ _ _ _ s1); [done|done|done| |done]. exact (ucopyout_ok _ _ _ _ _ Ec).
Qed.

(** A run of piperead. *)
Definition read_run (killed : bool) (addr n : Z) (s : pst) (q bs q' : list Z) (o : outcome) (s' : pst) : Prop :=
  q = bs ++ q' /\
  match o with
  | Sleep _ => s' = s /\ q = [] /\ writeopen (pp s) <> 0
  | Done r => (r = -1 /\ killed = true /\ s' = s /\ q = []) \/ took addr n 0 s bs q' r s'
  end.

Lemma piperead_run killed addr n s q :
  pipe_rep (pp s) q -> 0 <= addr -> 0 <= n -> addr + n < 2 ^ 64 ->
  exists bs q' o s', piperead killed addr n s = Ret o s' /\ read_run killed addr n s q bs q' o s'.
Proof.
  intros Hr Ha Hn Hov. unfold piperead. rewrite bind_gets. cbv beta. rewrite (pipe_empty _ _ Hr).
  case_bool_decide as Hq; [destruct (Z.eqb_spec (writeopen (pp s)) 0); cbn [andb negb]|].
  2:{ destruct killed.
      - exists [], q, (Done (-1)), s. split; [done|]. split; [done|]. by left.
      - by exists [], q, (Sleep 0), s. }
  all: destruct (piperead_loop_run addr n 0 s q) as (bs & q' & r & s' & Eq & E & T); [done|done|lia|done|]; rewrite Z.sub_0_r in E;
    exists bs, q', (Done r), s'; (split; [exact E|]); (split; [done|]); by right.
Qed.
End runs.

(** ** Readers and writers in any interleaving *)

(** The buffer as a list. *)
Definition contents (p : pipe) : list Z :=
  (fun k => p_data p ((nread p + k) mod PIPESIZE)) <$> seqZ 0 (u32 (nwrite p - nread p)).

Lemma rep_contents p q : pipe_rep p q -> contents p = q.
Proof.
  intros [Hn Hw Hr Hd]. unfold contents.
  assert (u32 (nwrite p - nread p) = Z.of_nat (length q)) as -> by (rewrite Hw; unfold u32, PIPESIZE in *; dlia).
  apply list_eq. intros k. rewrite list_lookup_fmap. destruct (q !! k) as [b|] eqn:Ek.
  - pose proof (lookup_lt_Some _ _ _ Ek). rewrite lookup_seqZ_lt by lia. simpl. f_equal. by apply Hd.
  - apply lookup_ge_None in Ek. rewrite lookup_seqZ_ge by lia. done.
Qed.

(** A process in pipewrite with [i] bytes copied, or in piperead; [m] is its
    memory. *)
Inductive thread : Type :=
| TWrite (m : mem) (addr n i : Z)
| TRead (m : mem) (addr n : Z).

Definition is_writer (t : thread) : bool := match t with TWrite _ _ _ _ => true | TRead _ _ _ => false end.

(** The channel it sleeps on. *)
Definition chan_of (t : thread) : chan := if is_writer t then CWrite else CRead.

(** [m_thr] has the processes inside a call and whether they are asleep, [m_in]
    the bytes written so far, [m_out] those read, and [m_cut] tells whether a
    write was cut short since the readers were last woken. *)
Record pmach : Type := mkpm {
  m_pipe : pipe;
  m_thr : gmap Z (thread * bool);
  m_in : list Z;
  m_out : list Z;
  m_cut : bool
}.

Definition wake_one (ws : list chan) (x : thread * bool) : thread * bool :=
  (fst x, snd x && negb (bool_decide (chan_of (fst x) ∈ ws))).
Definition wake (ws : list chan) (T : gmap Z (thread * bool)) : gmap Z (thread * bool) := wake_one ws <$> T.

Definition user_bytes (m : mem) (a n : Z) : list Z := (fun k => m (u64 (a + k))) <$> seqZ 0 n.

Section machine.
Context {U : UserMem} {UL : UserMemLaws}.

(** The process after its run: gone, or asleep with [j] bytes copied. *)
Definition after_run (o : outcome) (p : Z) (t : thread) (T : gmap Z (thread * bool)) : gmap Z (thread * bool) :=
  match o with
  | Done _ => delete p T
  | Sleep j => <[p := (match t with TWrite m a n _ => TWrite m a n j | TRead m a n => TRead m a n end, true)]> T
  end.

Inductive pstep : pmach -> pmach -> Prop :=
| ps_write p m addr n c :
    m_thr c !! p = None -> writeopen (m_pipe c) <> 0 -> 0 <= n ->
    pstep c (mkpm (m_pipe c) (<[p := (TWrite m addr n 0, false)]> (m_thr c)) (m_in c) (m_out c) (m_cut c))
| ps_read p m addr n c :
    m_thr c !! p = None -> readopen (m_pipe c) <> 0 -> 0 <= n -> 0 <= addr -> addr + n < 2 ^ 64 ->
    pstep c (mkpm (m_pipe c) (<[p := (TRead m addr n, false)]> (m_thr c)) (m_in c) (m_out c) (m_cut c))
| ps_run_write p m addr n i killed o s' c :
    m_thr c !! p = Some (TWrite m addr n i, false) ->
    pipewrite killed addr n i (mkpst (m_pipe c) [] m) = Ret o s' ->
    let cnt := u32 (nwrite (pp s') - nwrite (m_pipe c)) in
    pstep c (mkpm (pp s') (after_run o p (TWrite m addr n i) (wake (woken s') (m_thr c)))
               (m_in c ++ user_bytes m (addr + i) cnt) (m_out c)
               (if bool_decide (CRead ∈ woken s') then false else m_cut c || (0 <? cnt)))
| ps_run_read p m addr n killed o s' c :
    m_thr c !! p = Some (TRead m addr n, false) ->
    piperead killed addr n (mkpst (m_pipe c) [] m) = Ret o s' ->
    let cnt := u32 (nread (pp s') - nread (m_pipe c)) in
    pstep c (mkpm (pp s') (after_run o p (TRead m addr n) (wake (woken s') (m_thr c)))
               (m_in c)
               (m_out c ++ (if bool_decide (o = Done cnt) then user_bytes (pmem s') addr cnt
                            else take (Z.to_nat cnt) (contents (m_pipe c))))
               (m_cut c))
| ps_close writable b s' c :
    (forall p t a, m_thr c !! p = Some (t, a) -> is_writer t <> writable) ->
    pipeclose writable (mkpst (m_pipe c) [] (fun _ => 0)) = Ret b s' ->
    pstep c (mkpm (pp s') (wake (woken s') (m_thr c)) (m_in c) (m_out c) (m_cut c && negb writable)).

(** The program of a process is kept within its type's bounds. *)
Definition thread_ok (t : thread) : Prop :=
  match t with
  | TWrite _ _ n i => 0 <= i <= n
  | TRead _ addr n => 0 <= n /\ 0 <= addr /\ addr + n < 2 ^ 64
  end.

(** A process is asleep only for a reason that still holds. *)
Definition sleep_ok (p : pipe) (q : list Z) (cut : bool) (t : thread) : Prop :=
  if is_writer t then Z.of_nat (length q) = PIPESIZE /\ readopen p <> 0
  else cut = true \/ (q = [] /\ writeopen p <> 0).

Record pinv (c : pmach) (q : list Z) : Prop := {
  pi_rep : pipe_rep (m_pipe c) q;
  pi_hist : m_in c = m_out c ++ q;
  pi_thr : forall p t a, m_thr c !! p = Some (t, a) ->
    thread_ok t /\ (if is_writer t then writeopen (m_pipe c) <> 0 else readopen (m_pipe c) <> 0) /\
    (a = true -> sleep_ok (m_pipe c) q (m_cut c) t)
}.

Lemma wake_inv ws T p t a :
  wake ws T !! p = Some (t, a) -> exists a0, T !! p = Some (t, a0) /\ (a = true -> a0 = true /\ chan_of t ∉ ws).
Proof.
  unfold wake. rewrite lookup_fmap, fmap_Some. intros ([t0 a0] & Hp & E). unfold wake_one in E. simpl in E.
  injection E as <- ->. exists a0. split; [done|]. intros [H1 H2]%andb_true_iff. split; [done|].
  by rewrite negb_true_iff, bool_decide_eq_false in H2.
Qed.

(** The other processes after a run: those still asleep have a reason, as far as
    they were not woken. *)
Lemma after_run_inv o p t T ws p' t' a :
  after_run o p t (wake ws T) !! p' = Some (t', a) ->
  (p' <> p /\ exists a0, T !! p' = Some (t', a0) /\ (a = true -> a0 = true /\ chan_of t' ∉ ws)) \/
  (p' = p /\ exists j, o = Sleep j /\ a = true /\ t' = match t with TWrite m ad n _ => TWrite m ad n j | TRead m ad n => TRead m ad n end).
Proof.
  unfold after_run. destruct o as [r|j].
  - intros [Hne Hp]%lookup_delete_Some. left. split; [done|]. by apply wake_inv.
  - intros [[<- [= <- <-]]|[Hne Hp]]%lookup_insert_Some; [right; eauto|]. left. split; [done|]. by apply wake_inv.
Qed.

Lemma user_bytes_eq m a (bs : list Z) :
  (forall k b, bs !! k = Some b -> b = m (u64 (a + Z.of_nat k))) -> user_bytes m a (Z.of_nat (length bs)) = bs.
Proof.
  intros Hb. unfold user_bytes. apply list_eq. intros k. rewrite list_lookup_fmap.
  destruct (bs !! k) as [b|] eqn:Ek.
  - pose proof (lookup_lt_Some _ _ _ Ek). rewrite lookup_seqZ_lt by lia. simpl. f_equal. symmetry. by apply Hb.
  - apply lookup_ge_None in Ek. rewrite lookup_seqZ_ge by lia. done.
Qed.

Lemma write_count p q p' bs :
  pipe_rep p q -> pipe_rep p' (q ++ bs) -> nread p' = nread p -> u32 (nwrite p' - nwrite p) = Z.of_nat (length bs).
Proof.
  intros [Hn Hw Hr _] [Hn' Hw' Hr' _] E. rewrite Hw, Hw', E, length_app. rewrite length_app in Hr'. unfold u32, PIPESIZE in *. dlia.
Qed.

Lemma read_count p p' bs q' :
  pipe_rep p (bs ++ q') -> pipe_rep p' q' -> nwrite p' = nwrite p -> u32 (nread p' - nread p) = Z.of_nat (length bs).
Proof.
  intros [Hn Hw Hr _] [Hn' Hw' Hr' _] E. rewrite Hw, Hw', length_app in E. rewrite length_app in Hr. unfold u32, PIPESIZE in *. dlia.
Qed.

Lemma run_write_inv c q p m addr n i killed o s' :
  pinv c q -> m_thr c !! p = Some (TWrite m addr n i, false) ->
  pipewrite killed addr n i (mkpst (m_pipe c) [] m) = Ret o s' ->
  let cnt := u32 (nwrite (pp s') - nwrite (m_pipe c)) in
  exists q', pinv (mkpm (pp s') (after_run o p (TWrite m addr n i) (wake (woken s') (m_thr c)))
               (m_in c ++ user_bytes m (addr + i) cnt) (m_out c)
               (if bool_decide (CRead ∈ woken s') then false else m_cut c || (0 <? cnt))) q'.
Proof.
  intros [Hrep Hh Ht] Hp E cnt. destruct (Ht p _ _ Hp) as ([Hi1 Hi2] & Hopen & _).
  destruct (pipewrite_run killed addr n i (mkpst (m_pipe c) [] m) q Hrep) as (bs & o' & s2 & E2 & [W1 W2 W2' W3 W4 W5]); [done|].
  rewrite E in E2. injection E2 as <- <-. cbn [pp pmem woken app] in *. unfold same_ends in W2.
  assert (Hcnt : cnt = Z.of_nat (length bs)) by exact (write_count _ _ _ _ Hrep W1 W2').
  exists (q ++ bs). split; cbn [m_pipe m_thr m_in m_out m_cut]; [done| |].
  - rewrite Hcnt, user_bytes_eq by done. by rewrite Hh, <- app_assoc.
  - intros p' t' a [(Hne & a0 & Hp' & Ha)|(-> & j & -> & -> & ->)]%after_run_inv.
    + destruct (Ht p' t' a0 Hp') as (Hok & Hop & Hsl). split; [done|]. split; [destruct W2 as [-> ->]; done|].
      intros Ea. destruct (Ha Ea) as [-> Hw]. specialize (Hsl eq_refl). unfold sleep_ok, chan_of in *.
      destruct W2 as [-> ->]. destruct (is_writer t').
      * destruct Hsl as [Hfull Hro]. split; [|done]. destruct W1 as [_ _ Hroom _]. rewrite length_app in *. lia.
      * rewrite bool_decide_false by done. destruct o as [r|j]; cbv zeta in W5.
        -- destruct W5 as [(_ & Hwk & _)|(_ & _ & Hwk & _)]; [rewrite Hwk in Hw; set_solver|].
           destruct Hsl as [->|[-> Hwo]]; [by left|]. destruct bs as [|b bs]; [by right|].
           left. rewrite Hcnt. simpl. by rewrite orb_true_r.
        -- destruct W5 as (_ & _ & _ & _ & Hwk). rewrite Hwk in Hw. set_solver.
    + cbv zeta in W5. destruct W5 as (-> & Hlt & Hfull & Hro & _). split; [simpl; lia|]. split; [destruct W2 as [_ ->]; done|].
      intros _. unfold sleep_ok. simpl. destruct W2 as [-> _]. done.
Qed.

Lemma run_read_inv c q p m addr n killed o s' :
  pinv c q -> m_thr c !! p = Some (TRead m addr n, false) ->
  piperead killed addr n (mkpst (m_pipe c) [] m) = Ret o s' ->
  let cnt := u32 (nread (pp s') - nread (m_pipe c)) in
  exists q', pinv (mkpm (pp s') (after_run o p (TRead m addr n) (wake (woken s') (m_thr c))) (m_in c)
               (m_out c ++ (if bool_decide (o = Done cnt) then user_bytes (pmem s') addr cnt
                            else take (Z.to_nat cnt) (contents (m_pipe c)))) (m_cut c)) q'.
Proof.
  intros [Hrep Hh Ht] Hp E cnt. destruct (Ht p _ _ Hp) as ((Hn & Had & Hov) & Hopen & _).
  destruct (piperead_run killed addr n (mkpst (m_pipe c) [] m) q Hrep) as (bs & q' & o' & s2 & E2 & Hq & Ho); [done..|].
  rewrite E in E2. injection E2 as <- <-. cbn [pp pmem woken app] in *.
  assert (Hcases : (s' = mkpst (m_pipe c) [] m /\ q = [] /\ o <> Done 0 /\ (forall j, o = Sleep j -> writeopen (m_pipe c) <> 0)) \/
    exists r, o = Done r /\ took addr n 0 (mkpst (m_pipe c) [] m) bs q' r s').
  { destruct o as [r|j]; [destruct Ho as [(-> & _ & -> & ->)|Ho]; [left|right; eauto]|destruct Ho as (-> & -> & Hwo); left]; done. }
  clear Ho. destruct Hcases as [(-> & -> & Hno & Hwo)|(r & -> & [R1 R2 Rn R3 R4])].
  - assert (Ec : cnt = 0) by (unfold cnt; rewrite Z.sub_diag; done). exists []. rewrite Ec, bool_decide_false by done.
    split; cbn [m_pipe m_thr m_in m_out m_cut pp woken]; [done|by rewrite take_0, app_nil_r|].
    intros p' t' a [(Hne & a0 & Hp' & Ha)|(-> & j & -> & -> & ->)]%after_run_inv.
    + destruct (Ht p' t' a0 Hp') as (Hok & Hop & Hsl). split; [done|]. split; [done|].
      intros Ea. destruct (Ha Ea) as [-> _]. auto.
    + split; [done|]. split; [done|]. intros _. right. eauto.
  - cbn [pp woken app] in R2, R3, R4, Rn. unfold same_ends in R2.
    assert (Hcnt : cnt = Z.of_nat (length bs)).
    { unfold cnt. rewrite Hq in Hrep. exact (read_count _ _ _ _ Hrep R1 Rn). }
    exists q'. split; cbn [m_pipe m_thr m_in m_out m_cut]; [done| |].
    + assert (Hout : (if bool_decide (Done r = Done cnt) then user_bytes (pmem s') addr cnt
                      else take (Z.to_nat cnt) (contents (m_pipe c))) = bs); [|by rewrite Hout, Hh, Hq, app_assoc].
      rewrite (rep_contents _ _ Hrep), Hq, Hcnt, Nat2Z.id, take_app_length. case_bool_decide as Er; [|done].
      injection Er as Er. destruct R4 as [(_ & Hrn & Hm)|[? _]]; [|lia]. apply user_bytes_eq. intros k b Hk.
      pose proof (lookup_lt_Some _ _ _ Hk). rewrite u64_small by (destruct Hrn; lia). rewrite Hm, Z.add_0_r.
      destruct (Z.leb_spec addr (addr + Z.of_nat k)), (Z.ltb_spec (addr + Z.of_nat k) (addr + r)); try lia. cbn [andb].
      replace (Z.to_nat (addr + Z.of_nat k - addr)) with k by lia. symmetry. by apply nth_lookup_Some.
    + intros p' t' a [(Hne & a0 & Hp' & Ha)|(-> & j & [=] & _)]%after_run_inv.
      destruct (Ht p' t' a0 Hp') as (Hok & Hop & Hsl). split; [done|]. split; [destruct R2 as [-> ->]; done|].
      intros Ea. destruct (Ha Ea) as [-> Hw]. specialize (Hsl eq_refl). unfold sleep_ok, chan_of in *. rewrite R3 in Hw.
      destruct R2 as [-> ->]. destruct (is_writer t'); [set_solver|].
      destruct Hsl as [?|[Eq Hwo]]; [by left|right]. split; [|done]. rewrite Hq in Eq. by apply app_eq_nil in Eq as [_ ->].
Qed.

Lemma close_inv c q writable b s' :
  pinv c q -> (forall p t a, m_thr c !! p = Some (t, a) -> is_writer t <> writable) ->
  pipeclose writable (mkpst (m_pipe c) [] (fun _ => 0)) = Ret b s' ->
  pinv (mkpm (pp s') (wake (woken s') (m_thr c)) (m_in c) (m_out c) (m_cut c && negb writable)) q.
Proof.
  intros [Hrep Hh Ht] Hno E. unfold pipeclose, wakeup in E.
  destruct writable; revert E; mstep; intros [= <- <-]; (split; cbn [m_pipe m_thr m_in m_out m_cut pp woken];
    [destruct Hrep; by split|done|]); intros p t a (a0 & Hp & Ha)%wake_inv; destruct (Ht p t a0 Hp) as (Hok & Hop & Hsl);
    specialize (Hno p t a0 Hp); unfold sleep_ok, chan_of in *; destruct (is_writer t); try done; (split; [done|]);
    (split; [done|]); intros Ea; destruct (Ha Ea) as [-> Hw]; simpl in Hw; set_solver.
Qed.

Lemma pstep_inv c c' q : pinv c q -> pstep c c' -> exists q', pinv c' q'.
Proof.
  intros HI Hs. destruct Hs as [p m addr n c Hp Ho Hn|p m addr n c Hp Ho Hn Ha Hov|p m addr n i killed o s' c Hp E|
    p m addr n killed o s' c Hp E|writable b s' c Hno E].
  - exists q. destruct HI as [H1 H2 H3]. split; cbn [m_pipe m_thr m_in m_out m_cut]; [done|done|].
    intros p' t a [[<- [= <- <-]]|[_ Hp']]%lookup_insert_Some; [|eauto]. split; [simpl; lia|]. split; [done|]. discriminate.
  - exists q. destruct HI as [H1 H2 H3]. split; cbn [m_pipe m_thr m_in m_out m_cut]; [done|done|].
    intros p' t a [[<- [= <- <-]]|[_ Hp']]%lookup_insert_Some; [|eauto]. split; [done|]. split; [done|]. discriminate.
  - by apply (run_write_inv c q p m addr n i killed).
  - by apply (run_read_inv c q p m addr n killed).
  - exists q. by eapply close_inv.
Qed.

(** A new pipe. *)
Definition pm_init (d : mem) : pmach := mkpm (pipe_init d) ∅ [] [] false.

Lemma preach_inv d c : rtc pstep (pm_init d) c -> exists q, pinv c q.
Proof.
  intros Hr. remember (pm_init d) as c0 eqn:E0. assert (HI : exists q, pinv c0 q).
  { exists []. subst. split; [apply pipe_init_rep|done|]. intros p t a Hp. simpl in Hp. by rewrite lookup_empty in Hp. }
  clear E0. induction Hr as [|c1 c2 c3 Hst _ IH]; [done|]. destruct HI as [q HI]. apply IH. by eapply pstep_inv.
Qed.


(** C22: no wakeup is lost, unless a write was cut short: a writer sleeps
    only while the buffer is full and the read end open, a reader only while it is
    empty and the write end open; so a reader and a writer never sleep at the same
    time. *)
Theorem pipe_wakeups d c :
  rtc pstep (pm_init d) c ->
  (forall p t, m_thr c !! p = Some (t, true) -> is_writer t = true ->
     Z.of_nat (length (contents (m_pipe c))) = PIPESIZE /\ readopen (m_pipe c) <> 0) /\
  (m_cut c = false -> forall p t, m_thr c !! p = Some (t, true) -> is_writer t = false ->
     contents (m_pipe c) = [] /\ writeopen (m_pipe c) <> 0 /\
     forall p' t', m_thr c !! p' = Some (t', true) -> is_writer t' = false).
Proof.
  intros [q [Hr _ Ht]]%preach_inv. rewrite (rep_contents _ _ Hr).
  assert (Hsl : forall p t, m_thr c !! p = Some (t, true) -> sleep_ok (m_pipe c) q (m_cut c) t).
  { intros p t Hp. by apply (Ht p t true Hp). }
  unfold sleep_ok in Hsl. split.
  - intros p t Hp Hw. specialize (Hsl p t Hp). by rewrite Hw in Hsl.
  - intros Hcut p t Hp Hw. pose proof (Hsl p t Hp) as H1. rewrite Hw, Hcut in H1. destruct H1 as [?|[-> Hwo]]; [done|].
    split; [done|]. split; [done|]. intros p' t' Hp'. specialize (Hsl p' t' Hp'). destruct (is_writer t'); [|done].
    by destruct Hsl as [? _].
Qed.
End machine.

(** ** Concrete runs *)

(** User memory in which every address is mapped. *)
#[local] Instance flat : UserMem := {
  ucopyout m dst src n := (fun a => if (dst <=? a) && (a <? dst + n) then src (a - dst) else m a, true);
  ucopyin m src n d := (fun i => if (0 <=? i) && (i <? n) then m (src + i) else d i, true)
}.
#[local] Instance flat_laws : UserMemLaws.
Proof. split; simpl; intros ? ? ? ? ? [= <-] ?; done. Qed.

Definition pipe_umem : mem := fun a => a mod 256.

(** Process 2 reads from the empty pipe and sleeps. *)
Definition pm_asleep : pmach := mkpm (pipe_init (fun _ => 0)) {[2 := (TRead pipe_umem 500 10, true)]} [] [] false.

Lemma pstep_eq c c1 c2 : pstep c c1 -> c1 = c2 -> pstep c c2.
Proof. by intros ? ->. Qed.

Lemma pm_asleep_reach : rtc pstep (pm_init (fun _ => 0)) pm_asleep.
Proof.
  eapply rtc_l; [apply (ps_read 2 pipe_umem 500 10); [done|done|lia|lia|lia]|].
  eapply rtc_l; [|apply rtc_refl]. eapply pstep_eq.
  - eapply (ps_run_read 2 pipe_umem 500 10 false (Sleep 0)); [apply lookup_insert_eq|reflexivity].
  - reflexivity.
Qed.

(** Process 1 writes three bytes, which wakes process 2. *)
Definition pm_written : pmach :=
  mkpm (push 102 (push 101 (push 100 (pipe_init (fun _ => 0))))) {[2 := (TRead pipe_umem 500 10, false)]}
    [100; 101; 102] [] false.

Lemma pm_written_reach : rtc pstep (pm_init (fun _ => 0)) pm_written.
Proof.
  etrans; [exact pm_asleep_reach|].
  eapply rtc_l; [apply (ps_write 1 pipe_umem 100 3); [done|done|lia]|].
  eapply rtc_l; [|apply rtc_refl]. eapply pstep_eq.
  - eapply (ps_run_write 1 pipe_umem 100 3 0 (fun _ => false) (Done 3)); [apply lookup_insert_eq|reflexivity].
  - reflexivity.
Qed.


Lemma pipe_wakeups_witness : contents (m_pipe pm_asleep) = [] /\ writeopen (m_pipe pm_asleep) <> 0.
Proof.
  destruct (pipe_wakeups (fun _ => 0) pm_asleep pm_asleep_reach) as [_ H].
  destruct (H eq_refl 2 (TRead pipe_umem 500 10) (lookup_singleton_eq _ _) eq_refl) as (H1 & H2 & _). split; [exact H1|exact H2].
Defined.

(** A writer that is killed after it has stored a byte returns without
    waking the readers: a reader stays asleep although there is a byte to read and
    nobody is left inside a call that would wake it. *)
Theorem pipe_killed_writer_strands_reader :
  exists c, rtc pstep (pm_init (fun _ => 0)) c /\
    m_thr c = {[2 := (TRead pipe_umem 500 10, true)]} /\ contents (m_pipe c) = [100].
Proof.
  eexists. split; [|split].
  - etrans; [exact pm_asleep_reach|].
    eapply rtc_l; [apply (ps_write 1 pipe_umem 100 3); [done|done|lia]|].
    eapply rtc_l; [|apply rtc_refl].
    eapply (ps_run_write 1 pipe_umem 100 3 0 (fun i => i =? 1) (Done (-1))); [apply lookup_insert_eq|reflexivity].
  - reflexivity.
  - reflexivity.
Qed.
