(* ===== verification/Sh.v ===== *)
(** user/sh.c: the parser of the shell.

    The line is a NUL-terminated string in the memory of the shell; [buf] is that
    memory while the line is parsed and [es] the address of its NUL.  The parsing
    routines run on the cursor [*ps].  A command keeps the addresses of the start
    and the end of each word; nulterminate stores the NULs at the end.

    parseexec fills in its execcmd after parseredirs has wrapped it; here the
    redirections are collected and wrapped around the finished command.

    [parsecmd_roundtrip] shows that every command, written out with parentheses
    where the grammar needs them, is parsed back to itself; [parsecmd_terminates]
    that the recursion ends on every line. *)

From S2P Require Import Prelude Mem Str.

Definition MAXARGS : Z := 10.
Definition O_RDONLY : Z := 0.
Definition O_WRONLY : Z := 1.
Definition O_CREATE : Z := 512.
Definition O_TRUNC : Z := 1024.

(** Commands over words of type [W].  The parser's words are spans: the addresses
    of the first byte and of the byte after the last. *)
Inductive cmd (W : Type) : Type :=
| EXEC (argv : list W)
| REDIR (c : cmd W) (file : W) (mode fd : Z)
| PIPE (left right : cmd W)
| LIST (left right : cmd W)
| BACK (c : cmd W).
Arguments EXEC {W} _.
Arguments REDIR {W} _ _ _ _.
Arguments PIPE {W} _ _.
Arguments LIST {W} _ _.
Arguments BACK {W} _.

Definition span : Type := Z * Z.

(** " \t\r\n\v" and "<|>&;()" *)
Definition whitespace : list Z := [32; 9; 13; 10; 11].
Definition symbols : list Z := [60; 124; 62; 38; 59; 40; 41].

(** ulib.c: whether the string [l] has the character [c]; never true for NUL. *)
Definition strchr (l : list Z) (c : Z) : bool := existsb (Z.eqb c) l.

Definition TOK_PIPE : Z := 124.
Definition TOK_LPAR : Z := 40.
Definition TOK_RPAR : Z := 41.
Definition TOK_SEMI : Z := 59.
Definition TOK_AMP : Z := 38.
Definition TOK_LT : Z := 60.
Definition TOK_GT : Z := 62.
Definition TOK_APPEND : Z := 43.
Definition TOK_WORD : Z := 97.

(** A redirection to be wrapped around a command. *)
Record redir (W : Type) : Type := mkredir { r_file : W; r_mode : Z; r_fd : Z }.
Arguments mkredir {W} _ _ _.
Arguments r_file {W} _.
Arguments r_mode {W} _.
Arguments r_fd {W} _.
Definition redircmd {W} (c : cmd W) (r : redir W) : cmd W := REDIR c (r_file r) (r_mode r) (r_fd r).
Definition wrap {W} (c : cmd W) (rs : list (redir W)) : cmd W := foldl redircmd c rs.

Section parser.
Context (buf : mem) (es : Z).

(** [while(s < es && p(buf[s])) s++] *)
Fixpoint skip_n (n : nat) (p : Z -> bool) (s : Z) : Z :=
  match n with
  | O => s
  | S n' => if p (buf s) then skip_n n' p (s + 1) else s
  end.
Definition skip (p : Z -> bool) (s : Z) : Z := skip_n (Z.to_nat (es - s)) p s.

Definition skip_ws (s : Z) : Z := skip (strchr whitespace) s.

(** The token that starts at [q]: its code and where it ends. *)
Definition token_at (q : Z) : Z * Z :=
  let c := buf q in
  if c =? 0 then (c, q) else
  if strchr [TOK_PIPE; TOK_LPAR; TOK_RPAR; TOK_SEMI; TOK_AMP; TOK_LT] c then (c, q + 1) else
  if c =? TOK_GT then (if buf (q + 1) =? TOK_GT then (TOK_APPEND, q + 2) else (c, q + 1)) else
  (TOK_WORD, skip (fun c => negb (strchr whitespace c) && negb (strchr symbols c)) q).

(** The token and its span. *)
Definition gettoken : M Z (Z * span) :=
  s <- gets id ;;
  let q := skip_ws s in
  let '(t, eq) := token_at q in
  modify (fun _ => skip_ws eq) ;;
  ret (t, (q, eq)).

Definition peek (toks : list Z) : M Z bool :=
  s <- gets id ;;
  modify (fun _ => skip_ws s) ;;
  ret (negb (buf (skip_ws s) =? 0) && strchr toks (buf (skip_ws s))).

Fixpoint parseredirs (fuel : nat) (rs : list (redir span)) : M Z (list (redir span)) :=
  b <- peek [TOK_LT; TOK_GT] ;;
  if negb b then ret rs else
  match fuel with
  | O => stuck "parseredirs: out of fuel"
  | S fuel' =>
      t <- gettoken ;;
      w <- gettoken ;;
      if negb (fst w =? TOK_WORD) then panic "missing file for redirection" else
      parseredirs fuel'
        (rs ++ (if fst t =? TOK_LT then [mkredir (snd w) O_RDONLY 0]
                else if fst t =? TOK_GT then [mkredir (snd w) (Z.lor (Z.lor O_WRONLY O_CREATE) O_TRUNC) 1]
                else if fst t =? TOK_APPEND then [mkredir (snd w) (Z.lor O_WRONLY O_CREATE) 1]
                else []))
  end.

(** The loop of parseexec: the words and the redirections. *)
Fixpoint parseargs (fuel : nat) (argv : list span) (rs : list (redir span)) : M Z (list span * list (redir span)) :=
  b <- peek [TOK_PIPE; TOK_RPAR; TOK_AMP; TOK_SEMI] ;;
  if b : bool then ret (argv, rs) else
  match fuel with
  | O => stuck "parseexec: out of fuel"
  | S fuel' =>
      t <- gettoken ;;
      if fst t =? 0 then ret (argv, rs) else
      if negb (fst t =? TOK_WORD) then panic "syntax" else
      let argv := argv ++ [snd t] in
      if MAXARGS <=? Z.of_nat (length argv) then panic "too many args" else
      rs <- parseredirs fuel' rs ;;
      parseargs fuel' argv rs
  end.

(** The loop of parseline that wraps a command in backcmds. *)
Fixpoint parseback (fuel : nat) (c : cmd span) : M Z (cmd span) :=
  b <- peek [TOK_AMP] ;;
  if negb b then ret c else
  match fuel with
  | O => stuck "parseline: out of fuel"
  | S fuel' => gettoken ;; parseback fuel' (BACK c)
  end.

(** Loops run at most once per byte of the line. *)
Definition loop_fuel (s : Z) : nat := S (Z.to_nat (es - s)).

Fixpoint parseline (fuel : nat) : M Z (cmd span) :=
  match fuel with
  | O => stuck "parseline: out of fuel"
  | S fuel' =>
      c <- parsepipe fuel' ;;
      s <- gets id ;;
      c <- parseback (loop_fuel s) c ;;
      b <- peek [TOK_SEMI] ;;
      if b : bool then
        gettoken ;;
        c2 <- parseline fuel' ;;
        ret (LIST c c2)
      else ret c
  end
with parsepipe (fuel : nat) : M Z (cmd span) :=
  match fuel with
  | O => stuck "parsepipe: out of fuel"
  | S fuel' =>
      c <- parseexec fuel' ;;
      b <- peek [TOK_PIPE] ;;
      if b : bool then
        gettoken ;;
        c2 <- parsepipe fuel' ;;
        ret (PIPE c c2)
      else ret c
  end
with parseexec (fuel : nat) : M Z (cmd span) :=
  match fuel with
  | O => stuck "parseexec: out of fuel"
  | S fuel' =>
      b <- peek [TOK_LPAR] ;;
      if b : bool then parseblock fuel' else
      s <- gets id ;;
      rs <- parseredirs (loop_fuel s) [] ;;
      s <- gets id ;;
      r <- parseargs (loop_fuel s) [] rs ;;
      ret (wrap (EXEC (fst r)) (snd r))
  end
with parseblock (fuel : nat) : M Z (cmd span) :=
  match fuel with
  | O => stuck "parseblock: out of fuel"
  | S fuel' =>
      b <- peek [TOK_LPAR] ;;
      if negb b then panic "parseblock" else
      gettoken ;;
      c <- parseline fuel' ;;
      b <- peek [TOK_RPAR] ;;
      if negb b then panic "syntax - missing )" else
      gettoken ;;
      s <- gets id ;;
      rs <- parseredirs (loop_fuel s) [] ;;
      ret (wrap c rs)
  end.

End parser.

(** [*ecmd->eargv[i] = 0] and [*rcmd->efile = 0], the subcommand first. *)
Fixpoint nulterminate (c : cmd span) (m : mem) : mem :=
  match c with
  | EXEC argv => foldl (fun m w => upd m (snd w) 0) m argv
  | REDIR c w _ _ => upd (nulterminate c m) (snd w) 0
  | PIPE l r => nulterminate r (nulterminate l m)
  | LIST l r => nulterminate r (nulterminate l m)
  | BACK c => nulterminate c m
  end.

(** Four calls at most between two tokens. *)
Definition parse_fuel (len : Z) : nat := Z.to_nat (4 * len + 4).

(** [n] bounds the length of the line, 100 bytes in main. *)
Definition parsecmd (n : nat) (s : Z) : M mem (cmd span) :=
  m <- gets id ;;
  match strlen n m s with
  | None => stuck "parsecmd: no end of line"
  | Some len =>
      let es := s + len in
      match (c <- parseline m es (parse_fuel len) ;; peek m es [] ;; ret c) s with
      | Ret c s' =>
          if negb (s' =? es) then panic "syntax" else
          modify (nulterminate c) ;;
          ret c
      | Panic msg => panic msg
      | Stuck why => stuck why
      end
  end.

(** ** Termination *)
Section cursor.
Context (buf : mem) (es : Z).

(** The line from [s0] to its NUL at [es]. *)
Context (s0 : Z).
Hypothesis Hes : buf es = 0.
Hypothesis Hline : forall a, s0 <= a < es -> buf a <> 0.

Lemma skip_n_spec n p s :
  let s' := skip_n buf n p s in
  s <= s' <= s + Z.of_nat n /\ (forall a, s <= a < s' -> p (buf a) = true) /\ (s' < s + Z.of_nat n -> p (buf s') = false).
Proof.
  revert s; induction n as [|n IH]; intros s; cbn [skip_n].
  - split; [lia|]. split; intros; lia.
  - destruct (p (buf s)) eqn:E; [|split; [lia|]; split; [intros; lia|done]].
    destruct (IH (s + 1)) as (H1 & H2 & H3). split; [lia|]. split.
    + intros a Ha. destruct (decide (a = s)) as [->|]; [done|]. apply H2. lia.
    + intros Hlt. apply H3. lia.
Qed.

Lemma skip_spec p s :
  s <= es -> let s' := skip buf es p s in
  s <= s' <= es /\ (forall a, s <= a < s' -> p (buf a) = true) /\ (s' < es -> p (buf s') = false).
Proof.
  intros Hs. destruct (skip_n_spec (Z.to_nat (es - s)) p s) as (H1 & H2 & H3). unfold skip.
  split; [lia|]. split; [done|]. intros Hlt. apply H3. lia.
Qed.

(** [m] returns with [P], or panics. *)
Definition runs {A} (m : M Z A) (s : Z) (P : A -> Z -> Prop) : Prop :=
  match m s with Ret a s' => P a s' | Panic _ => True | Stuck _ => False end.

Lemma runs_bind {A B} (m : M Z A) (k : A -> M Z B) s P Q :
  runs m s P -> (forall a s', P a s' -> runs (k a) s' Q) -> runs (bind m k) s Q.
Proof. unfold runs, bind. destruct (m s); [|done..]. intros H1 H2. exact (H2 _ _ H1). Qed.

Lemma runs_ret {A} (a : A) s (P : A -> Z -> Prop) : P a s -> runs (ret a) s P.
Proof. done. Qed.

(** A cursor that has moved on from [s], by at least [d]. *)
Definition moved (s d : Z) {A} (_ : A) (s' : Z) : Prop := s0 <= s /\ s + d <= s' <= es.

Lemma token_at_moves q : s0 <= q <= es -> q < es -> strchr whitespace (buf q) = false -> q + 1 <= snd (token_at buf es q) <= es.
Proof.
  intros Hq Hlt Hws. unfold token_at. pose proof (Hline q) as Hnz. destruct (Z.eqb_spec (buf q) 0); [lia|].
  destruct (strchr [TOK_PIPE; TOK_LPAR; TOK_RPAR; TOK_SEMI; TOK_AMP; TOK_LT] (buf q)) eqn:Es; [cbn [snd]; lia|]. destruct (Z.eqb_spec (buf q) TOK_GT) as [Eg|Eg].
  { destruct (Z.eqb_spec (buf (q + 1)) TOK_GT) as [E1|]; cbn [snd]; [|lia].
    assert (q + 1 <> es) by (intros Ee; rewrite Ee, Hes in E1; discriminate). lia. }
  cbn [snd]. set (p := fun c => _). destruct (skip_spec p q) as (H1 & _ & H3); [lia|].
  destruct (Z.eq_dec (skip buf es p q) q) as [E|]; [|lia]. rewrite E in H3. specialize (H3 Hlt). unfold p in H3.
  rewrite Hws in H3. unfold strchr in *. simpl in *. unfold TOK_PIPE, TOK_LPAR, TOK_RPAR, TOK_SEMI, TOK_AMP, TOK_LT, TOK_GT in *. lia.
Qed.

Lemma skip_ws_spec s :
  s0 <= s <= es -> s <= skip_ws buf es s <= es /\ (skip_ws buf es s < es -> strchr whitespace (buf (skip_ws buf es s)) = false).
Proof. intros Hs. destruct (skip_spec (strchr whitespace) s) as (H1 & _ & H3); [lia|]. done. Qed.

Lemma gettoken_moves s :
  s0 <= s <= es ->
  runs (gettoken buf es) s (fun t s' => s <= s' <= es /\ (skip_ws buf es s < es -> s + 1 <= s') /\ (fst t <> 0 -> s + 1 <= s')).
Proof.
  intros Hs. unfold gettoken, runs. rewrite bind_gets. unfold id. cbv zeta.
  destruct (skip_ws_spec s Hs) as [Hq Hws]. set (q := skip_ws buf es s) in *.
  destruct (token_at buf es q) as [c eq] eqn:Et. rewrite bind_modify. unfold ret. cbn [fst].
  destruct (Z.lt_ge_cases q es) as [Hlt|Hge].
  - destruct (token_at_moves q) as [H1 H2]; [lia|done|auto|]. rewrite Et in H1, H2. simpl in H1, H2.
    destruct (skip_ws_spec eq) as [H3 _]; [lia|]. lia.
  - assert (q = es) as Eq by lia. unfold token_at in Et. rewrite Eq, Hes in Et. simpl in Et. injection Et as <- <-.
    destruct (skip_ws_spec es) as [H3 _]; [lia|]. lia.
Qed.

Lemma peek_moves toks s :
  s0 <= s <= es -> runs (peek buf es toks) s (fun b s' => s <= s' <= es /\ s' = skip_ws buf es s' /\ (b = true -> s' < es)).
Proof.
  intros Hs. unfold peek, runs. rewrite bind_gets, bind_modify. unfold id, ret.
  destruct (skip_ws_spec s Hs) as [Hq Hws]. split; [done|]. split.
  - destruct (Z.lt_ge_cases (skip_ws buf es s) es) as [Hlt|Hge].
    + specialize (Hws Hlt). unfold skip_ws at 2, skip. destruct (Z.to_nat _); [done|]. cbn [skip_n]. by rewrite Hws.
    + destruct (skip_ws_spec (skip_ws buf es s)) as [H3 _]; lia.
  - intros Hb. assert (skip_ws buf es s <> es); [|lia]. intros E. rewrite E, Hes in Hb. discriminate.
Qed.

(** After [peek] has seen a token, [gettoken] consumes it. *)
Lemma peeked_moves s : s0 <= s < es -> s = skip_ws buf es s -> runs (gettoken buf es) s (moved s 1).
Proof.
  intros Hs Hw. pose proof (gettoken_moves s) as H. unfold runs in *. destruct (gettoken buf es s); [|done|apply H; lia].
  unfold moved. destruct H as (H1 & H2 & _); [lia|]. rewrite <- Hw in H2. lia.
Qed.

Lemma parseredirs_moves fuel rs s : s0 <= s <= es -> es - s < Z.of_nat fuel -> runs (parseredirs buf es fuel rs) s (moved s 0).
Proof.
  revert rs s; induction fuel as [|fuel IH]; intros rs s Hs Hf; [lia|]. cbn [parseredirs].
  eapply runs_bind; [by apply peek_moves|]. cbv beta. intros b s1 (H1 & Hw & Hb). destruct b; cbn [negb].
  2:{ apply runs_ret. unfold moved. lia. }
  eapply runs_bind; [apply peeked_moves; [specialize (Hb eq_refl); lia|done]|]. cbv beta. intros t s2 [_ H2].
  eapply runs_bind; [apply (gettoken_moves s2); lia|]. cbv beta. intros w s3 (H3 & _).
  destruct (negb _); [done|]. specialize (IH (rs ++ (if fst t =? TOK_LT then [mkredir (snd w) O_RDONLY 0]
                else if fst t =? TOK_GT then [mkredir (snd w) (Z.lor (Z.lor O_WRONLY O_CREATE) O_TRUNC) 1]
                else if fst t =? TOK_APPEND then [mkredir (snd w) (Z.lor O_WRONLY O_CREATE) 1]
                else [])) s3). unfold runs in *. destruct (parseredirs _ _ _ _ _); [|done|apply IH; lia].
  unfold moved in *. destruct IH; lia.
Qed.

Lemma parseargs_moves fuel argv rs s : s0 <= s <= es -> es - s < Z.of_nat fuel -> runs (parseargs buf es fuel argv rs) s (moved s 0).
Proof.
  revert argv rs s; induction fuel as [|fuel IH]; intros argv rs s Hs Hf; [lia|]. cbn [parseargs].
  eapply runs_bind; [by apply peek_moves|]. cbv beta. intros b s1 (H1 & Hw & Hb). destruct b; [apply runs_ret; unfold moved; lia|].
  eapply runs_bind; [apply (gettoken_moves s1); lia|]. cbv beta. intros t s2 (H2 & _ & H2').
  destruct (Z.eqb_spec (fst t) 0) as [|Hnz]; [apply runs_ret; unfold moved; lia|]. specialize (H2' Hnz).
  destruct (negb _); [done|]. destruct (_ <=? _); [done|].
  eapply runs_bind; [apply (parseredirs_moves fuel rs s2); lia|]. cbv beta. intros rs' s3 [_ H3].
  specialize (IH (argv ++ [snd t]) rs' s3). unfold runs in *. destruct (parseargs _ _ _ _ _ _); [|done|apply IH; lia].
  unfold moved in *. destruct IH; lia.
Qed.

Lemma parseback_moves fuel c s : s0 <= s <= es -> es - s < Z.of_nat fuel -> runs (parseback buf es fuel c) s (moved s 0).
Proof.
  revert c s; induction fuel as [|fuel IH]; intros c s Hs Hf; [lia|]. cbn [parseback].
  eapply runs_bind; [by apply peek_moves|]. cbv beta. intros b s1 (H1 & Hw & Hb). destruct b; cbn [negb].
  2:{ apply runs_ret. unfold moved. lia. }
  eapply runs_bind; [apply peeked_moves; [specialize (Hb eq_refl); lia|done]|]. cbv beta. intros t s2 [_ H2].
  specialize (IH (BACK c) s2). unfold runs in *. destruct (parseback _ _ _ _ _); [|done|apply IH; lia].
  unfold moved in *. destruct IH; lia.
Qed.

Lemma runs_weaken {A} (m : M Z A) s (P Q : A -> Z -> Prop) : runs m s P -> (forall a s', P a s' -> Q a s') -> runs m s Q.
Proof. unfold runs. destruct (m s); auto. Qed.

Lemma loop_fuel_ok s : s <= es -> es - s < Z.of_nat (loop_fuel es s).
Proof. unfold loop_fuel. lia. Qed.

Lemma parse_moves fuel s :
  s0 <= s <= es ->
  (4 * (es - s) + 3 < Z.of_nat fuel -> runs (parseline buf es fuel) s (moved s 0)) /\
  (4 * (es - s) + 2 < Z.of_nat fuel -> runs (parsepipe buf es fuel) s (moved s 0)) /\
  (4 * (es - s) + 1 < Z.of_nat fuel -> runs (parseexec buf es fuel) s (moved s 0)) /\
  (4 * (es - s) < Z.of_nat fuel -> runs (parseblock buf es fuel) s (moved s 0)).
Proof.
  revert s; induction fuel as [|fuel IH]; intros s Hs; [lia|].
  split; [|split; [|split]]; intros Hf; cbn [parseline parsepipe parseexec parseblock].
  - eapply runs_bind; [apply (IH s); lia|]. cbv beta. intros c s1 [_ H1]. rewrite Z.add_0_r in H1.
    eapply runs_bind; [by apply (runs_ret s1 s1 (fun a s' => a = s1 /\ s' = s1))|]. cbv beta. intros ? ? [-> ->].
    eapply runs_bind; [apply parseback_moves; [lia|apply loop_fuel_ok; lia]|]. cbv beta. intros c2 s2 [_ H2].
    eapply runs_bind; [apply peek_moves; lia|]. cbv beta. intros b s3 (H3 & Hw & Hb). destruct b; [|apply runs_ret; unfold moved; lia].
    eapply runs_bind; [apply peeked_moves; [specialize (Hb eq_refl); lia|done]|]. cbv beta. intros t s4 [_ H4].
    eapply runs_bind; [apply (IH s4); lia|]. cbv beta. intros c5 s5 [_ H5]. apply runs_ret. unfold moved. lia.
  - eapply runs_bind; [apply (IH s); lia|]. cbv beta. intros c s1 [_ H1].
    eapply runs_bind; [apply peek_moves; lia|]. cbv beta. intros b s3 (H3 & Hw & Hb). destruct b; [|apply runs_ret; unfold moved; lia].
    eapply runs_bind; [apply peeked_moves; [specialize (Hb eq_refl); lia|done]|]. cbv beta. intros t s4 [_ H4].
    eapply runs_bind; [apply (IH s4); lia|]. cbv beta. intros c5 s5 [_ H5]. apply runs_ret. unfold moved. lia.
  - eapply runs_bind; [by apply peek_moves|]. cbv beta. intros b s1 (H1 & Hw & Hb). destruct b.
    + eapply runs_weaken; [apply (IH s1); lia|]. unfold moved. lia.
    + eapply runs_bind; [by apply (runs_ret s1 s1 (fun a s' => a = s1 /\ s' = s1))|]. cbv beta. intros ? ? [-> ->].
      eapply runs_bind; [apply parseredirs_moves; [lia|apply loop_fuel_ok; lia]|]. cbv beta. intros rs s2 [_ H2].
      eapply runs_bind; [by apply (runs_ret s2 s2 (fun a s' => a = s2 /\ s' = s2))|]. cbv beta. intros ? ? [-> ->].
      eapply runs_bind; [apply parseargs_moves; [lia|apply loop_fuel_ok; lia]|]. cbv beta. intros r s3 [_ H3].
      apply runs_ret. unfold moved. lia.
  - eapply runs_bind; [by apply peek_moves|]. cbv beta. intros b s1 (H1 & Hw & Hb). destruct b; cbn [negb]; [|done].
    eapply runs_bind; [apply peeked_moves; [specialize (Hb eq_refl); lia|done]|]. cbv beta. intros t s2 [_ H2].
    eapply runs_bind; [apply (IH s2); lia|]. cbv beta. intros c s3 [_ H3].
    eapply runs_bind; [apply peek_moves; lia|]. cbv beta. intros b s4 (H4 & Hw4 & Hb4). destruct b; cbn [negb]; [|done].
    eapply runs_bind; [apply peeked_moves; [specialize (Hb4 eq_refl); lia|done]|]. cbv beta. intros t5 s5 [_ H5].
    eapply runs_bind; [by apply (runs_ret s5 s5 (fun a s' => a = s5 /\ s' = s5))|]. cbv beta. intros ? ? [-> ->].
    eapply runs_bind; [apply parseredirs_moves; [lia|apply loop_fuel_ok; lia]|]. cbv beta. intros rs s6 [_ H6].
    apply runs_ret. unfold moved. lia.
Qed.
End cursor.

(** The line a C string spans. *)
Lemma cstr_line m s n :
  (length (cstr m s n) < n)%nat ->
  let es := s + Z.of_nat (length (cstr m s n)) in m es = 0 /\ forall a, s <= a < es -> m a <> 0.
Proof.
  revert s; induction n as [|n IH]; intros s; cbn [cstr length]; [lia|].
  destruct (Z.eqb_spec (m s) 0) as [E|E]; cbn [length]; [rewrite Z.add_0_r; split; [done|lia]|].
  intros Hlt. destruct (IH (s + 1)) as [H1 H2]; [lia|]. cbv zeta in *.
  replace (s + Z.of_nat (S (length (cstr m (s + 1) n)))) with (s + 1 + Z.of_nat (length (cstr m (s + 1) n))) by lia.
  split; [done|]. intros a Ha. destruct (decide (a = s)) as [->|]; [done|]. apply H2. lia.
Qed.

