(* ===== verification/ShRound.v ===== *)
(** Commands of the shell written out and parsed back.

    [pr] writes a command as a list of tokens, with parentheses where the grammar
    of user/sh.c needs them; [show] writes the tokens as text.  [lex] relates a
    position of the line to the tokens that follow it. *)

From S2P Require Import Prelude Mem Str Sh.

(** ** Tokens *)
Definition wordchar (c : Z) : bool := negb (c =? 0) && negb (strchr whitespace c) && negb (strchr symbols c).

Inductive tok : Type := TSym (c : Z) | TApp | TWord (w : list Z).

Definition tok_ok (t : tok) : Prop :=
  match t with
  | TSym c => c ∈ [TOK_PIPE; TOK_LPAR; TOK_RPAR; TOK_SEMI; TOK_AMP; TOK_LT; TOK_GT]
  | TApp => True
  | TWord w => w <> [] /\ Forall (fun c => wordchar c = true) w
  end.

Definition tok_code (t : tok) : Z := match t with TSym c => c | TApp => TOK_APPEND | TWord _ => TOK_WORD end.
Definition tok_text (t : tok) : list Z := match t with TSym c => [c] | TApp => [TOK_GT; TOK_GT] | TWord w => w end.
Definition tok_first (t : tok) : Z := nth 0 (tok_text t) 0.

(** The tokens, each followed by a space. *)
Definition show_toks (ts : list tok) : list Z := flat_map (fun t => tok_text t ++ [32]) ts.

Section lex.
Context (buf : mem) (es : Z).
Hypothesis Hes : buf es = 0.

Definition text_at (s : Z) (l : list Z) : Prop := forall k c, l !! k = Some c -> buf (s + Z.of_nat k) = c.

(** The span is that of the token; a word ends where no word character is. *)
Definition is_span (t : tok) (w : span) : Prop :=
  text_at (fst w) (tok_text t) /\ snd w = fst w + Z.of_nat (length (tok_text t)) /\ snd w <= es /\
  match t with TWord _ => wordchar (buf (snd w)) = false | _ => True end.

(** From [s] on the line reads as [ts]. *)
Fixpoint lex (s : Z) (ts : list tok) : Prop :=
  s <= es /\
  match ts with
  | [] => skip_ws buf es s = es
  | t :: ts' => exists eq, tok_ok t /\ token_at buf es (skip_ws buf es s) = (tok_code t, eq) /\
      is_span t (skip_ws buf es s, eq) /\ lex eq ts'
  end.

Lemma lex_le s ts : lex s ts -> s <= es.
Proof. by destruct ts; intros [? _]. Qed.

Lemma skip_ws_idem s : s <= es -> skip_ws buf es (skip_ws buf es s) = skip_ws buf es s.
Proof.
  intros Hs. destruct (skip_spec buf es (strchr whitespace) s Hs) as (H1 & _ & H3). fold (skip_ws buf es s) in *.
  destruct (Z.lt_ge_cases (skip_ws buf es s) es) as [Hlt|Hge].
  - specialize (H3 Hlt). unfold skip_ws at 1, skip. destruct (Z.to_nat _); [done|]. cbn [skip_n]. by rewrite H3.
  - unfold skip_ws at 1, skip. replace (Z.to_nat (es - skip_ws buf es s)) with 0%nat by lia. done.
Qed.

Lemma lex_ws s ts : lex s ts -> lex (skip_ws buf es s) ts.
Proof.
  intros H. pose proof (lex_le _ _ H) as Hs. destruct (skip_spec buf es (strchr whitespace) s Hs) as (H1 & _).
  fold (skip_ws buf es s) in H1. destruct ts as [|t ts]; cbn [lex] in *; rewrite skip_ws_idem by done;
    (split; [lia|]); apply H.
Qed.

(** ** peek and gettoken *)
Definition head_in (cs : list Z) (ts : list tok) : bool :=
  match ts with [] => false | t :: _ => strchr cs (tok_first t) end.

Lemma tok_first_nz t : tok_ok t -> tok_first t <> 0.
Proof.
  destruct t as [c| |[|c w]]; cbn.
  - intros H ->. repeat (apply elem_of_cons in H as [H|H]; [discriminate|]). by apply elem_of_nil in H.
  - done.
  - by intros [? _].
  - intros [_ H]. apply Forall_cons in H as [H _]. unfold wordchar in H. lia.
Qed.

Lemma first_at t w : tok_ok t -> is_span t w -> buf (fst w) = tok_first t.
Proof.
  intros Ht [Hx _]. assert (Hne : tok_text t <> []) by (destruct t as [| |[]]; cbn in *; try done; by destruct Ht).
  unfold tok_first. destruct (tok_text t) as [|c l] eqn:E; [done|]. specialize (Hx 0%nat c eq_refl). by rewrite Z.add_0_r in Hx.
Qed.

Lemma peek_lex cs s ts : lex s ts -> peek buf es cs s = Ret (head_in cs ts) (skip_ws buf es s).
Proof.
  intros H. unfold peek. rewrite bind_gets, bind_modify. unfold ret, id. f_equal. destruct ts as [|t ts].
  - destruct H as [_ ->]. by rewrite Hes.
  - destruct H as (_ & eq & Ht & _ & Hsp & _). pose proof (first_at t _ Ht Hsp) as E. cbn [fst] in E. rewrite E.
    pose proof (tok_first_nz t Ht). by destruct (Z.eqb_spec (tok_first t) 0).
Qed.

Lemma gettoken_lex s t ts :
  lex s (t :: ts) -> exists w s', gettoken buf es s = Ret (tok_code t, w) s' /\ is_span t w /\ lex s' ts /\ s < s'.
Proof.
  intros (Hs & eq & Ht & Et & Hsp & Hl). unfold gettoken. rewrite bind_gets. unfold id. cbv zeta. rewrite Et, bind_modify.
  exists (skip_ws buf es s, eq), (skip_ws buf es eq). split; [done|]. split; [done|]. split; [by apply lex_ws|].
  destruct (skip_spec buf es (strchr whitespace) s Hs) as (H1 & _). fold (skip_ws buf es s) in H1.
  destruct (skip_spec buf es (strchr whitespace) eq) as (H2 & _); [by eapply lex_le|]. fold (skip_ws buf es eq) in H2.
  destruct Hsp as (_ & E & _). cbn [fst snd] in E.
  assert (0 < length (tok_text t))%nat; [|lia]. destruct t as [| |[]]; cbn in *; try lia. by destruct Ht.
Qed.

Lemma gettoken_end s : lex s [] -> exists w, gettoken buf es s = Ret (0, w) es.
Proof.
  intros [Hs E]. unfold gettoken. rewrite bind_gets. unfold id. cbv zeta. rewrite E. unfold token_at. rewrite Hes. simpl.
  rewrite bind_modify. eexists. unfold ret. f_equal. unfold skip_ws, skip. by rewrite Z.sub_diag.
Qed.

(** ** Text *)
Lemma skip_n_exact n p s d :
  (d <= n)%nat -> (forall a, s <= a < s + Z.of_nat d -> p (buf a) = true) -> (d = n \/ p (buf (s + Z.of_nat d)) = false) ->
  skip_n buf n p s = s + Z.of_nat d.
Proof.
  revert s d; induction n as [|n IH]; intros s d Hd Hp Hend; cbn [skip_n].
  - assert (d = 0)%nat as -> by lia. lia.
  - destruct d as [|d].
    + rewrite Z.add_0_r in Hend. destruct Hend as [?|Hp0]; [lia|]. rewrite Hp0. lia.
    + rewrite Hp by lia. rewrite (IH (s + 1) d); [lia|lia|intros; apply Hp; lia|].
      replace (s + 1 + Z.of_nat d) with (s + Z.of_nat (S d)) by lia. destruct Hend; [left; lia|by right].
Qed.

Lemma text_app s l1 l2 : text_at s (l1 ++ l2) <-> text_at s l1 /\ text_at (s + Z.of_nat (length l1)) l2.
Proof.
  unfold text_at. split.
  - intros H. split; intros k c Hk.
    + apply H. by apply lookup_app_l_Some.
    + rewrite <- Z.add_assoc, <- Nat2Z.inj_add. apply H. rewrite lookup_app_r by lia. by replace (_ - _)%nat with k by lia.
  - intros [H1 H2] k c [Hk|[Hlt Hk]]%lookup_app_Some; [by apply H1|]. rewrite <- (H2 _ _ Hk). f_equal. lia.
Qed.

Lemma text_cons s c l : text_at s (c :: l) <-> buf s = c /\ text_at (s + 1) l.
Proof.
  change (c :: l) with ([c] ++ l). rewrite text_app. simpl. unfold text_at at 1. split; intros [H1 H2]; (split; [|done]).
  - specialize (H1 0%nat c eq_refl). by rewrite Z.add_0_r in H1.
  - intros [|k] c' Hk; [|done]. injection Hk as <-. by rewrite Z.add_0_r.
Qed.

Lemma text_word s w : text_at s w -> forall a, s <= a < s + Z.of_nat (length w) -> exists c, c ∈ w /\ buf a = c.
Proof.
  intros H a Ha. destruct (lookup_lt_is_Some_2 w (Z.to_nat (a - s))) as [c Hc]; [lia|].
  exists c. split; [by eapply list_elem_of_lookup_2|]. rewrite <- (H _ _ Hc). f_equal. lia.
Qed.

Lemma skip_ws_here s : s <= es -> strchr whitespace (buf s) = false -> skip_ws buf es s = s.
Proof.
  intros Hs Hw. unfold skip_ws, skip. rewrite (skip_n_exact _ _ _ 0); [lia|lia|intros; lia|right; by rewrite Z.add_0_r].
Qed.

Lemma lex_space s ts : buf s = 32 -> s < es -> lex (s + 1) ts -> lex s ts.
Proof.
  intros Hb Hs Hl. assert (E : skip_ws buf es s = skip_ws buf es (s + 1)).
  { unfold skip_ws, skip. replace (Z.to_nat (es - s)) with (S (Z.to_nat (es - (s + 1)))) by lia. cbn [skip_n]. by rewrite Hb. }
  destruct ts as [|t ts]; cbn [lex] in *; rewrite E; (split; [lia|]); apply Hl.
Qed.

Lemma tok_first_no_ws t : tok_ok t -> strchr whitespace (tok_first t) = false.
Proof.
  destruct t as [c| |[|c w]]; cbn [tok_ok tok_first tok_text nth].
  - intros H. repeat (apply elem_of_cons in H as [->|H]; [done|]). by apply elem_of_nil in H.
  - done.
  - by intros [? _].
  - intros [_ H]. apply Forall_cons in H as [H _]. unfold wordchar in H. by destruct (strchr whitespace c), (c =? 0).
Qed.

(** The token that starts at [s], when a space follows it. *)
Lemma token_at_text t s :
  tok_ok t -> text_at s (tok_text t ++ [32]) -> s + Z.of_nat (length (tok_text t)) < es ->
  token_at buf es s = (tok_code t, s + Z.of_nat (length (tok_text t))).
Proof.
  intros Ht Htext Hlen. apply text_app in Htext as [Hx Hsp]. apply text_cons in Hsp as [Hsp _]. unfold token_at.
  destruct t as [c| |w]; cbn [tok_ok tok_text tok_code length] in *.
  - apply text_cons in Hx as [-> _]. rewrite Nat2Z.inj_succ in Hsp. change (Z.succ (Z.of_nat 0)) with 1 in *.
    repeat (apply elem_of_cons in Ht as [->|Ht]; [by rewrite ?Hsp|]). by apply elem_of_nil in Ht.
  - apply text_cons in Hx as [-> Hx]. apply text_cons in Hx as [-> _]. done.
  - destruct Ht as [Hne Hw]. destruct w as [|c w]; [done|]. pose proof Hw as Hw0. apply Forall_cons in Hw as [Hc Hw].
    pose proof Hx as Hx0. apply text_cons in Hx as [-> Hx]. unfold wordchar in Hc.
    destruct (Z.eqb_spec c 0); [done|]. destruct (strchr whitespace c) eqn:Ews; [done|].
    destruct (strchr symbols c) eqn:Esy; [done|].
    assert (strchr [TOK_PIPE; TOK_LPAR; TOK_RPAR; TOK_SEMI; TOK_AMP; TOK_LT] c = false /\ (c =? TOK_GT) = false) as [-> ->].
    { unfold strchr, symbols in Esy. simpl in Esy. unfold strchr, TOK_PIPE, TOK_LPAR, TOK_RPAR, TOK_SEMI, TOK_AMP, TOK_LT, TOK_GT. simpl. lia. }
    f_equal. unfold skip. apply skip_n_exact; [cbn [length] in *; lia| |right; by rewrite Hsp].
    intros a Ha. destruct (text_word _ _ Hx0 a Ha) as (c' & Hin & ->). rewrite Forall_forall in Hw0. specialize (Hw0 c' Hin).
    unfold wordchar in Hw0. by destruct (c' =? 0), (strchr whitespace c'), (strchr symbols c').
Qed.

Lemma show_lex ts s :
  Forall tok_ok ts -> text_at s (show_toks ts) -> es = s + Z.of_nat (length (show_toks ts)) -> lex s ts.
Proof.
  revert s; induction ts as [|t ts IH]; intros s Hok Htext E.
  { simpl in E. split; [lia|]. unfold skip_ws, skip. replace (Z.to_nat (es - s)) with 0%nat by lia. simpl. lia. }
  apply Forall_cons in Hok as [Ht Hok]. unfold show_toks in Htext, E. cbn [flat_map] in Htext, E. fold (show_toks ts) in Htext, E.
  rewrite !length_app in E. simpl in E. set (eq := s + Z.of_nat (length (tok_text t))).
  pose proof Htext as Htext0. apply text_app in Htext as [Htok Htext]. rewrite length_app in Htext. simpl in Htext.
  pose proof Htok as Htok0. apply text_app in Htok0 as [Hx Hsp]. apply text_cons in Hsp as [Hsp _].
  assert (Hspan : is_span t (s, eq)).
  { split; [done|]. split; [done|]. split; [unfold eq; cbn [snd]; lia|]. destruct t; try done. cbn [snd]. unfold eq. by rewrite Hsp. }
  assert (Hws : skip_ws buf es s = s).
  { apply skip_ws_here; [lia|]. pose proof (first_at t _ Ht Hspan) as Ef. cbn [fst] in Ef. rewrite Ef. by apply tok_first_no_ws. }
  split; [lia|]. exists eq. rewrite Hws. split; [done|]. split; [apply token_at_text; [done|done|lia]|]. split; [done|].
  apply lex_space; [exact Hsp|unfold eq; lia|]. apply IH; [done| |unfold eq; lia].
  unfold eq. replace (s + Z.of_nat (length (tok_text t)) + 1) with (s + Z.of_nat (length (tok_text t) + 1)) by lia. done.
Qed.
End lex.

(** ** Writing commands *)
Definition M_OUT : Z := Eval cbv in Z.lor (Z.lor O_WRONLY O_CREATE) O_TRUNC.
Definition M_APP : Z := Eval cbv in Z.lor O_WRONLY O_CREATE.

Definition rtok (mode : Z) : tok := if mode =? O_RDONLY then TSym TOK_LT else if mode =? M_OUT then TSym TOK_GT else TApp.
Definition rtoks (r : redir (list Z)) : list tok := [rtok (r_mode r); TWord (r_file r)].

Definition par (b : bool) (l : list tok) : list tok := if b then TSym TOK_LPAR :: l ++ [TSym TOK_RPAR] else l.

(** The level: 0 for parseline, 1 for what may stand before ";" or "&", 2 for
    parsepipe, 3 for parseexec. *)
Fixpoint pr (lvl : nat) (t : cmd (list Z)) : list tok :=
  match t with
  | EXEC ws => TWord <$> ws
  | REDIR c f mode fd =>
      match c with EXEC _ | REDIR _ _ _ _ => pr 3 c | _ => par true (pr 0 c) end ++ [rtok mode; TWord f]
  | PIPE l r => par (2 <? lvl)%nat (pr 3 l ++ TSym TOK_PIPE :: pr 2 r)
  | BACK c => par (1 <? lvl)%nat (pr 1 c ++ [TSym TOK_AMP])
  | LIST l r => par (0 <? lvl)%nat (pr 1 l ++ TSym TOK_SEMI :: pr 0 r)
  end.

Definition show (t : cmd (list Z)) : list Z := show_toks (pr 0 t).

Definition word_ok (w : list Z) : Prop := tok_ok (TWord w).
Definition redir_ok (w : list Z) (mode fd : Z) : Prop :=
  word_ok w /\ (mode, fd) ∈ [(O_RDONLY, 0); (M_OUT, 1); (M_APP, 1)].

(** Commands the shell has: words of ordinary characters, fewer than MAXARGS of
    them, and the three redirections. *)
Fixpoint cmd_ok (t : cmd (list Z)) : Prop :=
  match t with
  | EXEC ws => Forall word_ok ws /\ Z.of_nat (length ws) < MAXARGS
  | REDIR c f mode fd => cmd_ok c /\ redir_ok f mode fd
  | PIPE l r | LIST l r => cmd_ok l /\ cmd_ok r
  | BACK c => cmd_ok c
  end.

Lemma rtok_ok mode : tok_ok (rtok mode).
Proof. unfold rtok. destruct (_ =? _); [|destruct (_ =? _)]; simpl; [set_solver|set_solver|done]. Qed.

Lemma par_ok b l : Forall tok_ok l -> Forall tok_ok (par b l).
Proof.
  intros Hl. destruct b; [|done]. simpl. constructor; [simpl; set_solver|]. apply Forall_app. split; [done|].
  constructor; [simpl; set_solver|constructor].
Qed.

Lemma pr_ok t lvl : cmd_ok t -> Forall tok_ok (pr lvl t).
Proof.
  revert lvl; induction t as [ws|c IH f mode fd|l IHl r IHr|l IHl r IHr|c IH]; intros lvl; cbn [cmd_ok pr].
  - intros [Hw _]. apply Forall_fmap. exact Hw.
  - intros [Hc [Hf _]]. apply Forall_app. split.
    + destruct c; try apply par_ok; by apply IH.
    + constructor; [apply rtok_ok|]. constructor; [done|constructor].
  - intros [Hl Hr]. apply par_ok, Forall_app. split; [by apply IHl|]. constructor; [simpl; set_solver|by apply IHr].
  - intros [Hl Hr]. apply par_ok, Forall_app. split; [by apply IHl|]. constructor; [simpl; set_solver|by apply IHr].
  - intros Hc. apply par_ok, Forall_app. split; [by apply IH|]. constructor; [simpl; set_solver|constructor].
Qed.

(** A command with its redirections taken off. *)
Definition compound {W} (t : cmd W) : Prop := match t with EXEC _ | REDIR _ _ _ _ => False | _ => True end.

Lemma pr3_compound t : compound t -> pr 3 t = TSym TOK_LPAR :: pr 0 t ++ [TSym TOK_RPAR].
Proof. by destruct t. Qed.

Lemma wrap_snoc {W} (c : cmd W) rs r : wrap c (rs ++ [r]) = redircmd (wrap c rs) r.
Proof. unfold wrap. by rewrite foldl_app. Qed.

Lemma flat_snoc (rs : list (redir (list Z))) r : flat_map rtoks (rs ++ [r]) = flat_map rtoks rs ++ rtoks r.
Proof. by rewrite flat_map_app. Qed.

Lemma pr3_form t :
  (exists ws rs, t = wrap (EXEC ws) rs /\ pr 3 t = (TWord <$> ws) ++ flat_map rtoks rs) \/
  (exists b rs, t = wrap b rs /\ compound b /\ pr 3 t = TSym TOK_LPAR :: pr 0 b ++ TSym TOK_RPAR :: flat_map rtoks rs).
Proof.
  induction t as [ws|c IH f mode fd|l _ r _|l _ r _|c _].
  - left. exists ws, []. split; [done|]. simpl. by rewrite app_nil_r.
  - cbn [pr]. set (r := mkredir f mode fd). change [rtok mode; TWord f] with (rtoks r).
    assert (Hc : compound c \/ ~ compound c) by (destruct c; simpl; tauto). destruct Hc as [Hc|Hc].
    + right. exists c, [r]. split; [done|]. split; [done|]. destruct c; try done; simpl; by rewrite <- app_assoc.
    + assert (Ep : match c with EXEC _ | REDIR _ _ _ _ => pr 3 c | _ => par true (pr 0 c) end = pr 3 c) by (destruct c; done || tauto).
      rewrite Ep. destruct IH as [(ws & rs & -> & ->)|(b & rs & -> & Hb & ->)].
      * left. exists ws, (rs ++ [r]). rewrite wrap_snoc, flat_snoc, app_assoc. done.
      * right. exists b, (rs ++ [r]). rewrite wrap_snoc, flat_snoc. split; [done|]. split; [done|]. simpl. by rewrite <- app_assoc.
  - right. exists (PIPE l r), []. done.
  - right. exists (LIST l r), []. done.
  - right. exists (BACK c), []. done.
Qed.

(** ** What the parser returns *)
Section related.
Context (buf : mem) (es : Z).

Definition word_rel (w : span) (x : list Z) : Prop := word_ok x /\ is_span buf es (TWord x) w.
Definition redir_rel (r : redir span) (r' : redir (list Z)) : Prop :=
  word_rel (r_file r) (r_file r') /\ r_mode r = r_mode r' /\ r_fd r = r_fd r'.

Fixpoint cmd_rel (c : cmd span) (t : cmd (list Z)) : Prop :=
  match c, t with
  | EXEC ws, EXEC xs => Forall2 word_rel ws xs
  | REDIR c w m d, REDIR t x m' d' => cmd_rel c t /\ word_rel w x /\ m = m' /\ d = d'
  | PIPE l r, PIPE l' r' | LIST l r, LIST l' r' => cmd_rel l l' /\ cmd_rel r r'
  | BACK c, BACK t => cmd_rel c t
  | _, _ => False
  end.

Lemma wrap_rel c t rs rs' : cmd_rel c t -> Forall2 redir_rel rs rs' -> cmd_rel (wrap c rs) (wrap t rs').
Proof.
  intros Hc H. revert c t Hc; induction H as [|r r' rs rs' (H1 & H2 & H3) _ IH]; intros c t Hc; [done|].
  apply IH. simpl. done.
Qed.
End related.

(** ** Parsing what [pr] wrote *)
Section parse.
Context (buf : mem) (es : Z).
Hypothesis Hes : buf es = 0.

Local Notation lex := (lex buf es).
Local Notation rel := (cmd_rel buf es).

(** What follows is the end of the line or one of the symbols [cs]. *)
Definition ends (cs : list Z) (k : list tok) : Prop :=
  match k with [] => True | t :: _ => exists c, t = TSym c /\ c ∈ cs end.

Lemma ends_head cs ds k : ends cs k -> forallb (fun c => negb (strchr ds c)) cs = true -> head_in ds k = false.
Proof.
  destruct k as [|t k]; [done|]. intros (c & -> & Hc) Hall. rewrite forallb_forall in Hall.
  specialize (Hall c). unfold head_in, tok_first. simpl. apply negb_true_iff, Hall. by apply list_elem_of_In.
Qed.

Lemma ends_sub cs ds k : ends cs k -> cs ⊆ ds -> ends ds k.
Proof. destruct k; [done|]. intros (c & -> & Hc) Hsub. exists c. split; [done|]. by apply Hsub. Qed.

Definition F0 : list Z := [TOK_RPAR].
Definition F1 : list Z := [TOK_AMP; TOK_SEMI; TOK_RPAR].
Definition F3 : list Z := [TOK_PIPE; TOK_AMP; TOK_SEMI; TOK_RPAR].

Lemma skip_ws_le s : s <= es -> s <= skip_ws buf es s <= es.
Proof. intros Hs. by apply (skip_spec buf es (strchr whitespace) s Hs). Qed.

(** peek, as a step. *)
Lemma peek_run {A} cs s ts (k : bool -> M Z A) :
  lex s ts -> exists s', (b <- peek buf es cs ;; k b) s = k (head_in cs ts) s' /\ lex s' ts /\ s <= s' <= es.
Proof.
  intros H. exists (skip_ws buf es s). split; [by erewrite bind_ret by by apply peek_lex|].
  split; [by apply lex_ws|]. apply skip_ws_le. by eapply lex_le.
Qed.

Lemma token_run {A} s t ts (k : Z * span -> M Z A) :
  lex s (t :: ts) ->
  exists w s', (x <- gettoken buf es ;; k x) s = k (tok_code t, w) s' /\ is_span buf es t w /\ lex s' ts /\ s + 1 <= s' <= es.
Proof.
  intros H. destruct (gettoken_lex buf es s t ts H) as (w & s' & E & Hsp & Hl & Hlt).
  exists w, s'. split; [by erewrite bind_ret by exact E|]. split; [done|]. split; [done|]. pose proof (lex_le _ _ _ _ Hl). lia.
Qed.

Lemma rtok_head mode : strchr [TOK_LT; TOK_GT] (tok_first (rtok mode)) = true.
Proof. unfold rtok. destruct (_ =? _); [done|]. by destruct (_ =? _). Qed.

Lemma rtok_not_par mode : strchr [TOK_LPAR] (tok_first (rtok mode)) = false.
Proof. unfold rtok. destruct (_ =? _); [done|]. by destruct (_ =? _). Qed.

(** Running the next peek or gettoken of the goal. *)
Local Ltac run_peek Hl s' Hl' Hs :=
  let E := fresh "E" in
  match goal with |- context [bind (peek _ _ ?cs) ?k] => destruct (peek_run cs _ _ k Hl) as (s' & E & Hl' & Hs); rewrite E; clear E end;
  cbn [head_in].
Local Ltac run_token Hl w s' Hsp Hl' Hs :=
  let E := fresh "E" in
  match goal with |- context [bind (gettoken _ _) ?k] => destruct (token_run _ _ _ k Hl) as (w & s' & E & Hsp & Hl' & Hs); rewrite E; clear E end;
  cbn [fst snd tok_code].

Lemma redirs_run rs n acc s k :
  lex s (flat_map rtoks rs ++ k) -> Forall (fun r => redir_ok (r_file r) (r_mode r) (r_fd r)) rs ->
  head_in [TOK_LT; TOK_GT] k = false -> es - s < Z.of_nat n ->
  exists rs' s', parseredirs buf es n acc s = Ret (acc ++ rs') s' /\ Forall2 (redir_rel buf es) rs' rs /\ lex s' k /\ s <= s' <= es.
Proof.
  revert n acc s; induction rs as [|r rs IH]; intros n acc s Hl Hok Hk Hn; pose proof (lex_le _ _ _ _ Hl) as Hle;
    (destruct n as [|n]; [lia|]); cbn [parseredirs].
  - run_peek Hl s1 Hl1 Hs1. change (flat_map rtoks [] ++ k) with k. fold (head_in [TOK_LT; TOK_GT] k). rewrite Hk.
    exists [], s1. rewrite app_nil_r. split; [done|]. split; [constructor|done].
  - apply Forall_cons in Hok as [Hr Hok]. cbn [flat_map rtoks app] in Hl.
    run_peek Hl s1 Hl1 Hs1. rewrite rtok_head. cbn [negb].
    run_token Hl1 w2 s2 Hsp2 Hl2 Hs2. run_token Hl2 w3 s3 Hsp Hl3 Hs3. change (TOK_WORD =? TOK_WORD) with true. cbn [negb].
    match goal with |- context [parseredirs _ _ n (acc ++ ?x)] => set (r' := x) end.
    assert (exists r1, r' = [r1] /\ redir_rel buf es r1 r) as (r1 & Er & Hrel).
    { unfold r', redir_rel. destruct Hr as [Hwok Hm]. destruct r as [f mode fd]. cbn [r_mode r_file r_fd] in *. unfold rtok.
      repeat (apply elem_of_cons in Hm as [Hm|Hm]; [injection Hm as -> ->; eexists; split; [reflexivity|]; by split_and!|]).
      by apply elem_of_nil in Hm. }
    destruct (IH n (acc ++ r') s3 Hl3 Hok Hk) as (rs' & s4 & E4 & Hf & Hl4 & Hs4); [lia|].
    exists (r1 :: rs'), s4. rewrite E4, Er, <- app_assoc. split; [done|]. split; [by constructor|]. split; [done|lia].
Qed.

Lemma word_head cs w : word_ok w -> forallb (strchr symbols) cs = true -> strchr cs (tok_first (TWord w)) = false.
Proof.
  intros [Hne Hw] Hcs. destruct w as [|c w]; [done|]. apply Forall_cons in Hw as [Hc _].
  change (tok_first (TWord (c :: w))) with c. destruct (strchr cs c) eqn:E; [|done].
  unfold strchr in E. apply existsb_exists in E as (c' & Hin & E%Z.eqb_eq). subst c'. rewrite forallb_forall in Hcs.
  unfold wordchar in Hc. rewrite (Hcs c Hin) in Hc. by rewrite andb_false_r in Hc.
Qed.

(** The end of the words of a command. *)
Lemma args_end n argv acc s k :
  lex s k -> ends F3 k -> es - s < Z.of_nat n ->
  exists s', parseargs buf es n argv acc s = Ret (argv, acc) s' /\ lex s' k /\ s <= s' <= es.
Proof.
  intros Hl Hk Hn. pose proof (lex_le _ _ _ _ Hl) as Hle. destruct n as [|n]; [lia|]. cbn [parseargs].
  run_peek Hl s1 Hl1 Hs1. destruct k as [|t k]; cbn [head_in].
  - destruct (gettoken_end buf es Hes s1 Hl1) as (w & Ew). cbv iota. erewrite bind_ret by exact Ew. cbn [fst].
    change (0 =? 0) with true. cbv iota. exists es. split; [done|].
    split; [|lia]. split; [lia|]. unfold skip_ws, skip. by rewrite Z.sub_diag.
  - assert (Eh : strchr [TOK_PIPE; TOK_RPAR; TOK_AMP; TOK_SEMI] (tok_first t) = true).
    { destruct Hk as (c & -> & Hc). unfold F3 in Hc.
      repeat (apply elem_of_cons in Hc as [->|Hc]; [done|]). by apply elem_of_nil in Hc. }
    rewrite Eh. by exists s1.
Qed.

(** The words of a command; the redirections after the last of them. *)
Lemma args_run ws rs n argv acc s k :
  lex s ((TWord <$> ws) ++ flat_map rtoks rs ++ k) -> (ws = [] -> rs = []) -> ends F3 k ->
  Forall word_ok ws -> Forall (fun r => redir_ok (r_file r) (r_mode r) (r_fd r)) rs ->
  Z.of_nat (length argv + length ws) < MAXARGS -> es - s < Z.of_nat n ->
  exists argv' rs' s', parseargs buf es n argv acc s = Ret (argv ++ argv', acc ++ rs') s' /\
    Forall2 (word_rel buf es) argv' ws /\ Forall2 (redir_rel buf es) rs' rs /\ lex s' k /\ s <= s' <= es.
Proof.
  revert n argv acc s; induction ws as [|w ws IH]; intros n argv acc s Hl Hrs Hk Hws Hok Hlen Hn.
  { rewrite (Hrs eq_refl) in *. change (([] : list tok) ++ flat_map rtoks [] ++ k) with k in Hl.
    destruct (args_end n argv acc s k Hl Hk Hn) as (s' & E & Hl' & Hs'). exists [], [], s'. rewrite !app_nil_r. done. }
  pose proof (lex_le _ _ _ _ Hl) as Hle. destruct n as [|n]; [lia|]. cbn [parseargs].
  apply Forall_cons in Hws as [Hw Hws]. cbn [fmap list_fmap app] in Hl.
  run_peek Hl s1 Hl1 Hs1. rewrite word_head by done. run_token Hl1 w2 s2 Hsp2 Hl2 Hs2.
  change (TOK_WORD =? 0) with false. change (TOK_WORD =? TOK_WORD) with true. cbn [negb]. cbv zeta.
  destruct (Z.leb_spec MAXARGS (Z.of_nat (length (argv ++ [w2])))) as [Hge|Hlt]; [rewrite length_app in Hge; simpl in *; lia|].
  assert (Hk' : head_in [TOK_LT; TOK_GT] k = false) by by eapply ends_head.
  assert (Hlen' : Z.of_nat (length (argv ++ [w2]) + length ws) < MAXARGS) by (rewrite length_app; simpl in *; lia).
  destruct ws as [|w' ws].
  - destruct (redirs_run rs n acc s2 k) as (rs' & s3 & E3 & Hf & Hl3 & Hs3); [done..|lia|].
    erewrite bind_ret by exact E3. destruct (args_end n (argv ++ [w2]) (acc ++ rs') s3 k) as (s4 & E4 & Hl4 & Hs4); [done..|lia|].
    exists [w2], rs', s4. split; [done|]. split; [constructor; [by split|constructor]|]. split; [done|]. split; [done|lia].
  - destruct (redirs_run [] n acc s2 ((TWord <$> w' :: ws) ++ flat_map rtoks rs ++ k)) as (rs0 & s3 & E3 & Hf & Hl3 & Hs3);
      [done|constructor|apply word_head; [by apply Forall_cons in Hws as [? _]|done]|lia|].
    apply Forall2_nil_inv_r in Hf as ->. rewrite app_nil_r in E3. erewrite bind_ret by exact E3.
    destruct (IH n (argv ++ [w2]) acc s3) as (argv' & rs' & s4 & E4 & Ha & Hf & Hl4 & Hs4); try done; [lia|].
    exists (w2 :: argv'), rs', s4. rewrite E4, <- app_assoc. split; [done|]. split; [by constructor; [split|]|]. split; [done|]. split; [done|lia].
Qed.

(** ** The levels of the grammar *)
Definition got (s : Z) (k : list tok) (t : cmd (list Z)) (r : result Z (cmd span)) : Prop :=
  exists c s', r = Ret c s' /\ rel c t /\ lex s' k /\ s <= s' <= es.

Definition P0 (t : cmd (list Z)) : Prop := forall fuel s k,
  lex s (pr 0 t ++ k) -> ends F0 k -> 4 * (es - s) + 3 < Z.of_nat fuel -> got s k t (parseline buf es fuel s).
Definition P2 (t : cmd (list Z)) : Prop := forall fuel s k,
  lex s (pr 2 t ++ k) -> ends F1 k -> 4 * (es - s) + 2 < Z.of_nat fuel -> got s k t (parsepipe buf es fuel s).
Definition P3 (t : cmd (list Z)) : Prop := forall fuel s k,
  lex s (pr 3 t ++ k) -> ends F3 k -> 4 * (es - s) + 1 < Z.of_nat fuel -> got s k t (parseexec buf es fuel s).

(** parsepipe, then some rounds of the loop of parseline. *)
Definition P1 (t : cmd (list Z)) : Prop := forall fuel s k,
  lex s (pr 1 t ++ k) -> ends F1 k -> 4 * (es - s) + 2 < Z.of_nat fuel ->
  exists c0 s0, parsepipe buf es fuel s = Ret c0 s0 /\ s <= s0 <= es /\
    forall n, es - s0 < Z.of_nat n -> exists n' c s',
      parseback buf es n c0 s0 = parseback buf es n' c s' /\ rel c t /\ lex s' k /\ s0 <= s' <= es /\ es - s' < Z.of_nat n'.

Lemma wrap_ok b rs :
  cmd_ok (wrap b rs) -> cmd_ok b /\ Forall (fun r => redir_ok (r_file r) (r_mode r) (r_fd r)) rs.
Proof.
  revert b; induction rs as [|r rs IH]; intros b; [done|]. simpl. intros [[H1 H2] H3]%IH. split; [done|]. by constructor.
Qed.

Lemma exec_P3 ws rs : cmd_ok (wrap (EXEC ws) rs) -> pr 3 (wrap (EXEC ws) rs) = (TWord <$> ws) ++ flat_map rtoks rs -> P3 (wrap (EXEC ws) rs).
Proof.
  intros Hok Epr fuel s k Hl Hk Hf. rewrite Epr, <- app_assoc in Hl. apply wrap_ok in Hok as [[Hws Hlen] Hrs].
  pose proof (lex_le _ _ _ _ Hl) as Hle. destruct fuel as [|fuel]; [lia|]. cbn [parseexec].
  assert (Hk' : head_in [TOK_LT; TOK_GT] k = false) by by eapply ends_head.
  assert (Hpar : head_in [TOK_LPAR] ((TWord <$> ws) ++ flat_map rtoks rs ++ k) = false).
  { destruct ws as [|w ws]; [|apply word_head; [by apply Forall_cons in Hws as [? _]|done]].
    destruct rs as [|r rs]; [by eapply ends_head|apply rtok_not_par]. }
  run_peek Hl s1 Hl1 Hs1. rewrite Hpar. rewrite bind_gets. unfold id.
  destruct ws as [|w ws].
  - change ((TWord <$> []) ++ flat_map rtoks rs ++ k) with (flat_map rtoks rs ++ k) in Hl1.
    destruct (redirs_run rs (loop_fuel es s1) [] s1 k Hl1 Hrs Hk') as (rs' & s2 & E2 & Hf2 & Hl2 & Hs2); [apply loop_fuel_ok; lia|].
    erewrite bind_ret by exact E2. rewrite bind_gets. unfold id.
    destruct (args_end (loop_fuel es s2) [] rs' s2 k Hl2 Hk) as (s3 & E3 & Hl3 & Hs3); [apply loop_fuel_ok; lia|].
    erewrite bind_ret by exact E3. eexists _, s3. split; [reflexivity|]. split; [|split; [done|lia]].
    apply wrap_rel; [simpl; constructor|done].
  - destruct (redirs_run [] (loop_fuel es s1) [] s1 ((TWord <$> w :: ws) ++ flat_map rtoks rs ++ k)) as (rs0 & s2 & E2 & Hf0 & Hl2 & Hs2);
      [done|constructor|apply word_head; [by apply Forall_cons in Hws as [? _]|done]|apply loop_fuel_ok; lia|].
    apply Forall2_nil_inv_r in Hf0 as ->. erewrite bind_ret by exact E2. rewrite bind_gets. unfold id.
    destruct (args_run (w :: ws) rs (loop_fuel es s2) [] ([] ++ []) s2 k) as (argv' & rs' & s3 & E3 & Ha & Hf3 & Hl3 & Hs3);
      [done|done|done|done|done|simpl in *; lia|apply loop_fuel_ok; lia|].
    erewrite bind_ret by exact E3. eexists _, s3. split; [reflexivity|]. split; [|split; [done|lia]].
    by apply wrap_rel.
Qed.

(** A command in parentheses. *)
Lemma block_P3 b rs :
  P0 b -> Forall (fun r => redir_ok (r_file r) (r_mode r) (r_fd r)) rs ->
  pr 3 (wrap b rs) = TSym TOK_LPAR :: pr 0 b ++ TSym TOK_RPAR :: flat_map rtoks rs -> P3 (wrap b rs).
Proof.
  intros HP Hrs Epr fuel s k Hl Hk Hf. rewrite Epr in Hl. cbn [app] in Hl. rewrite <- app_assoc in Hl. cbn [app] in Hl.
  pose proof (lex_le _ _ _ _ Hl) as Hle. destruct fuel as [|[|fuel]]; [lia..|]. cbn [parseexec].
  run_peek Hl s1 Hl1 Hs1. change (strchr [TOK_LPAR] (tok_first (TSym TOK_LPAR))) with true. cbv iota. cbn [parseblock].
  run_peek Hl1 s2 Hl2 Hs2. change (strchr [TOK_LPAR] (tok_first (TSym TOK_LPAR))) with true. cbn [negb].
  run_token Hl2 w3 s3 Hsp3 Hl3 Hs3.
  destruct (HP fuel s3 (TSym TOK_RPAR :: flat_map rtoks rs ++ k) Hl3) as (c & s4 & E4 & Hc & Hl4 & Hs4);
    [exists TOK_RPAR; split; [done|set_solver]|lia|].
  erewrite bind_ret by exact E4.
  run_peek Hl4 s5 Hl5 Hs5. change (strchr [TOK_RPAR] (tok_first (TSym TOK_RPAR))) with true. cbn [negb].
  run_token Hl5 w6 s6 Hsp6 Hl6 Hs6. rewrite bind_gets. unfold id.
  destruct (redirs_run rs (loop_fuel es s6) [] s6 k Hl6 Hrs) as (rs' & s7 & E7 & Hf7 & Hl7 & Hs7);
    [by eapply ends_head|apply loop_fuel_ok; lia|].
  erewrite bind_ret by exact E7. eexists _, s7. split; [reflexivity|]. split; [by apply wrap_rel|]. split; [done|lia].
Qed.

Lemma up_P2 t : P3 t -> pr 2 t = pr 3 t -> P2 t.
Proof.
  intros HP E fuel s k Hl Hk Hf. rewrite E in Hl. pose proof (lex_le _ _ _ _ Hl) as Hle.
  destruct fuel as [|fuel]; [lia|]. cbn [parsepipe].
  destruct (HP fuel s k Hl) as (c & s1 & E1 & Hc & Hl1 & Hs1); [eapply ends_sub; [exact Hk|unfold F1, F3; set_solver]|lia|].
  erewrite bind_ret by exact E1. run_peek Hl1 s2 Hl2 Hs2.
  assert (head_in [TOK_PIPE] k = false) as Hh by by eapply ends_head. rewrite Hh.
  exists c, s2. split; [done|]. split; [done|]. split; [done|lia].
Qed.

Lemma pipe_P2 l r : P3 l -> P2 r -> P2 (PIPE l r).
Proof.
  intros Hl3 Hr2 fuel s k Hl Hk Hf. cbn [pr] in Hl. change (2 <? 2)%nat with false in Hl. cbn [par] in Hl.
  rewrite <- app_assoc in Hl. cbn [app] in Hl. pose proof (lex_le _ _ _ _ Hl) as Hle.
  destruct fuel as [|fuel]; [lia|]. cbn [parsepipe].
  destruct (Hl3 fuel s _ Hl) as (c & s1 & E1 & Hc & Hl1 & Hs1); [exists TOK_PIPE; split; [done|unfold F3; set_solver]|lia|].
  erewrite bind_ret by exact E1. run_peek Hl1 s2 Hl2 Hs2.
  change (strchr [TOK_PIPE] (tok_first (TSym TOK_PIPE))) with true. cbv iota. run_token Hl2 w3 s3 Hsp3 Hl3' Hs3.
  destruct (Hr2 fuel s3 k Hl3' Hk) as (c2 & s4 & E4 & Hc2 & Hl4 & Hs4); [lia|].
  erewrite bind_ret by exact E4. exists (PIPE c c2), s4. split; [done|]. split; [done|]. split; [done|lia].
Qed.

Lemma up_P1 t : P2 t -> pr 1 t = pr 2 t -> P1 t.
Proof.
  intros HP E fuel s k Hl Hk Hf. rewrite E in Hl. destruct (HP fuel s k Hl Hk Hf) as (c & s1 & E1 & Hc & Hl1 & Hs1).
  exists c, s1. split; [done|]. split; [done|]. intros n Hn. exists n, c, s1. split; [done|]. split; [done|]. split; [done|]. split; [lia|done].
Qed.

Lemma back_P1 t : P1 t -> P1 (BACK t).
Proof.
  intros HP fuel s k Hl Hk Hf. cbn [pr] in Hl. change (1 <? 1)%nat with false in Hl. cbn [par] in Hl.
  rewrite <- app_assoc in Hl. cbn [app] in Hl.
  destruct (HP fuel s _ Hl) as (c0 & s0 & E0 & Hs0 & Hn); [exists TOK_AMP; split; [done|unfold F1; set_solver]|done|].
  exists c0, s0. split; [done|]. split; [done|]. intros n Hlt. destruct (Hn n Hlt) as (n1 & c & s1 & E1 & Hc & Hl1 & Hs1 & Hn1).
  destruct n1 as [|n1]; [lia|]. rewrite E1. cbn [parseback]. run_peek Hl1 s2 Hl2 Hs2.
  change (strchr [TOK_AMP] (tok_first (TSym TOK_AMP))) with true. cbn [negb]. run_token Hl2 w3 s3 Hsp3 Hl3 Hs3.
  exists n1, (BACK c), s3. split; [done|]. split; [done|]. split; [done|]. lia.
Qed.

(** The loop of parseline stops. *)
Lemma back_stop n c s k : lex s k -> head_in [TOK_AMP] k = false -> es - s < Z.of_nat n ->
  exists s', parseback buf es n c s = Ret c s' /\ lex s' k /\ s <= s' <= es.
Proof.
  intros Hl Hk Hn. pose proof (lex_le _ _ _ _ Hl) as Hle. destruct n as [|n]; [lia|]. cbn [parseback].
  run_peek Hl s1 Hl1 Hs1. rewrite Hk. by exists s1.
Qed.

Lemma up_P0 t : P1 t -> pr 0 t = pr 1 t -> P0 t.
Proof.
  intros HP E fuel s k Hl Hk Hf. rewrite E in Hl. pose proof (lex_le _ _ _ _ Hl) as Hle.
  destruct fuel as [|fuel]; [lia|]. cbn [parseline].
  destruct (HP fuel s k Hl) as (c0 & s0 & E0 & Hs0 & Hn); [eapply ends_sub; [exact Hk|unfold F0, F1; set_solver]|lia|].
  erewrite bind_ret by exact E0. rewrite bind_gets. unfold id.
  destruct (Hn (loop_fuel es s0)) as (n1 & c & s1 & E1 & Hc & Hl1 & Hs1 & Hn1); [apply loop_fuel_ok; lia|].
  destruct (back_stop n1 c s1 k Hl1) as (s2 & E2 & Hl2 & Hs2); [by eapply ends_head|done|]. rewrite <- E1 in E2.
  erewrite bind_ret by exact E2. run_peek Hl2 s3 Hl3 Hs3.
  assert (head_in [TOK_SEMI] k = false) as Hh by by eapply ends_head. rewrite Hh.
  exists c, s3. split; [done|]. split; [done|]. split; [done|lia].
Qed.

Lemma list_P0 l r : P1 l -> P0 r -> P0 (LIST l r).
Proof.
  intros Hl1 Hr0 fuel s k Hl Hk Hf. cbn [pr] in Hl. change (0 <? 0)%nat with false in Hl. cbn [par] in Hl.
  rewrite <- app_assoc in Hl. cbn [app] in Hl. pose proof (lex_le _ _ _ _ Hl) as Hle.
  destruct fuel as [|fuel]; [lia|]. cbn [parseline].
  destruct (Hl1 fuel s _ Hl) as (c0 & s0 & E0 & Hs0 & Hn); [exists TOK_SEMI; split; [done|unfold F1; set_solver]|lia|].
  erewrite bind_ret by exact E0. rewrite bind_gets. unfold id.
  destruct (Hn (loop_fuel es s0)) as (n1 & c & s1 & E1 & Hc & Hl1' & Hs1 & Hn1); [apply loop_fuel_ok; lia|].
  destruct (back_stop n1 c s1 _ Hl1') as (s2 & E2 & Hl2 & Hs2); [done|done|]. rewrite <- E1 in E2.
  erewrite bind_ret by exact E2. run_peek Hl2 s3 Hl3 Hs3.
  change (strchr [TOK_SEMI] (tok_first (TSym TOK_SEMI))) with true. cbv iota. run_token Hl3 w4 s4 Hsp4 Hl4 Hs4.
  destruct (Hr0 fuel s4 k Hl4 Hk) as (c2 & s5 & E5 & Hc2 & Hl5 & Hs5); [lia|].
  erewrite bind_ret by exact E5. exists (LIST c c2), s5. split; [done|]. split; [done|]. split; [done|lia].
Qed.

Fixpoint csize {W} (t : cmd W) : nat :=
  match t with
  | EXEC _ => 1
  | REDIR c _ _ _ | BACK c => S (csize c)
  | PIPE l r | LIST l r => S (csize l + csize r)
  end.

Lemma csize_wrap {W} (b : cmd W) rs : csize (wrap b rs) = (csize b + length rs)%nat.
Proof. revert b; induction rs as [|r rs IH]; intros b; simpl; [lia|]. rewrite IH. simpl. lia. Qed.

Lemma compound_P3 t : compound t -> P0 t -> P3 t.
Proof. intros Ht HP. apply (block_P3 t []); [done|constructor|by apply pr3_compound]. Qed.

Lemma all_levels t : cmd_ok t -> P0 t /\ P1 t /\ P2 t /\ P3 t.
Proof.
  remember (csize t) as n eqn:En. revert t En; induction (lt_wf n) as [n _ IH]; intros t -> Hok.
  assert (IH' : forall u, cmd_ok u -> (csize u < csize t)%nat -> P0 u /\ P1 u /\ P2 u /\ P3 u) by (intros u ? ?; by eapply IH).
  destruct t as [ws|c f mode fd|l r|l r|c].
  - assert (H3 : P3 (EXEC ws)) by (apply (exec_P3 ws []); [done|by rewrite app_nil_r]).
    assert (H2 : P2 (EXEC ws)) by by apply up_P2. assert (H1 : P1 (EXEC ws)) by by apply up_P1.
    split; [by apply up_P0|done].
  - assert (H3 : P3 (REDIR c f mode fd)).
    { destruct (pr3_form (REDIR c f mode fd)) as [(ws & rs & E & Epr)|(b & rs & E & Hb & Epr)]; rewrite E in *.
      - by apply exec_P3.
      - apply wrap_ok in Hok as [Hokb Hrs]. apply block_P3; [|done|done]. apply IH'; [done|]. rewrite csize_wrap.
        destruct rs; [|simpl; lia]. simpl in E. by rewrite <- E in Hb. }
    assert (H2 : P2 (REDIR c f mode fd)) by by apply up_P2. assert (H1 : P1 (REDIR c f mode fd)) by by apply up_P1.
    split; [by apply up_P0|done].
  - destruct Hok as [Hl Hr]. destruct (IH' l Hl) as (_ & _ & _ & Hl3); [simpl; lia|].
    destruct (IH' r Hr) as (_ & _ & Hr2 & _); [simpl; lia|].
    assert (H2 : P2 (PIPE l r)) by by apply pipe_P2. assert (H1 : P1 (PIPE l r)) by by apply up_P1.
    assert (H0 : P0 (PIPE l r)) by by apply up_P0. pose proof (compound_P3 (PIPE l r) I H0). done.
  - destruct Hok as [Hl Hr]. destruct (IH' l Hl) as (_ & Hl1 & _); [simpl; lia|].
    destruct (IH' r Hr) as (Hr0 & _); [simpl; lia|].
    assert (H0 : P0 (LIST l r)) by by apply list_P0. pose proof (compound_P3 (LIST l r) I H0) as H3.
    assert (H2 : P2 (LIST l r)) by by apply up_P2. split; [done|]. split; [by apply up_P1|done].
  - destruct (IH' c Hok) as (_ & Hc1 & _); [simpl; lia|].
    assert (H1 : P1 (BACK c)) by by apply back_P1. assert (H0 : P0 (BACK c)) by by apply up_P0.
    pose proof (compound_P3 (BACK c) I H0) as H3. split; [done|]. split; [done|]. split; [by apply up_P2|done].
Qed.
End parse.

(** ** The NULs at the end of the words *)
Fixpoint spans {W} (c : cmd W) : list W :=
  match c with
  | EXEC ws => ws
  | REDIR c w _ _ => spans c ++ [w]
  | PIPE l r | LIST l r => spans l ++ spans r
  | BACK c => spans c
  end.

Fixpoint cmd_map {W X} (f : W -> X) (c : cmd W) : cmd X :=
  match c with
  | EXEC ws => EXEC (f <$> ws)
  | REDIR c w m d => REDIR (cmd_map f c) (f w) m d
  | PIPE l r => PIPE (cmd_map f l) (cmd_map f r)
  | LIST l r => LIST (cmd_map f l) (cmd_map f r)
  | BACK c => BACK (cmd_map f c)
  end.

Lemma foldl_nul (ws : list span) m : foldl (fun m w => upd m (snd w) 0) m ws = foldl (fun m a => upd m a 0) m ws.*2.
Proof. revert m; induction ws as [|w ws IH]; intros m; [done|]. apply IH. Qed.

Lemma nulterminate_fold c m : nulterminate c m = foldl (fun m a => upd m a 0) m (spans c).*2.
Proof.
  revert m; induction c as [ws|c IH w mode fd|l IHl r IHr|l IHl r IHr|c IH]; intros m; cbn [nulterminate spans].
  - apply foldl_nul.
  - by rewrite fmap_app, foldl_app, IH.
  - by rewrite fmap_app, foldl_app, IHl, IHr.
  - by rewrite fmap_app, foldl_app, IHl, IHr.
  - done.
Qed.

Lemma foldl_zero (as_ : list Z) m a : foldl (fun m a => upd m a 0) m as_ a = if decide (a ∈ as_) then 0 else m a.
Proof.
  revert m; induction as_ as [|b as_ IH]; intros m; simpl; [done|].
  rewrite IH, upd_case. repeat case_decide; set_solver.
Qed.

Lemma cmd_rel_map buf es (f : span -> list Z) c t :
  cmd_rel buf es c t -> (forall w x, w ∈ spans c -> x ∈ spans t -> word_rel buf es w x -> f w = x) -> cmd_map f c = t.
Proof.
  revert t; induction c as [ws|c IH w mode fd|l IHl r IHr|l IHl r IHr|c IH]; intros [xs|t x mode' fd'|l' r'|l' r'|t];
    cbn [cmd_rel cmd_map spans]; try done; intros Hc Hf.
  - f_equal. induction Hc as [|w x ws xs Hw _ IH]; [done|]. cbn. f_equal; [apply Hf; [left|left|done]|]. apply IH.
    intros w' x' Hin Hin'. apply Hf; by right.
  - destruct Hc as (H1 & H2 & -> & ->). f_equal; [apply IH; [done|]|apply Hf; [set_solver|set_solver|done]].
    intros; apply Hf; [set_solver|set_solver|done].
  - destruct Hc. f_equal; [apply IHl|apply IHr]; try done; intros; apply Hf; done || set_solver.
  - destruct Hc. f_equal; [apply IHl|apply IHr]; try done; intros; apply Hf; done || set_solver.
  - f_equal. by apply IH.
Qed.

(** Every word of a command is written out. *)
Lemma pr_words t lvl x : x ∈ spans t -> TWord x ∈ pr lvl t.
Proof.
  assert (Hpar : forall b l y, y ∈ l -> y ∈ par b l) by (intros [] l y Hy; [simpl|done]; set_solver).
  revert lvl; induction t as [ws|c IH f mode fd|l IHl r IHr|l IHl r IHr|c IH]; intros lvl; cbn [spans pr].
  - intros Hx. apply list_elem_of_fmap. eauto.
  - intros [Hx| ->%list_elem_of_singleton]%elem_of_app; apply elem_of_app; [left|right; set_solver].
    destruct c; try apply Hpar; by apply IH.
  - intros [Hx|Hx]%elem_of_app; apply Hpar, elem_of_app; [left; by apply IHl|right; right; by apply IHr].
  - intros [Hx|Hx]%elem_of_app; apply Hpar, elem_of_app; [left; by apply IHl|right; right; by apply IHr].
  - intros Hx. apply Hpar, elem_of_app. left. by apply IH.
Qed.

Lemma show_length t x : x ∈ spans t -> (length x <= length (show t))%nat.
Proof.
  intros Hx%(pr_words t 0). unfold show. induction (pr 0 t) as [|y l IH]; [by apply elem_of_nil in Hx|].
  unfold show_toks. cbn [flat_map]. rewrite !length_app. fold (show_toks l).
  apply elem_of_cons in Hx as [<-|Hx]; [cbn [tok_text]; lia|]. specialize (IH Hx). lia.
Qed.

Lemma cmd_rel_spans buf es c t w : cmd_rel buf es c t -> w ∈ spans c -> exists x, word_rel buf es w x.
Proof.
  revert t; induction c as [ws|c IH w' mode fd|l IHl r IHr|l IHl r IHr|c IH]; intros [xs|t x mode' fd'|l' r'|l' r'|t];
    cbn [cmd_rel spans]; try done.
  - intros Hc Hw. apply list_elem_of_lookup in Hw as [i Hi]. destruct (Forall2_lookup_l _ _ _ _ _ Hc Hi) as (x & _ & Hx). eauto.
  - intros (H1 & H2 & _) [Hw| ->%list_elem_of_singleton]%elem_of_app; eauto.
  - intros [H1 H2] [Hw|Hw]%elem_of_app; eauto.
  - intros [H1 H2] [Hw|Hw]%elem_of_app; eauto.
  - eauto.
Qed.

Lemma cstr_word buf m' q (w : list Z) n :
  text_at buf q w -> Forall (fun c => wordchar c = true) w -> (length w < n)%nat ->
  (forall a, wordchar (buf a) = true -> m' a = buf a) -> m' (q + Z.of_nat (length w)) = 0 -> cstr m' q n = w.
Proof.
  revert q n; induction w as [|c w IH]; intros q n Ht Hw Hn Hm He; (destruct n as [|n]; [simpl in Hn; lia|]); cbn [cstr].
  - simpl in He. rewrite Z.add_0_r in He. by rewrite He.
  - apply text_cons in Ht as [Hc Ht]. apply Forall_cons in Hw as [Hwc Hw].
    assert (Eq : m' q = c) by (rewrite Hm; rewrite Hc; done). rewrite Eq.
    destruct (Z.eqb_spec c 0) as [->|]; [done|]. f_equal. apply IH; [done|done|simpl in Hn; lia|done|].
    rewrite <- He. f_equal. simpl. lia.
Qed.

Lemma cstr_text m s n l : cstr m s n = l -> (length l < n)%nat -> text_at m s l /\ m (s + Z.of_nat (length l)) = 0.
Proof.
  revert s l; induction n as [|n IH]; intros s l; cbn [cstr]; [simpl; lia|].
  destruct (Z.eqb_spec (m s) 0) as [E|E].
  - intros <- _. simpl. rewrite Z.add_0_r. split; [|done]. intros k c Hk. by rewrite lookup_nil in Hk.
  - intros <- Hlen. simpl in Hlen. destruct (IH (s + 1) _ eq_refl) as [H1 H2]; [lia|]. split; [by apply text_cons|].
    rewrite <- H2. f_equal. simpl. lia.
Qed.

(** C23: every command of the shell (words of ordinary characters, fewer
    than MAXARGS of them, redirections, pipes, lists, background commands, nested
    in any way), written out as a line, is parsed back to the same command, and
    after nulterminate its words are the C strings the command points to. *)
Theorem parsecmd_roundtrip n m s t :
  cmd_ok t -> cstr m s n = show t -> (length (show t) < n)%nat ->
  exists c m', parsecmd n s m = Ret c m' /\ cmd_map (fun w => cstr m' (fst w) n) c = t.
Proof.
  intros Hok Hstr Hn. destruct (cstr_text m s n _ Hstr Hn) as [Htext Hes].
  unfold parsecmd. rewrite bind_gets. unfold id. rewrite strlen_spec, Hstr, decide_True by done. cbv zeta.
  set (len := Z.of_nat (length (show t))) in *. set (es := s + len) in *.
  assert (Hlex : lex m es s (pr 0 t ++ [])) by (rewrite app_nil_r; apply show_lex; [by apply pr_ok|done|done]).
  destruct (all_levels m es Hes t Hok) as (H0 & _).
  destruct (H0 (parse_fuel len) s [] Hlex) as (c & s1 & E1 & Hrel & Hl1 & Hs1); [done|unfold parse_fuel, es, len; lia|].
  erewrite bind_ret by exact E1.
  erewrite bind_ret by (apply peek_lex; [exact Hes|exact Hl1]). unfold ret at 1. destruct Hl1 as [_ ->].
  rewrite Z.eqb_refl. cbn [negb]. rewrite bind_modify. eexists _, _. split; [reflexivity|].
  apply (cmd_rel_map m es _ _ _ Hrel). intros w x Hw Hxt ([Hne Hx] & Htx & Hend & Hle & Hwc). cbn [tok_text] in Htx, Hend.
  assert (Hnul : forall a, nulterminate c m a = if decide (a ∈ (spans c).*2) then 0 else m a).
  { intros a. rewrite nulterminate_fold. apply foldl_zero. }
  apply (cstr_word m); [done|done|pose proof (show_length t x Hxt); lia| |].
  - intros a Ha. rewrite Hnul, decide_False; [done|]. intros (w' & -> & Hw')%list_elem_of_fmap.
    destruct (cmd_rel_spans _ _ _ _ _ Hrel Hw') as (y & _ & _ & _ & _ & Hwc'). by rewrite Ha in Hwc'.
  - rewrite Hnul, decide_True; [done|]. rewrite <- Hend. apply list_elem_of_fmap. by exists w.
Qed.

(** ** A concrete line *)
Definition line_at (s : Z) (l : list Z) : mem := fun a => if a <? s then 1 else nth (Z.to_nat (a - s)) l 0.

(** [ls -l | wc > out & ; ( cat < in ; echo ) >> log] *)
Definition demo_cmd : cmd (list Z) :=
  LIST (BACK (PIPE (EXEC [[108; 115]; [45; 108]]) (REDIR (EXEC [[119; 99]]) [111; 117; 116] M_OUT 1)))
    (REDIR (LIST (REDIR (EXEC [[99; 97; 116]]) [105; 110] O_RDONLY 0) (EXEC [[101; 99; 104; 111]])) [108; 111; 103] M_APP 1).

Lemma demo_cmd_ok : cmd_ok demo_cmd.
Proof.
  assert (Hw : forall w, w <> [] -> forallb wordchar w = true -> word_ok w).
  { intros w Hne Hw. split; [done|]. apply Forall_forall. intros c Hc. rewrite forallb_forall in Hw. apply Hw. by apply list_elem_of_In. }
  cbn [demo_cmd cmd_ok]. unfold redir_ok, MAXARGS. split_and!;
    repeat first [apply Forall_cons; split | apply Forall_nil | apply Hw; done]; try done; set_solver.
Qed.

Lemma parsecmd_roundtrip_witness :
  exists c m', parsecmd 100 1000 (line_at 1000 (show demo_cmd)) = Ret c m' /\ cmd_map (fun w => cstr m' (fst w) 100) c = demo_cmd.
Proof.
  apply (parsecmd_roundtrip 100 (line_at 1000 (show demo_cmd)) 1000 demo_cmd demo_cmd_ok).
  - vm_compute. reflexivity.
  - vm_compute. lia.
Defined.

