(* ===== verification/Grep.v ===== *)
(** user/grep.c: the matcher and the loop that reads lines.

    A C string is the list of its bytes before the NUL.  The matcher is compared
    with the language of the pattern, defined on its own ([pmatch]); the loop is
    shown to print the matching lines of the file, however the reads cut it into
    pieces. *)

From S2P Require Import Prelude.

Definition CARET : Z := 94.
Definition STAR : Z := 42.
Definition DOLLAR : Z := 36.
Definition DOT : Z := 46.
Definition NL : Z := 10.

(** matchstar, given what [matchhere(re, -)] answers. *)
Fixpoint matchstar (c : Z) (here : list Z -> bool) (text : list Z) : bool :=
  if here text then true else
  match text with
  | [] => false
  | x :: text' => if (x =? c) || (c =? DOT) then matchstar c here text' else false
  end.

Fixpoint matchhere (re text : list Z) : bool :=
  match re with
  | [] => true
  | c :: re' =>
      match re' with
      | d :: re'' =>
          if d =? STAR then matchstar c (matchhere re'') text else
          match text with
          | x :: text' => if (c =? DOT) || (c =? x) then matchhere re' text' else false
          | [] => false
          end
      | [] =>
          if c =? DOLLAR then match text with [] => true | _ => false end else
          match text with
          | x :: text' => if (c =? DOT) || (c =? x) then matchhere re' text' else false
          | [] => false
          end
      end
  end.

Fixpoint match_loop (re text : list Z) : bool :=
  if matchhere re text then true else
  match text with
  | [] => false
  | _ :: text' => match_loop re text'
  end.

Definition match_ (re text : list Z) : bool :=
  match re with
  | c :: re' => if c =? CARET then matchhere re' text else match_loop re text
  | [] => match_loop re text
  end.

(** [strchr(p, c)]: how far away the character is. *)
Fixpoint strchr_at (p : list Z) (c : Z) : option nat :=
  match p with
  | [] => None
  | x :: p' => if x =? 0 then None else if x =? c then Some 0%nat else S <$> strchr_at p' c
  end.

(** The bytes before the first NUL. *)
Fixpoint to_nul (l : list Z) : list Z :=
  match l with [] => [] | x :: l' => if x =? 0 then [] else x :: to_nul l' end.

(** The inner loop on the buffer [p]: what is written to standard output, and the
    rest of the buffer. *)
Fixpoint grep_lines (fuel : nat) (pattern p : list Z) : list Z * list Z :=
  match fuel, strchr_at p NL with
  | S fuel', Some q =>
      let line := to_nul (take q p) in
      let out := if match_ pattern line then take q p ++ [NL] else [] in
      let '(out', rest) := grep_lines fuel' pattern (drop (S q) p) in
      (out ++ out', rest)
  | _, _ => ([], p)
  end.

Definition BUFSIZE : nat := 1024.

(** The bytes the next read returns: at least one if there is one and there is
    room; [size] is the number the kernel has at hand. *)
Definition read_count (size room left : nat) : nat := Nat.min (S size) (Nat.min room left).

(** [buf] are the [m] bytes in the buffer, [input] the rest of the file. *)
Fixpoint grep_loop (sizes : list nat) (fuel : nat) (pattern buf input : list Z) : list Z :=
  let n := read_count (hd 0%nat sizes) (BUFSIZE - length buf - 1) (length input) in
  match fuel, n with
  | S fuel', S _ =>
      let buf' := buf ++ take n input in
      let '(out, rest) := grep_lines (length buf') pattern buf' in
      out ++ grep_loop (tl sizes) fuel' pattern rest (drop n input)
  | _, _ => []
  end.

Definition grep (sizes : list nat) (pattern input : list Z) : list Z :=
  grep_loop sizes (length input) pattern [] input.

(** ** The language of a pattern *)
Inductive item : Type := One (c : Z) | Many (c : Z).

Definition fits (c x : Z) : Prop := c = DOT \/ c = x.

(** The items of a pattern, and whether it ends in "$". *)
Fixpoint items (re : list Z) : list item * bool :=
  match re with
  | [] => ([], false)
  | c :: re' =>
      match re' with
      | d :: re'' =>
          if d =? STAR then (Many c :: fst (items re''), snd (items re'')) else (One c :: fst (items re'), snd (items re'))
      | [] => if c =? DOLLAR then ([], true) else ([One c], false)
      end
  end.

Inductive lang : list item -> list Z -> Prop :=
| lang_nil : lang [] []
| lang_one c x its l : fits c x -> lang its l -> lang (One c :: its) (x :: l)
| lang_many c its l1 l2 : Forall (fits c) l1 -> lang its l2 -> lang (Many c :: its) (l1 ++ l2).

(** A prefix of [text] is in the language, all of it if the pattern ends in "$". *)
Definition here_match (p : list item * bool) (text : list Z) : Prop :=
  exists l post, text = l ++ post /\ lang (fst p) l /\ (snd p = true -> post = []).

(** The text contains a match, at its start if the pattern begins with "^". *)
Definition pmatch (re text : list Z) : Prop :=
  match re with
  | c :: re' => if c =? CARET then here_match (items re') text
                else exists pre rest, text = pre ++ rest /\ here_match (items re) rest
  | [] => True
  end.

Lemma fitsb c x : (c =? DOT) || (c =? x) = true <-> fits c x.
Proof. unfold fits. lia. Qed.

Lemma here_nil b text : (b = true -> text = []) <-> here_match ([], b) text.
Proof.
  split.
  - intros Hb. exists [], text. split; [done|]. split; [constructor|]. auto.
  - intros (l & post & -> & Hl & Hp) Hb. inversion Hl; subst. simpl. auto.
Qed.

Lemma here_one c its b text :
  here_match (One c :: its, b) text <-> exists x text', text = x :: text' /\ fits c x /\ here_match (its, b) text'.
Proof.
  split.
  - intros (l & post & -> & Hl & Hp). inversion Hl; subst. eexists _, _. split; [done|]. split; [done|]. by eexists _, post.
  - intros (x & text' & -> & Hf & l & post & -> & Hl & Hp). exists (x :: l), post. split; [done|]. split; [by constructor|done].
Qed.

Lemma here_many c its b text :
  here_match (Many c :: its, b) text <-> exists l1 rest, text = l1 ++ rest /\ Forall (fits c) l1 /\ here_match (its, b) rest.
Proof.
  split.
  - intros (l & post & -> & Hl & Hp). inversion Hl; subst. eexists _, _. rewrite <- app_assoc. split; [done|]. split; [done|]. by eexists _, post.
  - intros (l1 & rest & -> & Hf & l & post & -> & Hl & Hp). exists (l1 ++ l), post. rewrite <- app_assoc. split; [done|].
    split; [by constructor|done].
Qed.

Lemma matchstar_spec c here (P : list Z -> Prop) text :
  (forall t, here t = true <-> P t) ->
  matchstar c here text = true <-> exists l1 rest, text = l1 ++ rest /\ Forall (fits c) l1 /\ P rest.
Proof.
  intros HP. induction text as [|x text IH]; cbn [matchstar]; destruct (here _) eqn:E.
  - split; [|done]. intros _. exists [], []. split; [done|]. split; [done|]. by apply HP.
  - split; [done|]. intros (l1 & rest & El & _ & Hr). symmetry in El. apply app_eq_nil in El as [-> ->]. apply HP in Hr. congruence.
  - split; [|done]. intros _. exists [], (x :: text). split; [done|]. split; [done|]. by apply HP.
  - assert (Ef : (x =? c) || (c =? DOT) = true <-> fits c x) by (unfold fits; lia).
    destruct ((x =? c) || (c =? DOT)).
    + rewrite IH. split.
      * intros (l1 & rest & -> & Hf & Hr). exists (x :: l1), rest. split; [done|]. split; [|done]. constructor; [by apply Ef|done].
      * intros ([|y l1] & rest & El & Hf & Hr); simpl in El.
        -- subst. apply HP in Hr. congruence.
        -- injection El as <- ->. apply Forall_cons in Hf as [_ Hf]. by exists l1, rest.
    + split; [done|]. intros ([|y l1] & rest & El & Hf & Hr); simpl in El.
      * subst. apply HP in Hr. congruence.
      * injection El as <- ->. apply Forall_cons in Hf as [Hf _]. by apply Ef in Hf.
Qed.

Lemma matchhere_spec re text : matchhere re text = true <-> here_match (items re) text.
Proof.
  remember (length re) as n eqn:En. revert re text En; induction (lt_wf n) as [n _ IH]; intros re text ->.
  assert (IH' : forall re' t, (length re' < length re)%nat -> matchhere re' t = true <-> here_match (items re') t) by (intros; by eapply IH).
  assert (Hone : forall c re', (length re' < length re)%nat ->
    match text with x :: text' => if (c =? DOT) || (c =? x) then matchhere re' text' else false | [] => false end = true <->
    here_match (One c :: fst (items re'), snd (items re')) text).
  { intros c re' Hlt. rewrite here_one. rewrite <- surjective_pairing. destruct text as [|x text'].
    - split; [done|]. by intros (? & ? & ? & _).
    - pose proof (fitsb c x) as Ef. destruct ((c =? DOT) || (c =? x)).
      + rewrite IH' by done. split; [intros; eexists _, _; split; [done|]; split; [by apply Ef|done]|].
        by intros (? & ? & [= <- <-] & _ & ?).
      + split; [done|]. intros (? & ? & [= <- <-] & Hf & _). by apply Ef in Hf. }
  destruct re as [|c [|d re]]; cbn [matchhere items].
  - rewrite <- here_nil. done.
  - destruct (c =? DOLLAR); [|apply (Hone c []); simpl; lia].
    rewrite <- here_nil. destruct text; split; done || (intros H; by specialize (H eq_refl)).
  - destruct (d =? STAR).
    + rewrite here_many, <- surjective_pairing. apply matchstar_spec. intros t. apply IH'. simpl. lia.
    + apply (Hone c (d :: re)). simpl. lia.
Qed.

Lemma match_loop_spec re text :
  match_loop re text = true <-> exists pre rest, text = pre ++ rest /\ here_match (items re) rest.
Proof.
  induction text as [|x text IH]; cbn [match_loop]; pose proof (matchhere_spec re) as Hh.
  - split.
    + destruct (matchhere re []) eqn:E; [|done]. intros _. exists [], []. split; [done|]. by apply Hh.
    + intros (pre & rest & El & Hr). symmetry in El. apply app_eq_nil in El as [-> ->]. apply Hh in Hr. by rewrite Hr.
  - destruct (matchhere re (x :: text)) eqn:E.
    + split; [|done]. intros _. exists [], (x :: text). split; [done|]. by apply Hh.
    + rewrite IH. split.
      * intros (pre & rest & -> & Hr). by exists (x :: pre), rest.
      * intros ([|y pre] & rest & El & Hr); simpl in El; [subst; apply Hh in Hr; congruence|]. injection El as <- ->. by exists pre, rest.
Qed.

(** C27: the backtracking matcher decides the language of the pattern: it
    answers true exactly when the text contains, at its start for "^" and up to
    its end for "$", a string built from the pattern's characters, dots and
    starred characters. *)
Theorem match_correct re text : match_ re text = true <-> pmatch re text.
Proof.
  destruct re as [|c re]; cbn [match_ pmatch].
  - rewrite match_loop_spec. split; [done|]. intros _. exists [], text. split; [done|]. by apply here_nil.
  - destruct (c =? CARET); [apply matchhere_spec|apply match_loop_spec].
Qed.

(** ** The lines of a file *)

(** The complete lines, and what follows the last newline. *)
Fixpoint lines (l : list Z) : list (list Z) * list Z :=
  match l with
  | [] => ([], [])
  | x :: l' =>
      let '(ls, t) := lines l' in
      if x =? NL then ([] :: ls, t) else
      match ls with [] => ([], x :: t) | y :: ls' => ((x :: y) :: ls', t) end
  end.

Definition selected (pattern : list Z) (ls : list (list Z)) : list Z :=
  flat_map (fun l => if match_ pattern l then l ++ [NL] else []) ls.

Lemma lines_none l : NL ∉ l -> lines l = ([], l).
Proof.
  induction l as [|x l IH]; intros Hl; [done|]. cbn [lines]. rewrite IH by set_solver.
  destruct (Z.eqb_spec x NL); [set_solver|done].
Qed.

Lemma lines_first l1 l2 : NL ∉ l1 -> lines (l1 ++ NL :: l2) = (l1 :: fst (lines l2), snd (lines l2)).
Proof.
  induction l1 as [|x l1 IH]; intros Hl; cbn [app lines]; [by destruct (lines l2)|].
  rewrite IH by set_solver. destruct (Z.eqb_spec x NL); [set_solver|done].
Qed.

Lemma lines_tail l : NL ∉ snd (lines l).
Proof.
  induction l as [|x l IH]; cbn [lines]; [apply not_elem_of_nil|]. destruct (lines l) as [ls t]. simpl in IH.
  destruct (Z.eqb_spec x NL); [done|]. destruct ls; [|done]. simpl. set_solver.
Qed.

Lemma lines_app l1 l2 :
  lines (l1 ++ l2) = (fst (lines l1) ++ fst (lines (snd (lines l1) ++ l2)), snd (lines (snd (lines l1) ++ l2))).
Proof.
  induction l1 as [|x l1 IH]; cbn [app]; [by destruct (lines l2) eqn:E; simpl; rewrite E|].
  cbn [lines]. rewrite IH. destruct (lines l1) as [ls t] eqn:E1. cbn [fst snd]. destruct (Z.eqb_spec x NL); [done|].
  destruct ls as [|y ls]; cbn [fst snd app]; [|done].
  cbn [lines]. destruct (lines (t ++ l2)) as [ls' t']. destruct (Z.eqb_spec x NL); [done|]. by destruct ls'.
Qed.

Lemma strchr_at_spec p :
  0 ∉ p ->
  match strchr_at p NL with
  | Some q => (q < length p)%nat /\ NL ∉ take q p /\ p = take q p ++ NL :: drop (S q) p
  | None => NL ∉ p
  end.
Proof.
  induction p as [|x p IH]; intros Hp; cbn [strchr_at]; [apply not_elem_of_nil|].
  destruct (Z.eqb_spec x 0); [set_solver|]. destruct (Z.eqb_spec x NL) as [->|].
  - simpl. split; [lia|]. split; [apply not_elem_of_nil|]. by rewrite drop_0.
  - destruct (strchr_at p NL) as [q|]; simpl.
    + destruct IH as (H1 & H2 & H3); [set_solver|]. split; [lia|]. split; [set_solver|]. by rewrite <- H3.
    + apply not_elem_of_cons. split; [congruence|]. apply IH. set_solver.
Qed.

Lemma to_nul_id l : 0 ∉ l -> to_nul l = l.
Proof.
  induction l as [|x l IH]; intros Hl; [done|]. cbn [to_nul]. destruct (Z.eqb_spec x 0); [set_solver|]. f_equal. apply IH. set_solver.
Qed.

Lemma grep_lines_spec fuel pattern p :
  0 ∉ p -> (length p <= fuel)%nat -> grep_lines fuel pattern p = (selected pattern (fst (lines p)), snd (lines p)).
Proof.
  revert p; induction fuel as [|fuel IH]; intros p Hp Hf; cbn [grep_lines].
  { destruct p; [done|simpl in Hf; lia]. }
  pose proof (strchr_at_spec p Hp) as Hs. destruct (strchr_at p NL) as [q|].
  - destruct Hs as (Hq & Hn & Ep). assert (Ht : 0 ∉ take q p) by (intros Hin; apply Hp; rewrite Ep; set_solver).
    rewrite to_nul_id by done.
    rewrite IH; [|intros Hd; apply Hp; rewrite Ep; set_solver|rewrite length_drop; lia].
    rewrite Ep at 5 6. rewrite lines_first by done. cbn [fst snd]. done.
  - by rewrite lines_none.
Qed.

(** Every line fits in the buffer. *)
Definition short (l : list Z) : Prop := (Z.of_nat (length l) < 1023).

Lemma lines_prefix buf input :
  NL ∉ buf ->
  lines (buf ++ input) =
    match lines input with ([], t) => ([], buf ++ t) | (y :: ls, t) => ((buf ++ y) :: ls, t) end.
Proof.
  induction buf as [|x buf IH]; intros Hb; cbn [app lines]; [by destruct (lines input) as [[]]|].
  rewrite IH by set_solver. destruct (Z.eqb_spec x NL); [set_solver|]. by destruct (lines input) as [[]].
Qed.

Lemma room_left buf input :
  NL ∉ buf -> Forall short (fst (lines (buf ++ input))) -> short (snd (lines (buf ++ input))) ->
  (0 < BUFSIZE - length buf - 1)%nat.
Proof.
  intros Hb Hs Ht. rewrite lines_prefix in Hs, Ht by done. unfold short, BUFSIZE in *.
  destruct (lines input) as [[|y ls] t]; simpl in Hs, Ht.
  - rewrite length_app in Ht. lia.
  - apply Forall_cons in Hs as [Hs _]. rewrite length_app in Hs. lia.
Qed.

Lemma lines_tail_sub l : snd (lines l) ⊆ l.
Proof.
  induction l as [|x l IH]; cbn [lines]; [done|]. destruct (lines l) as [ls t]. simpl in IH.
  destruct (x =? NL); [simpl; set_solver|]. destruct ls; simpl; set_solver.
Qed.

Lemma grep_loop_spec sizes fuel pattern buf input :
  0 ∉ buf ++ input -> NL ∉ buf -> (length input <= fuel)%nat ->
  Forall short (fst (lines (buf ++ input))) -> short (snd (lines (buf ++ input))) ->
  grep_loop sizes fuel pattern buf input = selected pattern (fst (lines (buf ++ input))).
Proof.
  revert sizes buf input; induction fuel as [|fuel IH]; intros sizes buf input H0 Hb Hf Hs Ht; cbn [grep_loop].
  { destruct input; [|simpl in Hf; lia]. rewrite app_nil_r, lines_none by done. done. }
  pose proof (room_left buf input Hb Hs Ht) as Hroom.
  destruct (read_count (hd 0%nat sizes) (BUFSIZE - length buf - 1) (length input)) as [|n] eqn:En; unfold read_count in En.
  { destruct input; [by rewrite app_nil_r, lines_none|]. cbn [length] in En. lia. }
  set (buf' := buf ++ take (S n) input).
  assert (E : buf ++ input = buf' ++ drop (S n) input) by (unfold buf'; by rewrite <- app_assoc, take_drop).
  rewrite E, lines_app in Hs, Ht |- *. rewrite E in H0. rewrite grep_lines_spec; [|set_solver|done]. cbn [fst snd] in *.
  apply Forall_app in Hs as [_ Hs]. rewrite IH; [..|done|done].
  - unfold selected. by rewrite flat_map_app.
  - pose proof (lines_tail_sub buf'). set_solver.
  - apply lines_tail.
  - rewrite length_drop. lia.
Qed.

(** C28: whatever sizes the reads return, grep prints the complete
    lines of its input that match, each with its newline and in order, if
    the input has no NUL byte and no line is longer than the buffer allows. *)
Theorem grep_correct sizes pattern input :
  0 ∉ input -> Forall short (fst (lines input)) -> short (snd (lines input)) ->
  grep sizes pattern input = selected pattern (fst (lines input)).
Proof. intros. unfold grep. by apply grep_loop_spec; [|apply not_elem_of_nil|..]. Qed.

Lemma grep_correct_witness :
  grep [2; 0; 5]%nat [97; STAR; 98; DOLLAR] [97; 98; NL; 99; NL; 98; 98; NL; 98]
  = [97; 98; NL; 98; 98; NL].
Proof.
  rewrite (grep_correct [2; 0; 5]%nat); [by vm_compute|..].
  - by apply (bool_decide_unpack _); vm_compute.
  - vm_compute. by repeat constructor.
  - by vm_compute.
Defined.
