(* ===== verification/Proc.v ===== *)
(** kernel/proc.c: processes, the scheduler, sleep and wakeup, fork, exit,
    wait and kill, run by several CPUs in any interleaving.

    A CPU is either in its scheduler or executes the kernel thread of a
    process, which is at a program point ([pc]).  One step is one lock
    operation, or one critical section of a process lock that contains no
    other lock operation, or one access between them.  Locks are held by CPUs
    and counted in [noff], as in spinlock.c.  What the process does outside
    this file is any sequence of system calls and of critical sections of
    other kernel objects, in which it may sleep and wake others up (a pipe, a
    sleep lock, the log); a timer interrupt may make it yield at any point
    where it holds no lock.  The outcomes of memory allocation and of copying
    to user memory are inputs of a step. *)

From stdpp Require Import functions.
From S2P Require Import Prelude Riscv.
Open Scope Z_scope.

Inductive procstate : Type := UNUSED | USED | SLEEPING | RUNNABLE | RUNNING | ZOMBIE.
#[export] Instance procstate_eq_dec : EqDecision procstate.
Proof. solve_decision. Defined.

(** A sleep channel: 0, the address of a process, that of another object. *)
Inductive chan : Type := Null | Proc (i : Z) | Obj (n : Z).
#[export] Instance chan_eq_dec : EqDecision chan.
Proof. solve_decision. Defined.

(** wait_lock, the lock of a process, that of another object. *)
Inductive lock : Type := wait_lock | ProcLock (i : Z) | ObjLock (n : Z).
#[export] Instance lock_eq_dec : EqDecision lock.
Proof. solve_decision. Defined.

(** struct proc: the fields the two kinds of locks protect.  [parent] is the
    index of the parent, [None] the null pointer. *)
Record proc : Type := mkproc {
  state : procstate;
  chn : chan;
  kld : Z;
  xstate : Z;
  pid : Z;
  parent : option Z
}.

Definition set_state (s : procstate) (p : proc) : proc := mkproc s (chn p) (kld p) (xstate p) (pid p) (parent p).
Definition set_chan (c : chan) (p : proc) : proc := mkproc (state p) c (kld p) (xstate p) (pid p) (parent p).
Definition set_killed (v : Z) (p : proc) : proc := mkproc (state p) (chn p) v (xstate p) (pid p) (parent p).
Definition set_xstate (v : Z) (p : proc) : proc := mkproc (state p) (chn p) (kld p) v (pid p) (parent p).
Definition set_pid (v : Z) (p : proc) : proc := mkproc (state p) (chn p) (kld p) (xstate p) v (parent p).
Definition set_parent (v : option Z) (p : proc) : proc := mkproc (state p) (chn p) (kld p) (xstate p) (pid p) v.

(** ** Program points *)

(** Where sleep and wakeup return to. *)
Inductive retpt : Type :=
| RBody (n : Z)                (* a critical section of object n *)
| RWait                        (* the loop of wait *)
| RReparent (st j : Z)         (* the loop of reparent, called by exit(st) *)
| RExit (st : Z).              (* exit(st), after waking the parent *)

Inductive sleep_pc : Type := S_acquire | S_release | S_switch | S_tidy | S_relock.
Inductive exit_pc : Type :=
  X_wait_lock | X_reparent (j : Z) | X_wakeup | X_lock | X_zombie | X_unwait | X_sched | X_dead.
Inductive wait_pc : Type := W_lock | W_scan (j : Z) (havekids : bool) | W_killed | W_unlock (ret : Z).
Inductive fork_pc : Type :=
  F_scan (j : Z) | F_test (j : Z) | F_mem (j : Z) | F_release (j : Z)
| F_parent (j pid : Z) | F_set (j pid : Z) | F_run (j pid : Z).
Inductive yield_pc : Type := Y_lock | Y_switch | Y_release.

(** [PUser a0]: outside the kernel, the last system call returned [a0]. *)
Inductive pc : Type :=
| PUser (a0 : Z)
| PForkret
| PLock (n : Z)
| PBody (n : Z)
| PSleep (ch : chan) (r : retpt) (s : sleep_pc)
| PWakeup (ch : chan) (j : Z) (r : retpt)
| PExit (st : Z) (x : exit_pc)
| PWait (w : wait_pc)
| PFork (f : fork_pc)
| PKill (pid j : Z)
| PYield (y : yield_pc) (saved : pc).

(** A CPU in its scheduler loop at process j (about to lock it, having locked
    it, switched back from it), or in the kernel thread of process i. *)
Inductive ctx : Type := Scan (j : Z) | Test (j : Z) | Back (j : Z) | In (i : Z).

#[export] Instance ctx_eq_dec : EqDecision ctx.
Proof. solve_decision. Defined.

Record cpu : Type := mkcpu { cproc : option Z; noff : Z; cx : ctx }.

Record kst : Type := mkk {
  procs : Z -> proc;
  pcs : Z -> pc;
  locks : lock -> option Z;
  cpus : Z -> cpu;
  nextpid : Z;
  initproc : Z
}.

Definition set_procs (f : (Z -> proc) -> Z -> proc) (k : kst) : kst :=
  mkk (f (procs k)) (pcs k) (locks k) (cpus k) (nextpid k) (initproc k).
Definition set_pcs (f : (Z -> pc) -> Z -> pc) (k : kst) : kst :=
  mkk (procs k) (f (pcs k)) (locks k) (cpus k) (nextpid k) (initproc k).
Definition set_locks (f : (lock -> option Z) -> lock -> option Z) (k : kst) : kst :=
  mkk (procs k) (pcs k) (f (locks k)) (cpus k) (nextpid k) (initproc k).
Definition set_cpus (f : (Z -> cpu) -> Z -> cpu) (k : kst) : kst :=
  mkk (procs k) (pcs k) (locks k) (f (cpus k)) (nextpid k) (initproc k).
Definition set_nextpid (v : Z) (k : kst) : kst :=
  mkk (procs k) (pcs k) (locks k) (cpus k) v (initproc k).

Definition put_proc (i : Z) (f : proc -> proc) : M kst unit :=
  modify (set_procs (fun g => <[i := f (g i)]> g)).
Definition get_proc (i : Z) : M kst proc := gets (fun k => procs k i).
Definition goto (i : Z) (p : pc) : M kst unit := modify (set_pcs (fun g => <[i := p]> g)).
Definition put_cpu (c : Z) (f : cpu -> cpu) : M kst unit := modify (set_cpus (fun g => <[c := f (g c)]> g)).
Definition set_ctx (x : ctx) (p : cpu) : cpu := mkcpu (cproc p) (noff p) x.
Definition set_cproc (v : option Z) (p : cpu) : cpu := mkcpu v (noff p) (cx p).
Definition add_noff (d : Z) (p : cpu) : cpu := mkcpu (cproc p) (noff p + d) (cx p).

(** acquire and release of spinlock.c, by CPU c. *)
Definition acquire (c : Z) (l : lock) : M kst unit :=
  o <- gets (fun k => locks k l) ;;
  match o with
  | Some c' => if c' =? c then panic "acquire" else stuck "spinning"
  | None => modify (set_locks (fun g => <[l := Some c]> g)) ;; put_cpu c (add_noff 1)
  end.

Definition release (c : Z) (l : lock) : M kst unit :=
  o <- gets (fun k => locks k l) ;;
  if decide (o = Some c)
  then modify (set_locks (fun g => <[l := None]> g)) ;; put_cpu c (add_noff (-1))
  else panic "release".

(** ** The operations, one step at a time *)

(** The inputs of a step: the system call the program makes, what it does in
    a critical section, a timer interrupt, a failing allocation or copy. *)
Inductive input : Type :=
| IFork | IExit (st : Z) | IWait | IKill (pid : Z) | ILock (n : Z)
| ISleep (ch : Z) | IWakeup (ch : Z) | IPreempt | IFail | IGo.
#[export] Instance input_eq_dec : EqDecision input.
Proof. solve_decision. Defined.

(** sched, called by the thread of process i on CPU c; the thread continues
    at [next] when the scheduler switches to it again. *)
Definition sched (c i : Z) (next : pc) : M kst unit :=
  o <- gets (fun k => locks k (ProcLock i)) ;;
  n <- gets (fun k => noff (cpus k c)) ;;
  p <- get_proc i ;;
  if negb (bool_decide (o = Some c)) then panic "sched p->lock" else
  if negb (n =? 1) then panic "sched locks" else
  if bool_decide (state p = RUNNING) then panic "sched running" else
  goto i next ;; put_cpu c (set_ctx (Back i)).

Definition yield (c i : Z) (saved : pc) (y : yield_pc) : M kst unit :=
  match y with
  | Y_lock => acquire c (ProcLock i) ;; goto i (PYield Y_switch saved)
  | Y_switch => put_proc i (set_state RUNNABLE) ;; sched c i (PYield Y_release saved)
  | Y_release => release c (ProcLock i) ;; goto i saved
  end.

Definition forkret (c i : Z) : M kst unit := release c (ProcLock i) ;; goto i (PUser 0).

(** The lock held around a sleep or a wakeup that returns to [r]. *)
Definition ret_lock (r : retpt) : lock := match r with RBody n => ObjLock n | _ => wait_lock end.

Definition return_to (i : Z) (r : retpt) : M kst unit :=
  match r with
  | RBody n => goto i (PBody n)
  | RWait => goto i (PWait (W_scan 0 false))
  | RReparent st j => goto i (PExit st (X_reparent j))
  | RExit st => goto i (PExit st X_lock)
  end.

Definition sleep (c i : Z) (ch : chan) (lk : lock) (r : retpt) (s : sleep_pc) : M kst unit :=
  match s with
  | S_acquire => acquire c (ProcLock i) ;; goto i (PSleep ch r S_release)
  | S_release => release c lk ;; goto i (PSleep ch r S_switch)
  | S_switch =>
      put_proc i (fun p => set_state SLEEPING (set_chan ch p)) ;;
      sched c i (PSleep ch r S_tidy)
  | S_tidy => put_proc i (set_chan Null) ;; release c (ProcLock i) ;; goto i (PSleep ch r S_relock)
  | S_relock => acquire c lk ;; return_to i r
  end.

Definition wakeup (c i : Z) (ch : chan) (j : Z) (r : retpt) : M kst unit :=
  if NPROC <=? j then return_to i r else
  if j =? i then goto i (PWakeup ch (j + 1) r) else
  acquire c (ProcLock j) ;;
  put_proc j (fun p => if bool_decide (state p = SLEEPING) && bool_decide (chn p = ch) then set_state RUNNABLE p else p) ;;
  release c (ProcLock j) ;;
  goto i (PWakeup ch (j + 1) r).

(** freeproc without the memory of the process. *)
Definition freeproc (j : Z) : M kst unit := put_proc j (fun _ => mkproc UNUSED Null 0 0 0 None).

Definition allocpid : M kst Z :=
  n <- gets nextpid ;;
  (if n =? 2147483647 then stuck "int overflow" else modify (set_nextpid (n + 1))) ;;
  ret n.

(** allocproc: the scan for an unused process, which stays locked. *)
Definition allocproc (c i : Z) (f : fork_pc) : M kst unit :=
  match f with
  | F_scan j =>
      if NPROC <=? j then goto i (PUser (-1)) else
      acquire c (ProcLock j) ;; goto i (PFork (F_test j))
  | F_test j =>
      p <- get_proc j ;;
      if bool_decide (state p = UNUSED) then
        n <- allocpid ;;
        put_proc j (fun p => set_state USED (set_pid n p)) ;;
        goto i (PFork (F_mem j))
      else release c (ProcLock j) ;; goto i (PFork (F_scan (j + 1)))
  | _ => stuck "not in allocproc"
  end.

Definition fork (x : input) (c i : Z) (f : fork_pc) : M kst unit :=
  match f with
  | F_scan _ | F_test _ => allocproc c i f
  | F_mem j =>
      match x with
      | IFail => freeproc j ;; release c (ProcLock j) ;; goto i (PUser (-1))
      | _ => goto j PForkret ;; goto i (PFork (F_release j))
      end
  | F_release j => p <- get_proc j ;; release c (ProcLock j) ;; goto i (PFork (F_parent j (pid p)))
  | F_parent j n => acquire c wait_lock ;; goto i (PFork (F_set j n))
  | F_set j n => put_proc j (set_parent (Some i)) ;; release c wait_lock ;; goto i (PFork (F_run j n))
  | F_run j n =>
      acquire c (ProcLock j) ;; put_proc j (set_state RUNNABLE) ;; release c (ProcLock j) ;;
      goto i (PUser n)
  end.

(** The channel wakeup(p->parent) wakes up. *)
Definition parent_chan (o : option Z) : chan := match o with Some q => Proc q | None => Null end.

(** The loop of reparent, at slot j, called by exit(st) of process i. *)
Definition reparent (i st j : Z) : M kst unit :=
  if NPROC <=? j then goto i (PExit st X_wakeup) else
  pp <- get_proc j ;; ip <- gets initproc ;;
  if bool_decide (parent pp = Some i)
  then put_proc j (set_parent (Some ip)) ;; goto i (PWakeup (Proc ip) 0 (RReparent st (j + 1)))
  else goto i (PExit st (X_reparent (j + 1))).

(** exit, from the point where the files of the process are closed. *)
Definition exit (c i st : Z) (x : exit_pc) : M kst unit :=
  match x with
  | X_wait_lock => acquire c wait_lock ;; goto i (PExit st (X_reparent 0))
  | X_reparent j => reparent i st j
  | X_wakeup => p <- get_proc i ;; goto i (PWakeup (parent_chan (parent p)) 0 (RExit st))
  | X_lock => acquire c (ProcLock i) ;; goto i (PExit st X_zombie)
  | X_zombie =>
      put_proc i (fun p => set_state ZOMBIE (set_xstate st p)) ;; goto i (PExit st X_unwait)
  | X_unwait => release c wait_lock ;; goto i (PExit st X_sched)
  | X_sched => sched c i (PExit st X_dead)
  | X_dead => panic "zombie exit"
  end.

Definition killed (c i : Z) : M kst Z :=
  acquire c (ProcLock i) ;; p <- get_proc i ;; release c (ProcLock i) ;; ret (kld p).

Definition wait (x : input) (c i : Z) (w : wait_pc) : M kst unit :=
  match w with
  | W_lock => acquire c wait_lock ;; goto i (PWait (W_scan 0 false))
  | W_scan j havekids =>
      if NPROC <=? j then goto i (PWait (if havekids then W_killed else W_unlock (-1))) else
      pp <- get_proc j ;;
      if bool_decide (parent pp = Some i) then
        acquire c (ProcLock j) ;; pp <- get_proc j ;;
        if bool_decide (state pp = ZOMBIE) then
          match x with
          | IFail => release c (ProcLock j) ;; goto i (PWait (W_unlock (-1)))
          | _ => freeproc j ;; release c (ProcLock j) ;; goto i (PWait (W_unlock (pid pp)))
          end
        else release c (ProcLock j) ;; goto i (PWait (W_scan (j + 1) true))
      else goto i (PWait (W_scan (j + 1) havekids))
  | W_killed =>
      v <- killed c i ;;
      goto i (if v =? 0 then PSleep (Proc i) RWait S_acquire else PWait (W_unlock (-1)))
  | W_unlock v => release c wait_lock ;; goto i (PUser v)
  end.

Definition kill (c i n j : Z) : M kst unit :=
  if NPROC <=? j then goto i (PUser (-1)) else
  acquire c (ProcLock j) ;;
  p <- get_proc j ;;
  if pid p =? n then
    put_proc j (fun p => set_killed 1 (if bool_decide (state p = SLEEPING) then set_state RUNNABLE p else p)) ;;
    release c (ProcLock j) ;; goto i (PUser 0)
  else release c (ProcLock j) ;; goto i (PKill n (j + 1)).

(** What a process may do next: any system call; in a critical section of
    another object, sleep, wake up or leave it. *)
Definition user (x : input) (i : Z) : M kst unit :=
  match x with
  | IFork => goto i (PFork (F_scan 0))
  | IExit st => ip <- gets initproc ;; if i =? ip then panic "init exiting" else goto i (PExit st X_wait_lock)
  | IWait => goto i (PWait W_lock)
  | IKill n => goto i (PKill n 0)
  | ILock n => goto i (PLock n)
  | _ => goto i (PUser 0)
  end.

Definition body (x : input) (c i n : Z) : M kst unit :=
  match x with
  | ISleep ch => goto i (PSleep (Obj ch) (RBody n) S_acquire)
  | IWakeup ch => goto i (PWakeup (Obj ch) 0 (RBody n))
  | _ => release c (ObjLock n) ;; goto i (PUser 0)
  end.

Definition yielding (p : pc) : bool := match p with PYield _ _ => true | _ => false end.

(** One step of the kernel thread of process i on CPU c. *)
Definition thread (x : input) (c i : Z) : M kst unit :=
  p <- gets (fun k => pcs k i) ;;
  n <- gets (fun k => noff (cpus k c)) ;;
  match x with
  | IPreempt => if (n =? 0) && negb (yielding p) then goto i (PYield Y_lock p) else stuck "interrupts are off"
  | _ =>
  match p with
  | PUser _ => user x i
  | PForkret => forkret c i
  | PLock m => acquire c (ObjLock m) ;; goto i (PBody m)
  | PBody m => body x c i m
  | PSleep ch r s => sleep c i ch (ret_lock r) r s
  | PWakeup ch j r => wakeup c i ch j r
  | PExit st e => exit c i st e
  | PWait w => wait x c i w
  | PFork f => fork x c i f
  | PKill m j => kill c i m j
  | PYield y saved => yield c i saved y
  end
  end.

Definition next_slot (j : Z) : Z := if j + 1 <? NPROC then j + 1 else 0.

(** One step of CPU c: of its scheduler or of the thread it runs. *)
Definition scheduler (x : input) (c : Z) : M kst unit :=
  cp <- gets (fun k => cpus k c) ;;
  match cx cp with
  | Scan j => acquire c (ProcLock j) ;; put_cpu c (set_ctx (Test j))
  | Test j =>
      p <- get_proc j ;;
      if bool_decide (state p = RUNNABLE) then
        put_proc j (set_state RUNNING) ;; put_cpu c (fun p => set_ctx (In j) (set_cproc (Some j) p))
      else release c (ProcLock j) ;; put_cpu c (set_ctx (Scan (next_slot j)))
  | Back j =>
      put_cpu c (set_cproc None) ;; release c (ProcLock j) ;; put_cpu c (set_ctx (Scan (next_slot j)))
  | In i => thread x c i
  end.

(** procinit and userinit: the first process is runnable, the others unused. *)
Definition procinit : Z -> proc := fun _ => mkproc UNUSED Null 0 0 0 None.
Definition userinit : kst :=
  mkk (<[0 := mkproc RUNNABLE Null 0 0 1 None]> procinit) (fun _ => PForkret) (fun _ => None)
      (fun _ => mkcpu None 0 (Scan 0)) 2 0.

Inductive step : kst -> kst -> Prop :=
| step_cpu x c k k' : 0 <= c < NCPU -> scheduler x c k = Ret tt k' -> step k k'.
