(* ===== verification/ProcInv.v ===== *)
(** The steps of kernel/proc.c by their effect, and what a thread at each
    program point relies on. *)

From stdpp Require Import functions.
From S2P Require Import Prelude Riscv Proc.
Open Scope Z_scope.

Implicit Types (k : kst) (c i j e q : Z) (l : lock) (p : pc).

(** ** Elementary effects *)
Definition mv i p k : kst := set_pcs (fun g => <[i := p]> g) k.
Definition pr j (f : proc -> proc) k : kst := set_procs (fun g => <[j := f (g j)]> g) k.
Definition cp c (f : cpu -> cpu) k : kst := set_cpus (fun g => <[c := f (g c)]> g) k.
Definition acq c l k : kst := cp c (add_noff 1) (set_locks (fun g => <[l := Some c]> g) k).
Definition rel c l k : kst := cp c (add_noff (-1)) (set_locks (fun g => <[l := None]> g) k).

Lemma ins_case {A B} `{EqDecision A} (f : A -> B) a b a' : <[a := b]> f a' = if decide (a = a') then b else f a'.
Proof. done. Qed.

(** Where [return_to] goes. *)
Definition ret_pc (r : retpt) : pc :=
  match r with
  | RBody n => PBody n
  | RWait => PWait (W_scan 0 false)
  | RReparent st j => PExit st (X_reparent j)
  | RExit st => PExit st X_lock
  end.

(** Steps that change the program point only. *)
Inductive moves k i : pc -> pc -> Prop :=
| m_stay a : moves k i (PUser a) (PUser 0)
| m_fork a : moves k i (PUser a) (PFork (F_scan 0))
| m_exit a st : i <> initproc k -> moves k i (PUser a) (PExit st X_wait_lock)
| m_wait a : moves k i (PUser a) (PWait W_lock)
| m_kill a n : moves k i (PUser a) (PKill n 0)
| m_lock a n : moves k i (PUser a) (PLock n)
| m_sleep n ch : moves k i (PBody n) (PSleep (Obj ch) (RBody n) S_acquire)
| m_wakeup n ch : moves k i (PBody n) (PWakeup (Obj ch) 0 (RBody n))
| m_woke ch j r : NPROC <= j -> moves k i (PWakeup ch j r) (ret_pc r)
| m_self ch r : i < NPROC -> moves k i (PWakeup ch i r) (PWakeup ch (i + 1) r)
| m_full j : moves k i (PFork (F_scan j)) (PUser (-1))
| m_reparented st j : NPROC <= j -> moves k i (PExit st (X_reparent j)) (PExit st X_wakeup)
| m_nochild st j : parent (procs k j) <> Some i -> moves k i (PExit st (X_reparent j)) (PExit st (X_reparent (j + 1)))
| m_parent st : moves k i (PExit st X_wakeup) (PWakeup (parent_chan (parent (procs k i))) 0 (RExit st))
| m_nokids j : moves k i (PWait (W_scan j false)) (PWait (W_unlock (-1)))
| m_kids j : NPROC <= j -> moves k i (PWait (W_scan j true)) (PWait W_killed)
| m_nokid j b : parent (procs k j) <> Some i -> moves k i (PWait (W_scan j b)) (PWait (W_scan (j + 1) b))
| m_nopid n j : moves k i (PKill n j) (PUser (-1))
| m_preempt p : yielding p = false -> moves k i p (PYield Y_lock p).

(** Steps that take a lock. *)
Inductive takes i : pc -> lock -> pc -> Prop :=
| a_lock n : takes i (PLock n) (ObjLock n) (PBody n)
| a_sleep ch r : takes i (PSleep ch r S_acquire) (ProcLock i) (PSleep ch r S_release)
| a_relock ch r : takes i (PSleep ch r S_relock) (ret_lock r) (ret_pc r)
| a_scan j : j < NPROC -> takes i (PFork (F_scan j)) (ProcLock j) (PFork (F_test j))
| a_parent j n : takes i (PFork (F_parent j n)) wait_lock (PFork (F_set j n))
| a_exit st : takes i (PExit st X_wait_lock) wait_lock (PExit st (X_reparent 0))
| a_self st : takes i (PExit st X_lock) (ProcLock i) (PExit st X_zombie)
| a_wait : takes i (PWait W_lock) wait_lock (PWait (W_scan 0 false))
| a_yield p : takes i (PYield Y_lock p) (ProcLock i) (PYield Y_switch p).

(** Steps that give one up. *)
Inductive gives k i : pc -> lock -> pc -> Prop :=
| r_forkret : gives k i PForkret (ProcLock i) (PUser 0)
| r_body n : gives k i (PBody n) (ObjLock n) (PUser 0)
| r_sleep ch r : gives k i (PSleep ch r S_release) (ret_lock r) (PSleep ch r S_switch)
| r_used j : state (procs k j) <> UNUSED -> gives k i (PFork (F_test j)) (ProcLock j) (PFork (F_scan (j + 1)))
| r_fork j : gives k i (PFork (F_release j)) (ProcLock j) (PFork (F_parent j (pid (procs k j))))
| r_exit st : gives k i (PExit st X_unwait) wait_lock (PExit st X_sched)
| r_wait v : gives k i (PWait (W_unlock v)) wait_lock (PUser v)
| r_yield p : gives k i (PYield Y_release p) (ProcLock i) p.

Definition wake_if (ch : chan) (x : proc) : proc :=
  if bool_decide (state x = SLEEPING) && bool_decide (chn x = ch) then set_state RUNNABLE x else x.
Definition kill_it (x : proc) : proc :=
  set_killed 1 (if bool_decide (state x = SLEEPING) then set_state RUNNABLE x else x).
Definition free_it (_ : proc) : proc := mkproc UNUSED Null 0 0 0 None.

(** Critical sections of the lock of process j that change it, and that do not. *)
Inductive section k i : pc -> Z -> (proc -> proc) -> pc -> Prop :=
| s_wakeup ch j r : j <> i -> j < NPROC -> section k i (PWakeup ch j r) j (wake_if ch) (PWakeup ch (j + 1) r)
| s_kill n j : section k i (PKill n j) j kill_it (PUser 0)
| s_run j n : section k i (PFork (F_run j n)) j (set_state RUNNABLE) (PUser n)
| s_reap j b : parent (procs k j) = Some i -> state (procs k j) = ZOMBIE ->
    section k i (PWait (W_scan j b)) j free_it (PWait (W_unlock (pid (procs k j)))).

Inductive passes k i : pc -> Z -> pc -> Prop :=
| s_next n j : passes k i (PKill n j) j (PKill n (j + 1))
| s_alive j b : state (procs k j) <> ZOMBIE -> passes k i (PWait (W_scan j b)) j (PWait (W_scan (j + 1) true))
| s_efault j b : passes k i (PWait (W_scan j b)) j (PWait (W_unlock (-1)))
| s_killed : passes k i (PWait W_killed) i (PWait (W_unlock (-1)))
| s_live : passes k i (PWait W_killed) i (PSleep (Proc i) RWait S_acquire).

(** Steps into the scheduler. *)
Inductive switches i : pc -> (proc -> proc) -> pc -> Prop :=
| w_yield p : switches i (PYield Y_switch p) (set_state RUNNABLE) (PYield Y_release p)
| w_sleep ch r : switches i (PSleep ch r S_switch) (fun x => set_state SLEEPING (set_chan ch x)) (PSleep ch r S_tidy).

Inductive act c k : kst -> Prop :=
| A_scan j : cx (cpus k c) = Scan j -> locks k (ProcLock j) = None ->
    act c k (cp c (set_ctx (Test j)) (acq c (ProcLock j) k))
| A_run j : cx (cpus k c) = Test j -> state (procs k j) = RUNNABLE ->
    act c k (cp c (fun x => set_ctx (In j) (set_cproc (Some j) x)) (pr j (set_state RUNNING) k))
| A_skip j j' : cx (cpus k c) = Test j -> locks k (ProcLock j) = Some c ->
    act c k (cp c (set_ctx (Scan j')) (rel c (ProcLock j) k))
| A_back j j' : cx (cpus k c) = Back j -> locks k (ProcLock j) = Some c ->
    act c k (cp c (set_ctx (Scan j')) (rel c (ProcLock j) (cp c (set_cproc None) k)))
| A_move i p' : cx (cpus k c) = In i -> moves k i (pcs k i) p' ->
    (yielding p' = true -> noff (cpus k c) = 0) -> act c k (mv i p' k)
| A_take i l p' : cx (cpus k c) = In i -> takes i (pcs k i) l p' -> locks k l = None ->
    act c k (mv i p' (acq c l k))
| A_give i l p' : cx (cpus k c) = In i -> gives k i (pcs k i) l p' -> locks k l = Some c ->
    act c k (mv i p' (rel c l k))
| A_section i j f p' : cx (cpus k c) = In i -> section k i (pcs k i) j f p' -> locks k (ProcLock j) = None ->
    act c k (mv i p' (rel c (ProcLock j) (pr j f (acq c (ProcLock j) k))))
| A_pass i j p' : cx (cpus k c) = In i -> passes k i (pcs k i) j p' -> locks k (ProcLock j) = None ->
    act c k (mv i p' (rel c (ProcLock j) (acq c (ProcLock j) k)))
| A_switch i f p' : cx (cpus k c) = In i -> switches i (pcs k i) f p' ->
    act c k (cp c (set_ctx (Back i)) (mv i p' (pr i f k)))
| A_dead i st : cx (cpus k c) = In i -> pcs k i = PExit st X_sched ->
    act c k (cp c (set_ctx (Back i)) (mv i (PExit st X_dead) k))
| A_tidy i ch r : cx (cpus k c) = In i -> pcs k i = PSleep ch r S_tidy -> locks k (ProcLock i) = Some c ->
    act c k (mv i (PSleep ch r S_relock) (rel c (ProcLock i) (pr i (set_chan Null) k)))
| A_alloc i j : cx (cpus k c) = In i -> pcs k i = PFork (F_test j) -> state (procs k j) = UNUSED ->
    act c k (mv i (PFork (F_mem j)) (pr j (fun x => set_state USED (set_pid (nextpid k) x)) (set_nextpid (nextpid k + 1) k)))
| A_nomem i j : cx (cpus k c) = In i -> pcs k i = PFork (F_mem j) -> locks k (ProcLock j) = Some c ->
    act c k (mv i (PUser (-1)) (rel c (ProcLock j) (pr j free_it k)))
| A_mem i j : cx (cpus k c) = In i -> pcs k i = PFork (F_mem j) ->
    act c k (mv i (PFork (F_release j)) (mv j PForkret k))
| A_parent i j n : cx (cpus k c) = In i -> pcs k i = PFork (F_set j n) -> locks k wait_lock = Some c ->
    act c k (mv i (PFork (F_run j n)) (rel c wait_lock (pr j (set_parent (Some i)) k)))
| A_reparent i st j : cx (cpus k c) = In i -> pcs k i = PExit st (X_reparent j) -> j < NPROC ->
    parent (procs k j) = Some i ->
    act c k (mv i (PWakeup (Proc (initproc k)) 0 (RReparent st (j + 1))) (pr j (set_parent (Some (initproc k))) k))
| A_zombie i st : cx (cpus k c) = In i -> pcs k i = PExit st X_zombie ->
    act c k (mv i (PExit st X_unwait) (pr i (fun x => set_state ZOMBIE (set_xstate st x)) k)).

Lemma acquire_inv c l k u k' : acquire c l k = Ret u k' -> locks k l = None /\ k' = acq c l k.
Proof.
  unfold acquire, bind, gets, panic, stuck. destruct (locks k l) as [c'|]; [by destruct (c' =? c)|]. by intros [= _ <-].
Qed.

Lemma release_inv c l k u k' : release c l k = Ret u k' -> locks k l = Some c /\ k' = rel c l k.
Proof. unfold release, bind, gets, panic. case_decide; [|done]. by intros [= _ <-]. Qed.

Lemma sched_inv c i p k u k' : sched c i p k = Ret u k' -> k' = cp c (set_ctx (Back i)) (mv i p k).
Proof.
  unfold sched, bind, gets, get_proc, panic. repeat (case_bool_decide || case_match; simpl; try done). all: by intros [= _ <-].
Qed.

Lemma return_to_inv i r k u k' : return_to i r k = Ret u k' -> k' = mv i (ret_pc r) k.
Proof. destruct r; by intros [= _ <-]. Qed.

Lemma ret_eq {A} (a b : A) k k' : Ret a k = Ret b k' -> k = k'.
Proof. by intros [=]. Qed.

(** Inversion of a step that was taken. *)
Ltac tinv :=
  repeat match goal with
  | H : bind _ _ _ = Ret _ _ |- _ => apply bind_inv in H; destruct H as (? & ? & ? & H)
  | H : acquire _ _ _ = Ret _ _ |- _ => apply acquire_inv in H as [? ->]
  | H : release _ _ _ = Ret _ _ |- _ => apply release_inv in H as [? ->]
  | H : sched _ _ _ _ = Ret _ _ |- _ => apply sched_inv in H as ->
  | H : return_to _ _ _ = Ret _ _ |- _ => apply return_to_inv in H as ->
  | H : goto ?i ?p ?k = Ret _ _ |- _ => apply (ret_eq tt _ (mv i p k)) in H as <-
  | H : put_proc ?i ?f ?k = Ret _ _ |- _ => apply (ret_eq tt _ (pr i f k)) in H as <-
  | H : put_cpu ?i ?f ?k = Ret _ _ |- _ => apply (ret_eq tt _ (cp i f k)) in H as <-
  | H : freeproc ?i ?k = Ret _ _ |- _ => apply (ret_eq tt _ (pr i free_it k)) in H as <-
  | H : modify ?f ?k = Ret _ _ |- _ => apply (ret_eq tt _ (f k)) in H as <-
  | H : get_proc _ _ = Ret _ _ |- _ => injection H as <- <-
  | H : gets _ _ = Ret _ _ |- _ => injection H as <- <-
  | H : ret _ _ = Ret _ _ |- _ => apply ret_inv in H as [<- <-]
  | H : panic _ _ = Ret _ _ |- _ => discriminate H
  | H : stuck _ _ = Ret _ _ |- _ => discriminate H
  | H : (if bool_decide _ then _ else _) _ = Ret _ _ |- _ => case_bool_decide
  | H : (if ?a <=? ?b then _ else _) _ = Ret _ _ |- _ => destruct (Z.leb_spec a b)
  | H : (if ?a =? ?b then _ else _) _ = Ret _ _ |- _ => destruct (Z.eqb_spec a b)
  end.

Section thread_act.
Context (c : Z) (i : Z) (k : kst) (Ec : cx (cpus k c) = In i).

Lemma sleep_act ch r s k' :
  pcs k i = PSleep ch r s -> sleep c i ch (ret_lock r) r s k = Ret tt k' -> act c k k'.
Proof.
  intros Ep H. destruct s; simpl in H; tinv.
  - apply A_take; [done| |done]. rewrite Ep. constructor.
  - apply A_give; [done| |done]. rewrite Ep. constructor.
  - apply (A_switch c k i); [done|]. rewrite Ep. constructor.
  - by apply (A_tidy c k i ch r).
  - apply A_take; [done| |done]. rewrite Ep. constructor.
Qed.

Lemma wakeup_act ch j r k' :
  pcs k i = PWakeup ch j r -> wakeup c i ch j r k = Ret tt k' -> act c k k'.
Proof.
  intros Ep H. unfold wakeup in H. tinv.
  - apply A_move; [done|rewrite Ep; by constructor|by destruct r].
  - subst j. apply A_move; [done|rewrite Ep; by constructor|done].
  - apply (A_section c k i j (wake_if ch)); [done|rewrite Ep; by constructor|done].
Qed.

Lemma exit_act st x k' : pcs k i = PExit st x -> exit c i st x k = Ret tt k' -> act c k k'.
Proof.
  intros Ep H. destruct x; simpl in H; unfold reparent in H; tinv.
  - apply A_take; [done| |done]. rewrite Ep. constructor.
  - apply A_move; [done|rewrite Ep; by constructor|done].
  - by apply (A_reparent c k i st j).
  - apply A_move; [done|rewrite Ep; by constructor|done].
  - apply A_move; [done|rewrite Ep; by constructor|done].
  - apply A_take; [done| |done]. rewrite Ep. constructor.
  - by apply (A_zombie c k i st).
  - apply A_give; [done| |done]. rewrite Ep. constructor.
  - by apply (A_dead c k i st).
Qed.

Lemma wait_act x w k' : pcs k i = PWait w -> wait x c i w k = Ret tt k' -> act c k k'.
Proof.
  intros Ep H. destruct w as [|j b| |v]; simpl in H; unfold killed in H; tinv.
  - apply A_take; [done| |done]. rewrite Ep. constructor.
  - destruct b; (apply A_move; [done|rewrite Ep; by constructor|done]).
  - destruct x; tinv.
    all: first [by apply (A_pass c k i j); [|rewrite Ep; constructor|]
               |by apply (A_section c k i j free_it); [|rewrite Ep; constructor|]].
  - apply (A_pass c k i j); [done|rewrite Ep; by constructor|done].
  - apply A_move; [done|rewrite Ep; by constructor|done].
  - destruct (_ =? _); (apply (A_pass c k i i); [done|rewrite Ep; by constructor|done]).
  - apply A_give; [done| |done]. rewrite Ep. constructor.
Qed.

Lemma fork_act x f k' : pcs k i = PFork f -> fork x c i f k = Ret tt k' -> act c k k'.
Proof.
  intros Ep H. destruct f; simpl in H; unfold allocpid in H; tinv.
  - apply A_move; [done|rewrite Ep; by constructor|done].
  - apply A_take; [done| |done]. rewrite Ep. by constructor.
  - by apply (A_alloc c k i).
  - apply A_give; [done| |done]. rewrite Ep. by constructor.
  - destruct x; tinv. all: first [by apply (A_mem c k i)|by apply (A_nomem c k i)].
  - apply A_give; [done| |done]. rewrite Ep. by constructor.
  - apply A_take; [done| |done]. rewrite Ep. by constructor.
  - by apply (A_parent c k i).
  - apply (A_section c k i j (set_state RUNNABLE)); [done|rewrite Ep; by constructor|done].
Qed.

Lemma kill_act n j k' : pcs k i = PKill n j -> kill c i n j k = Ret tt k' -> act c k k'.
Proof.
  intros Ep H. unfold kill in H. tinv.
  - apply A_move; [done|rewrite Ep; by constructor|done].
  - apply (A_section c k i j kill_it); [done|rewrite Ep; by constructor|done].
  - apply (A_pass c k i j); [done|rewrite Ep; by constructor|done].
Qed.

Lemma yield_act p y k' : pcs k i = PYield y p -> yield c i p y k = Ret tt k' -> act c k k'.
Proof.
  intros Ep H. destruct y; simpl in H; tinv.
  - apply A_take; [done| |done]. rewrite Ep. constructor.
  - apply (A_switch c k i); [done|]. rewrite Ep. constructor.
  - apply A_give; [done| |done]. rewrite Ep. constructor.
Qed.

Lemma user_act x a k' : pcs k i = PUser a -> user x i k = Ret tt k' -> act c k k'.
Proof.
  intros Ep H. destruct x; simpl in H; tinv.
  all: apply A_move; [done|rewrite Ep; by constructor|done].
Qed.

Lemma body_act x n k' : pcs k i = PBody n -> body x c i n k = Ret tt k' -> act c k k'.
Proof.
  intros Ep H. destruct x; simpl in H; tinv.
  all: first [by apply A_give; [|rewrite Ep; constructor|]|by apply A_move; [|rewrite Ep; constructor|]].
Qed.

Lemma thread_act x k' : thread x c i k = Ret tt k' -> act c k k'.
Proof.
  unfold thread, bind, gets. destruct (decide (x = IPreempt)) as [->|Hx].
  { destruct (noff (cpus k c) =? 0) eqn:En; [|done]. destruct (yielding (pcs k i)) eqn:Ey; [done|]. intros H; simpl in H; tinv.
    apply A_move; [done|by constructor|lia]. }
  intros H.
  assert (H' : match pcs k i with
    | PUser _ => user x i
    | PForkret => forkret c i
    | PLock m => acquire c (ObjLock m) ;; goto i (PBody m)
    | PBody m => body x c i m
    | PSleep ch r s => sleep c i ch (ret_lock r) r s
    | PWakeup ch j r => wakeup c i ch j r
    | PExit st e => exit c i st e
    | PWait w => wait x c i w
    | PFork f => fork x c i f
    | PKill m j => kill c i m j
    | PYield y saved => yield c i saved y
    end k = Ret tt k') by (by destruct x).
  clear H. destruct (pcs k i) eqn:Ep.
  - by eapply user_act.
  - unfold forkret in H'. tinv. apply A_give; [done| |done]. rewrite Ep. constructor.
  - tinv. apply A_take; [done| |done]. rewrite Ep. constructor.
  - by eapply body_act.
  - by eapply sleep_act.
  - by eapply wakeup_act.
  - by eapply exit_act.
  - by eapply wait_act.
  - by eapply fork_act.
  - by eapply kill_act.
  - by eapply yield_act.
Qed.
End thread_act.

Lemma scheduler_act x c k k' : scheduler x c k = Ret tt k' -> act c k k'.
Proof.
  intros H. unfold scheduler in H. apply bind_inv in H as (cp0 & k0 & E & H). injection E as <- <-.
  destruct (cx (cpus k c)) as [j|j|j|i] eqn:Ec; [..|by eapply thread_act]; tinv.
  - by apply A_scan.
  - by apply A_run.
  - by apply A_skip.
  - by apply A_back.
Qed.
