(* ===== verification/ProcSafe.v ===== *)
(** Safety of kernel/proc.c in every interleaving: which locks each CPU holds,
    which processes run, and what a process in each state is doing. *)

From stdpp Require Import functions.
From S2P Require Import Prelude Riscv Proc ProcInv.
Open Scope Z_scope.

Implicit Types (k : kst) (c i j e q : Z) (l : lock) (p : pc).

(** The locks the CPU holds while process i is at [p] on it. *)
Definition locks_of i p : list lock :=
  match p with
  | PUser _ | PLock _ | PKill _ _ => []
  | PForkret => [ProcLock i]
  | PBody n => [ObjLock n]
  | PSleep ch r s =>
      match s with
      | S_acquire => [ret_lock r] | S_release => [ProcLock i; ret_lock r]
      | S_switch | S_tidy => [ProcLock i] | S_relock => []
      end
  | PWakeup _ _ r => [ret_lock r]
  | PExit _ x =>
      match x with
      | X_wait_lock => [] | X_reparent _ | X_wakeup | X_lock => [wait_lock]
      | X_zombie | X_unwait => [ProcLock i; wait_lock] | X_sched | X_dead => [ProcLock i]
      end
  | PWait w => match w with W_lock => [] | _ => [wait_lock] end
  | PFork f =>
      match f with
      | F_scan _ | F_parent _ _ | F_run _ _ => [] | F_test j | F_mem j | F_release j => [ProcLock j]
      | F_set _ _ => [wait_lock]
      end
  | PYield y _ => match y with Y_lock => [] | _ => [ProcLock i] end
  end.

Definition cpu_locks k c : list lock :=
  match cx (cpus k c) with
  | Scan _ => []
  | Test j | Back j => [ProcLock j]
  | In i => locks_of i (pcs k i)
  end.

(** CPU c holds exactly the locks [hs], and counts them. *)
Record holds k c (hs : list lock) : Prop := {
  h_nodup : NoDup hs;
  h_locks l : locks k l = Some c <-> l ∈ hs;
  h_noff : noff (cpus k c) = Z.of_nat (length hs)
}.

(** The program points of a process that is not on a CPU and may be put on
    one, of one that exited, of one not yet started. *)
Definition parked p : bool :=
  match p with PForkret | PSleep _ _ S_tidy | PYield Y_release _ => true | _ => false end.
Definition dying p : bool :=
  match p with PExit _ (X_unwait | X_sched | X_dead) => true | _ => false end.
Definition dead p : bool := match p with PExit _ X_dead => true | _ => false end.
Definition quiet p : bool := match p with PForkret | PExit _ X_dead => true | _ => false end.

Definition st_ok (x : proc) p : Prop :=
  match state x with
  | UNUSED | USED => quiet p = true
  | SLEEPING => exists r, p = PSleep (chn x) r S_tidy
  | RUNNABLE => parked p = true
  | RUNNING => dying p = false
  | ZOMBIE => dying p = true
  end.

(** A process whose thread is on a CPU. *)
Definition live (x : proc) p : bool :=
  match state x with RUNNING => true | ZOMBIE => negb (dead p) | _ => false end.

(** The point a preempted process returns to. *)
Definition core p : pc := match p with PYield _ s => s | _ => p end.

(** The slot a process in fork has allocated. *)
Definition forks p : option Z :=
  match core p with
  | PFork (F_mem j) | PFork (F_release j) | PFork (F_parent j _) | PFork (F_set j _) | PFork (F_run j _) => Some j
  | _ => None
  end.
Definition forked p : bool :=
  match core p with
  | PFork (F_release j) | PFork (F_parent j _) | PFork (F_set j _) | PFork (F_run j _) => true
  | _ => false
  end.

Definition scan_ok p : Prop :=
  match core p with PFork (F_scan j) => 0 <= j | PFork (F_test j) => 0 <= j < NPROC | _ => True end.

Record safe k : Prop := {
  a_hold c : holds k c (cpu_locks k c);
  a_on c i : cx (cpus k c) = In i -> live (procs k i) (pcs k i) = true;
  a_off i : live (procs k i) (pcs k i) = true -> exists c, cx (cpus k c) = In i;
  a_uniq c c' i : cx (cpus k c) = In i -> cx (cpus k c') = In i -> c = c';
  a_cproc c i : cproc (cpus k c) = Some i <-> cx (cpus k c) = In i \/ cx (cpus k c) = Back i;
  a_st i : st_ok (procs k i) (pcs k i);
  a_saved i y s : pcs k i = PYield y s -> locks_of i s = [] /\ yielding s = false;
  a_scan i : scan_ok (pcs k i);
  a_used i j : forks (pcs k i) = Some j -> state (procs k j) = USED;
  a_child i j : forks (pcs k i) = Some j -> forked (pcs k i) = true -> pcs k j = PForkret;
  a_fork i i' j : forks (pcs k i) = Some j -> forks (pcs k i') = Some j -> i = i';
  a_range i : state (procs k i) <> UNUSED -> 0 <= i < NPROC
}.

Lemma safe_init : safe userinit.
Proof.
  unfold userinit, procinit. split; simpl.
  - intros c. split; [constructor|by split; [|intros ?%not_elem_of_nil]|done].
  - done.
  - intros i. unfold live. rewrite ins_case. by case_decide.
  - done.
  - intros c i. split; [done|by intros [|]].
  - intros i. unfold st_ok. rewrite ins_case. by case_decide.
  - done.
  - done.
  - done.
  - done.
  - done.
  - intros i. rewrite ins_case. case_decide; [by unfold NPROC; lia|done].
Qed.

(** ** Locks *)
Ltac ks :=
  unfold acq, rel, mv, pr, cp, set_procs, set_pcs, set_locks, set_cpus, set_nextpid, set_ctx, set_cproc, add_noff in *;
  cbn [procs pcs locks cpus nextpid initproc cx cproc noff] in *.

Lemma holds_same k k' c hs :
  holds k c hs -> (forall l, locks k' l = Some c <-> locks k l = Some c) -> noff (cpus k' c) = noff (cpus k c) -> holds k' c hs.
Proof. intros [H1 H2 H3] Hl Hn. split; [done| |by rewrite Hn]. intros l. by rewrite Hl. Qed.

Lemma holds_take k c l hs : holds k c hs -> locks k l = None -> holds (acq c l k) c (l :: hs).
Proof.
  intros [H1 H2 H3] Hl. split.
  - constructor; [|done]. rewrite <- H2. by rewrite Hl.
  - intros l0. ks.
    rewrite ins_case, elem_of_cons, <- H2. case_decide; naive_solver.
  - ks. rewrite ins_case, decide_True by done. cbn. rewrite H3. lia.
Qed.

Lemma holds_give k c l hs hs' : holds k c hs -> hs ≡ₚ l :: hs' -> holds (rel c l k) c hs'.
Proof.
  intros [H1 H2 H3] Hp. assert (Hn : NoDup (l :: hs')) by by rewrite <- Hp.
  apply NoDup_cons in Hn as [Hl Hn]. split; [done| |].
  - intros l'. ks. rewrite ins_case. case_decide as E; [subst; naive_solver|]. rewrite H2, Hp, elem_of_cons. naive_solver.
  - ks. rewrite ins_case, decide_True by done. cbn. rewrite H3, Hp. cbn. lia.
Qed.

Lemma moves_locks k i p p' : moves k i p p' -> yielding p' = false -> locks_of i p' = locks_of i p.
Proof. intros [] Hy; try done. by destruct r. Qed.

Lemma takes_locks i p l p' : takes i p l p' -> locks_of i p' = l :: locks_of i p.
Proof. intros []; try done. by destruct r. Qed.

Lemma gives_locks k i p l p' :
  gives k i p l p' -> (forall y s, p = PYield y s -> locks_of i s = []) -> locks_of i p ≡ₚ l :: locks_of i p'.
Proof.
  intros [] Hs; try done.
  - apply perm_swap.
  - apply perm_swap.
  - by rewrite (Hs _ _ eq_refl).
Qed.

Lemma section_locks k i p j f p' : section k i p j f p' -> locks_of i p' = locks_of i p.
Proof. by intros []. Qed.
Lemma passes_locks k i p j p' : passes k i p j p' -> locks_of i p' = locks_of i p.
Proof. by intros []. Qed.
Lemma switches_locks i p f p' : switches i p f p' -> locks_of i p = [ProcLock i] /\ parked p' = true.
Proof. by intros []. Qed.

(** What is known of the process on CPU c. *)
Lemma on_running k c i : safe k -> cx (cpus k c) = In i -> dying (pcs k i) = false -> state (procs k i) = RUNNING.
Proof.
  intros Hs Hc Hd. pose proof (a_on k Hs c i Hc) as Hl. pose proof (a_st k Hs i) as Ht. unfold live, st_ok in *.
  destruct (state (procs k i)); try done. congruence.
Qed.

Lemma on_hold k c i : safe k -> cx (cpus k c) = In i -> holds k c (locks_of i (pcs k i)).
Proof. intros Hs Hc. pose proof (a_hold k Hs c) as H. unfold cpu_locks in H. by rewrite Hc in H. Qed.

(** The thread of another CPU is not touched by a step. *)
Lemma other_pc c k k' c' i : safe k -> act c k k' -> c' <> c -> cx (cpus k c') = In i -> pcs k' i = pcs k i.
Proof.
  intros Hs Ha Hc' Hi.
  assert (Hne : forall i0, cx (cpus k c) = In i0 -> i0 <> i).
  { intros i0 H0 ->. by apply Hc', (a_uniq k Hs c' c i). }
  destruct Ha; ks; rewrite ?ins_case, ?decide_False by auto; try done.
  case_decide as E; [|done]. subst.
  pose proof (a_used k Hs i0 i) as Hu. rewrite H0 in Hu. specialize (Hu eq_refl).
  pose proof (a_on k Hs c' i Hi) as Hl. unfold live in Hl. by rewrite Hu in Hl.
Qed.

Lemma other_cpu c k k' c' : act c k k' -> c' <> c -> cpus k' c' = cpus k c'.
Proof. intros Ha Hc'. destruct Ha; ks; rewrite ?ins_case, ?decide_False by auto; done. Qed.

Lemma other_locks c k k' c' l : act c k k' -> c' <> c -> locks k' l = Some c' <-> locks k l = Some c'.
Proof.
  intros Ha Hc'. destruct Ha; ks; rewrite ?ins_case; try done.
  all: repeat case_decide; try done; subst; naive_solver.
Qed.

Ltac kk :=
  ks; rewrite ?ins_case;
  repeat match goal with
  | |- context [@decide (?a = ?a) ?d] => destruct (@decide (a = a) d); [|done]
  end; cbn [cx cproc noff].

Lemma in_locks k c i p : cx (cpus k c) = In i -> pcs k i = p -> cpu_locks k c = locks_of i p.
Proof. unfold cpu_locks. by intros -> ->. Qed.
Lemma scan_locks k c j : cx (cpus k c) = Scan j -> cpu_locks k c = [].
Proof. unfold cpu_locks. by intros ->. Qed.
Lemma test_locks k c j : cx (cpus k c) = Test j -> cpu_locks k c = [ProcLock j].
Proof. unfold cpu_locks. by intros ->. Qed.
Lemma back_locks k c j : cx (cpus k c) = Back j -> cpu_locks k c = [ProcLock j].
Proof. unfold cpu_locks. by intros ->. Qed.

(** Effects that leave the locks of the CPU alone. *)
Lemma holds_mv k c hs i p : holds k c hs -> holds (mv i p k) c hs.
Proof. intros H. by apply (holds_same k). Qed.
Lemma holds_pr k c hs i f : holds k c hs -> holds (pr i f k) c hs.
Proof. intros H. by apply (holds_same k). Qed.
Lemma holds_cp k c hs f : (forall x, noff (f x) = noff x) -> holds k c hs -> holds (cp c f k) c hs.
Proof. intros Hf H. apply (holds_same k); [done..|]. kk. apply Hf. Qed.

Ltac destruct_act Ha :=
  destruct Ha as [j Hc Hl|j Hc Hst|j j' Hc Hl|j j' Hc Hl|i p' Hc Hm Hy|i l p' Hc Hm Hl|i l p' Hc Hm Hl
    |i j f p' Hc Hm Hl|i j p' Hc Hm Hl|i f p' Hc Hm|i st Hc Hp|i ch r Hc Hp Hl|i j Hc Hp Hst|i j Hc Hp Hl
    |i j Hc Hp|i j n Hc Hp Hl|i st j Hc Hp Hj Hpa|i st Hc Hp].

Lemma own_hold c k k' : safe k -> act c k k' -> holds k' c (cpu_locks k' c).
Proof.
  intros Hs Ha. pose proof (a_hold k Hs c) as Hh. unfold cpu_locks in Hh.
  destruct_act Ha; rewrite Hc in Hh; rewrite ?Hp in Hh; cbn [locks_of] in Hh.
  - rewrite (test_locks _ c j) by (by kk). apply holds_cp; [done|]. by apply holds_take.
  - rewrite (in_locks _ c j (pcs k j)) by (by kk). pose proof (a_st k Hs j) as Hj. unfold st_ok in Hj. rewrite Hst in Hj.
    apply holds_cp, holds_pr; [done|]. by destruct (pcs k j) as [| | | |? ? []| | | | | |[]].
  - rewrite (scan_locks _ c j') by (by kk). apply holds_cp; [done|]. by eapply holds_give.
  - rewrite (scan_locks _ c j') by (by kk). apply holds_cp; [done|]. eapply holds_give; [|done]. by apply holds_cp.
  - rewrite (in_locks _ c i p') by (by kk). apply holds_mv. destruct (yielding p') eqn:Ey.
    + specialize (Hy eq_refl). destruct Hm; try done.
      * by destruct r.
      * rewrite (h_noff _ _ _ Hh) in Hy. by destruct (locks_of i p) in *.
    + by rewrite (moves_locks _ _ _ _ Hm).
  - rewrite (in_locks _ c i p') by (by kk). apply holds_mv. rewrite (takes_locks _ _ _ _ Hm). by apply holds_take.
  - rewrite (in_locks _ c i p') by (by kk). apply holds_mv. eapply holds_give; [done|]. apply (gives_locks k); [done|].
    intros y s E. by apply (a_saved k Hs i y s).
  - rewrite (in_locks _ c i p') by (by kk). apply holds_mv. rewrite (section_locks _ _ _ _ _ _ Hm).
    eapply holds_give; [apply holds_pr, holds_take; done|done].
  - rewrite (in_locks _ c i p') by (by kk). apply holds_mv. rewrite (passes_locks _ _ _ _ _ Hm).
    eapply holds_give; [apply holds_take; done|done].
  - rewrite (back_locks _ c i) by (by kk). apply holds_cp, holds_mv, holds_pr; [done|].
    by destruct (switches_locks _ _ _ _ Hm) as [<- _].
  - rewrite (back_locks _ c i) by (by kk). by apply holds_cp, holds_mv.
  - rewrite (in_locks _ c i (PSleep ch r S_relock)) by (by kk). by eapply holds_mv, holds_give; [apply holds_pr|].
  - rewrite (in_locks _ c i (PFork (F_mem j))) by (by kk). by apply holds_mv, holds_pr, (holds_same k).
  - rewrite (in_locks _ c i (PUser (-1))) by (by kk). by eapply holds_mv, holds_give; [apply holds_pr|].
  - rewrite (in_locks _ c i (PFork (F_release j))) by (by kk). by apply holds_mv, holds_mv.
  - rewrite (in_locks _ c i (PFork (F_run j n))) by (by kk). by eapply holds_mv, holds_give; [apply holds_pr|].
  - rewrite (in_locks _ c i (PWakeup (Proc (initproc k)) 0 (RReparent st (j + 1)))) by (by kk). by apply holds_mv, holds_pr.
  - rewrite (in_locks _ c i (PExit st X_unwait)) by (by kk). by apply holds_mv, holds_pr.
Qed.

Lemma safe_hold c k k' : safe k -> act c k k' -> forall c', holds k' c' (cpu_locks k' c').
Proof.
  intros Hs Ha c'. destruct (decide (c' = c)) as [->|Hc']; [by apply (own_hold c k)|].
  replace (cpu_locks k' c') with (cpu_locks k c').
  - apply (holds_same k); [apply Hs|intros l; by apply (other_locks c)|by rewrite (other_cpu c k k')].
  - unfold cpu_locks. rewrite (other_cpu c k k') by done. destruct (cx (cpus k c')) eqn:E; try done.
    by rewrite (other_pc c k k' c').
Qed.

(** ** States and program points *)
Lemma takes_dying i p l p' : takes i p l p' -> dying p = false /\ dying p' = false.
Proof. intros []; try done. by destruct r. Qed.

Lemma gives_dying k i p l p' :
  gives k i p l p' -> (forall y s, p = PYield y s -> locks_of i s = []) -> dying p' = dying p.
Proof.
  intros [] Hs; try done. specialize (Hs _ _ eq_refl). by destruct p0 as [| | | | | |? []| | | |].
Qed.

Lemma gives_dead k i p l p' :
  gives k i p l p' -> (forall y s, p = PYield y s -> locks_of i s = []) -> dead p' = false.
Proof.
  intros [] Hs; try done. specialize (Hs _ _ eq_refl). by destruct p0 as [| | | | | |? []| | | |].
Qed.

Lemma section_dying k i p j f p' : section k i p j f p' -> dying p = false /\ dying p' = false.
Proof. by intros []. Qed.
Lemma passes_dying k i p j p' : passes k i p j p' -> dying p = false /\ dying p' = false.
Proof. by intros []. Qed.
Lemma switches_dying i p f p' : switches i p f p' -> dying p = false.
Proof. by intros []. Qed.

Lemma moves_dying k c i p' :
  safe k -> cx (cpus k c) = In i -> moves k i (pcs k i) p' ->
  (yielding p' = true -> noff (cpus k c) = 0) -> dying (pcs k i) = false /\ dying p' = false.
Proof.
  intros Hs Hc Hm Hy. pose proof (h_noff _ _ _ (on_hold k c i Hs Hc)) as Hn. revert Hn.
  destruct Hm; intros Hn; try done; [by destruct r|]. rewrite (Hy eq_refl) in Hn. split; [|done].
  by destruct p as [| | | | | |? []| | | |].
Qed.

(** A step of a thread whose process stays as it is. *)
Lemma own_st k c i p' :
  safe k -> cx (cpus k c) = In i -> dying p' = dying (pcs k i) -> st_ok (procs k i) p'.
Proof.
  intros Hs Hc Hd. pose proof (a_on k Hs c i Hc) as Hl. pose proof (a_st k Hs i) as Ht. unfold live, st_ok in *.
  destruct (state (procs k i)); try done; congruence.
Qed.

(** The process a thread works on while it takes the lock of that process. *)
Lemma free_not_zombie_on k j :
  safe k -> locks k (ProcLock j) = None -> state (procs k j) = ZOMBIE -> dead (pcs k j) = true.
Proof.
  intros Hs Hl Hz. destruct (dead (pcs k j)) eqn:Ed; [done|].
  destruct (a_off k Hs j) as [c Hc]. { unfold live. by rewrite Hz, Ed. }
  pose proof (a_st k Hs j) as Hst. unfold st_ok in Hst. rewrite Hz in Hst.
  pose proof (on_hold k c j Hs Hc) as Hh. assert (Hin : ProcLock j ∈ locks_of j (pcs k j)).
  { destruct (pcs k j) as [| | | | | |? []| | | |]; simpl in *; try done; set_solver. }
  apply (h_locks _ _ _ Hh) in Hin. congruence.
Qed.

Lemma wake_if_st ch x p : st_ok x p -> st_ok (wake_if ch x) p.
Proof.
  unfold wake_if. destruct (decide (state x = SLEEPING)) as [E|E]; [|by rewrite (bool_decide_false _ E)].
  rewrite (bool_decide_true _ E). case_bool_decide; [|done]. unfold st_ok. rewrite E. by intros [r ->].
Qed.

Lemma kill_it_st x p : st_ok x p -> st_ok (kill_it x) p.
Proof.
  unfold kill_it. destruct (decide (state x = SLEEPING)) as [E|E]; [|by rewrite (bool_decide_false _ E)].
  rewrite (bool_decide_true _ E). unfold st_ok. rewrite E. by intros [r ->].
Qed.

(** The process in the critical section of its lock. *)
Lemma section_st k i j f p' :
  safe k -> section k i (pcs k i) j f p' -> locks k (ProcLock j) = None -> st_ok (f (procs k j)) (pcs k j).
Proof.
  intros Hs Hm Hl. pose proof (a_st k Hs j) as Hj. remember (pcs k i) as p eqn:Ep. destruct Hm.
  - by apply wake_if_st.
  - by apply kill_it_st.
  - unfold st_ok. simpl. rewrite (a_child k Hs i j); [done|by rewrite <- Ep..].
  - unfold st_ok. simpl. pose proof (free_not_zombie_on k j Hs Hl H0). by destruct (pcs k j) as [| | | | | |? []| | | |].
Qed.

(** Threads do not work on the process they run. *)
Lemma section_other k c i j f p' :
  safe k -> cx (cpus k c) = In i -> section k i (pcs k i) j f p' -> j = i -> f = kill_it.
Proof.
  intros Hs Hc Hm Hji. pose proof (on_running k c i Hs Hc (proj1 (section_dying _ _ _ _ _ _ Hm))) as Hr.
  pose proof (a_used k Hs i j) as Hu. destruct Hm; try done.
  - specialize (Hu eq_refl). congruence.
  - congruence.
Qed.

(** Whether the slot [q] is that of the thread, the one it works on, or another. *)
Ltac slots i j q :=
  destruct (decide (i = q)) as [<-|]; [destruct (decide (j = i)) as [->|]|destruct (decide (j = q)) as [<-|]].

Lemma safe_st c k k' : safe k -> act c k k' -> forall q, st_ok (procs k' q) (pcs k' q).
Proof.
  intros Hs Ha q. pose proof (a_st k Hs q) as Hq. destruct_act Ha; try done.
  - ks. rewrite ins_case. case_decide; [|done]. subst. unfold st_ok in *. rewrite Hst in Hq. simpl.
    by destruct (pcs k q) as [| | | |? ? []| |? []| | | |[]].
  - destruct (moves_dying k c i p') as [H1 H2]; [done..|]. ks. rewrite ins_case. case_decide; [|done]. subst.
    apply (own_st k c); [done..|congruence].
  - destruct (takes_dying _ _ _ _ Hm). ks. rewrite ins_case. case_decide; [|done]. subst.
    apply (own_st k c); [done..|congruence].
  - ks. rewrite ins_case. case_decide; [|done]. subst. apply (own_st k c); [done..|]. apply (gives_dying k q _ l); [done|].
    intros y s E. by apply (a_saved k Hs q y s).
  - destruct (section_dying _ _ _ _ _ _ Hm) as [H1 H2]. pose proof (section_st _ _ _ _ _ Hs Hm Hl) as Hj.
    pose proof (section_other _ _ _ _ _ _ Hs Hc Hm) as Hji. ks. rewrite !ins_case. repeat case_decide; subst; try done.
    + rewrite (Hji eq_refl). apply kill_it_st, (own_st k c); [done..|congruence].
    + apply (own_st k c); [done..|congruence].
  - destruct (passes_dying _ _ _ _ _ Hm) as [H1 H2]. ks. rewrite !ins_case. case_decide; subst; [|done].
    apply (own_st k c); [done..|congruence].
  - pose proof (switches_locks _ _ _ _ Hm) as [_ Hk]. ks. rewrite !ins_case. case_decide; subst; [|done].
    destruct Hm; unfold st_ok; simpl; [done|]. eauto.
  - pose proof (own_st k c i (PExit st X_dead) Hs Hc). rewrite Hp in *. ks. rewrite !ins_case. case_decide; subst; [|done]. auto.
  - pose proof (own_st k c i (PSleep ch r S_relock) Hs Hc). rewrite Hp in *. ks. rewrite !ins_case. case_decide; subst; [|done].
    unfold st_ok in *. cbn [state set_chan]. rewrite (on_running k c q Hs Hc) by (by rewrite Hp). done.
  - pose proof (on_running k c i Hs Hc) as Hr. rewrite Hp in Hr. specialize (Hr eq_refl).
    ks. rewrite !ins_case. slots i j q; try done; [congruence|..].
    + unfold st_ok. by rewrite Hr.
    + unfold st_ok in *. simpl. by rewrite Hst in Hq.
  - pose proof (on_running k c i Hs Hc) as Hr. pose proof (a_used k Hs i j) as Hu. rewrite Hp in Hr, Hu.
    specialize (Hr eq_refl). specialize (Hu eq_refl).
    ks. rewrite !ins_case. slots i j q; try done; [congruence|..].
    + unfold st_ok. by rewrite Hr.
    + unfold st_ok in *. simpl. by rewrite Hu in Hq.
  - pose proof (on_running k c i Hs Hc) as Hr. pose proof (a_used k Hs i j) as Hu. rewrite Hp in Hr, Hu.
    specialize (Hr eq_refl). specialize (Hu eq_refl).
    ks. rewrite !ins_case. slots i j q; try done.
    + unfold st_ok. by rewrite Hr.
    + unfold st_ok. by rewrite Hr.
    + unfold st_ok in *. simpl. by rewrite Hu in *.
  - pose proof (on_running k c i Hs Hc) as Hr. rewrite Hp in Hr. specialize (Hr eq_refl).
    ks. rewrite !ins_case. slots i j q; try done; unfold st_ok; simpl; by rewrite Hr.
  - pose proof (on_running k c i Hs Hc) as Hr. rewrite Hp in Hr. specialize (Hr eq_refl).
    ks. rewrite !ins_case. slots i j q; try done; unfold st_ok; simpl; by rewrite Hr.
  - ks. rewrite !ins_case. by destruct (decide (i = q)) as [<-|].
Qed.

(** ** Which processes are on a CPU *)
Lemma live_alive x p : st_ok x p -> dying p = false -> live x p = bool_decide (state x = RUNNING).
Proof. unfold st_ok, live. intros H1 H2. destruct (state x); try done. congruence. Qed.

Lemma live_running x p : state x = RUNNING -> live x p = true.
Proof. unfold live. by intros ->. Qed.

Lemma live_dead k c i p' :
  safe k -> cx (cpus k c) = In i -> dead p' = false -> live (procs k i) p' = true.
Proof.
  intros Hs Hc Hd. pose proof (a_on k Hs c i Hc) as Hl. unfold live in *. rewrite Hd.
  destruct (state (procs k i)); done.
Qed.

Lemma not_dying_dead p : dying p = false -> dead p = false.
Proof. by destruct p as [| | | | | |? []| | | |]. Qed.

(** The thread of the CPU that takes the step stays there or goes back to the
    scheduler, and is then no longer live. *)
Lemma live_own c k k' q :
  safe k -> act c k k' -> cx (cpus k c) = In q ->
  live (procs k' q) (pcs k' q) = true /\ cx (cpus k' c) = In q \/
  live (procs k' q) (pcs k' q) = false /\ cx (cpus k' c) = Back q.
Proof.
  intros Hs Ha Hq. assert (Hrun := on_running k c q Hs Hq).
  destruct_act Ha; rewrite Hq in Hc; try discriminate Hc; injection Hc as <-.
  - destruct (moves_dying k c q p') as [H1 H2]; [done..|]. left. kk. split; [|done].
    apply (live_dead k c); [done..|]. by apply not_dying_dead.
  - destruct (takes_dying _ _ _ _ Hm). left. kk. split; [|done]. apply (live_dead k c); [done..|]. by apply not_dying_dead.
  - left. kk. split; [|done]. apply (live_dead k c); [done..|].
    apply (gives_dead k q _ l _ Hm). intros y s E. by apply (a_saved k Hs q y s).
  - destruct (section_dying _ _ _ _ _ _ Hm) as [H1 H2]. pose proof (section_other _ _ _ _ _ _ Hs Hq Hm) as Hj.
    specialize (Hrun H1). left. kk. split; [|done]. apply live_running. case_decide as E; [|done].
    rewrite (Hj E). unfold kill_it. rewrite E, bool_decide_false by congruence. done.
  - destruct (passes_dying _ _ _ _ _ Hm) as [H1 H2]. left. kk. split; [|done].
    apply (live_dead k c); [done..|]. by apply not_dying_dead.
  - right. kk. split; [|done]. by destruct Hm.
  - right. kk. split; [|done]. pose proof (a_st k Hs q) as Hst. unfold st_ok in Hst. rewrite Hp in Hst. unfold live.
    by destruct (state (procs k q)).
  - left. kk. split; [|done]. apply live_running. simpl. apply Hrun. by rewrite Hp.
  - rewrite Hp in Hrun. specialize (Hrun eq_refl). left. kk. split; [|done]. apply live_running.
    case_decide; [congruence|done].
  - rewrite Hp in Hrun. specialize (Hrun eq_refl). left. kk. split; [|done]. apply live_running.
    pose proof (a_used k Hs q j) as Hu. rewrite Hp in Hu. specialize (Hu eq_refl). case_decide; [congruence|done].
  - rewrite Hp in Hrun. specialize (Hrun eq_refl). left. kk. split; [|done]. by apply live_running.
  - rewrite Hp in Hrun. specialize (Hrun eq_refl). left. kk. split; [|done]. apply live_running. by case_decide; subst.
  - rewrite Hp in Hrun. specialize (Hrun eq_refl). left. kk. split; [|done]. apply live_running. by case_decide; subst.
  - left. by kk.
Qed.

Lemma live_wake ch x p : live (wake_if ch x) p = live x p.
Proof.
  unfold wake_if. destruct (decide (state x = SLEEPING)) as [E|E]; [|by rewrite (bool_decide_false _ E)].
  rewrite (bool_decide_true _ E). case_bool_decide; [|done]. unfold live. by rewrite E.
Qed.

Lemma live_kill x p : live (kill_it x) p = live x p.
Proof.
  unfold kill_it. destruct (decide (state x = SLEEPING)) as [E|E]; [|by rewrite (bool_decide_false _ E)].
  rewrite (bool_decide_true _ E). unfold live. by rewrite E.
Qed.

Lemma live_section k i j f p' :
  safe k -> section k i (pcs k i) j f p' -> locks k (ProcLock j) = None -> live (f (procs k j)) (pcs k j) = live (procs k j) (pcs k j).
Proof.
  intros Hs Hm Hl. pose proof (a_used k Hs i j) as Hu. pose proof (free_not_zombie_on k j Hs Hl) as Hd. destruct Hm.
  - apply live_wake.
  - apply live_kill.
  - unfold live. simpl. by rewrite (Hu eq_refl).
  - unfold live. simpl. by rewrite H0, (Hd H0).
Qed.

(** Every other process is live after the step if it was before, unless the
    CPU has just been given to it. *)
Lemma live_other c k k' q :
  safe k -> act c k k' -> cx (cpus k c) <> In q ->
  live (procs k' q) (pcs k' q) = live (procs k q) (pcs k q) \/
  cx (cpus k' c) = In q /\ live (procs k' q) (pcs k' q) = true /\ live (procs k q) (pcs k q) = false.
Proof.
  intros Hs Ha Hq. destruct_act Ha; try (by left); try (assert (i <> q) by (intros ->; done)).
  - destruct (decide (j = q)) as [<-|]; [right|left]; kk; [|by case_decide].
    split; [done|]. unfold live. by rewrite Hst.
  - left. kk. by case_decide.
  - left. kk. by case_decide.
  - left. kk. by case_decide.
  - left. kk. slots i j q; try done. by apply (live_section k i j f p').
  - left. kk. by case_decide.
  - left. kk. by case_decide.
  - left. kk. by case_decide.
  - left. kk. by case_decide.
  - left. kk. slots i j q; try done. unfold live. simpl. by rewrite Hst.
  - left. kk. slots i j q; try done. unfold live. simpl.
    pose proof (a_used k Hs i j) as Hu. rewrite Hp in Hu. by rewrite (Hu eq_refl).
  - left. kk. slots i j q; try done. unfold live.
    pose proof (a_used k Hs i j) as Hu. rewrite Hp in Hu. by rewrite (Hu eq_refl).
  - left. kk. by slots i j q.
  - left. kk. by slots i j q.
  - left. kk. by case_decide.
Qed.

Lemma run_cx c k k' q : act c k k' -> cx (cpus k' c) = In q -> cx (cpus k c) = In q \/ state (procs k q) = RUNNABLE.
Proof. intros Ha. destruct_act Ha; kk; naive_solver. Qed.

Lemma run_live c k k' q :
  act c k k' -> cx (cpus k' c) = In q -> cx (cpus k c) <> In q -> live (procs k' q) (pcs k' q) = true.
Proof. intros Ha. destruct_act Ha; kk; try naive_solver. intros [= ->]. by destruct (decide (q = q)). Qed.

Lemma safe_cpus c k k' :
  safe k -> act c k k' ->
  (forall c0 q, cx (cpus k' c0) = In q -> live (procs k' q) (pcs k' q) = true) /\
  (forall q, live (procs k' q) (pcs k' q) = true -> exists c0, cx (cpus k' c0) = In q) /\
  (forall c0 c1 q, cx (cpus k' c0) = In q -> cx (cpus k' c1) = In q -> c0 = c1).
Proof.
  intros Hs Ha.
  assert (Hoth : forall c0, c0 <> c -> cpus k' c0 = cpus k c0) by (intros; by apply (other_cpu c)).
  assert (Hdif : forall c0 q, c0 <> c -> cx (cpus k' c0) = In q -> cx (cpus k c) <> In q /\ live (procs k q) (pcs k q) = true).
  { intros c0 q H0 H1. rewrite Hoth in H1 by done. split; [|by apply (a_on k Hs c0)].
    intros H2. by apply H0, (a_uniq k Hs c0 c q). }
  assert (Hnew : forall c0 q, c0 <> c -> cx (cpus k' c0) = In q -> cx (cpus k' c) <> In q).
  { intros c0 q H0 H1 H2. destruct (Hdif _ _ H0 H1) as [H3 H4]. destruct (run_cx _ _ _ _ Ha H2) as [|H5]; [done|].
    unfold live in H4. by rewrite H5 in H4. }
  split; [|split].
  - intros c0 q H0. destruct (decide (c0 = c)) as [->|Hc].
    + destruct (decide (cx (cpus k c) = In q)) as [E|E].
      * destruct (live_own c k k' q Hs Ha E) as [[? _]|[_ ?]]; [done|congruence].
      * destruct (run_cx _ _ _ _ Ha H0) as [|H5]; [done|].
        by apply (run_live c k k').
    + destruct (Hdif _ _ Hc H0) as [H1 H2]. destruct (live_other c k k' q Hs Ha H1) as [->|(_ & ? & _)]; done.
  - intros q Hl. destruct (decide (cx (cpus k c) = In q)) as [E|E].
    { destruct (live_own c k k' q Hs Ha E) as [[_ ?]|[H0 _]]; [by exists c|congruence]. }
    destruct (live_other c k k' q Hs Ha E) as [H0|(H0 & _)]; [|by exists c].
    destruct (a_off k Hs q) as [c0 Hc0]; [congruence|]. exists c0.
    destruct (decide (c0 = c)) as [->|H1]; [done|]. by rewrite Hoth.
  - intros c0 c1 q H0 H1. destruct (decide (c0 = c)) as [->|H2], (decide (c1 = c)) as [->|H3]; [done|..].
    + by destruct (Hnew c1 q).
    + by destruct (Hnew c0 q).
    + rewrite Hoth in H0, H1 by done. by apply (a_uniq k Hs c0 c1 q).
Qed.

(** ** The rest of the invariant *)
Lemma safe_cproc c k k' :
  safe k -> act c k k' ->
  forall c0 q, cproc (cpus k' c0) = Some q <-> cx (cpus k' c0) = In q \/ cx (cpus k' c0) = Back q.
Proof.
  intros Hs Ha c0 q. pose proof (a_cproc k Hs c0 q) as H0. destruct (decide (c0 = c)) as [->|Hc0].
  2: { by rewrite (other_cpu c k k' c0). }
  destruct_act Ha; rewrite Hc in H0; kk; rewrite ?Hc; naive_solver.
Qed.

Lemma safe_saved c k k' :
  safe k -> act c k k' -> forall q y s, pcs k' q = PYield y s -> locks_of q s = [] /\ yielding s = false.
Proof.
  intros Hs Ha q y s E. pose proof (a_saved k Hs q) as Hq.
  destruct_act Ha; try (by apply (Hq y)); ks; rewrite ?ins_case in E.
  all: try (repeat case_decide; subst; [done..|by apply (Hq y)]).
  - case_decide; [subst|by apply (Hq y)]. pose proof (h_noff _ _ _ (on_hold k c q Hs Hc)) as Hn.
    rewrite (Hy eq_refl) in Hn. inversion Hm as [| | | | | | | |ch j r Hj E1 E2| | | | | | | | | |p Hp E1 E2]; [by destruct r|].
    subst. split; [|done]. by destruct (locks_of q (pcs k q)).
  - case_decide; [subst|by apply (Hq y)]. inversion Hm as [| |ch r E1 E2 E3| | | | | |p E1 E2 E3]; [by destruct r|]. apply (Hq Y_lock); congruence.
  - case_decide; [subst|by apply (Hq y)]. inversion Hm as [| | | | | | |p E1 E2 E3].
    destruct (Hq Y_release (PYield y s)) as [_ ?]; [congruence|done].
  - case_decide; [subst|by apply (Hq y)]. inversion Hm.
  - case_decide; [subst|by apply (Hq y)]. inversion Hm.
  - case_decide; [subst|by apply (Hq y)]. inversion Hm as [p E1 E2 E3|]. apply (Hq Y_switch); congruence.
Qed.

Lemma safe_scan c k k' : safe k -> act c k k' -> forall q, scan_ok (pcs k' q).
Proof.
  intros Hs Ha q. pose proof (a_scan k Hs q) as Hq.
  destruct_act Ha; try done; ks; rewrite ?ins_case.
  all: try (repeat case_decide; subst; done).
  - case_decide; [subst|done]. revert Hq. destruct Hm; try done; [by destruct r|by destruct p].
  - case_decide; [subst|done]. revert Hq. destruct Hm; try done. by destruct r.
  - case_decide; [subst|done]. pose proof (a_saved k Hs q Y_release) as Hy. revert Hq Hy.
    destruct Hm; try done; unfold scan_ok; simpl; [lia|]. intros Hq Hy. destruct (Hy _ eq_refl) as [_ ?]. by destruct p.
  - case_decide; [subst|done]. by destruct Hm.
  - case_decide; [subst|done]. by destruct Hm.
  - case_decide; [subst|done]. by destruct Hm.
Qed.

(** What a thread knows of the slot it allocated. *)
Lemma gives_forks k i p l p' :
  gives k i p l p' -> (forall y s, p = PYield y s -> yielding s = false) ->
  forks p' = forks p /\ forked p' = forked p.
Proof. intros [] Hs; try done. specialize (Hs _ _ eq_refl). by destruct p0. Qed.
Lemma moves_forks k i p p' : moves k i p p' -> forks p' = forks p /\ forked p' = forked p.
Proof. intros []; try done; [by destruct r|]. by destruct p0. Qed.
Lemma takes_forks i p l p' : takes i p l p' -> forks p' = forks p /\ forked p' = forked p.
Proof. intros []; try done. by destruct r. Qed.
Lemma section_forks k i p j f p' :
  section k i p j f p' -> forks p' = None /\ (forall j', forks p = Some j' -> j' = j).
Proof. intros []; split; try done. by intros j' [= ->]. Qed.
Lemma passes_forks k i p j p' : passes k i p j p' -> forks p' = None /\ forks p = None.
Proof. by intros []. Qed.
Lemma switches_forks i p f p' : switches i p f p' -> forks p' = forks p /\ forked p' = forked p.
Proof. by intros []. Qed.

(** A step changes what a thread has allocated only in fork. *)
Lemma forks_step c k k' q j0 :
  safe k -> act c k k' -> forks (pcs k' q) = Some j0 ->
  forks (pcs k q) = Some j0 /\ (forked (pcs k' q) = true -> forked (pcs k q) = true \/ pcs k' j0 = PForkret /\ pcs k q = PFork (F_mem j0)) \/
  cx (cpus k c) = In q /\ pcs k q = PFork (F_test j0) /\ state (procs k j0) = UNUSED /\ state (procs k' j0) = USED /\ forked (pcs k' q) = false.
Proof.
  intros Hs Ha. destruct_act Ha; try (by left; auto); ks; rewrite ?ins_case.
  - case_decide; [subst|by left; auto]. destruct (moves_forks _ _ _ _ Hm) as [-> ->]. by left; auto.
  - case_decide; [subst|by left; auto]. destruct (takes_forks _ _ _ _ Hm) as [-> ->]. by left; auto.
  - case_decide; [subst|by left; auto]. destruct (gives_forks _ _ _ _ _ Hm) as [-> ->]; [|by left; auto].
    intros y s E. by apply (a_saved k Hs q y s).
  - case_decide; [subst|by left; auto]. destruct (section_forks _ _ _ _ _ _ Hm) as [-> _]. done.
  - case_decide; [subst|by left; auto]. destruct (passes_forks _ _ _ _ _ Hm) as [-> _]. done.
  - case_decide; [subst|by left; auto]. destruct (switches_forks _ _ _ _ Hm) as [-> ->]. by left; auto.
  - case_decide; [subst|by left; auto]. done.
  - case_decide; [subst|by left; auto]. done.
  - case_decide; [subst|by left; auto]. intros [= ->]. right. destruct (decide (j0 = j0)); done.
  - case_decide; [subst|by left; auto]. done.
  - pose proof (on_running k c i Hs Hc) as Hr. pose proof (a_used k Hs i j) as Hu. rewrite Hp in Hr, Hu.
    specialize (Hr eq_refl). specialize (Hu eq_refl). slots i j q; try done.
    + congruence.
    + intros [= ->]. left. rewrite Hp. split; [done|]. intros _. right. destruct (decide (i = j0)); [congruence|].
      by destruct (decide (j0 = j0)).
    + by left; auto.
  - case_decide; [subst|by left; auto]. rewrite Hp. by left; auto.
  - case_decide; [subst|by left; auto]. done.
  - case_decide; [subst|by left; auto]. done.
Qed.

Lemma wake_if_used ch x : state x = USED -> state (wake_if ch x) = USED.
Proof. intros E. unfold wake_if. by rewrite bool_decide_false by congruence. Qed.
Lemma kill_it_used x : state x = USED -> state (kill_it x) = USED.
Proof. intros E. unfold kill_it. by rewrite bool_decide_false by congruence. Qed.

Lemma used_step c k k' j0 :
  safe k -> act c k k' -> state (procs k j0) = USED ->
  state (procs k' j0) = USED \/ exists i, forks (pcs k i) = Some j0 /\ forks (pcs k' i) = None.
Proof.
  intros Hs Ha Hu. assert (Hno : cx (cpus k c) <> In j0).
  { intros Hc. pose proof (a_on k Hs c j0 Hc) as Hl. unfold live in Hl. by rewrite Hu in Hl. }
  destruct_act Ha; try (by left); ks; rewrite ?ins_case.
  - left. case_decide; [congruence|done].
  - destruct (decide (j = j0)) as [<-|]; [|by left]. remember (pcs k i) as p eqn:Ep. destruct Hm; simpl.
    + left. by apply wake_if_used.
    + left. by apply kill_it_used.
    + right. exists i. rewrite <- Ep, ins_case. by destruct (decide (i = i)).
    + congruence.
  - left. case_decide; [congruence|done].
  - left. case_decide; [congruence|done].
  - left. case_decide; [congruence|done].
  - destruct (decide (j = j0)) as [<-|]; [|by left]. right. exists i. rewrite Hp, ins_case. by destruct (decide (i = i)).
  - left. by case_decide; subst.
  - left. by case_decide; subst.
  - left. case_decide; [congruence|done].
Qed.

Lemma used_pc c k k' j0 :
  safe k -> act c k k' -> state (procs k j0) = USED -> pcs k' j0 = pcs k j0 \/ pcs k' j0 = PForkret.
Proof.
  intros Hs Ha Hu. assert (Hno : cx (cpus k c) <> In j0).
  { intros Hc. pose proof (a_on k Hs c j0 Hc) as Hl. unfold live in Hl. by rewrite Hu in Hl. }
  destruct_act Ha; try (by left); ks; rewrite ?ins_case.
  all: try (left; case_decide; [congruence|done]).
  case_decide; [congruence|]. case_decide; [by right|by left].
Qed.

Lemma unused_step c k k' q :
  safe k -> act c k k' -> state (procs k q) = UNUSED ->
  state (procs k' q) = UNUSED \/ exists i, pcs k i = PFork (F_test q).
Proof.
  intros Hs Ha Hu. assert (Hno : cx (cpus k c) <> In q).
  { intros Hc. pose proof (a_on k Hs c q Hc) as Hl. unfold live in Hl. by rewrite Hu in Hl. }
  destruct_act Ha; try (by left); ks; rewrite ?ins_case.
  all: try (left; case_decide; [congruence|done]).
  all: case_decide; [|by left]; subst; try (by left; simpl).
  - left. pose proof (a_used k Hs i q) as Hf. destruct Hm; simpl.
    + unfold wake_if. by rewrite bool_decide_false by congruence.
    + unfold kill_it. by rewrite bool_decide_false by congruence.
    + specialize (Hf eq_refl). congruence.
    + done.
  - right. by exists i.
Qed.

Lemma safe_step c k k' : safe k -> act c k k' -> safe k'.
Proof.
  intros Hs Ha. destruct (safe_cpus c k k' Hs Ha) as (H1 & H2 & H3).
  split; [by apply (safe_hold c k)|done..|by apply (safe_cproc c k)|by apply (safe_st c k)|by apply (safe_saved c k)
    |by apply (safe_scan c k)| | | |].
  - intros q j0 Hf. destruct (forks_step c k k' q j0 Hs Ha Hf) as [[H4 _]|(_ & _ & _ & H4 & _)]; [|done].
    destruct (used_step c k k' j0 Hs Ha) as [|(i & H5 & H6)]; [by apply (a_used k Hs q)|done|].
    rewrite (a_fork k Hs i q j0 H5 H4) in H6. congruence.
  - intros q j0 Hf Hd. destruct (forks_step c k k' q j0 Hs Ha Hf) as [[H4 H5]|(_ & _ & _ & _ & H4)]; [|congruence].
    destruct (H5 Hd) as [H6|[H6 _]]; [|done].
    destruct (used_pc c k k' j0 Hs Ha) as [->|]; [by apply (a_used k Hs q)|by apply (a_child k Hs q)|done].
  - intros q q' j0 Hf Hf'. destruct (forks_step c k k' q j0 Hs Ha Hf) as [[H4 _]|(H4 & _ & H5 & _)];
      destruct (forks_step c k k' q' j0 Hs Ha Hf') as [[H6 _]|(H6 & _ & H7 & _)].
    + by apply (a_fork k Hs q q' j0).
    + apply (a_used k Hs q) in H4. congruence.
    + apply (a_used k Hs q') in H6. congruence.
    + congruence.
  - intros q Hq. destruct (decide (state (procs k q) = UNUSED)) as [E|E]; [|by apply (a_range k Hs)].
    destruct (unused_step c k k' q Hs Ha E) as [|[i Hi]]; [done|]. pose proof (a_scan k Hs i) as Hsc. by rewrite Hi in Hsc.
Qed.

Lemma safe_reachable k : rtc step userinit k -> safe k.
Proof.
  assert (H : forall k0 k1, rtc step k0 k1 -> safe k0 -> safe k1); [|intros Hr; by apply (H userinit), safe_init].
  induction 1 as [|k0 k1 k2 [x c k0' k1' _ Hx] _ IH]; [done|]. intros Hs. apply IH. eapply safe_step; [done|]. by eapply scheduler_act.
Qed.

(** ** No panic *)
Definition nopanic {A} (m : M kst A) k : Prop := forall msg, m k <> Panic msg.

Lemma np_bind {A B} (m : M kst A) (f : A -> M kst B) k :
  nopanic m k -> (forall a k', m k = Ret a k' -> nopanic (f a) k') -> nopanic (bind m f) k.
Proof. unfold nopanic, bind. intros H1 H2. destruct (m k) eqn:E; [by apply H2|by destruct (H1 msg)|done]. Qed.

Lemma np_acquire c l k : locks k l <> Some c -> nopanic (acquire c l) k.
Proof.
  intros Hl msg. unfold acquire, bind, gets. destruct (locks k l) as [c'|]; [|done].
  destruct (Z.eqb_spec c' c); [congruence|done].
Qed.

Lemma np_release c l k : locks k l = Some c -> nopanic (release c l) k.
Proof. intros Hl msg. unfold release, bind, gets. by rewrite decide_True. Qed.

Lemma np_sched c i p k :
  locks k (ProcLock i) = Some c -> noff (cpus k c) = 1 -> state (procs k i) <> RUNNING -> nopanic (sched c i p) k.
Proof.
  intros H1 H2 H3 msg. unfold sched, get_proc, bind, gets. cbn beta iota. rewrite (bool_decide_true _ H1), H2, (bool_decide_false _ H3). done.
Qed.

Ltac np :=
  repeat lazymatch goal with
  | |- nopanic (bind _ _) _ => apply np_bind; [|intros ? ? ?; tinv]
  | |- nopanic (goto _ _) _ => by intros ?
  | |- nopanic (put_proc _ _) _ => by intros ?
  | |- nopanic (put_cpu _ _) _ => by intros ?
  | |- nopanic (freeproc _) _ => by intros ?
  | |- nopanic (get_proc _) _ => by intros ?
  | |- nopanic (gets _) _ => by intros ?
  | |- nopanic (modify _) _ => by intros ?
  | |- nopanic (stuck _) _ => by intros ?
  | |- nopanic (ret _) _ => by intros ?
  | |- nopanic (if bool_decide _ then _ else _) _ => case_bool_decide
  | |- nopanic (if ?a <=? ?b then _ else _) _ => destruct (Z.leb_spec a b)
  | |- nopanic (if ?a =? ?b then _ else _) _ => destruct (Z.eqb_spec a b)
  end.

Section nopanic.
Context (k : kst) (c i : Z) (Hs : safe k) (Hc : cx (cpus k c) = In i).

Lemma np_take l : l ∉ locks_of i (pcs k i) -> nopanic (acquire c l) k.
Proof. intros Hl. apply np_acquire. intros E. apply Hl. by apply (h_locks _ _ _ (on_hold k c i Hs Hc)). Qed.

Lemma np_give l : l ∈ locks_of i (pcs k i) -> nopanic (release c l) k.
Proof. intros Hl. apply np_release. by apply (h_locks _ _ _ (on_hold k c i Hs Hc)). Qed.

Lemma np_sleep ch r s : pcs k i = PSleep ch r s -> nopanic (sleep c i ch (ret_lock r) r s) k.
Proof.
  intros Ep. pose proof (on_hold k c i Hs Hc) as Hh. rewrite Ep in Hh. destruct s; simpl in Hh |- *; np.
  - apply np_take. rewrite Ep. simpl. destruct r; set_solver.
  - apply np_give. rewrite Ep. set_solver.
  - apply np_sched; kk.
    + apply (h_locks _ _ _ Hh). set_solver.
    + apply (h_noff _ _ _ Hh).
    + done.
  - apply np_release. kk. apply (h_locks _ _ _ Hh). set_solver.
  - apply np_take. rewrite Ep. set_solver.
  - by destruct r.
Qed.
Ltac give := apply np_release; kk; done.
Ltac take Ep := apply np_take; rewrite Ep; simpl; try match goal with r : retpt |- _ => destruct r end; set_solver.
Ltac drop Ep := apply np_give; rewrite Ep; simpl; set_solver.

Lemma np_wakeup ch j r : pcs k i = PWakeup ch j r -> nopanic (wakeup c i ch j r) k.
Proof.
  intros Ep. unfold wakeup. np; [by destruct r|take Ep|give].
Qed.

Lemma np_exit st x : pcs k i = PExit st x -> nopanic (exit c i st x) k.
Proof.
  intros Ep. pose proof (on_hold k c i Hs Hc) as Hh. rewrite Ep in Hh. pose proof (a_on k Hs c i Hc) as Hl.
  pose proof (a_st k Hs i) as Hst. rewrite Ep in Hl, Hst. destruct x; simpl; unfold reparent; np.
  - take Ep.
  - take Ep.
  - drop Ep.
  - apply np_sched; [apply (h_locks _ _ _ Hh); set_solver|apply (h_noff _ _ _ Hh)|].
    unfold st_ok in Hst. by intros E; rewrite E in Hst.
  - exfalso. unfold live, st_ok in Hl, Hst. by destruct (state (procs k i)).
Qed.

Lemma np_wait x w : pcs k i = PWait w -> nopanic (wait x c i w) k.
Proof.
  intros Ep. destruct w as [|j b| |v]; simpl; unfold killed; np.
  - take Ep.
  - take Ep.
  - destruct x; np; give.
  - give.
  - take Ep.
  - give.
  - drop Ep.
Qed.

Lemma np_fork x f : pcs k i = PFork f -> nopanic (fork x c i f) k.
Proof.
  intros Ep. pose proof (on_hold k c i Hs Hc) as Hh. rewrite Ep in Hh. destruct f; simpl; unfold allocpid; np.
  - take Ep.
  - drop Ep.
  - destruct x; np. all: apply np_release; kk; apply (h_locks _ _ _ Hh); set_solver.
  - drop Ep.
  - take Ep.
  - apply np_release; kk; apply (h_locks _ _ _ Hh); set_solver.
  - take Ep.
  - give.
Qed.

Lemma np_kill n j : pcs k i = PKill n j -> nopanic (kill c i n j) k.
Proof. intros Ep. unfold kill. np; [take Ep|give|give]. Qed.

Lemma np_yield p y : pcs k i = PYield y p -> nopanic (yield c i p y) k.
Proof.
  intros Ep. pose proof (on_hold k c i Hs Hc) as Hh. rewrite Ep in Hh. destruct y; simpl; np.
  - take Ep.
  - apply np_sched; kk; [apply (h_locks _ _ _ Hh); set_solver|apply (h_noff _ _ _ Hh)|done].
  - drop Ep.
Qed.

Lemma np_thread x msg : thread x c i k = Panic msg -> msg = "init exiting"%string /\ exists st, x = IExit st.
Proof.
  unfold thread, bind, gets. destruct (decide (x = IPreempt)) as [->|Hx].
  { by destruct (_ && _). }
  intros H. destruct (pcs k i) as [a| |n|n|ch r s|ch j r|st e|w|f|n j|y p] eqn:Ep.
  - destruct x; try done; simpl in H. unfold bind, gets in H. destruct (_ =? _); [injection H; eauto|done].
  - exfalso. assert (Hn : nopanic (forkret c i) k) by (unfold forkret; np; drop Ep). by destruct x; apply (Hn msg).
  - exfalso. assert (Hn : nopanic (acquire c (ObjLock n) ;; goto i (PBody n)) k) by (np; take Ep).
    by destruct x; apply (Hn msg).
  - exfalso. assert (Hn : nopanic (body x c i n) k) by (destruct x; simpl; np; drop Ep). by destruct x; apply (Hn msg).
  - exfalso. pose proof (np_sleep ch r s Ep) as Hn. by destruct x; apply (Hn msg).
  - exfalso. pose proof (np_wakeup ch j r Ep) as Hn. by destruct x; apply (Hn msg).
  - exfalso. pose proof (np_exit st e Ep) as Hn. by destruct x; apply (Hn msg).
  - exfalso. pose proof (np_wait x w Ep) as Hn. by destruct x; apply (Hn msg).
  - exfalso. pose proof (np_fork x f Ep) as Hn. by destruct x; apply (Hn msg).
  - exfalso. pose proof (np_kill n j Ep) as Hn. by destruct x; apply (Hn msg).
  - exfalso. pose proof (np_yield p y Ep) as Hn. by destruct x; apply (Hn msg).
Qed.
End nopanic.

Lemma np_scheduler k c x msg :
  safe k -> scheduler x c k = Panic msg -> msg = "init exiting"%string /\ exists st, x = IExit st.
Proof.
  intros Hs. pose proof (a_hold k Hs c) as Hh. unfold cpu_locks in Hh.
  unfold scheduler. rewrite bind_gets. destruct (cx (cpus k c)) as [j|j|j|i] eqn:Ec; [..|by apply np_thread].
  - intros H. exfalso. revert H. apply np_bind; [|by intros; tinv].
    apply np_acquire. rewrite (h_locks _ _ _ Hh). set_solver.
  - intros H. exfalso. revert H. match goal with |- ?m k = _ -> False => assert (Hn : nopanic m k); [|apply Hn] end.
    np. apply np_release, (h_locks _ _ _ Hh). set_solver.
  - intros H. exfalso. revert H. apply np_bind; [done|intros ? ? ?; tinv]. np. apply np_release. kk.
    apply (h_locks _ _ _ Hh). set_solver.
Qed.

(** ** No deadlock *)

(** The lock the next step of CPU c takes. *)
Definition wants k c : option lock :=
  match cx (cpus k c) with
  | Scan j => Some (ProcLock j)
  | Test _ | Back _ => None
  | In i =>
      match pcs k i with
      | PLock n => Some (ObjLock n)
      | PSleep _ _ S_acquire => Some (ProcLock i)
      | PSleep _ r S_relock => Some (ret_lock r)
      | PWakeup _ j _ | PKill _ j | PFork (F_scan j) | PFork (F_run j _) | PWait (W_scan j _) => Some (ProcLock j)
      | PFork (F_parent _ _) | PExit _ X_wait_lock | PWait W_lock => Some wait_lock
      | PExit _ X_lock | PWait W_killed | PYield Y_lock _ => Some (ProcLock i)
      | _ => None
      end
  end.

(** CPU c spins on a lock that CPU c' holds. *)
Definition waits k c c' : Prop :=
  (exists w, scheduler IGo c k = Stuck w) /\ exists l, wants k c = Some l /\ locks k l = Some c'.

Definition can_step k c : Prop := exists k', scheduler IGo c k = Ret tt k'.

Lemma bind_stuck {A B} (m : M kst A) (f : A -> M kst B) k w :
  bind m f k = Stuck w -> m k = Stuck w \/ exists a k', m k = Ret a k' /\ f a k' = Stuck w.
Proof. unfold bind. destruct (m k) eqn:E; [eauto|done|]. intros [= ->]. by left. Qed.

Lemma acquire_stuck c l k w : acquire c l k = Stuck w -> exists c', locks k l = Some c'.
Proof. unfold acquire, bind, gets. destruct (locks k l) as [c'|]; [eauto|done]. Qed.

Lemma release_stuck c l k w : release c l k <> Stuck w.
Proof. unfold release, bind, gets. by case_decide. Qed.

Lemma sched_stuck c i p k w : sched c i p k <> Stuck w.
Proof. unfold sched, get_proc, bind, gets. cbn beta iota. by repeat case_match. Qed.

Ltac sinv :=
  repeat match goal with
  | H : bind _ _ _ = Stuck _ |- _ => apply bind_stuck in H; destruct H as [H|(? & ? & ? & H)]; tinv
  | H : acquire _ _ _ = Stuck _ |- _ => apply acquire_stuck in H
  | H : release _ _ _ = Stuck _ |- _ => by apply release_stuck in H
  | H : sched _ _ _ _ = Stuck _ |- _ => by apply sched_stuck in H
  | H : return_to _ ?r _ = Stuck _ |- _ => by destruct r
  | H : goto _ _ _ = Stuck _ |- _ => discriminate H
  | H : put_proc _ _ _ = Stuck _ |- _ => discriminate H
  | H : put_cpu _ _ _ = Stuck _ |- _ => discriminate H
  | H : freeproc _ _ = Stuck _ |- _ => discriminate H
  | H : get_proc _ _ = Stuck _ |- _ => discriminate H
  | H : gets _ _ = Stuck _ |- _ => discriminate H
  | H : modify _ _ = Stuck _ |- _ => discriminate H
  | H : panic _ _ = Stuck _ |- _ => discriminate H
  | H : ret _ _ = Stuck _ |- _ => discriminate H
  | H : (if bool_decide _ then _ else _) _ = Stuck _ |- _ => case_bool_decide
  | H : (if ?a <=? ?b then _ else _) _ = Stuck _ |- _ => destruct (Z.leb_spec a b)
  | H : (if ?a =? ?b then _ else _) _ = Stuck _ |- _ => destruct (Z.eqb_spec a b)
  end.

Lemma stuck_waits k c w :
  nextpid k < 2147483647 -> scheduler IGo c k = Stuck w -> exists c' l, wants k c = Some l /\ locks k l = Some c'.
Proof.
  intros Hn. unfold wants, scheduler. rewrite bind_gets. destruct (cx (cpus k c)) as [j|j|j|i]; intros H; try (by sinv; naive_solver).
  unfold thread in H. rewrite !bind_gets in H. destruct (pcs k i) as [a| |n|n|ch r s|ch j r|st e|v|f|n j|y p].
  - done.
  - unfold forkret in H. sinv.
  - sinv. naive_solver.
  - simpl in H. sinv.
  - destruct s; simpl in H; sinv; naive_solver.
  - unfold wakeup in H. sinv. naive_solver.
  - destruct e; simpl in H; unfold reparent in H; sinv; naive_solver.
  - destruct v; simpl in H; unfold killed in H; sinv; naive_solver.
  - destruct f; simpl in H; unfold allocpid in H; sinv; try lia; naive_solver.
  - unfold kill in H. sinv. naive_solver.
  - destruct y; simpl in H; sinv; naive_solver.
Qed.

Lemma step_or_waits k c : safe k -> nextpid k < 2147483647 -> can_step k c \/ exists c', waits k c c'.
Proof.
  intros Hs Hn. destruct (scheduler IGo c k) as [[] k'|msg|w] eqn:E.
  - left. by exists k'.
  - destruct (np_scheduler k c IGo msg Hs E) as [_ [st ?]]. done.
  - right. destruct (stuck_waits k c w Hn E) as (c' & l & H1 & H2). exists c'. split; [by exists w|by exists l].
Qed.

(** The lock order: wait_lock and the locks of other objects before the lock
    of a process, and nothing after that. *)
Lemma wants_order k c l l' : l ∈ cpu_locks k c -> wants k c = Some l' -> (exists j, l' = ProcLock j) /\ (forall j, l <> ProcLock j).
Proof.
  unfold cpu_locks, wants. destruct (cx (cpus k c)) as [j|j|j|i]; [set_solver|done|done|].
  destruct (pcs k i) as [a| |n|n|ch r []|ch j r|st []|[]|[]|n j|[] p]; simpl; try done; try set_solver.
  all: intros Hl [= <-]; split; [by eexists|]; intros j0 ->; try destruct r; set_solver.
Qed.

(** Runs of the machine on given inputs, for examples. *)
Definition exec (xs : list (input * Z)) k : kst :=
  foldl (fun k '(x, c) => match scheduler x c k with Ret _ k' => k' | _ => k end) k xs.

Lemma exec_rtc xs k : Forall (fun y : input * Z => 0 <= snd y < NCPU) xs -> rtc step k (exec xs k).
Proof.
  revert k; induction xs as [|[x c] xs IH]; intros k Hl; [done|]. apply Forall_cons in Hl as [H1 H2]. simpl in *.
  destruct (scheduler x c k) as [[] k'|msg|w] eqn:E; [|by apply IH..]. eapply rtc_l; [|by apply IH]. by apply (step_cpu x c).
Qed.


(** The first process has returned to user space. *)
Definition started : kst := exec (replicate 3 (IGo, 0)) userinit.

Lemma started_reachable : rtc step userinit started.
Proof. apply exec_rtc. by repeat constructor. Qed.




(** C8: at any time a process is executed by at most one CPU, and by
    one exactly if it is RUNNING or in the last steps of exit; that CPU's
    c->proc, which myproc returns, is this process.  A sleeping process is
    parked in sleep with the channel it sleeps on, and a process that is
    UNUSED, USED or RUNNABLE is not executed. *)
Theorem proc_one_cpu k i :
  rtc step userinit k ->
  (forall c, cx (cpus k c) = In i -> cproc (cpus k c) = Some i /\ (state (procs k i) = RUNNING \/ state (procs k i) = ZOMBIE)) /\
  (forall c c', cx (cpus k c) = In i -> cx (cpus k c') = In i -> c = c') /\
  (state (procs k i) = RUNNING -> exists c, cx (cpus k c) = In i) /\
  (state (procs k i) = SLEEPING -> exists r, pcs k i = PSleep (chn (procs k i)) r S_tidy).
Proof.
  intros Hk. apply safe_reachable in Hk as Hs. split; [|split; [|split]].
  - intros c Hc. split; [by apply (a_cproc k Hs); left|]. pose proof (a_on k Hs c i Hc) as Hl. unfold live in Hl.
    destruct (state (procs k i)); by auto.
  - intros c c'. apply (a_uniq k Hs).
  - intros Hr. apply (a_off k Hs). by apply live_running.
  - intros Hr. pose proof (a_st k Hs i) as Hst. unfold st_ok in Hst. by rewrite Hr in Hst.
Qed.

Lemma proc_one_cpu_witness : cx (cpus started 0) = In 0 /\ cproc (cpus started 0) = Some 0.
Proof.
  assert (E : cx (cpus started 0) = In 0) by by vm_compute.
  destruct (proc_one_cpu started 0 started_reachable) as [H _]. split; [done|by apply H].
Defined.
