(* ===== verification/ProcWait.v ===== *)
(** Sleep and wakeup, exit and wait: no wakeup is lost, every zombie has a
    live parent, and process ids are unique. *)

From stdpp Require Import functions.
From S2P Require Import Prelude Riscv Proc ProcInv ProcSafe.
Open Scope Z_scope.

Implicit Types (k : kst) (c i j e q : Z) (l : lock) (p : pc).

(** Process q is asleep on [ch], having given up [l], or just about to be:
    it holds its own lock and no longer [l]. *)
Definition waiting k q (ch : chan) l : Prop :=
  match pcs k q with
  | PSleep ch' r S_switch => ch' = ch /\ ret_lock r = l
  | PSleep ch' r S_tidy => state (procs k q) = SLEEPING /\ ch' = ch /\ ret_lock r = l
  | _ => False
  end.

(** The slots below [n] have no child of i, no exited child of i. *)
Definition childless k i n : Prop := forall j, 0 <= j < n -> parent (procs k j) <> Some i.
Definition nozombie k i n : Prop :=
  forall j, 0 <= j < n -> parent (procs k j) = Some i -> state (procs k j) <> ZOMBIE.

(** What the thread of process i relies on at [p]. *)
Definition relies k i p : Prop :=
  match p with
  | PWakeup ch n r =>
      (forall q, 0 <= q < n -> ~ waiting k q ch (ret_lock r)) /\
      match r with
      | RBody _ => exists m, ch = Obj m
      | RWait => False
      | RReparent _ m => i <> initproc k /\ ch = Proc (initproc k) /\ childless k i m
      | RExit _ => i <> initproc k /\ ch = parent_chan (parent (procs k i)) /\ childless k i NPROC
      end
  | PExit _ x =>
      i <> initproc k /\
      match x with
      | X_reparent j => childless k i j
      | X_wakeup => childless k i NPROC
      | X_lock | X_zombie =>
          childless k i NPROC /\
          forall q, parent (procs k i) = Some q -> 0 <= q < NPROC -> ~ waiting k q (Proc q) wait_lock
      | _ => True
      end
  | PWait (W_scan j _) => nozombie k i j
  | PWait W_killed => nozombie k i NPROC
  | PSleep ch r s =>
      match r with
      | RBody _ => exists m, ch = Obj m
      | RWait => ch = Proc i /\ match s with S_acquire | S_release => nozombie k i NPROC | _ => True end
      | _ => False
      end
  | _ => True
  end.

Definition alive (s : procstate) : bool := match s with SLEEPING | RUNNABLE | RUNNING => true | _ => false end.

Record family k : Prop := {
  b_thr i : relies k i (core (pcs k i));
  b_zombie j q : state (procs k j) = ZOMBIE -> parent (procs k j) = Some q -> waiting k q (Proc q) wait_lock ->
    exists e n st m, pcs k e = PWakeup (Proc q) n (RReparent st m) /\ n <= q;
  b_child j q : parent (procs k j) = Some q -> alive (state (procs k q)) = true;
  b_init : alive (state (procs k (initproc k))) = true;
  b_unused j : state (procs k j) = UNUSED -> parent (procs k j) = None
}.

Lemma family_init : family userinit.
Proof.
  unfold userinit, procinit. split; simpl.
  - done.
  - intros j q. rewrite ins_case. by case_decide.
  - intros j q. rewrite ins_case. by case_decide.
  - done.
  - intros j. rewrite ins_case. by case_decide.
Qed.

(** ** Holders of locks *)

(** A thread that holds a lock other than that of a process is on a CPU. *)
Lemma held_on k e l :
  safe k -> l ∈ locks_of e (pcs k e) -> (forall j, l <> ProcLock j) -> exists c, locks k l = Some c /\ cx (cpus k c) = In e.
Proof.
  intros Hs Hl Hn. assert (Hlive : live (procs k e) (pcs k e) = true).
  { pose proof (a_st k Hs e) as Hst. unfold st_ok in Hst. unfold live.
    destruct (state (procs k e)), (pcs k e) as [a| |n|n|ch r []|ch j r|st []|[]|[]|n j|[] p]; simpl in *;
      try done; try (by destruct Hst); set_solver. }
  destruct (a_off k Hs e Hlive) as [c Hc]. exists c. split; [|done]. by apply (h_locks _ _ _ (on_hold k c e Hs Hc)).
Qed.

(** Two threads do not hold the same lock. *)
Lemma excl k c i e l :
  safe k -> cx (cpus k c) = In i -> l ∈ locks_of i (pcs k i) -> l ∈ locks_of e (pcs k e) -> (forall j, l <> ProcLock j) -> e = i.
Proof.
  intros Hs Hc Hi He Hl. destruct (held_on k e l Hs He Hl) as (c' & H1 & H2).
  apply (h_locks _ _ _ (on_hold k c i Hs Hc)) in Hi. congruence.
Qed.

(** A process about to sleep holds its lock. *)
Lemma switching_locked k q ch r : safe k -> pcs k q = PSleep ch r S_switch -> locks k (ProcLock q) <> None.
Proof.
  intros Hs Hp. pose proof (a_st k Hs q) as Hst. unfold st_ok in Hst. rewrite Hp in Hst.
  assert (Hlive : live (procs k q) (pcs k q) = true).
  { unfold live. destruct (state (procs k q)); try done. by destruct Hst. }
  destruct (a_off k Hs q Hlive) as [c Hc]. pose proof (on_hold k c q Hs Hc) as Hh. rewrite Hp in Hh.
  rewrite (proj2 (h_locks _ _ _ Hh (ProcLock q))); [done|set_solver].
Qed.

(** ** How a step changes what others rely on *)
Lemma initproc_step c k k' : act c k k' -> initproc k' = initproc k.
Proof. intros Ha. by destruct_act Ha. Qed.

(** The new state of the process worked on in a critical section. *)
Lemma section_state k i p j f p' :
  section k i p j f p' ->
  state (f (procs k j)) = state (procs k j) \/ state (f (procs k j)) = RUNNABLE \/
  state (procs k j) = ZOMBIE /\ state (f (procs k j)) = UNUSED /\ wait_lock ∈ locks_of i p.
Proof.
  intros [].
  - unfold wake_if. destruct (_ && _); auto.
  - unfold kill_it. destruct (bool_decide _); auto.
  - auto.
  - right; right. split; [done|]. split; [done|]. set_solver.
Qed.

Lemma section_parent k i p j f p' :
  section k i p j f p' ->
  parent (f (procs k j)) = parent (procs k j) \/
  parent (f (procs k j)) = None /\ state (procs k j) = ZOMBIE /\ wait_lock ∈ locks_of i p.
Proof.
  intros [].
  - left. unfold wake_if. by destruct (_ && _).
  - left. unfold kill_it. by destruct (bool_decide _).
  - by left.
  - right. split; [done|]. split; [done|]. set_solver.
Qed.

Lemma sleeping_step c k k' q :
  safe k -> act c k k' -> state (procs k' q) = SLEEPING ->
  state (procs k q) = SLEEPING /\ pcs k' q = pcs k q \/
  cx (cpus k c) = In q /\ exists ch r, pcs k q = PSleep ch r S_switch /\ pcs k' q = PSleep ch r S_tidy.
Proof.
  intros Hs Ha. assert (Hrun : cx (cpus k c) = In q -> state (procs k q) <> SLEEPING).
  { intros Hc E. pose proof (a_on k Hs c q Hc) as Hl. unfold live in Hl. by rewrite E in Hl. }
  destruct_act Ha; try (by left); ks; rewrite ?ins_case.
  all: try (intros Hst; left; case_decide as E; [subst; by destruct (Hrun Hc)|done]).
  all: try (destruct (decide (i = q)) as [->|];
    [|destruct (decide (j = q)) as [->|]; [|by left]]).
  all: try (intros Hst'; left; done).
  - case_decide; [done|by left].
  - intros Hst'. exfalso. pose proof (on_running k c q Hs Hc (proj1 (section_dying _ _ _ _ _ _ Hm))) as Hr.
    case_decide as E; [|congruence]. rewrite E in *. destruct (section_state _ _ _ _ _ _ Hm) as [|[|(_ & ? & _)]]; congruence.
  - intros Hst'. left. split; [|done]. destruct (section_state _ _ _ _ _ _ Hm) as [|[|(_ & ? & _)]]; congruence.
  - case_decide; [subst|by left]. intros Hst'. right. split; [done|]. remember (pcs k q) as p eqn:Ep. destruct Hm; [done|eauto].
  - intros Hst'. exfalso. case_decide; [done|by apply Hrun].
  - intros Hst'. exfalso. case_decide; [done|by apply Hrun].
  - intros Hst'. exfalso. by apply Hrun.
  - intros Hst'. pose proof (a_used k Hs i q) as Hu. rewrite Hp in Hu. specialize (Hu eq_refl). congruence.
  - intros Hst'. exfalso. apply Hrun; [done|]. by case_decide; subst.
  - intros Hst'. exfalso. apply Hrun; [done|]. by case_decide; subst.
Qed.

Lemma switch_step c k k' q ch0 r0 :
  safe k -> act c k k' -> pcs k' q = PSleep ch0 r0 S_switch ->
  pcs k q = PSleep ch0 r0 S_switch \/
  cx (cpus k c) = In q /\ procs k' = procs k /\ pcs k q = PSleep ch0 r0 S_release.
Proof.
  intros Hs Ha. destruct_act Ha; try (by left); ks; rewrite ?ins_case.
  all: try (case_decide; [done|by left]).
  - case_decide; [subst|by left]. intros ->. inversion Hm as [| | | | | | | |? ? r'| | | | | | | | | |]. by destruct r'.
  - case_decide; [subst|by left]. intros ->. inversion Hm as [| |? r'| | | | | |]. by destruct r'.
  - case_decide; [subst|by left]. intros ->. inversion Hm as [| |ch' r' E1 E2 E3| | | | |p E1 E2 E3]; [by right|].
    destruct (a_saved k Hs q Y_release (PSleep ch0 r0 S_switch)) as [? _]; [congruence|done].
  - case_decide; [subst|by left]. intros ->. inversion Hm.
  - case_decide; [subst|by left]. intros ->. inversion Hm.
  - case_decide; [subst|by left]. intros ->. inversion Hm.
  - case_decide; [done|]. case_decide; [done|by left].
Qed.

(** Nobody starts to wait except by giving up the lock. *)
Lemma waiting_step c k k' q ch l :
  safe k -> act c k k' -> waiting k' q ch l ->
  waiting k q ch l \/
  cx (cpus k c) = In q /\ procs k' = procs k /\ exists r, pcs k q = PSleep ch r S_release /\ ret_lock r = l.
Proof.
  intros Hs Ha Hw. unfold waiting in Hw. destruct (pcs k' q) as [| | | |ch' r s| | | | | |] eqn:Ep'; try done. destruct s; try done.
  - destruct Hw as [-> Hl]. destruct (switch_step c k k' q ch r Hs Ha Ep') as [H1|(H1 & H2 & H3)]; [left|right; eauto].
    unfold waiting. by rewrite H1.
  - destruct Hw as (Hst & -> & Hl). destruct (sleeping_step c k k' q Hs Ha Hst) as [[H1 H2]|(Hc & ch1 & r1 & H1 & H2)].
    + left. unfold waiting. by rewrite <- H2, Ep'.
    + left. unfold waiting. rewrite H1. rewrite Ep' in H2. by injection H2 as <- <-.
Qed.

(** A process becomes a zombie only in exit, with wait_lock held. *)
Lemma zombie_step c k k' j0 :
  safe k -> act c k k' -> state (procs k' j0) = ZOMBIE ->
  state (procs k j0) = ZOMBIE \/
  cx (cpus k c) = In j0 /\ exists st, pcs k j0 = PExit st X_zombie /\ parent (procs k' j0) = parent (procs k j0) /\ (forall q, q <> j0 -> procs k' q = procs k q /\ pcs k' q = pcs k q).
Proof.
  intros Hs Ha. destruct_act Ha; try (by left); ks; rewrite ?ins_case.
  all: try (case_decide; [subst; done|by left]).
  - case_decide; [subst|by left]. intros Hz. destruct (section_state _ _ _ _ _ _ Hm) as [|[|(_ & ? & _)]]; left; congruence.
  - case_decide; [subst|by left]. by destruct Hm.
  - case_decide; [subst|by left]. by left.
  - case_decide; [subst|by left]. by left.
  - case_decide; [subst|by left]. by left.
  - case_decide; [subst|by left]. intros _. right. split; [done|]. exists st. split; [done|].
    split; [done|]. intros q Hq. rewrite !ins_case. by case_decide.
Qed.

(** Parents change only with wait_lock held. *)
Lemma parent_step c k k' j0 q :
  safe k -> act c k k' -> parent (procs k' j0) = Some q ->
  parent (procs k j0) = Some q \/
  (cx (cpus k c) = In q /\ exists n, pcs k q = PFork (F_set j0 n) /\ pcs k' q = PFork (F_run j0 n)) \/
  exists i st, cx (cpus k c) = In i /\ pcs k i = PExit st (X_reparent j0) /\ q = initproc k /\
    pcs k' i = PWakeup (Proc q) 0 (RReparent st (j0 + 1)).
Proof.
  intros Hs Ha. destruct_act Ha; try (by left); ks; rewrite ?ins_case.
  all: try (case_decide; [subst; done|by left]).
  all: case_decide; [subst|by left]; try (by left).
  - intros Hq. left. destruct (section_parent _ _ _ _ _ _ Hm) as [|(? & _)]; congruence.
  - intros Hq. left. by destruct Hm.
  - intros [= ->]. right. left. split; [done|]. exists n. by destruct (decide (q = q)).
  - intros [= <-]. right. right. exists i, st. split; [done|]. split; [done|]. split; [done|].
    rewrite ins_case. by destruct (decide (i = i)).
Qed.

(** A thread with wait_lock keeps its parent while another thread runs. *)
Lemma parent_same c k k' e :
  safe k -> act c k k' -> wait_lock ∈ locks_of e (pcs k e) -> cx (cpus k c) <> In e ->
  parent (procs k' e) = parent (procs k e).
Proof.
  intros Hs Ha Hlk Hne. destruct (held_on k e wait_lock Hs Hlk) as (ce & Hce & Hon); [done|].
  pose proof (a_on k Hs ce e Hon) as Hlive. unfold live in Hlive.
  assert (Hex : forall i, cx (cpus k c) = In i -> wait_lock ∉ locks_of i (pcs k i)).
  { intros i Hc Hi. apply Hne. by rewrite (excl k c i e wait_lock Hs Hc Hi Hlk). }
  destruct_act Ha; try done; ks; rewrite ?ins_case.
  all: case_decide; [subst|done]; try done.
  - destruct (section_parent _ _ _ _ _ _ Hm) as [|(_ & _ & ?)]; [done|]. by destruct (Hex i).
  - pose proof (a_used k Hs i e) as Hu. rewrite Hp in Hu. by rewrite (Hu eq_refl) in Hlive.
  - destruct (Hex i); [done|]. rewrite Hp. set_solver.
  - destruct (Hex i); [done|]. rewrite Hp. set_solver.
Qed.

(** ** Stability: what a thread relies on survives the steps of others *)
Section stable.
Context (c : Z) (k k' : kst) (Hs : safe k) (Ha : act c k k').
Context (e : Z) (Hne : cx (cpus k c) <> In e).

Lemma waiting_stable q ch l :
  l ∈ locks_of e (pcs k e) -> (forall j, l <> ProcLock j) -> ~ waiting k q ch l -> ~ waiting k' q ch l.
Proof.
  intros Hl Hn Hw Hw'. destruct (waiting_step c k k' q ch l Hs Ha Hw') as [|(Hc & _ & r & Hp & Hr)]; [done|].
  apply Hne. rewrite (excl k c q e l Hs Hc); [done| |done..]. rewrite Hp. simpl. set_solver.
Qed.

Context (Hl : wait_lock ∈ locks_of e (pcs k e)).

Lemma others_wait i : cx (cpus k c) = In i -> wait_lock ∉ locks_of i (pcs k i).
Proof. intros Hc Hi. apply Hne. by rewrite (excl k c i e wait_lock Hs Hc Hi Hl). Qed.

Lemma parent_stable j q : parent (procs k' j) = Some q -> parent (procs k j) = Some q.
Proof.
  intros Hj. destruct (parent_step c k k' j q Hs Ha Hj) as [|[(Hc & n & Hp & _)|(i & st & Hc & Hp & _)]]; [done|..].
  - destruct (others_wait q); [done|]. rewrite Hp. set_solver.
  - destruct (others_wait i); [done|]. rewrite Hp. set_solver.
Qed.

Lemma zombie_stable j : state (procs k' j) = ZOMBIE -> state (procs k j) = ZOMBIE.
Proof.
  intros Hj. destruct (zombie_step c k k' j Hs Ha Hj) as [|(Hc & st & Hp & _)]; [done|].
  destruct (others_wait j); [done|]. rewrite Hp. set_solver.
Qed.

Lemma childless_stable n : childless k e n -> childless k' e n.
Proof. intros H j Hj Hp. by apply (H j), parent_stable. Qed.

Lemma nozombie_stable n : nozombie k e n -> nozombie k' e n.
Proof. intros H j Hj Hp Hz. by apply (H j Hj); [apply parent_stable|apply zombie_stable]. Qed.
End stable.

Lemma relies_stable c k k' e :
  safe k -> act c k k' -> cx (cpus k c) <> In e -> relies k e (pcs k e) -> relies k' e (pcs k e).
Proof.
  intros Hs Ha Hne Hr. pose proof (initproc_step c k k' Ha) as Hip.
  assert (Hpar := parent_same c k k' e Hs Ha). remember (pcs k e) as p eqn:Ep.
  destruct p as [a| |n|n|ch r s|ch j r|st x|w|f|n j|y p]; try done.
  - destruct r; try done. destruct Hr as [-> Hr]. split; [done|].
    destruct s; try done; (apply (nozombie_stable c k); [done..|rewrite <- Ep; set_solver|done]).
  - destruct Hr as [H1 H2]. split.
    { intros q Hq. apply (waiting_stable c k k' Hs Ha e Hne); [rewrite <- Ep; set_solver|by destruct r|by apply H1]. }
    destruct r as [m| |st m|st]; try done; destruct H2 as (H2 & H3 & H4); rewrite Hip.
    + split; [done|]. split; [done|]. apply (childless_stable c k); [done..|rewrite <- Ep; set_solver|done].
    + rewrite Hpar; [|simpl; set_solver|done].
      split; [done|]. split; [done|]. apply (childless_stable c k); [done..|rewrite <- Ep; set_solver|done].
  - destruct Hr as [H1 H2]. split; [by rewrite Hip|]. destruct x; try done.
    all: try (apply (childless_stable c k); [done..|rewrite <- Ep; set_solver|done]).
    all: destruct H2 as [H2 H3]; split; [apply (childless_stable c k); [done..|rewrite <- Ep; set_solver|done]|].
    all: intros q Hq Hr; apply (waiting_stable c k k' Hs Ha e Hne); [rewrite <- Ep; set_solver|done|].
    all: apply H3; [|done]; rewrite <- Hpar; [done|simpl; set_solver|done].
  - destruct w; try done; (apply (nozombie_stable c k); [done..|rewrite <- Ep; set_solver|done]).
Qed.

(** A preempted thread relies on nothing that changes. *)
Lemma relies_idle k k' e p :
  initproc k' = initproc k -> locks_of e p = [] -> relies k e p -> relies k' e p.
Proof.
  intros Hip Hl Hr. destruct p as [a| |n|n|ch r []|ch j r|st []|[]|f|n j|y p]; try done. simpl. by rewrite Hip.
Qed.

Lemma core_relies_stable c k k' e :
  safe k -> act c k k' -> cx (cpus k c) <> In e -> relies k e (core (pcs k e)) -> relies k' e (core (pcs k e)).
Proof.
  intros Hs Ha Hne Hr. destruct (yielding (pcs k e)) eqn:Ey.
  - destruct (pcs k e) as [| | | | | | | | | |y s] eqn:Ep; try done. simpl in *.
    apply (relies_idle k); [by apply (initproc_step c)|by apply (a_saved k Hs e y s)|done].
  - replace (core (pcs k e)) with (pcs k e) in * by (by destruct (pcs k e)). by apply (relies_stable c k).
Qed.

(** ** The thread that takes the step *)
Section own.
Context (c i : Z) (k k' : kst) (Hs : safe k) (Hf : family k) (Ha : act c k k') (Hc : cx (cpus k c) = In i).

(** Nobody starts to wait in a step of a thread that is not going to sleep. *)
Lemma waiting_own q ch l :
  (forall ch r, pcs k i <> PSleep ch r S_release) -> waiting k' q ch l -> waiting k q ch l.
Proof.
  intros Hn Hw. destruct (waiting_step c k k' q ch l Hs Ha Hw) as [|(Hq & _ & r & Hp & _)]; [done|].
  rewrite Hc in Hq. injection Hq as <-. by destruct (Hn ch r).
Qed.

Lemma running_not_waiting q ch l : (forall ch r s, pcs k q <> PSleep ch r s) -> ~ waiting k q ch l.
Proof. intros Hn Hw. unfold waiting in Hw. destruct (pcs k q) as [| | | |ch0 r0 s0| | | | | |] eqn:E; try done. by destruct (Hn ch0 r0 s0). Qed.

Lemma moves_relies p' :
  procs k' = procs k -> moves k i (pcs k i) p' -> (yielding p' = true -> locks_of i (pcs k i) = []) ->
  relies k' i (core p').
Proof.
  intros Epr Hm Hy. pose proof (initproc_step c k k' Ha) as Hip. pose proof (b_thr k Hf i) as Hr.
  assert (Hw : forall q ch l, (forall ch r, pcs k i <> PSleep ch r S_release) -> waiting k' q ch l -> waiting k q ch l)
    by (intros; by apply waiting_own).
  remember (pcs k i) as p eqn:Ep. destruct Hm; simpl in Hr |- *; rewrite ?Epr, ?Hip; try done; try (by eauto).
  - split; [lia|eauto].
  - destruct Hr as [H1 H2]. destruct r as [m| |st m|st]; try done; simpl; rewrite ?Hip.
    + destruct H2 as (H2 & H3 & H4). split; [done|]. unfold childless. by rewrite Epr.
    + destruct H2 as (H2 & H3 & H4). split; [done|]. unfold childless. rewrite Epr. split; [done|].
      intros q Hq Hqr Hw'. rewrite Hq in H3. simpl in H3. subst ch. apply (H1 q); [lia|]. by apply Hw.
  - destruct Hr as [H1 H2]. split.
    { intros q Hq Hw'. apply Hw in Hw'; [|done]. destruct (decide (q = i)) as [->|Hqi]; [|by apply (H1 q); [lia|]].
      revert Hw'. apply running_not_waiting. by rewrite <- Ep. }
    destruct r as [m| |st m|st]; try done; unfold childless; rewrite Epr; done.
  - destruct Hr as [H1 H2]. split; [done|]. intros j' Hj'. rewrite Epr. apply H2. lia.
  - destruct Hr as [H1 H2]. split; [done|]. intros j' Hj'. rewrite Epr.
    destruct (decide (j' = j)) as [->|]; [done|apply H2; lia].
  - destruct Hr as [H1 H2]. split; [lia|]. unfold childless. by rewrite Epr.
  - intros j' Hj'. rewrite Epr. apply Hr. lia.
  - intros j' Hj'. rewrite Epr. destruct (decide (j' = j)) as [->|]; [done|apply Hr; lia].
  - apply (relies_idle k); [done|by apply Hy|]. by destruct p.
Qed.

Lemma takes_relies l p' : procs k' = procs k -> takes i (pcs k i) l p' -> relies k' i (core p').
Proof.
  intros Epr Hm. pose proof (initproc_step c k k' Ha) as Hip. pose proof (b_thr k Hf i) as Hr.
  assert (Hw : forall q ch l, (forall ch r, pcs k i <> PSleep ch r S_release) -> waiting k' q ch l -> waiting k q ch l)
    by (intros; by apply waiting_own).
  pose proof (a_saved k Hs i Y_lock) as Hsv.
  remember (pcs k i) as p eqn:Ep. destruct Hm; simpl in Hr |- *; rewrite ?Epr, ?Hip; try done; try (by eauto).
  - destruct r; try done. unfold nozombie. by rewrite Epr.
  - destruct r; try done. simpl. intros j' Hj'. lia.
  - split; [by destruct Hr|]. intros j' Hj'. lia.
  - destruct Hr as (H1 & H2 & H3). split; [done|]. unfold childless. rewrite Epr. split; [done|].
    intros q Hq Hqr Hw'. apply Hw in Hw'; [|done]. by apply (H3 q).
  - intros j' Hj'. lia.
  - apply (relies_idle k); [done|by apply (Hsv p)|]. done.
Qed.

Lemma gives_relies l p' : procs k' = procs k -> gives k i (pcs k i) l p' -> relies k' i (core p').
Proof.
  intros Epr Hm. pose proof (initproc_step c k k' Ha) as Hip. pose proof (b_thr k Hf i) as Hr.
  pose proof (a_saved k Hs i Y_release) as Hsv.
  remember (pcs k i) as p eqn:Ep. destruct Hm; simpl in Hr |- *; rewrite ?Epr, ?Hip; try done; try (by eauto).
  - destruct r; try done. by destruct Hr.
  - destruct (Hsv p eq_refl) as [H1 H2]. apply (relies_idle k); [done| |]; by destruct p.
Qed.
Lemma passes_relies j p' : procs k' = procs k -> passes k i (pcs k i) j p' -> relies k' i (core p').
Proof.
  intros Epr Hm. pose proof (b_thr k Hf i) as Hr. destruct Hm; simpl in Hr |- *; try done.
  - intros j' Hj'. rewrite Epr. destruct (decide (j' = j)) as [->|]; [done|apply Hr; lia].
  - split; [done|]. unfold nozombie. by rewrite Epr.
Qed.
End own.

(** wakeup has woken the process whose lock it takes. *)
Lemma woken_not_waiting k k' j ch l :
  safe k -> locks k (ProcLock j) = None -> procs k' j = wake_if ch (procs k j) -> pcs k' j = pcs k j -> ~ waiting k' j ch l.
Proof.
  intros Hs Hl Hpr Hpc Hw. unfold waiting in Hw. rewrite Hpc, Hpr in Hw.
  destruct (pcs k j) as [| | | |ch' r s| | | | | |] eqn:Ep; try done. destruct s; try done.
  - by apply (switching_locked k j ch' r).
  - destruct Hw as (Hst & -> & _). pose proof (a_st k Hs j) as Hj. unfold st_ok in Hj. unfold wake_if in Hst.
    destruct (decide (state (procs k j) = SLEEPING)) as [E|E]; [|by rewrite (bool_decide_false _ E) in Hst].
    rewrite E in Hj. destruct Hj as [r' Hj]. rewrite Ep in Hj. injection Hj as -> ->.
    by rewrite (bool_decide_true _ E), bool_decide_true in Hst by done.
Qed.

Lemma wake_if_parent ch x : parent (wake_if ch x) = parent x.
Proof. unfold wake_if. by destruct (_ && _). Qed.

Lemma section_relies c k i j f p' (k' := mv i p' (rel c (ProcLock j) (pr j f (acq c (ProcLock j) k)))) :
  safe k -> family k -> act c k k' -> cx (cpus k c) = In i -> section k i (pcs k i) j f p' ->
  locks k (ProcLock j) = None -> relies k' i (core p').
Proof.
  intros Hs Hf Ha Hc Hm Hl. pose proof (b_thr k Hf i) as Hr. pose proof (waiting_own c i k k' Hs Ha Hc) as Hw.
  assert (Hpr : forall q, procs k' q = if decide (j = q) then f (procs k j) else procs k q) by done.
  assert (Hpc : forall q, pcs k' q = if decide (i = q) then p' else pcs k q) by done.
  assert (Hip : initproc k' = initproc k) by done. clearbody k'.
  remember (pcs k i) as p eqn:Ep. destruct Hm as [ch j r Hji Hj| | |]; try done.
  assert (Hpar : forall q, parent (procs k' q) = parent (procs k q)).
  { intros q. rewrite Hpr. case_decide; subst; [apply wake_if_parent|done]. }
  destruct Hr as [H1 H2]. split.
  - intros q Hq Hwq. destruct (decide (q = j)) as [->|].
    + revert Hwq. apply (woken_not_waiting k); [done..| |]; rewrite ?Hpr, ?Hpc; [by rewrite decide_True|by rewrite decide_False].
    + apply (H1 q); [lia|]. by apply Hw.
  - destruct r as [m| |st m|st]; try done; destruct H2 as (H2 & H3 & H4); rewrite Hip, ?Hpar; split; try done; split; try done.
    all: intros j' Hj'; rewrite Hpar; by apply H4.
Qed.

(** The point of a thread that does not run changes only when it is made the
    child of a fork. *)
Lemma other_thread c k k' q :
  safe k -> act c k k' -> cx (cpus k c) <> In q -> pcs k' q = pcs k q \/ pcs k' q = PForkret /\ quiet (pcs k q) = true.
Proof.
  intros Hs Ha Hq. destruct_act Ha; try (by left); kk; try (case_decide; [subst; done|by left]).
  case_decide; [subst; done|]. case_decide; [right; subst|by left]. split; [done|].
  pose proof (a_used k Hs i q) as Hu. rewrite Hp in Hu. pose proof (a_st k Hs q) as Hst. unfold st_ok in Hst.
  by rewrite (Hu eq_refl) in Hst.
Qed.

Lemma family_thr c k k' : safe k -> family k -> act c k k' -> forall q, relies k' q (core (pcs k' q)).
Proof.
  intros Hs Hf Ha q. destruct (decide (cx (cpus k c) = In q)) as [Hq|Hq].
  - pose proof (b_thr k Hf q) as Hr. assert (Ha' := Ha). destruct_act Ha'; rewrite Hq in Hc; try discriminate Hc; injection Hc as <-.
    all: rewrite ?Hp in Hr; simpl in Hr.
    + replace (pcs (mv q p' k) q) with p' by (by kk). apply (moves_relies c q k); [done..|].
      intros Hy'. pose proof (h_noff _ _ _ (on_hold k c q Hs Hq)) as Hn. rewrite (Hy Hy') in Hn. by destruct (locks_of q (pcs k q)).
    + replace (pcs _ q) with p' by (by kk). by eapply takes_relies.
    + replace (pcs _ q) with p' by (by kk). by eapply gives_relies.
    + replace (pcs _ q) with p' by (by kk). by apply section_relies.
    + replace (pcs _ q) with p' by (by kk). by eapply passes_relies.
    + replace (pcs _ q) with p' by (by kk). pose proof (a_saved k Hs q Y_switch) as Hsv. revert Hr Hsv.
      destruct Hm; simpl; intros Hr Hsv.
      * apply (relies_idle k); [done|by apply (Hsv p)|done].
      * destruct r; try done.
    + replace (pcs _ q) with (PExit st X_dead) by (by kk). by destruct Hr.
    + replace (pcs _ q) with (PSleep ch r S_relock) by (by kk). done.
    + replace (pcs _ q) with (PFork (F_mem j)) by (by kk). done.
    + replace (pcs _ q) with (PUser (-1)) by (by kk). done.
    + replace (pcs _ q) with (PFork (F_release j)) by (by kk). done.
    + replace (pcs _ q) with (PFork (F_run j n)) by (by kk). done.
    + replace (pcs _ q) with (PWakeup (Proc (initproc k)) 0 (RReparent st (j + 1))) by (by kk).
      destruct Hr as [H1 H2]. split; [lia|]. split; [done|]. split; [done|]. intros j' Hj'. kk.
      destruct (decide (j = j')) as [<-|]; [simpl; congruence|]. apply H2. lia.
    + replace (pcs _ q) with (PExit st X_unwait) by (by kk). by destruct Hr.
  - destruct (other_thread c k k' q Hs Ha Hq) as [-> | [-> _]]; [|done]. apply (core_relies_stable c k); [done..|]. apply Hf.
Qed.

(** ** Zombies, parents and children *)
Lemma alive_step c k k' q :
  safe k -> family k -> act c k k' -> alive (state (procs k q)) = true ->
  alive (state (procs k' q)) = true \/ cx (cpus k c) = In q /\ exists st, pcs k q = PExit st X_zombie.
Proof.
  intros Hs Hf Ha Hq. destruct_act Ha; try (by left); kk; try (case_decide; [subst|by left]); try (by left).
  - left. destruct (section_state _ _ _ _ _ _ Hm) as [-> | [-> | (E & _)]]; [done..|]. by rewrite E in Hq.
  - left. by destruct Hm.
  - by rewrite Hst in Hq.
  - pose proof (a_used k Hs i q) as Hu. rewrite Hp in Hu. by rewrite (Hu eq_refl) in Hq.
  - right. split; [done|]. by exists st.
Qed.

Lemma child_range k j q : safe k -> family k -> parent (procs k j) = Some q -> 0 <= j < NPROC /\ 0 <= q < NPROC.
Proof.
  intros Hs Hf Hj. split; apply (a_range k Hs); intros E.
  - pose proof (b_unused k Hf j E). congruence.
  - pose proof (b_child k Hf j q Hj) as H. by rewrite E in H.
Qed.

Lemma family_child c k k' :
  safe k -> family k -> act c k k' -> forall j q, parent (procs k' j) = Some q -> alive (state (procs k' q)) = true.
Proof.
  intros Hs Hf Ha j q Hj. destruct (parent_step c k k' j q Hs Ha Hj) as [H|[(Hc & n & Hp & _)|(i & st & Hc & Hp & -> & Hp')]].
  - destruct (alive_step c k k' q Hs Hf Ha (b_child k Hf j q H)) as [|(Hc & st & Hp)]; [done|].
    pose proof (b_thr k Hf q) as Hr. rewrite Hp in Hr. destruct Hr as (_ & Hr & _).
    destruct (Hr j); [|done]. by apply (child_range k j q).
  - destruct (alive_step c k k' q Hs Hf Ha) as [|(_ & st & Hp')]; [|done|congruence].
    rewrite (on_running k c q Hs Hc); [done|by rewrite Hp].
  - destruct (alive_step c k k' (initproc k) Hs Hf Ha (b_init k Hf)) as [|(Hc' & st' & Hp1)]; [done|]. congruence.
Qed.

Lemma family_init_step c k k' : safe k -> family k -> act c k k' -> alive (state (procs k' (initproc k'))) = true.
Proof.
  intros Hs Hf Ha. rewrite (initproc_step c k k' Ha).
  destruct (alive_step c k k' (initproc k) Hs Hf Ha (b_init k Hf)) as [|(Hc & st & Hp)]; [done|].
  pose proof (b_thr k Hf (initproc k)) as Hr. rewrite Hp in Hr. by destruct Hr.
Qed.

Lemma family_unused c k k' :
  safe k -> family k -> act c k k' -> forall j, state (procs k' j) = UNUSED -> parent (procs k' j) = None.
Proof.
  intros Hs Hf Ha j0. pose proof (b_unused k Hf j0) as Hj0.
  destruct_act Ha; try done; kk; try (case_decide; [subst|done]); try done.
  - destruct Hm; try done.
    + unfold wake_if. destruct (_ && _); done.
    + unfold kill_it. destruct (bool_decide _); done.
  - by destruct Hm.
  - simpl. pose proof (a_used k Hs i j0) as Hu. rewrite Hp in Hu. by rewrite (Hu eq_refl).
  - simpl. intros Hu. rewrite (Hj0 Hu) in Hpa. done.
Qed.

(** The scan of a wakeup called by reparent goes on towards init. *)
Lemma reparent_scan c k k' e q n0 st0 m0 :
  safe k -> act c k k' -> pcs k e = PWakeup (Proc q) n0 (RReparent st0 m0) -> n0 <= q -> q < NPROC ->
  waiting k' q (Proc q) wait_lock -> waiting k q (Proc q) wait_lock ->
  exists n', pcs k' e = PWakeup (Proc q) n' (RReparent st0 m0) /\ n' <= q.
Proof.
  intros Hs Ha Hpe Hn Hq Hw' Hw.
  assert (Hqe : q <> e). { intros ->. revert Hw. apply running_not_waiting. by rewrite Hpe. }
  destruct (decide (cx (cpus k c) = In e)) as [He|He].
  - destruct_act Ha; rewrite He in Hc; try discriminate Hc; injection Hc as <-; try congruence; rewrite Hpe in Hm.
    + inversion Hm; subst; [lia|eexists; kk; split; [done|lia]|].
      pose proof (h_noff _ _ _ (on_hold k c e Hs He)) as Hh. rewrite Hpe, (Hy eq_refl) in Hh. done.
    + inversion Hm.
    + inversion Hm.
    + inversion Hm; subst. destruct (decide (j = q)) as [->|]; [|exists (j + 1); kk; split; [done|lia]].
      exfalso. revert Hw'. apply (woken_not_waiting k); [done..|by kk|]. kk. by case_decide.
    + inversion Hm.
    + inversion Hm.
  - exists n0. split; [|done]. destruct (other_thread c k k' e Hs Ha He) as [-> | [_ H]]; [done|]. by rewrite Hpe in H.
Qed.

Lemma family_zombie c k k' :
  safe k -> family k -> act c k k' -> forall j q,
  state (procs k' j) = ZOMBIE -> parent (procs k' j) = Some q -> waiting k' q (Proc q) wait_lock ->
  exists e n st m, pcs k' e = PWakeup (Proc q) n (RReparent st m) /\ n <= q.
Proof.
  intros Hs Hf Ha j q Hz Hj Hw'.
  destruct (waiting_step c k k' q (Proc q) wait_lock Hs Ha Hw') as [Hw|(Hc & Epr & r & Hp & Hr)].
  2: { exfalso. pose proof (b_thr k Hf q) as Ht. rewrite Hp in Ht. rewrite Epr in Hz, Hj.
       destruct (child_range k j q Hs Hf Hj) as [Hjr _].
       destruct r; try done. destruct Ht as [_ Ht]. by apply (Ht j). }
  destruct (zombie_step c k k' j Hs Ha Hz) as [Hz0|(Hc & st & Hp & Hpar & _)].
  2: { exfalso. pose proof (b_thr k Hf j) as Ht. rewrite Hp in Ht. destruct Ht as (_ & _ & Ht).
       rewrite Hpar in Hj. apply (Ht q); [done| |done]. by apply (child_range k j q). }
  destruct (parent_step c k k' j q Hs Ha Hj) as [Hj0|[(Hc & n & Hp & Hp')|(i & st & Hc & Hp & Hq & Hp')]].
  - destruct (b_zombie k Hf j q Hz0 Hj0 Hw) as (e & n & st & m & He & Hn).
    destruct (child_range k j q Hs Hf Hj0) as [_ Hqr].
    destruct (reparent_scan c k k' e q n st m) as (n' & H1 & H2); [done..|lia|done|done|]. by exists e, n', st, m.
  - exfalso. unfold waiting in Hw. by rewrite Hp in Hw.
  - exists i, 0, st, (j + 1). split; [done|]. rewrite Hq.
    assert (0 <= initproc k < NPROC); [|lia]. apply (a_range k Hs). intros E. pose proof (b_init k Hf) as H. by rewrite E in H.
Qed.

Lemma family_step c k k' : safe k -> family k -> act c k k' -> family k'.
Proof.
  intros Hs Hf Ha. split.
  - by apply (family_thr c k).
  - by apply (family_zombie c k).
  - by apply (family_child c k).
  - by apply (family_init_step c k).
  - by apply (family_unused c k).
Qed.

(** ** Process ids *)
Record pids_ok k : Prop := {
  pid_next : 0 < nextpid k;
  pid_range j : state (procs k j) <> UNUSED -> 0 < pid (procs k j) < nextpid k;
  pid_inj j j' : state (procs k j) <> UNUSED -> state (procs k j') <> UNUSED ->
    pid (procs k j) = pid (procs k j') -> j = j'
}.

Lemma pid_step c k k' q :
  safe k -> act c k k' -> state (procs k' q) <> UNUSED ->
  state (procs k q) <> UNUSED /\ pid (procs k' q) = pid (procs k q) /\ nextpid k <= nextpid k' \/
  pid (procs k' q) = nextpid k /\ nextpid k' = nextpid k + 1 /\ exists i, cx (cpus k c) = In i /\ pcs k i = PFork (F_test q).
Proof.
  intros Hs Ha. destruct_act Ha; try (by left); kk; try (case_decide; [subst|intros; left; by repeat split; try lia]).
  all: try (intros; left; repeat split; try done; simpl in *; congruence).
  - intros H. left. pose proof (a_used k Hs i q) as Hu. destruct Hm; try done.
    + unfold wake_if in *. destruct (_ && _) eqn:E; [|by repeat split]. apply andb_prop in E as [E _].
      apply bool_decide_eq_true in E. repeat split; [congruence|done..].
    + unfold kill_it in *. destruct (bool_decide _) eqn:E; [|by repeat split].
      apply bool_decide_eq_true in E. repeat split; [congruence|done..].
    + repeat split; [by rewrite (Hu eq_refl)|done..].
  - intros H. left. pose proof (on_running k c q Hs Hc (switches_dying _ _ _ _ Hm)) as Hr.
    repeat split; [congruence| |done]. by destruct Hm.
  - intros H. right. split; [done|]. split; [done|]. by exists i.
  - intros H. left. pose proof (on_running k c q Hs Hc) as Hr. rewrite Hp in Hr. repeat split; [by rewrite Hr|done].
Qed.

Lemma pids_step c k k' : safe k -> pids_ok k -> act c k k' -> pids_ok k'.
Proof.
  intros Hs [H0 H1 H2] Ha. split.
  - destruct_act Ha; ks; lia.
  - intros q Hq. destruct (pid_step c k k' q Hs Ha Hq) as [(H3 & -> & H4)|(-> & -> & i & Hc & Hp)].
    + specialize (H1 q H3). lia.
    + lia.
  - intros q q' Hq Hq'. destruct (pid_step c k k' q Hs Ha Hq) as [(H3 & -> & H4)|(-> & _ & i & Hc & Hp)];
      destruct (pid_step c k k' q' Hs Ha Hq') as [(H3' & -> & H4')|(-> & _ & i' & Hc' & Hp')].
    + by apply H2.
    + specialize (H1 q H3). lia.
    + specialize (H1 q' H3'). lia.
    + congruence.
Qed.

Lemma family_reachable k : rtc step userinit k -> safe k /\ family k /\ pids_ok k.
Proof.
  assert (H : forall k0 k1, rtc step k0 k1 -> safe k0 /\ family k0 /\ pids_ok k0 -> safe k1 /\ family k1 /\ pids_ok k1).
  { induction 1 as [|k0 k1 k2 [x c k0' k1' _ Hx] _ IH]; [done|]. intros (Hs & Hf & Hp). apply scheduler_act in Hx.
    apply IH. split; [by apply (safe_step c k0')|]. split; [by apply (family_step c k0')|by apply (pids_step c k0')]. }
  intros Hr. apply (H userinit); [done|]. split; [apply safe_init|]. split; [apply family_init|].
  split; [done|..]; simpl.
  - intros j. rewrite ins_case. by case_decide.
  - intros j j'. rewrite !ins_case. by repeat case_decide; subst.
Qed.

(** ** Claims *)

(** C6: no wakeup is lost: when wakeup(chan) has gone through the
    process table, no process that gave up the lock held around the call in
    order to sleep on chan is asleep, or on its way to sleep, on chan. *)
Theorem wakeup_complete k e ch n r q :
  rtc step userinit k -> pcs k e = PWakeup ch n r -> NPROC <= n -> ~ waiting k q ch (ret_lock r).
Proof.
  intros Hk Hp Hn Hw. destruct (family_reachable k Hk) as (Hs & Hf & _).
  pose proof (b_thr k Hf e) as Hr. rewrite Hp in Hr. destruct Hr as [Hr _]. apply (Hr q); [|done].
  assert (0 <= q < NPROC); [|lia]. apply (a_range k Hs). intros E. pose proof (a_st k Hs q) as Hst.
  unfold st_ok in Hst. rewrite E in Hst. unfold waiting in Hw. by destruct (pcs k q).
Qed.

(** C7: no exit is lost: while wait_lock is free, a process asleep in
    wait has no exited child; and every process whose parent is set has a
    parent that has not exited, so somebody can wait for it. *)
Theorem wait_no_lost_exit k j q :
  rtc step userinit k -> parent (procs k j) = Some q ->
  alive (state (procs k q)) = true /\
  (locks k wait_lock = None -> state (procs k q) = SLEEPING -> pcs k q = PSleep (Proc q) RWait S_tidy ->
   state (procs k j) <> ZOMBIE).
Proof.
  intros Hk Hj. destruct (family_reachable k Hk) as (Hs & Hf & _). split; [by apply (b_child k Hf j)|].
  intros Hl Hst Hp Hz. destruct (b_zombie k Hf j q Hz Hj) as (e & n & st & m & He & _).
  { unfold waiting. by rewrite Hp. }
  destruct (held_on k e wait_lock Hs) as (c & Hc & _); [rewrite He; set_solver|done|]. congruence.
Qed.

(** The ids of the processes in use are positive and distinct. *)
Theorem pids_unique k j j' :
  rtc step userinit k -> state (procs k j) <> UNUSED -> state (procs k j') <> UNUSED ->
  0 < pid (procs k j) < nextpid k /\ (pid (procs k j) = pid (procs k j') -> j = j').
Proof. intros Hk Hj Hj'. destruct (family_reachable k Hk) as (_ & _ & [_ H1 H2]). auto. Qed.

(** init has forked and is asleep in wait. *)
Definition family_run : list (input * Z) :=
  replicate 3 (IGo, 0) ++ [(IFork, 0)] ++ replicate 9 (IGo, 0) ++ [(IWait, 0)] ++ replicate 71 (IGo, 0).
Definition family_demo : kst := exec family_run userinit.

Lemma family_demo_reachable : rtc step userinit family_demo.
Proof. apply exec_rtc. by repeat constructor. Qed.

Lemma wait_no_lost_exit_witness : parent (procs family_demo 1) = Some 0 /\ state (procs family_demo 1) <> ZOMBIE.
Proof.
  assert (E : parent (procs family_demo 1) = Some 0) by by vm_compute.
  destruct (wait_no_lost_exit family_demo 1 0 family_demo_reachable E) as [_ H].
  split; [done|]. apply H; by vm_compute.
Defined.

Lemma pids_unique_witness : pid (procs family_demo 0) <> pid (procs family_demo 1).
Proof.
  destruct (pids_unique family_demo 0 1 family_demo_reachable) as [_ H]; [by vm_compute..|]. intros E. discriminate (H E).
Defined.

(** init has taken the lock of an object and is at the end of a wakeup. *)
Definition wakeup_demo : kst :=
  exec (replicate 3 (IGo, 0) ++ [(ILock 7, 0); (IGo, 0); (IWakeup 5, 0)] ++ replicate 64 (IGo, 0)) userinit.

Lemma wakeup_complete_witness : ~ waiting wakeup_demo 3 (Obj 5) (ObjLock 7).
Proof.
  apply (wakeup_complete wakeup_demo 0 (Obj 5) 64 (RBody 7)); [|by vm_compute|done].
  apply exec_rtc. by repeat constructor.
Defined.

(** kill(0) finds an unused slot, whose pid is 0, marks it as killed
    and reports success; the mark is never cleared, so the next process forked
    into the slot is killed before it runs. *)
Theorem kill_zero_kills_next_child :
  let k1 := exec (replicate 3 (IGo, 0) ++ [(IKill 0, 0); (IGo, 0); (IGo, 0)]) userinit in
  let k2 := exec ([(IFork, 0)] ++ replicate 9 (IGo, 0)) k1 in
  (pcs k1 0 = PUser 0 /\ state (procs k1 1) = UNUSED) /\
  (pcs k2 0 = PUser 2 /\ procs k2 1 = mkproc RUNNABLE Null 1 0 2 (Some 0)).
Proof. by vm_compute. Qed.
