(* ===== verification/Printf.v ===== *)
(** kernel/printf.c and user/printf.c: formatted output, as the list of the
    characters that are sent to the console or to the file.

    [None] stands for undefined behaviour: a write past the end of [buf], the
    negation of the least [long long], a missing argument, an unterminated
    loop.  An argument is the 64-bit word it is passed in; [str] gives the
    string a pointer points to. *)

From S2P Require Import Prelude.

Definition ch (c : string) : Z :=
  match c with String a _ => Z.of_nat (Ascii.nat_of_ascii a) | EmptyString => 0 end.
Fixpoint chars (s : string) : list Z :=
  match s with String a s' => Z.of_nat (Ascii.nat_of_ascii a) :: chars s' | EmptyString => [] end.

(** ** Numbers *)
Definition BUF : Z := 20.

(** The loop that fills [buf], least significant digit first. *)
Fixpoint digits_loop (fuel : nat) (digits buf : list Z) (x base : Z) : option (list Z) :=
  match fuel with
  | O => None
  | S fuel' =>
      if BUF <=? Z.of_nat (length buf) then None else
      let buf' := buf ++ [nth (Z.to_nat (x mod base)) digits 0] in
      if x / base =? 0 then Some buf' else digits_loop fuel' digits buf' (x / base) base
  end.

(** [if(sign) buf[i++] = '-'; while(--i >= 0) putc(buf[i])] *)
Definition flush (neg : bool) (buf : list Z) : option (list Z) :=
  if neg then if BUF <=? Z.of_nat (length buf) then None else Some (ch "-" :: rev buf) else Some (rev buf).

Definition ptr_digits (digits : list Z) (x : Z) : list Z :=
  (fun k => nth (Z.to_nat (Z.shiftr (u64 (Z.shiftl x (4 * k))) 60)) digits 0) <$> seqZ 0 16.

(** An argument read as an int, and one read as a uint64 and passed as a long long. *)
Definition as_int (a : Z) : Z := i32 a.
Definition as_long (a : Z) : Z := i64 (u64 a).

Definition at_ (fmt : list Z) (i : Z) : Z := nth (Z.to_nat i) fmt 0.

(** The text of the directive at c0, c1, c2, the arguments left, and how many
    characters it takes beyond c0. *)
Definition directive (printint : Z -> Z -> bool -> option (list Z)) (printptr : Z -> list Z) (str : Z -> list Z)
    (c0 c1 c2 : Z) (args : list Z) : option (list Z * list Z * Z) :=
  let int base sign k := a ← head args; o ← printint (as_int a) base sign; Some (o, tail args, k) in
  let long base sign k := a ← head args; o ← printint (as_long a) base sign; Some (o, tail args, k) in
  if c0 =? ch "d" then int 10 true 0
  else if (c0 =? ch "l") && (c1 =? ch "d") then long 10 true 1
  else if (c0 =? ch "l") && (c1 =? ch "l") && (c2 =? ch "d") then long 10 true 2
  else if c0 =? ch "u" then int 10 false 0
  else if (c0 =? ch "l") && (c1 =? ch "u") then long 10 false 1
  else if (c0 =? ch "l") && (c1 =? ch "l") && (c2 =? ch "u") then long 10 false 2
  else if c0 =? ch "x" then int 16 false 0
  else if (c0 =? ch "l") && (c1 =? ch "x") then long 16 false 1
  else if (c0 =? ch "l") && (c1 =? ch "l") && (c2 =? ch "x") then long 16 false 2
  else if c0 =? ch "p" then a ← head args; Some (printptr (u64 a), tail args, 0)
  else if c0 =? ch "s" then a ← head args; Some (if a =? 0 then chars "(null)" else str a, tail args, 0)
  else if c0 =? ch "%" then Some (chars "%", args, 0)
  else Some ([ch "%"; c0], args, 0).

Module Kernel.
Definition digits : list Z := chars "0123456789abcdef".

Definition printint (xx base : Z) (sign : bool) : option (list Z) :=
  let sign := sign && (xx <? 0) in
  if sign && (xx =? - 2 ^ 63) then None else
  let x := if sign then - xx else u64 xx in
  buf ← digits_loop 21 digits [] x base; flush sign buf.

Definition printptr (x : Z) : list Z := chars "0x" ++ ptr_digits digits x.

Section str.
Context (str : Z -> list Z).

Fixpoint printf_loop (fuel : nat) (fmt : list Z) (i : Z) (args : list Z) : option (list Z) :=
  match fuel with
  | O => None
  | S fuel' =>
      let cx := at_ fmt i in
      if cx =? 0 then Some [] else
      if negb (cx =? ch "%") then o ← printf_loop fuel' fmt (i + 1) args; Some (cx :: o) else
      let i := i + 1 in
      let c0 := at_ fmt i in
      let c1 := if c0 =? 0 then 0 else at_ fmt (i + 1) in
      let c2 := if c1 =? 0 then 0 else at_ fmt (i + 2) in
      if c0 =? 0 then Some [] else
      '(o, args', k) ← directive printint printptr str c0 c1 c2 args;
      o' ← printf_loop fuel' fmt (i + k + 1) args'; Some (o ++ o')
  end.

Definition printf (fmt args : list Z) : option (list Z) := printf_loop (S (length fmt)) fmt 0 args.

(** What panic prints. *)
Definition panic_text (s : Z) : option (list Z) :=
  o ← printf (chars "panic: ") []; o' ← printf (chars "%s" ++ [10]) [s]; Some (o ++ o').
End str.
End Kernel.

Module User.
Definition digits : list Z := chars "0123456789ABCDEF".

Definition printint (xx base : Z) (sgn : bool) : option (list Z) :=
  let neg := sgn && (xx <? 0) in
  if neg && (xx =? - 2 ^ 63) then None else
  let x := u32 (if neg then - xx else xx) in
  buf ← digits_loop 21 digits [] x base; flush neg buf.

Definition printptr (x : Z) : list Z := chars "0x" ++ ptr_digits digits x.

Section str.
Context (str : Z -> list Z).

(** [state] tells whether the last character was a percent sign. *)
Fixpoint vprintf_loop (fuel : nat) (fmt : list Z) (i : Z) (state : bool) (args : list Z) : option (list Z) :=
  match fuel with
  | O => None
  | S fuel' =>
      let c0 := at_ fmt i in
      if c0 =? 0 then Some [] else
      if negb state then
        if c0 =? ch "%" then vprintf_loop fuel' fmt (i + 1) true args
        else o ← vprintf_loop fuel' fmt (i + 1) false args; Some (c0 :: o)
      else
        let c1 := if c0 =? 0 then 0 else at_ fmt (i + 1) in
        let c2 := if c1 =? 0 then 0 else at_ fmt (i + 2) in
        '(o, args', k) ← directive printint printptr str c0 c1 c2 args;
        o' ← vprintf_loop fuel' fmt (i + k + 1) false args'; Some (o ++ o')
  end.

Definition vprintf (fmt args : list Z) : option (list Z) := vprintf_loop (S (length fmt)) fmt 0 false args.
End str.

(** atoi of user/ulib.c; [None] when the number does not fit an int. *)
Fixpoint atoi_loop (n : Z) (s : list Z) : option Z :=
  match s with
  | c :: s' =>
      if (ch "0" <=? c) && (c <=? ch "9") then
        let n' := n * 10 + (c - ch "0") in
        if 2 ^ 31 <=? n' then None else atoi_loop n' s'
      else Some n
  | [] => Some n
  end.
Definition atoi (s : list Z) : option Z := atoi_loop 0 s.
End User.

(** ** Formats *)
Inductive conv : Type := Cd | Cu | Cx.
Definition conv_char (v : conv) : Z := match v with Cd => ch "d" | Cu => ch "u" | Cx => ch "x" end.
Definition conv_base (v : conv) : Z := match v with Cx => 16 | _ => 10 end.
Definition conv_sign (v : conv) : bool := match v with Cd => true | _ => false end.

(** A character, a number with 0, 1 or 2 letters l before the conversion, a
    pointer, a string, a percent sign, an unknown directive. *)
Inductive piece : Type :=
| Lit (c : Z) | Num (l : nat) (v : conv) (a : Z) | Ptr (a : Z) | Str (a : Z) | Percent | Unknown (c : Z).

Definition piece_ok (p : piece) : Prop :=
  match p with
  | Lit c => c <> 0 /\ c <> ch "%"
  | Num l _ _ => (l <= 2)%nat
  | Unknown c => c ∉ 0 :: chars "dluxps%"
  | _ => True
  end.

Definition text (p : piece) : list Z :=
  match p with
  | Lit c => [c]
  | Num l v _ => ch "%" :: replicate l (ch "l") ++ [conv_char v]
  | Ptr _ => chars "%p" | Str _ => chars "%s" | Percent => chars "%%" | Unknown c => [ch "%"; c]
  end.

Definition piece_args (p : piece) : list Z :=
  match p with Num _ _ a | Ptr a | Str a => [a] | _ => [] end.

Section output.
Context (pint : Z -> Z -> bool -> option (list Z)) (pptr : Z -> list Z) (str : Z -> list Z).

Definition output (p : piece) : option (list Z) :=
  match p with
  | Lit c => Some [c]
  | Num l v a => pint (if (l =? 0)%nat then as_int a else as_long a) (conv_base v) (conv_sign v)
  | Ptr a => Some (pptr (u64 a))
  | Str a => Some (if a =? 0 then chars "(null)" else str a)
  | Percent => Some [ch "%"]
  | Unknown c => Some [ch "%"; c]
  end.

Fixpoint outputs (ps : list piece) : option (list Z) :=
  match ps with [] => Some [] | p :: ps' => o ← output p; o' ← outputs ps'; Some (o ++ o') end.

(** The directive of a piece, whatever follows it. *)
Lemma directive_piece p rest args :
  piece_ok p -> (forall c, p <> Lit c) ->
  exists c0 t, text p = ch "%" :: c0 :: t /\ c0 <> 0 /\
    (let c1 := at_ (t ++ rest) 0 in let c2 := if c1 =? 0 then 0 else at_ (t ++ rest) 1 in
     directive pint pptr str c0 c1 c2 (piece_args p ++ args) =
       o ← output p; Some (o, args, Z.of_nat (length t))).
Proof.
  intros Hp Hl. destruct p as [c|l v a|a|a| |c]; [by destruct (Hl c)|..].
  - simpl in Hp. destruct l as [|[|[|l]]]; [| | |lia]; destruct v; eexists _, _; (split; [reflexivity|]); (split; [done|]); simpl;
      reflexivity.
  - eexists _, []. by split.
  - eexists _, []. by split.
  - eexists _, []. by split.
  - exists c, []. split; [done|]. simpl in Hp. split; [set_solver|]. unfold directive.
    repeat match goal with |- context [c =? ?d] => replace (c =? d) with false by (symmetry; apply Z.eqb_neq; intros ->; vm_compute in Hp; set_solver) end.
    done.
Qed.
End output.

Lemma at_app pre l i k : i = Z.of_nat (length pre) + k -> 0 <= k -> at_ (pre ++ l) i = at_ l k.
Proof. intros -> Hk. unfold at_. rewrite app_nth2 by lia. f_equal. lia. Qed.

(** The format and the arguments of a list of pieces. *)
Definition texts (ps : list piece) : list Z := flat_map text ps.
Definition all_args (ps : list piece) : list Z := flat_map piece_args ps.

Lemma text_length p : (1 <= length (text p))%nat.
Proof. destruct p; simpl; lia. Qed.

Lemma piece_cases p : (exists c, p = Lit c) \/ forall c, p <> Lit c.
Proof. destruct p; [left; eauto|right; done..]. Qed.

Lemma texts_cons p ps : texts (p :: ps) = text p ++ texts ps.
Proof. done. Qed.
Lemma all_args_cons p ps : all_args (p :: ps) = piece_args p ++ all_args ps.
Proof. done. Qed.

Lemma printf_pieces str fuel pre ps i :
  Forall piece_ok ps -> (length (texts ps) < fuel)%nat -> i = Z.of_nat (length pre) ->
  Kernel.printf_loop str fuel (pre ++ texts ps) i (all_args ps) = outputs Kernel.printint Kernel.printptr str ps.
Proof.
  revert pre ps i; induction fuel as [|fuel IH]; intros pre ps i Hps Hf ->; [lia|]. cbn [Kernel.printf_loop].
  destruct ps as [|p ps]; [by rewrite (at_app pre _ _ 0) by lia|]. apply Forall_cons in Hps as [Hp Hps].
  rewrite texts_cons, length_app in Hf. pose proof (text_length p) as Hl. rewrite texts_cons.
  destruct (piece_cases p) as [[c ->]|Hn].
  - destruct Hp as [H0 H1]. rewrite (at_app pre _ _ 0) by lia. change (at_ (text (Lit c) ++ texts ps) 0) with c.
    rewrite (proj2 (Z.eqb_neq _ _) H0), (proj2 (Z.eqb_neq _ _) H1). cbn [negb].
    rewrite all_args_cons. cbn [piece_args app]. rewrite app_assoc, (IH (pre ++ text (Lit c))); [done|done|lia|]. rewrite length_app. simpl. lia.
  - destruct (directive_piece Kernel.printint Kernel.printptr str p (texts ps) (all_args ps) Hp Hn) as (c0 & t & Et & H0 & Hd).
    rewrite all_args_cons. rewrite Et in *. rewrite (at_app pre _ _ 0), (at_app pre _ _ 1), (at_app pre _ _ 2), (at_app pre _ _ 3) by lia.
    change (at_ ((ch "%" :: c0 :: t) ++ texts ps) 0) with (ch "%"). change (at_ ((ch "%" :: c0 :: t) ++ texts ps) 1) with c0.
    change (at_ ((ch "%" :: c0 :: t) ++ texts ps) 2) with (at_ (t ++ texts ps) 0).
    change (at_ ((ch "%" :: c0 :: t) ++ texts ps) 3) with (at_ (t ++ texts ps) 1).
    rewrite (proj2 (Z.eqb_neq _ _) H0). change (ch "%" =? 0) with false. cbn [negb Z.eqb]. rewrite Z.eqb_refl. cbn [negb].
    cbn zeta in Hd. rewrite Hd. cbn [outputs]. destruct (output _ _ _ p) as [o|]; [|done]. cbv beta iota delta [mbind option_bind].
    rewrite (app_assoc pre).
    rewrite (IH (pre ++ ch "%" :: c0 :: t)); [done|done|simpl in Hf; lia|]. rewrite length_app. simpl. lia.
Qed.

Lemma vprintf_pieces str fuel pre ps i :
  Forall piece_ok ps -> (length (texts ps) < fuel)%nat -> i = Z.of_nat (length pre) ->
  User.vprintf_loop str fuel (pre ++ texts ps) i false (all_args ps) = outputs User.printint User.printptr str ps.
Proof.
  remember fuel as n eqn:En. revert fuel En pre ps i.
  induction n as [n IH] using lt_wf_ind; intros fuel En pre ps i Hps Hf ->. destruct n as [|n]; [lia|]. cbn [User.vprintf_loop].
  destruct ps as [|p ps]; [by rewrite (at_app pre _ _ 0) by lia|]. apply Forall_cons in Hps as [Hp Hps].
  rewrite texts_cons, length_app in Hf. pose proof (text_length p) as Hl. rewrite texts_cons.
  destruct (piece_cases p) as [[c ->]|Hn].
  - destruct Hp as [H0 H1]. rewrite (at_app pre _ _ 0) by lia. change (at_ (text (Lit c) ++ texts ps) 0) with c.
    rewrite (proj2 (Z.eqb_neq _ _) H0), (proj2 (Z.eqb_neq _ _) H1). cbn [negb].
    rewrite all_args_cons. cbn [piece_args app]. rewrite app_assoc, (IH n ltac:(lia) n eq_refl (pre ++ text (Lit c))); [done|done|lia|].
    rewrite length_app. simpl. lia.
  - destruct (directive_piece User.printint User.printptr str p (texts ps) (all_args ps) Hp Hn) as (c0 & t & Et & H0 & Hd).
    rewrite all_args_cons. rewrite Et in *. rewrite (at_app pre _ _ 0) by lia.
    change (at_ ((ch "%" :: c0 :: t) ++ texts ps) 0) with (ch "%"). change (ch "%" =? 0) with false. rewrite Z.eqb_refl. cbn [negb].
    destruct n as [|n]; [simpl in Hf; lia|]. cbn [User.vprintf_loop].
    rewrite (at_app pre _ _ 1), (at_app pre _ _ 2), (at_app pre _ _ 3) by lia.
    change (at_ ((ch "%" :: c0 :: t) ++ texts ps) 1) with c0.
    change (at_ ((ch "%" :: c0 :: t) ++ texts ps) 2) with (at_ (t ++ texts ps) 0).
    change (at_ ((ch "%" :: c0 :: t) ++ texts ps) 3) with (at_ (t ++ texts ps) 1).
    rewrite (proj2 (Z.eqb_neq _ _) H0). cbn [negb].
    cbn zeta in Hd. rewrite Hd. cbn [outputs]. destruct (output _ _ _ p) as [o|]; [|done]. cbv beta iota delta [mbind option_bind].
    rewrite (app_assoc pre).
    rewrite (IH n ltac:(lia) n eq_refl (pre ++ ch "%" :: c0 :: t)); [done|done|simpl in Hf; lia|]. rewrite length_app. simpl. lia.
Qed.

(** ** Digits *)

(** The number with the digits [ds], least significant first. *)
Definition num (base : Z) (ds : list Z) : Z := foldr (fun d acc => d + base * acc) 0 ds.

Definition glyph (digits : list Z) (d : Z) : Z := nth (Z.to_nat d) digits 0.

Lemma digits_loop_spec n fuel digits buf x base :
  2 <= base -> 0 <= x < base ^ Z.of_nat n -> (1 <= n <= fuel)%nat -> Z.of_nat (length buf) + Z.of_nat n <= BUF ->
  exists ds, digits_loop fuel digits buf x base = Some (buf ++ (glyph digits <$> ds)) /\
    (1 <= length ds <= n)%nat /\ Forall (fun d => 0 <= d < base) ds /\ num base ds = x.
Proof.
  revert fuel buf x. induction n as [|n IH]; intros fuel buf x Hb Hx Hn Hl; [lia|].
  destruct fuel as [|fuel]; [lia|]. cbn [digits_loop]. destruct (Z.leb_spec BUF (Z.of_nat (length buf))); [lia|].
  pose proof (Z.mod_pos_bound x base). pose proof (Z.div_mod x base).
  destruct (Z.eqb_spec (x / base) 0) as [E|E].
  - exists [x mod base]. split; [done|]. simpl. split; [lia|]. split; [by constructor; [lia|]|]. unfold num. simpl. lia.
  - assert (Hq : 0 <= x / base < base ^ Z.of_nat n).
    { split; [apply Z.div_pos; lia|]. apply Z.div_lt_upper_bound; [lia|].
      rewrite <- Z.pow_succ_r by lia. replace (Z.succ (Z.of_nat n)) with (Z.of_nat (S n)) by lia. lia. }
    assert (Hn1 : (1 <= n)%nat). { destruct n; [|lia]. simpl in Hq. lia. }
    destruct (IH fuel (buf ++ [nth (Z.to_nat (x mod base)) digits 0]) (x / base)) as (ds & E1 & H2 & H3 & H4);
      [done|done|lia|rewrite length_app; simpl; lia|].
    exists (x mod base :: ds). rewrite E1, <- app_assoc. split; [done|]. simpl. split; [lia|].
    split; [by constructor; [lia|]|]. unfold num in *. simpl. lia.
Qed.

(** The same for the whole width: at most 20 decimal and 16 hexadecimal digits. *)
Lemma digits_u64 digits x base :
  0 <= x < 2 ^ 64 -> base = 10 \/ base = 16 ->
  exists ds, digits_loop 21 digits [] x base = Some (glyph digits <$> ds) /\
    (1 <= length ds <= 20)%nat /\ Forall (fun d => 0 <= d < base) ds /\ num base ds = x.
Proof.
  intros Hx Hb. apply (digits_loop_spec 20 21 digits []); [lia| |lia|done].
  split; [lia|]. destruct Hb as [-> | ->]; simpl; lia.
Qed.

(** Fewer digits for the numbers that can have a sign. *)
Lemma digits_i64 digits x base :
  0 <= x < 2 ^ 63 -> base = 10 \/ base = 16 ->
  exists ds, digits_loop 21 digits [] x base = Some (glyph digits <$> ds) /\
    (1 <= length ds <= 19)%nat /\ Forall (fun d => 0 <= d < base) ds /\ num base ds = x.
Proof.
  intros Hx Hb. apply (digits_loop_spec 19 21 digits []); [lia| |lia|done].
  split; [lia|]. destruct Hb as [-> | ->]; simpl; lia.
Qed.

Lemma num_app base ds d : num base (ds ++ [d]) = num base ds + base ^ Z.of_nat (length ds) * d.
Proof.
  induction ds as [|e ds IH]; [unfold num; simpl; lia|]. unfold num in *. cbn [app foldr length]. rewrite IH.
  rewrite Nat2Z.inj_succ, Z.pow_succ_r by lia. ring.
Qed.

Lemma num_nonneg base ds : 0 < base -> Forall (fun d => 0 <= d < base) ds -> 0 <= num base ds.
Proof. intros Hb H. induction H; unfold num in *; simpl; nia. Qed.

(** Decimal digits look the same in both tables, and atoi reads them. *)
Lemma glyph_dec digits d :
  digits = Kernel.digits \/ digits = User.digits -> 0 <= d < 10 -> glyph digits d = ch "0" + d.
Proof.
  intros Hd H. assert (Hc : d ∈ seqZ 0 10) by (apply elem_of_seqZ; lia).
  assert (Hall : Forall (fun d => glyph Kernel.digits d = ch "0" + d /\ glyph User.digits d = ch "0" + d) (seqZ 0 10)) by (vm_compute; repeat constructor).
  rewrite Forall_forall in Hall. destruct (Hall d Hc). by destruct Hd as [-> | ->].
Qed.

Lemma atoi_digits ds n :
  Forall (fun d => 0 <= d < 10) ds -> 0 <= n -> n * 10 ^ Z.of_nat (length ds) + num 10 ds < 2 ^ 31 ->
  User.atoi_loop n (rev ((fun d => ch "0" + d) <$> ds)) = Some (n * 10 ^ Z.of_nat (length ds) + num 10 ds).
Proof.
  revert n. induction ds as [|d ds IH] using rev_ind; intros n Hds Hn Hlt; [simpl in *; f_equal; unfold num; simpl; lia|].
  apply Forall_app in Hds as [Hds Hd]. apply Forall_inv in Hd.
  rewrite num_app, length_app in *. simpl length in *. rewrite fmap_app, rev_app_distr. cbn [fmap list_fmap rev app].
  pose proof (num_nonneg 10 ds ltac:(lia) Hds) as H0.
  assert (Hp : 10 ^ Z.of_nat (length ds + 1) = 10 * 10 ^ Z.of_nat (length ds)).
  { replace (Z.of_nat (length ds + 1)) with (Z.succ (Z.of_nat (length ds))) by lia. by rewrite Z.pow_succ_r by lia. }
  pose proof (Z.pow_pos_nonneg 10 (Z.of_nat (length ds))) as Hpp. cbn [User.atoi_loop].
  assert (H1 : (ch "0" <=? ch "0" + d) && (ch "0" + d <=? ch "9") = true) by (change (ch "0") with 48; change (ch "9") with 57; lia).
  rewrite H1. replace (n * 10 + (ch "0" + d - ch "0")) with (n * 10 + d) by lia.
  destruct (Z.leb_spec (2 ^ 31) (n * 10 + d)); [nia|]. rewrite (IH (n * 10 + d)); [f_equal; nia|done|lia|nia].
Qed.

Lemma fmap_glyph_dec digits ds :
  digits = Kernel.digits \/ digits = User.digits -> Forall (fun d => 0 <= d < 10) ds ->
  glyph digits <$> ds = (fun d => ch "0" + d) <$> ds.
Proof. intros Hd H. apply list_fmap_ext. intros i d Hi. apply glyph_dec; [done|]. by eapply Forall_lookup in H. Qed.

(** A number that fits an int, printed in decimal: both printers agree. *)
Lemma printint_dec x :
  0 <= x < 2 ^ 31 ->
  exists ds, Forall (fun d => 0 <= d < 10) ds /\ num 10 ds = x /\ (1 <= length ds <= 19)%nat /\
    digits_loop 21 Kernel.digits [] x 10 = Some ((fun d => ch "0" + d) <$> ds) /\
    digits_loop 21 User.digits [] x 10 = Some ((fun d => ch "0" + d) <$> ds).
Proof.
  intros Hx. destruct (digits_i64 Kernel.digits x 10) as (ds & E & Hl & Hd & Hn); [lia|by left|].
  exists ds. split; [done|]. split; [done|]. split; [done|].
  assert (Hk : digits_loop 21 Kernel.digits [] x 10 = Some ((fun d => ch "0" + d) <$> ds)).
  { rewrite E. f_equal. by apply fmap_glyph_dec; [left|]. }
  split; [done|]. rewrite <- Hk. clear -Hx. generalize 21%nat, (@nil Z). intros fuel. revert x Hx.
  induction fuel as [|fuel IH]; intros x Hx buf; [done|]. cbn [digits_loop]. destruct (BUF <=? _); [done|].
  pose proof (Z.mod_pos_bound x 10 ltac:(lia)). pose proof (Z.div_mod x 10 ltac:(lia)).
  assert (Hg : nth (Z.to_nat (x mod 10)) User.digits 0 = nth (Z.to_nat (x mod 10)) Kernel.digits 0).
  { transitivity (ch "0" + x mod 10); [|symmetry]; apply glyph_dec; auto. }
  rewrite Hg. destruct (x / 10 =? 0); [done|]. apply IH. lia.
Qed.

(** An int printed with %d is read back by atoi: both printf
    routines print the same decimal digits, with a minus sign before those of a
    negative number, and atoi of the digits is the absolute value. *)
Theorem printint_roundtrip xx :
  - 2 ^ 31 < xx < 2 ^ 31 ->
  exists s, Kernel.printint xx 10 true = Some s /\ User.printint xx 10 true = Some s /\
    (if xx <? 0 then exists s', s = ch "-" :: s' /\ User.atoi s' = Some (- xx) else User.atoi s = Some xx).
Proof.
  intros Hx. unfold Kernel.printint, User.printint, User.atoi. cbn [andb].
  destruct (printint_dec (Z.abs xx)) as (ds & Hd & Hn & Hl & Ek & Eu); [lia|].
  assert (Ha : User.atoi_loop 0 (rev ((fun d => ch "0" + d) <$> ds)) = Some (Z.abs xx)).
  { rewrite atoi_digits; [by f_equal; lia|done|lia|lia]. }
  destruct (Z.ltb_spec xx 0).
  - destruct (Z.eqb_spec xx (- 2 ^ 63)); [lia|]. replace (- xx) with (Z.abs xx) by lia. rewrite u32_small by lia.
    rewrite Ek, Eu. simpl. unfold flush, BUF. rewrite length_fmap. destruct (Z.leb_spec 20 (Z.of_nat (length ds))); [lia|].
    eexists. split; [done|]. split; [done|]. eexists. by split.
  - cbn [andb]. rewrite u32_small, u64_small by lia. replace (Z.abs xx) with xx in * by lia. rewrite Ek, Eu. cbn [mbind option_bind flush]. eauto.
Qed.

Lemma printint_roundtrip_witness :
  exists s, Kernel.printint (-104) 10 true = Some s /\ User.printint (-104) 10 true = Some s /\ s = chars "-104".
Proof.
  destruct (printint_roundtrip (-104)) as (s & H1 & H2 & _); [lia|]. exists s. split; [done|]. split; [done|].
  vm_compute in H1. by injection H1 as <-.
Defined.

(** The kernel's printint never writes past the end of its 20-byte
    buffer: it prints every 64-bit number, in base 10 or 16, with or without
    sign, except the least one, whose negation overflows. *)
Theorem printint_fits xx base sign :
  - 2 ^ 63 <= xx < 2 ^ 64 -> base = 10 \/ base = 16 -> ~ (sign = true /\ xx = - 2 ^ 63) ->
  exists s, Kernel.printint xx base sign = Some s /\ 1 <= Z.of_nat (length s) <= 20.
Proof.
  intros Hx Hb Hmin. unfold Kernel.printint. destruct (sign && (xx <? 0)) eqn:Es.
  - apply andb_prop in Es as [-> Es]. apply Z.ltb_lt in Es. destruct (Z.eqb_spec xx (- 2 ^ 63)); [by destruct Hmin|]. cbn [andb].
    destruct (digits_i64 Kernel.digits (- xx) base) as (ds & -> & Hl & _); [lia|done|]. simpl. unfold flush, BUF. rewrite length_fmap.
    destruct (Z.leb_spec 20 (Z.of_nat (length ds))); [lia|]. eexists. split; [done|]. simpl. rewrite length_rev, length_fmap. lia.
  - cbn [andb]. destruct (digits_u64 Kernel.digits (u64 xx) base) as (ds & -> & Hl & _); [apply u64_range|done|]. simpl.
    eexists. split; [done|]. rewrite length_rev, length_fmap. lia.
Qed.

Lemma printint_fits_witness :
  exists s, Kernel.printint (- 2 ^ 63 + 1) 10 true = Some s /\ 1 <= Z.of_nat (length s) <= 20.
Proof. apply (printint_fits (- 2 ^ 63 + 1) 10 true); [lia|by left|]. intros [_ ?]. lia. Defined.



(** The printf of user programs truncates long arguments to 32 bits, and that
    of the kernel extends the sign of an unsigned int. *)
Lemma user_printf_truncates : User.vprintf (fun _ => []) (chars "%lu") [2 ^ 32] = Some (chars "0").
Proof. by vm_compute. Qed.
Lemma kernel_printf_extends : Kernel.printf (fun _ => []) (chars "%u") [2 ^ 31] = Some (chars "18446744071562067968").
Proof. by vm_compute. Qed.
