(* ===== verification/Ring.v ===== *)
(** Ring buffers: the bytes of a queue in an array, from an index that only
    grows and wraps around at a multiple of the array's size. *)

From S2P Require Import Prelude.

Definition ring (sz : Z) (d : Z -> Z) (from : Z) (q : list Z) : Prop :=
  forall k b, q !! k = Some b -> d ((from + Z.of_nat k) mod sz) = b.

Section ring.
Context (sz : Z) (Hsz : 0 < sz).

Lemma ring_nil d from : ring sz d from [].
Proof. by intros k b. Qed.

Lemma ring_push d from q c :
  Z.of_nat (length q) < sz -> ring sz d from q ->
  ring sz (upd d ((from + Z.of_nat (length q)) mod sz) c) from (q ++ [c]).
Proof.
  intros Hl H k b Hk. rewrite upd_case. apply lookup_app_Some in Hk as [Hk|[Hk1 Hk2]].
  - pose proof (lookup_lt_Some _ _ _ Hk). rewrite decide_False; [by apply H|]. intros E.
    assert (Hd : (Z.of_nat (length q) - Z.of_nat k) mod sz = 0).
    { replace (Z.of_nat (length q) - Z.of_nat k) with ((from + Z.of_nat (length q)) - (from + Z.of_nat k)) by lia.
      rewrite Zminus_mod, E, Z.sub_diag. by apply Z.mod_0_l; lia. }
    rewrite Z.mod_small in Hd by lia. lia.
  - destruct (k - length q)%nat eqn:E; [|by destruct n]. injection Hk2 as <-. rewrite decide_True; [done|]. f_equal. lia.
Qed.

Lemma ring_head d from c q : ring sz d from (c :: q) -> d (from mod sz) = c.
Proof. intros H. specialize (H 0%nat c eq_refl). by rewrite Z.add_0_r in H. Qed.

Lemma ring_pop d from c q : ring sz d from (c :: q) -> ring sz d (from + 1) q.
Proof. intros H k b Hk. rewrite <- (H (S k) b Hk). f_equal. f_equal. lia. Qed.

Lemma ring_prefix d from q1 q2 : ring sz d from (q1 ++ q2) -> ring sz d from q1.
Proof. intros H k b Hk. apply H. by apply lookup_app_l_Some. Qed.

(** Only the index modulo the size matters. *)
Lemma ring_index d from from' q : from mod sz = from' mod sz -> ring sz d from q -> ring sz d from' q.
Proof.
  intros E H k b Hk. rewrite <- (H k b Hk). f_equal. rewrite <- Zplus_mod_idemp_l, <- E. by rewrite Zplus_mod_idemp_l.
Qed.

(** The last byte. *)
Lemma ring_last d from q c : ring sz d from (q ++ [c]) -> d ((from + Z.of_nat (length q)) mod sz) = c.
Proof. intros H. apply H. by apply list_lookup_middle. Qed.
End ring.

(** The counters of the drivers wrap at a multiple of the size. *)
Lemma wrap32 w n : 0 < n -> (2 ^ 32) mod n = 0 -> u32 w mod n = w mod n.
Proof.
  intros Hn Hd. unfold u32. rewrite (Z.div_mod w (2 ^ 32)) at 2 by lia.
  rewrite (Z.div_mod (2 ^ 32) n) at 2 by lia. rewrite Hd.
  replace ((n * (2 ^ 32 / n) + 0) * (w / 2 ^ 32) + w mod 2 ^ 32) with (w mod 2 ^ 32 + (2 ^ 32 / n * (w / 2 ^ 32)) * n) by ring.
  by rewrite Z_mod_plus_full.
Qed.
