(* ===== verification/Console.v ===== *)
(** kernel/console.c: the line discipline of the console.

    The input buffer is a ring of INPUT_BUF_SIZE bytes with three 32-bit
    counters: what lies between [c_r] and [c_w] may be read, what lies between
    [c_w] and [c_e] is still being edited.  consoleintr and the part of
    consoleread between two sleeps run under cons.lock and are one step each;
    [echo] are the characters sent back to the terminal, [woken] counts the
    calls of wakeup.  The listing of the processes that control-P prints does
    not touch this state. *)

From S2P Require Import Prelude Mem Ring.

Definition BACKSPACE : Z := 256.
Definition INPUT_BUF_SIZE : Z := 128.
Definition ctrl (x : Z) : Z := x - 64.
Definition CTRL_D : Z := Eval cbv in ctrl 68.
Definition CTRL_H : Z := Eval cbv in ctrl 72.
Definition CTRL_P : Z := Eval cbv in ctrl 80.
Definition CTRL_U : Z := Eval cbv in ctrl 85.
Definition DEL : Z := 127.
Definition CR : Z := 13.
Definition LF : Z := 10.

Record cons : Type := mkcons { c_buf : Z -> Z; c_r : Z; c_w : Z; c_e : Z }.

Record cst : Type := mkcst { con : cons; echo : list Z; woken : Z; cmem : mem }.

Definition set_con (f : cons -> cons) (s : cst) : cst := mkcst (f (con s)) (echo s) (woken s) (cmem s).
Definition set_r (v : Z) (c : cons) : cons := mkcons (c_buf c) v (c_w c) (c_e c).
Definition set_w (v : Z) (c : cons) : cons := mkcons (c_buf c) (c_r c) v (c_e c).
Definition set_e (v : Z) (c : cons) : cons := mkcons (c_buf c) (c_r c) (c_w c) v.

Definition consputc (c : Z) : M cst unit :=
  modify (fun s => mkcst (con s) (echo s ++ (if c =? BACKSPACE then [8; 32; 8] else [c])) (woken s) (cmem s)).
Definition wakeup : M cst unit := modify (fun s => mkcst (con s) (echo s) (woken s + 1) (cmem s)).

(** [while(cons.e != cons.w && cons.buf[(cons.e-1) % INPUT_BUF_SIZE] != '\n')] *)
Fixpoint kill_line (fuel : nat) : M cst unit :=
  c <- gets con ;;
  if (c_e c =? c_w c) || (c_buf c (u32 (c_e c - 1) mod INPUT_BUF_SIZE) =? LF) then ret tt else
  match fuel with
  | O => stuck "kill_line: out of fuel"
  | S fuel' => modify (set_con (set_e (u32 (c_e c - 1)))) ;; consputc BACKSPACE ;; kill_line fuel'
  end.

(** [cons.buf[cons.e++ % INPUT_BUF_SIZE] = c] *)
Definition put (ch : Z) (c : cons) : cons :=
  mkcons (upd (c_buf c) (c_e c mod INPUT_BUF_SIZE) (u8 ch)) (c_r c) (c_w c) (u32 (c_e c + 1)).

Definition consoleintr (ch : Z) : M cst unit :=
  if ch =? CTRL_P then ret tt
  else if ch =? CTRL_U then kill_line (Z.to_nat INPUT_BUF_SIZE)
  else if (ch =? CTRL_H) || (ch =? DEL) then
    c <- gets con ;;
    when (negb (c_e c =? c_w c)) (modify (set_con (set_e (u32 (c_e c - 1)))) ;; consputc BACKSPACE)
  else
    c <- gets con ;;
    when (negb (ch =? 0) && (u32 (c_e c - c_r c) <? INPUT_BUF_SIZE))
      (let ch := if ch =? CR then LF else ch in
       consputc ch ;;
       modify (set_con (put ch)) ;;
       c <- gets con ;;
       when ((ch =? LF) || (ch =? CTRL_D) || (u32 (c_e c - c_r c) =? INPUT_BUF_SIZE))
         (modify (set_con (set_w (c_e c))) ;; wakeup)).

(** A read returns, or sleeps having copied up to [dst] with [n] bytes to go. *)
Inductive outcome : Type := Done (r : Z) | Sleep (dst n : Z).
#[export] Instance outcome_eq_dec : EqDecision outcome.
Proof. solve_decision. Defined.

Section user.
Context {U : UserMem}.

Definition copy_byte (user_dst : bool) (dst b : Z) : M cst bool :=
  m <- gets cmem ;;
  let '(m', ok) := if user_dst then ucopyout m dst (fun _ => b) 1 else (upd m dst b, true) in
  modify (fun s => mkcst (con s) (echo s) (woken s) m') ;;
  ret ok.

Fixpoint consoleread_loop (fuel : nat) (killed user_dst : bool) (target dst n : Z) : M cst outcome :=
  if negb (0 <? n) then ret (Done (i32 (target - n))) else
  match fuel with
  | O => stuck "consoleread: out of fuel"
  | S fuel' =>
      c <- gets con ;;
      if c_r c =? c_w c then if killed then ret (Done (-1)) else ret (Sleep dst n) else
      let ch := c_buf c (c_r c mod INPUT_BUF_SIZE) in
      modify (set_con (set_r (u32 (c_r c + 1)))) ;;
      if ch =? CTRL_D then
        when (n <? target) (modify (set_con (fun c => set_r (u32 (c_r c - 1)) c))) ;;
        ret (Done (i32 (target - n)))
      else
        ok <- copy_byte user_dst dst ch ;;
        if negb ok then ret (Done (i32 (target - n))) else
        if ch =? LF then ret (Done (i32 (target - (n - 1)))) else
        consoleread_loop fuel' killed user_dst target (u64 (dst + 1)) (n - 1)
  end.

(** From the start ([n] = [target]), or from the return of sleep. *)
Definition consoleread (killed user_dst : bool) (target dst n : Z) : M cst outcome :=
  consoleread_loop (Z.to_nat n) killed user_dst target dst n.
End user.

(** ** The line discipline *)

(** The bytes that may be read and the line that is being edited. *)
Definition lines : Type := list Z * list Z.

Definition type_char (ch : Z) (l : lines) : lines :=
  let '(ready, edit) := l in
  if ch =? CTRL_P then l
  else if ch =? CTRL_U then (ready, [])
  else if (ch =? CTRL_H) || (ch =? DEL) then (ready, removelast edit)
  else if (ch =? 0) || (INPUT_BUF_SIZE <=? Z.of_nat (length ready + length edit)) then l
  else
    let ch := if ch =? CR then LF else ch in
    let edit := edit ++ [ch] in
    if (ch =? LF) || (ch =? CTRL_D) || (Z.of_nat (length ready + length edit) =? INPUT_BUF_SIZE)
    then (ready ++ edit, []) else (ready, edit).

Record con_rep (c : cons) (l : lines) : Prop := {
  k_r : 0 <= c_r c < 2 ^ 32;
  k_w : c_w c = u32 (c_r c + Z.of_nat (length (fst l)));
  k_e : c_e c = u32 (c_r c + Z.of_nat (length (fst l) + length (snd l)));
  k_room : Z.of_nat (length (fst l) + length (snd l)) <= INPUT_BUF_SIZE;
  k_data : ring INPUT_BUF_SIZE (c_buf c) (c_r c) (fst l ++ snd l);
  k_edit : LF ∉ snd l
}.

Lemma con_idle c l : con_rep c l -> (c_e c =? c_w c) = bool_decide (snd l = []).
Proof.
  intros [Hr Hw He Hm _ _]. rewrite Hw, He. unfold u32, INPUT_BUF_SIZE in *. case_bool_decide as E.
  - rewrite E. simpl. rewrite Nat.add_0_r. apply Z.eqb_refl.
  - assert (length (snd l) <> 0)%nat by by destruct (snd l). apply Z.eqb_neq. dlia.
Qed.

Lemma con_empty c l : con_rep c l -> (c_r c =? c_w c) = bool_decide (fst l = []).
Proof.
  intros [Hr Hw _ Hm _ _]. rewrite Hw. unfold u32, INPUT_BUF_SIZE in *. case_bool_decide as E.
  - rewrite E. simpl. apply Z.eqb_eq. dlia.
  - assert (length (fst l) <> 0)%nat by by destruct (fst l). apply Z.eqb_neq. dlia.
Qed.

Lemma con_used c l : con_rep c l -> u32 (c_e c - c_r c) = Z.of_nat (length (fst l) + length (snd l)).
Proof. intros [Hr _ He Hm _ _]. rewrite He. unfold u32, INPUT_BUF_SIZE in *. dlia. Qed.

(** The counters and the data after the reader has taken the first byte. *)
Lemma con_take c b ready edit :
  con_rep c (b :: ready, edit) ->
  c_buf c (c_r c mod INPUT_BUF_SIZE) = b /\ con_rep (set_r (u32 (c_r c + 1)) c) (ready, edit).
Proof.
  intros [Hr Hw He Hm Hd Hl]. unfold INPUT_BUF_SIZE in *. simpl in *. split; [by apply ring_head in Hd|].
  split; simpl; try done; try apply u32_range; [rewrite Hw|rewrite He|unfold INPUT_BUF_SIZE in *; lia|]; try (unfold u32; dlia).
  eapply ring_index, ring_pop, Hd. symmetry. by apply wrap32.
Qed.

(** An edited character is dropped. *)
Lemma con_erase c ready edit b :
  con_rep c (ready, edit ++ [b]) ->
  c_buf c (u32 (c_e c - 1) mod INPUT_BUF_SIZE) = b /\ con_rep (set_e (u32 (c_e c - 1)) c) (ready, edit).
Proof.
  intros [Hr Hw He Hm Hd Hl]. unfold INPUT_BUF_SIZE in *. simpl in *. rewrite length_app in *. simpl in *.
  assert (Ee : u32 (c_e c - 1) = u32 (c_r c + Z.of_nat (length ready + length edit))).
  { rewrite He. unfold u32. dlia. }
  rewrite app_assoc in Hd. split.
  - rewrite Ee, wrap32 by done. rewrite <- length_app. by apply ring_last.
  - split; simpl; [done|done|done|unfold INPUT_BUF_SIZE; lia|by apply ring_prefix in Hd|set_solver].
Qed.

(** A character is added. *)
Lemma con_put c ready edit ch :
  con_rep c (ready, edit) -> 0 <= ch < 256 -> Z.of_nat (length ready + length edit) < INPUT_BUF_SIZE ->
  let c' := put ch c in
  c_r c' = c_r c /\ c_w c' = c_w c /\
  c_e c' = u32 (c_r c + Z.of_nat (length ready + length (edit ++ [ch]))) /\
  ring INPUT_BUF_SIZE (c_buf c') (c_r c) (ready ++ edit ++ [ch]).
Proof.
  intros [Hr Hw He Hm Hd Hl] Hch Hroom. unfold INPUT_BUF_SIZE in *. simpl in *. rewrite length_app. simpl.
  split; [done|]. split; [done|]. split; [rewrite He; unfold u32; dlia|].
  unfold put. cbn [c_buf]. unfold INPUT_BUF_SIZE. rewrite He, wrap32 by done. rewrite (u8_small ch) by done. rewrite app_assoc, <- length_app.
  apply ring_push; [done| |done]. rewrite length_app. lia.
Qed.

(** ** Typing *)

Definition rubout : list Z := [8; 32; 8].

(** What the terminal is sent for a character. *)
Definition echo_char (ch : Z) (l : lines) : list Z :=
  let '(ready, edit) := l in
  if ch =? CTRL_P then []
  else if ch =? CTRL_U then concat (replicate (length edit) rubout)
  else if (ch =? CTRL_H) || (ch =? DEL) then (if decide (edit = []) then [] else rubout)
  else if (ch =? 0) || (INPUT_BUF_SIZE <=? Z.of_nat (length ready + length edit)) then []
  else [if ch =? CR then LF else ch].

(** A step of the interrupt handler from the lines [l] to the lines [l'] that
    echoes [out]: a reader is woken whenever there is more to read. *)
Record typed (s s' : cst) (l l' : lines) (out : list Z) : Prop := {
  ty_rep : con_rep (con s') l';
  ty_echo : echo s' = echo s ++ out;
  ty_wake : woken s' = woken s + (if decide (length (fst l) < length (fst l'))%nat then 1 else 0);
  ty_mem : cmem s' = cmem s
}.

Lemma kill_line_run fuel ready edit s :
  con_rep (con s) (ready, edit) -> (length edit <= fuel)%nat ->
  exists s', kill_line fuel s = Ret tt s' /\
    typed s s' (ready, edit) (ready, []) (concat (replicate (length edit) rubout)).
Proof.
  revert fuel s. induction edit as [|b edit IH] using rev_ind; intros fuel s Hr Hf.
  - exists s. assert (E : kill_line fuel s = Ret tt s).
    { destruct fuel; simpl; unfold bind, gets; by rewrite (con_idle _ _ Hr). }
    split; [done|]. split; simpl; [done|by rewrite app_nil_r|rewrite decide_False by lia; lia|done].
  - destruct (con_erase _ _ _ _ Hr) as [Eb Hr']. rewrite length_app in Hf. simpl in Hf. destruct fuel as [|fuel]; [lia|].
    cbn [kill_line]. rewrite bind_gets. cbv beta. rewrite Eb, (con_idle _ _ Hr). rewrite bool_decide_eq_false_2 by by destruct edit.
    assert (Hb : (b =? LF) = false).
    { apply Z.eqb_neq. intros ->. apply (k_edit _ _ Hr). simpl. set_solver. }
    rewrite Hb. cbn [orb]. unfold consputc, modify, bind. cbn [con set_con Z.eqb BACKSPACE].
    edestruct (IH fuel) as (s' & -> & [Hr2 He Hw Hm]); [|lia|]; [exact Hr'|].
    exists s'. split; [done|]. split; [done| |done|done]. rewrite He. cbn [echo]. rewrite length_app, Nat.add_comm.
    simpl. by rewrite <- app_assoc.
Qed.

Lemma erase_run ready edit s :
  con_rep (con s) (ready, edit) ->
  exists s', (c <- gets con ;;
      when (negb (c_e c =? c_w c)) (modify (set_con (set_e (u32 (c_e c - 1)))) ;; consputc BACKSPACE)) s = Ret tt s' /\
    typed s s' (ready, edit) (ready, removelast edit) (if decide (edit = []) then [] else rubout).
Proof.
  intros Hr. rewrite bind_gets. cbv beta. rewrite (con_idle _ _ Hr). destruct edit as [|b edit _] using rev_ind.
  - exists s. split; [done|]. split; simpl; [done|by rewrite app_nil_r|rewrite decide_False by lia; lia|done].
  - rewrite bool_decide_eq_false_2 by by destruct edit. rewrite (decide_False (P := edit ++ [b] = [])) by by destruct edit.
    rewrite removelast_last. eexists. split; [done|].
    split; simpl; [by apply (con_erase _ _ _ _ Hr)|done|rewrite decide_False by lia; lia|done].
Qed.

(** An ordinary character, when the buffer has room. *)
Lemma add_run ready edit ch s :
  con_rep (con s) (ready, edit) -> 0 <= ch < 256 -> Z.of_nat (length ready + length edit) < INPUT_BUF_SIZE ->
  let full := (ch =? LF) || (ch =? CTRL_D) || (Z.of_nat (length ready + length (edit ++ [ch])) =? INPUT_BUF_SIZE) in
  exists s', (consputc ch ;;
       modify (set_con (put ch)) ;;
       c <- gets con ;;
       when ((ch =? LF) || (ch =? CTRL_D) || (u32 (c_e c - c_r c) =? INPUT_BUF_SIZE))
         (modify (set_con (set_w (c_e c))) ;; wakeup)) s = Ret tt s' /\
    typed s s' (ready, edit) (if full then (ready ++ edit ++ [ch], []) else (ready, edit ++ [ch])) [ch].
Proof.
  intros Hr Hch Hroom full. destruct (con_put _ _ _ _ Hr Hch Hroom) as (E1 & E2 & E3 & E4). pose proof Hr as [Hr0 Hw _ _ _ Hl].
  assert (Hu : u32 (c_e (put ch (con s)) - c_r (put ch (con s))) = Z.of_nat (length ready + length (edit ++ [ch]))).
  { rewrite E3, E1, length_app. simpl. unfold u32, INPUT_BUF_SIZE in *. dlia. }
  assert (Hlen : length (edit ++ [ch]) = S (length edit)) by (rewrite length_app; simpl; lia).
  unfold consputc, modify, bind, gets, set_con. cbn [con echo woken cmem]. rewrite Hu. generalize dependent (put ch (con s)). intros c' E1 E2 E3 E4 Hu.
  replace (ch =? BACKSPACE) with false by (symmetry; apply Z.eqb_neq; unfold BACKSPACE; lia).
  destruct full eqn:Ef; unfold full in Ef; rewrite Ef; (eexists; split; [done|]); split; simpl; try done.
  2: rewrite decide_True by (rewrite length_app; lia); lia.
  3: rewrite decide_False by lia; lia.
  - split; cbn [fst snd set_w c_r c_w c_e c_buf]; rewrite ?app_nil_r, ?E1, ?E3, ?(length_app ready), ?Nat.add_0_r; try done; [|set_solver].
    rewrite Hlen. lia.
  - apply orb_false_iff in Ef as [[Ef _]%orb_false_iff _]. split; cbn [fst snd]; rewrite ?E1, ?E2, ?E3; try done; [rewrite Hlen; lia|].
    apply Z.eqb_neq in Ef. simpl in Hl. set_solver.
Qed.

Lemma console_step ch l s :
  con_rep (con s) l -> 0 <= ch < 256 ->
  exists s', consoleintr ch s = Ret tt s' /\ typed s s' l (type_char ch l) (echo_char ch l).
Proof.
  destruct l as [ready edit]. intros Hr Hch. unfold consoleintr, type_char, echo_char.
  assert (Hsame : typed s s (ready, edit) (ready, edit) []).
  { split; [done|by rewrite app_nil_r|rewrite decide_False by lia; lia|done]. }
  destruct (ch =? CTRL_P); [by exists s|]. destruct (ch =? CTRL_U).
  { apply kill_line_run; [done|]. pose proof (k_room _ _ Hr) as Hm. unfold INPUT_BUF_SIZE in *. simpl in Hm. lia. }
  destruct ((ch =? CTRL_H) || (ch =? DEL)); [by apply erase_run|].
  rewrite bind_gets. cbv beta. rewrite (con_used _ _ Hr). cbn [fst snd].
  destruct (ch =? 0); [by exists s|]. cbn [negb andb orb].
  destruct (INPUT_BUF_SIZE <=? Z.of_nat (length ready + length edit)) eqn:Ef.
  - apply Z.leb_le in Ef. replace (_ <? INPUT_BUF_SIZE) with false by (symmetry; apply Z.ltb_ge; lia). by exists s.
  - apply Z.leb_gt in Ef. replace (_ <? INPUT_BUF_SIZE) with true by (symmetry; apply Z.ltb_lt; lia).
    cbv zeta. apply add_run; [done| |done]. destruct (ch =? CR); unfold LF; lia.
Qed.

(** C17: the interrupt handler implements the line discipline on every
    character, wherever the 32-bit counters are and even as they wrap around: it
    erases, kills the line, drops what does not fit or completes the line; it never
    erases what has been handed to the readers; it echoes what was done, and wakes
    the readers whenever there is more to read. *)
Theorem consoleintr_correct ch l s :
  con_rep (con s) l -> 0 <= ch < 256 ->
  exists s', consoleintr ch s = Ret tt s' /\ typed s s' l (type_char ch l) (echo_char ch l).
Proof. apply console_step. Qed.

(** ** Reading *)

(** What a read of at most [n] bytes takes: a line, the bytes before an end of
    file, or what there is; whether it is over, and what remains.  An end of file
    that ends a read of some bytes stays for the next read. *)
Fixpoint take_line (n : nat) (started : bool) (ready : list Z) : list Z * list Z * bool :=
  match n, ready with
  | O, _ => ([], ready, true)
  | _, [] => ([], [], false)
  | S n', b :: ready' =>
      if b =? CTRL_D then ([], if started then ready else ready', true)
      else if b =? LF then ([b], ready', true)
      else let '(bs, rest, fin) := take_line n' true ready' in (b :: bs, rest, fin)
  end.

Lemma con_untake c b ready edit :
  con_rep c (b :: ready, edit) ->
  con_rep (set_r (u32 (u32 (c_r c + 1) - 1)) (set_r (u32 (c_r c + 1)) c)) (b :: ready, edit).
Proof.
  intros H. replace (u32 (u32 (c_r c + 1) - 1)) with (c_r c); [by destruct c|].
  pose proof (k_r _ _ H). unfold u32. dlia.
Qed.

Section read.
Context {U : UserMem} {UL : UserMemLaws}.

(** The bytes [bs] are at [dst]; the rest of memory is as it was. *)
Definition landed (m m' : mem) (dst : Z) (bs : list Z) : Prop :=
  forall a, m' a = if (dst <=? a) && (a <? dst + Z.of_nat (length bs)) then nth (Z.to_nat (a - dst)) bs 0 else m a.

Lemma landed_cons m m1 m2 dst b bs :
  (forall a, m1 a = if (dst <=? a) && (a <? dst + 1) then b else m a) -> landed m1 m2 (dst + 1) bs -> landed m m2 dst (b :: bs).
Proof.
  intros H1 H2 a. rewrite H2, H1. simpl length. zcases; try lia; try done.
  - by replace (a - dst) with 0 by lia.
  - by replace (Z.to_nat (a - dst)) with (S (Z.to_nat (a - (dst + 1)))) by lia.
Qed.

(** A copy to an address the process may write succeeds. *)
Definition writable (user_dst : bool) (dst n : Z) : Prop :=
  user_dst = true -> forall m a src, dst <= a < dst + n -> exists m', ucopyout m a src 1 = (m', true).

Lemma copy_byte_run ud dst n b s :
  writable ud dst n -> 0 < n ->
  exists s', copy_byte ud dst b s = Ret true s' /\ con s' = con s /\ echo s' = echo s /\ woken s' = woken s /\
    forall a, cmem s' a = if (dst <=? a) && (a <? dst + 1) then b else cmem s a.
Proof.
  intros Hw Hn. unfold copy_byte. rewrite bind_gets. cbv beta. destruct ud.
  - destruct (Hw eq_refl (cmem s) dst (fun _ => b)) as [m' E]; [lia|]. rewrite E. eexists. split; [done|].
    split; [done|]. split; [done|]. split; [done|]. exact (ucopyout_ok _ _ _ _ _ E).
  - eexists. split; [done|]. split; [done|]. split; [done|]. split; [done|]. intros a. simpl. rewrite upd_case.
    repeat case_decide; zcases; simpl; subst; lia || done.
Qed.

(** Where a read that took [k] bytes stands. *)
Definition read_outcome (killed fin : bool) (target dst n k : Z) : outcome :=
  if fin then Done (target - (n - k)) else if killed then Done (-1) else Sleep (dst + k) (n - k).

Lemma consoleread_run killed ud target n dst ready edit s :
  con_rep (con s) (ready, edit) -> writable ud dst (Z.of_nat n) ->
  Z.of_nat n <= target < 2 ^ 31 -> 0 <= dst -> dst + Z.of_nat n < 2 ^ 64 ->
  exists s', let '(bs, rest, fin) := take_line n (Z.of_nat n <? target) ready in
    consoleread_loop n killed ud target dst (Z.of_nat n) s =
      Ret (read_outcome killed fin target dst (Z.of_nat n) (Z.of_nat (length bs))) s' /\
    con_rep (con s') (rest, edit) /\ landed (cmem s) (cmem s') dst bs /\ echo s' = echo s /\ woken s' = woken s.
Proof.
  assert (Hnil : forall (m : mem) d, landed m m d []). { intros m d a. simpl. zcases; try lia; done. }
  assert (Hi : forall a, 0 <= a < 2 ^ 31 -> i32 a = a). { intros a Ha. apply i32_small. lia. }
  revert dst ready s. induction n as [|n IH]; intros dst ready s Hr Hw Ht Hd Hov.
  { exists s. cbn [take_line consoleread_loop length]. unfold read_outcome. cbn. rewrite Hi by lia. split; [done|]. by split. }
  cbn [consoleread_loop take_line]. replace (0 <? Z.of_nat (S n)) with true by (symmetry; apply Z.ltb_lt; lia). cbn [negb].
  rewrite bind_gets. cbv beta. rewrite (con_empty _ _ Hr). destruct ready as [|b ready].
  { exists s. simpl. unfold read_outcome. rewrite Z.add_0_r, Z.sub_0_r. by destruct killed. }
  cbn [fst bool_decide decide]. rewrite bool_decide_eq_false_2 by done. destruct (con_take _ _ _ _ Hr) as [Eb Hr1].
  unfold modify at 1, bind at 1. rewrite Eb. cbv beta iota. destruct (b =? CTRL_D).
  { destruct (Z.of_nat (S n) <? target); (eexists; split; [unfold bind, when, modify; cbv beta iota; rewrite Hi by lia; 
      unfold read_outcome; cbn [length]; by rewrite Z.sub_0_r|]); simpl; split; try done; by apply con_untake. }
  destruct (copy_byte_run ud dst _ b (set_con (set_r (u32 (c_r (con s) + 1))) s) Hw) as (s1 & E1 & Ec & Eo & Ew & Em); [lia|].
  unfold bind at 1. rewrite E1. cbv beta iota. cbn [negb]. simpl in Ec, Eo, Ew, Em. rewrite <- Ec in Hr1. destruct (b =? LF).
  { exists s1. rewrite Hi by lia. split; [done|]. split; [done|]. split; [|by rewrite Eo, Ew]. by eapply landed_cons. }
  rewrite (u64_small (dst + 1)) by lia. replace (Z.of_nat (S n) - 1) with (Z.of_nat n) by lia.
  destruct (IH (dst + 1) ready s1) as [s' H]; [done| |lia..|].
  { intros Hu m a src Ha. apply Hw; [done|lia]. }
  replace (Z.of_nat n <? target) with true in H by (symmetry; apply Z.ltb_lt; lia).
  destruct (take_line n true ready) as [[bs rest] fin]. destruct H as (-> & Hr' & Hl & He & Hwk). exists s'.
  split; [|split; [done|split; [by eapply landed_cons|by rewrite He, Eo, Hwk, Ew]]].
  f_equal. unfold read_outcome. cbn [length]. destruct fin; [f_equal; lia|]. destruct killed; [done|]. f_equal; lia.
Qed.

(** C18: a read, from its start or from where it slept, returns at the
    end of a line, at an end of file or when its buffer is full, with the bytes in
    the reader's memory and out of the buffer, an end of file after some bytes
    staying for the next read; it sleeps only when all that could be read has been
    taken, and never touches the line being edited. *)
Theorem consoleread_correct killed ud target dst n ready edit s :
  con_rep (con s) (ready, edit) -> writable ud dst n ->
  0 <= n <= target -> target < 2 ^ 31 -> 0 <= dst -> dst + n < 2 ^ 64 ->
  exists s', let '(bs, rest, fin) := take_line (Z.to_nat n) (n <? target) ready in
    consoleread killed ud target dst n s = Ret (read_outcome killed fin target dst n (Z.of_nat (length bs))) s' /\
    con_rep (con s') (rest, edit) /\ landed (cmem s) (cmem s') dst bs /\ echo s' = echo s /\ woken s' = woken s.
Proof.
  intros Hr Hw Hn Ht Hd Hov. pose proof (consoleread_run killed ud target (Z.to_nat n) dst ready edit s) as H.
  rewrite Z2Nat.id in H by lia. apply H; done || lia.
Qed.
End read.

(** ** Concrete runs *)

(** User memory in which every address is mapped. *)
#[local] Instance flat_con : UserMem := {
  ucopyout m dst src n := (fun a => if (dst <=? a) && (a <? dst + n) then src (a - dst) else m a, true);
  ucopyin m src n d := (fun i => if (0 <=? i) && (i <? n) then m (src + i) else d i, true)
}.
#[local] Instance flat_con_laws : UserMemLaws.
Proof. split; simpl; intros ? ? ? ? ? [= <-] ?; done. Qed.

(** The line "h" with its end is ready, "i" is being edited; the counters are
    about to wrap around. *)
Definition con_hi : cst :=
  mkcst (mkcons (fun i => if i =? 127 then 104 else if i =? 0 then LF else if i =? 1 then 105 else 0) (2 ^ 32 - 1) 1 2)
        [] 0 (fun _ => 0).

Lemma con_hi_rep : con_rep (con con_hi) ([104; LF], [105]).
Proof.
  split; try done; simpl; [|set_solver]. intros k b. do 3 (destruct k as [|k]; [by intros [= <-]|]). done.
Qed.

Lemma consoleintr_correct_witness :
  type_char CR ([104; LF], [105]) = ([104; LF; 105; LF], []) /\
  exists s', consoleintr CR con_hi = Ret tt s' /\
    typed con_hi s' ([104; LF], [105]) (type_char CR ([104; LF], [105])) (echo_char CR ([104; LF], [105])).
Proof.
  split; [done|]. apply (consoleintr_correct CR ([104; LF], [105]) con_hi con_hi_rep). done.
Defined.

Lemma consoleread_correct_witness :
  exists s', consoleread false true 10 1000 10 con_hi = Ret (Done 2) s' /\ con_rep (con s') ([], [105]) /\
    cmem s' 1000 = 104 /\ cmem s' 1001 = LF.
Proof.
  destruct (consoleread_correct false true 10 1000 10 [104; LF] [105] con_hi con_hi_rep) as (s' & E & Hr & Hl & _); [|done..|].
  - intros _ m a src _. eexists. reflexivity.
  - exists s'. split; [exact E|]. split; [done|]. by rewrite !Hl.
Defined.
