(* ===== verification/Uart.v ===== *)
(** kernel/uart.c, the driver of the console's UART, and consolewrite of
    kernel/console.c.

    The device is not part of the sources: [Uart] gives its registers and
    [UartLaws] what the 16550's documentation says of them, in terms of the bytes
    it has accepted for transmission and of those that wait to be read.  A write to
    the transmit register counts only when the device is ready for it.

    The driver's operations run under uart_tx_lock and are one step each, up to
    the sleep of uartputc.  [asleep] says that a process sleeps on uart_tx_r.
    [thr_log] lists the writes to the transmit register, those of the buffer with
    [true]. *)

From S2P Require Import Prelude Mem Ring Console.

Class Uart : Type := {
  hw : Type;
  read_lsr : hw -> Z * hw;
  read_rhr : hw -> Z * hw;
  read_isr : hw -> hw;
  write_thr : Z -> hw -> hw;
  accepted : hw -> list Z;
  waiting : hw -> list Z
}.

Definition LSR_RX_READY : Z := 1.
Definition LSR_TX_IDLE : Z := 32.
Definition UART_TX_BUF_SIZE : Z := 32.

Definition tx_ready (v : Z) : bool := negb (Z.land v LSR_TX_IDLE =? 0).

(** A device that said that it can take a character takes the next one. *)
Class UartLaws `{D : Uart} : Prop := {
  lsr_same : forall h, accepted (read_lsr h).2 = accepted h /\ waiting (read_lsr h).2 = waiting h;
  lsr_rx : forall h, (Z.land (read_lsr h).1 LSR_RX_READY =? 0) = bool_decide (waiting h = []);
  rhr_take : forall h c q, waiting h = c :: q ->
    (read_rhr h).1 = c /\ waiting (read_rhr h).2 = q /\ accepted (read_rhr h).2 = accepted h;
  isr_same : forall h, accepted (read_isr h) = accepted h /\ waiting (read_isr h) = waiting h;
  thr_takes : forall h c, tx_ready (read_lsr h).1 = true ->
    accepted (write_thr c (read_lsr h).2) = accepted h ++ [c] /\ waiting (write_thr c (read_lsr h).2) = waiting h;
  bytes_waiting : forall h c, c ∈ waiting h -> 0 <= c < 256
}.

Section uart.
Context `{D : Uart}.

Record ust : Type := mkust {
  tx_buf : Z -> Z; tx_w : Z; tx_r : Z; dev : hw; asleep : bool; panicked : bool;
  thr_log : list (bool * Z); ucon : cst
}.

Definition set_dev (h : hw) (s : ust) : ust :=
  mkust (tx_buf s) (tx_w s) (tx_r s) h (asleep s) (panicked s) (thr_log s) (ucon s).
Definition set_asleep (b : bool) (s : ust) : ust :=
  mkust (tx_buf s) (tx_w s) (tx_r s) (dev s) b (panicked s) (thr_log s) (ucon s).
Definition set_tx_r (v : Z) (s : ust) : ust :=
  mkust (tx_buf s) (tx_w s) v (dev s) (asleep s) (panicked s) (thr_log s) (ucon s).
Definition set_ucon (c : cst) (s : ust) : ust :=
  mkust (tx_buf s) (tx_w s) (tx_r s) (dev s) (asleep s) (panicked s) (thr_log s) c.

Definition lsr : M ust Z :=
  h <- gets dev ;; modify (set_dev (read_lsr h).2) ;; ret (read_lsr h).1.
Definition thr (buffered : bool) (c : Z) : M ust unit :=
  modify (fun s => mkust (tx_buf s) (tx_w s) (tx_r s) (write_thr c (dev s)) (asleep s) (panicked s)
                         (thr_log s ++ [(buffered, c)]) (ucon s)).

Fixpoint uartstart_loop (fuel : nat) : M ust unit :=
  s <- gets id ;;
  if tx_w s =? tx_r s then modify (fun s => set_dev (read_isr (dev s)) s) else
  v <- lsr ;;
  if Z.land v LSR_TX_IDLE =? 0 then ret tt else
  match fuel with
  | O => stuck "uartstart: out of fuel"
  | S fuel' =>
      let c := tx_buf s (tx_r s mod UART_TX_BUF_SIZE) in
      modify (set_tx_r (u64 (tx_r s + 1))) ;;
      modify (set_asleep false) ;;
      thr true c ;;
      uartstart_loop fuel'
  end.

Definition uartstart : M ust unit := uartstart_loop (Z.to_nat UART_TX_BUF_SIZE).

Definition spin_if_panicked : M ust unit :=
  s <- gets id ;; if panicked s then stuck "panicked" else ret tt.

(** [false] when the caller sleeps: it comes back to the same test. *)
Definition uartputc (c : Z) : M ust bool :=
  spin_if_panicked ;;
  s <- gets id ;;
  if tx_w s =? u64 (tx_r s + UART_TX_BUF_SIZE) then modify (set_asleep true) ;; ret false else
  modify (fun s => mkust (upd (tx_buf s) (tx_w s mod UART_TX_BUF_SIZE) (u8 c)) (u64 (tx_w s + 1)) (tx_r s) (dev s)
                         (asleep s) (panicked s) (thr_log s) (ucon s)) ;;
  uartstart ;;
  ret true.

(** [spins] bounds the reads of the status register. *)
Fixpoint uartputc_spin (spins : nat) : M ust unit :=
  match spins with
  | O => stuck "uartputc_sync: the device is busy"
  | S spins' =>
      v <- lsr ;;
      if Z.land v LSR_TX_IDLE =? 0 then uartputc_spin spins' else ret tt
  end.

Definition uartputc_sync (spins : nat) (c : Z) : M ust unit :=
  spin_if_panicked ;; uartputc_spin spins ;; thr false (u8 c).

Definition uartgetc : M ust Z :=
  v <- lsr ;;
  if negb (Z.land v LSR_RX_READY =? 0) then
    h <- gets dev ;; modify (set_dev (read_rhr h).2) ;; ret (read_rhr h).1
  else ret (-1).

Fixpoint sync_all (spins : nat) (cs : list Z) : M ust unit :=
  match cs with
  | [] => ret tt
  | c :: cs' => uartputc_sync spins c ;; sync_all spins cs'
  end.

(** consoleintr, whose echo goes to the device. *)
Definition console_char (spins : nat) (c : Z) : M ust unit :=
  s <- gets id ;;
  match consoleintr c (ucon s) with
  | Ret _ k => modify (set_ucon k) ;; sync_all spins (drop (length (echo (ucon s))) (echo k))
  | Panic e => panic e
  | Stuck e => stuck e
  end.

Fixpoint uartintr_loop (fuel spins : nat) : M ust unit :=
  c <- uartgetc ;;
  if c =? -1 then ret tt else
  match fuel with
  | O => stuck "uartintr: out of fuel"
  | S fuel' => console_char spins c ;; uartintr_loop fuel' spins
  end.

Definition uartintr (fuel spins : nat) : M ust unit := uartintr_loop fuel spins ;; uartstart.

(** consolewrite from its [i]-th byte on; it sleeps in uartputc with [i] bytes
    given to the driver and resumes at the same byte. *)
Inductive wout : Type := Wrote (i : Z) | WSleep (i : Z).

Fixpoint consolewrite_loop `{U : UserMem} (fuel : nat) (user_src : bool) (m : mem) (src n i : Z) : M ust wout :=
  if negb (i <? n) then ret (Wrote i) else
  match fuel with
  | O => stuck "consolewrite: out of fuel"
  | S fuel' =>
      let '(d, ok) := if user_src then ucopyin m (u64 (src + i)) 1 (fun _ => 0)
                      else (fun _ => m (u64 (src + i)), true) in
      if negb ok then ret (Wrote i) else
      went <- uartputc (d 0) ;;
      if went then consolewrite_loop fuel' user_src m src n (i + 1) else ret (WSleep i)
  end.

Definition consolewrite `{U : UserMem} (user_src : bool) (m : mem) (src n i : Z) : M ust wout :=
  consolewrite_loop (Z.to_nat (n - i)) user_src m src n i.
End uart.

(** ** The transmit buffer is a queue *)

Section queue.
Context `{D : Uart} {L : UartLaws} {U : UserMem} {UL : UserMemLaws} (a0 : list Z).

(** The bytes [q] wait in the buffer; every byte written to the transmit register
    was accepted; a writer sleeps only on a full buffer. *)
Record tx_rep (s : ust) (q : list Z) : Prop := {
  x_r : 0 <= tx_r s < 2 ^ 64;
  x_w : tx_w s = u64 (tx_r s + Z.of_nat (length q));
  x_len : Z.of_nat (length q) <= UART_TX_BUF_SIZE;
  x_ring : ring UART_TX_BUF_SIZE (tx_buf s) (tx_r s) q;
  x_acc : accepted (dev s) = a0 ++ (thr_log s).*2;
  x_sleep : asleep s = true -> Z.of_nat (length q) = UART_TX_BUF_SIZE
}.

(** The writes to the transmit register [log] were added, and the rest of the
    system did not change. *)
Record sent (s s' : ust) (log : list (bool * Z)) : Prop := {
  n_log : thr_log s' = thr_log s ++ log;
  n_wait : waiting (dev s') = waiting (dev s);
  n_pan : panicked s' = panicked s;
  n_con : ucon s' = ucon s
}.

Lemma sent_nil s : sent s s [].
Proof. split; rewrite ?app_nil_r; done. Qed.

Lemma sent_trans s1 s2 s3 l1 l2 : sent s1 s2 l1 -> sent s2 s3 l2 -> sent s1 s3 (l1 ++ l2).
Proof. intros [] []. split; [by rewrite app_assoc; congruence|congruence..]. Qed.

Lemma tx_empty s q : tx_rep s q -> (tx_w s =? tx_r s) = bool_decide (q = []).
Proof.
  intros [Hr Hw Hl _ _ _]. rewrite Hw. unfold u64, UART_TX_BUF_SIZE in *. case_bool_decide as E.
  - subst. simpl. apply Z.eqb_eq. dlia.
  - assert (length q <> 0)%nat by by destruct q. apply Z.eqb_neq. dlia.
Qed.

Lemma tx_full s q :
  tx_rep s q -> (tx_w s =? u64 (tx_r s + UART_TX_BUF_SIZE)) = (Z.of_nat (length q) =? UART_TX_BUF_SIZE).
Proof.
  intros [Hr Hw Hl _ _ _]. rewrite Hw. unfold u64, UART_TX_BUF_SIZE in *.
  destruct (Z.eqb_spec (Z.of_nat (length q)) 32) as [E|E]; [rewrite E; apply Z.eqb_refl|apply Z.eqb_neq; dlia].
Qed.

Lemma wrap_tx w : u64 w mod UART_TX_BUF_SIZE = w mod UART_TX_BUF_SIZE.
Proof. apply Z.mod_mod_divide. by exists (2 ^ 59). Qed.

Lemma tx_lsr s q :
  tx_rep s q -> tx_rep (set_dev (read_lsr (dev s)).2 s) q /\ sent s (set_dev (read_lsr (dev s)).2 s) [].
Proof.
  destruct (lsr_same (dev s)) as [Ea Ew]. intros [? ? ? ? ? ?]. split; split; simpl; rewrite ?app_nil_r; try done.
  by rewrite Ea.
Qed.

(** The first byte goes to a device that can take it. *)
Lemma tx_pop s c q :
  tx_rep s (c :: q) -> tx_ready (read_lsr (dev s)).1 = true ->
  let s' := mkust (tx_buf s) (tx_w s) (u64 (tx_r s + 1)) (write_thr c (read_lsr (dev s)).2) false (panicked s)
                  (thr_log s ++ [(true, c)]) (ucon s) in
  tx_buf s (tx_r s mod UART_TX_BUF_SIZE) = c /\ tx_rep s' q /\ sent s s' [(true, c)].
Proof.
  intros [Hr Hw Hl Hd Ha Hs] Ht. unfold UART_TX_BUF_SIZE in *. destruct (thr_takes (dev s) c Ht) as [Ea Ew].
  split; [by apply ring_head in Hd|]. split; [|by split]. split; simpl; try done.
  - apply u64_range.
  - rewrite Hw. simpl length. unfold u64. dlia.
  - simpl in Hl. unfold UART_TX_BUF_SIZE. lia.
  - eapply ring_index, ring_pop, Hd. symmetry. apply wrap_tx.
  - rewrite Ea, Ha, fmap_app. simpl. by rewrite app_assoc.
Qed.

Lemma uartstart_loop_run fuel s q :
  tx_rep s q -> (length q <= fuel)%nat ->
  exists q1 q2 s', q = q1 ++ q2 /\ uartstart_loop fuel s = Ret tt s' /\ tx_rep s' q2 /\ sent s s' ((true,.) <$> q1).
Proof.
  revert s q. induction fuel as [|fuel IH]; intros s q Hr Hf; cbn [uartstart_loop]; rewrite bind_gets; cbv beta; unfold id;
    rewrite (tx_empty _ _ Hr).
  all: destruct q as [|c q]; [exists [], []; rewrite bool_decide_eq_true_2 by done; eexists; split; [done|]; split; [done|];
    destruct (isr_same (dev s)) as [Ea Ew]; destruct Hr; split; [split; simpl; by rewrite ?Ea|split; simpl; by rewrite ?app_nil_r]|].
  1: simpl in Hf; lia.
  rewrite bool_decide_eq_false_2 by done. unfold lsr, bind, gets, modify, ret.
  destruct (Z.land _ LSR_TX_IDLE =? 0) eqn:Ei.
  { exists [], (c :: q), (set_dev (read_lsr (dev s)).2 s). split; [done|]. split; [done|]. by apply tx_lsr. }
  destruct (tx_pop _ _ _ Hr) as (Ec & Hr' & Hn); [unfold tx_ready; by rewrite Ei|].
  rewrite Ec. cbn [thr]. unfold thr, modify, set_tx_r, set_asleep, set_dev. cbn [tx_buf tx_w tx_r dev asleep panicked thr_log ucon].
  destruct (IH _ _ Hr') as (q1 & q2 & s' & -> & E & Hr2 & Hn2); [simpl in Hf; lia|].
  exists (c :: q1), q2, s'. split; [done|]. split; [exact E|]. split; [done|]. exact (sent_trans _ _ _ _ _ Hn Hn2).
Qed.

Lemma uartstart_run s q :
  tx_rep s q ->
  exists q1 q2 s', q = q1 ++ q2 /\ uartstart s = Ret tt s' /\ tx_rep s' q2 /\ sent s s' ((true,.) <$> q1).
Proof. intros Hr. apply uartstart_loop_run; [done|]. pose proof (x_len _ _ Hr). unfold UART_TX_BUF_SIZE in *. lia. Qed.

Lemma tx_push s q c :
  tx_rep s q -> Z.of_nat (length q) < UART_TX_BUF_SIZE ->
  let s' := mkust (upd (tx_buf s) (tx_w s mod UART_TX_BUF_SIZE) (u8 c)) (u64 (tx_w s + 1)) (tx_r s) (dev s)
                  (asleep s) (panicked s) (thr_log s) (ucon s) in
  tx_rep s' (q ++ [u8 c]) /\ sent s s' [].
Proof.
  intros [Hr Hw Hl Hd Ha Hs] Hlt. unfold UART_TX_BUF_SIZE in *. split; [|split; simpl; by rewrite ?app_nil_r].
  split; simpl; try done; unfold UART_TX_BUF_SIZE in *; rewrite ?length_app; simpl.
  - rewrite Hw. unfold u64. dlia.
  - lia.
  - rewrite Hw. unfold u64. rewrite (Z.mod_mod_divide _ (2 ^ 64) 32) by (by exists (2 ^ 59)). by apply ring_push.
  - intros E. specialize (Hs E). lia.
Qed.

(** uartputc sleeps exactly when the buffer is full. *)
Lemma uartputc_run s q c :
  tx_rep s q -> panicked s = false ->
  exists q1 q2 s', let went := bool_decide (Z.of_nat (length q) < UART_TX_BUF_SIZE) in
    q ++ (if went then [u8 c] else []) = q1 ++ q2 /\ uartputc c s = Ret went s' /\
    tx_rep s' q2 /\ sent s s' ((true,.) <$> q1).
Proof.
  intros Hr Hp. unfold uartputc, spin_if_panicked. cbv zeta. unfold bind at 1 2, gets at 1. unfold id at 1. rewrite Hp. cbn [ret].
  unfold ret at 1. rewrite bind_gets. cbv beta. unfold id. rewrite (tx_full _ _ Hr). pose proof (x_len _ _ Hr) as Hl.
  destruct (Z.eqb_spec (Z.of_nat (length q)) UART_TX_BUF_SIZE) as [E|E].
  - rewrite bool_decide_eq_false_2 by lia. exists [], q, (set_asleep true s). split; [by rewrite app_nil_r|]. split; [done|].
    split; [|split; simpl; by rewrite ?app_nil_r]. destruct Hr. by split.
  - rewrite bool_decide_eq_true_2 by lia. destruct (tx_push s q c Hr) as [Hr1 Hn1]; [lia|].
    destruct (uartstart_run _ _ Hr1) as (q1 & q2 & s' & Eq & Es & Hr2 & Hn2). exists q1, q2, s'. split; [done|].
    unfold modify, bind. rewrite Es. split; [done|]. split; [done|]. exact (sent_trans _ _ _ _ _ Hn1 Hn2).
Qed.

(** A write gives the driver the bytes of its buffer, in order, up to where it
    sleeps, faults or ends. *)
Definition reached (o : wout) : Z := match o with Wrote i | WSleep i => i end.

Lemma bytes_S m a n : bytes m a (S n) = m a :: bytes m (a + 1) n.
Proof.
  unfold bytes. cbn [seq]. rewrite fmap_cons, Z.add_0_r. f_equal. rewrite <- fmap_S_seq, <- list_fmap_compose.
  apply list_fmap_ext. intros. simpl. f_equal. lia.
Qed.

Lemma consolewrite_run ud m src n fuel i s q :
  tx_rep s q -> panicked s = false -> 0 <= src -> 0 <= i <= n -> src + n < 2 ^ 64 -> fuel = Z.to_nat (n - i) ->
  exists q1 q2 o s', consolewrite_loop fuel ud m src n i s = Ret o s' /\ i <= reached o <= n /\
    q ++ (u8 <$> bytes m (src + i) (Z.to_nat (reached o - i))) = q1 ++ q2 /\
    tx_rep s' q2 /\ sent s s' ((true,.) <$> q1).
Proof.
  revert i s q. induction fuel as [|fuel IH]; intros i s q Hr Hp Hsrc Hi Hov Ef; cbn [consolewrite_loop].
  { replace (i <? n) with false by (symmetry; apply Z.ltb_ge; lia). exists [], q, (Wrote i), s. simpl.
    rewrite Z.sub_diag. split; [done|]. split; [lia|]. split; [by rewrite app_nil_r|]. split; [done|apply sent_nil]. }
  replace (i <? n) with true by (symmetry; apply Z.ltb_lt; lia). rewrite (u64_small (src + i)) by lia. cbn [negb].
  destruct (if ud then _ else _) as [d ok] eqn:Ed. destruct ok; cbn [negb].
  2:{ exists [], q, (Wrote i), s. simpl. rewrite Z.sub_diag.
    split; [done|]. split; [lia|]. split; [by rewrite app_nil_r|]. split; [done|apply sent_nil]. }
  assert (Hd : d 0 = m (src + i)).
  { destruct ud; [|by injection Ed as <-]. rewrite (ucopyin_ok _ _ _ _ _ Ed). simpl. by rewrite Z.add_0_r. }
  destruct (uartputc_run s q (d 0) Hr Hp) as (q1 & q2 & s1 & Eq & E & Hr1 & Hn1). unfold bind. rewrite E.
  case_bool_decide.
  2:{ exists q1, q2, (WSleep i), s1. simpl. rewrite Z.sub_diag. split; [done|]. split; [lia|]. done. }
  destruct (IH (i + 1) s1 q2) as (q3 & q4 & o & s' & E2 & Ho & Eq2 & Hr2 & Hn2); [done|by rewrite (n_pan _ _ _ Hn1)|lia..|].
  exists (q1 ++ q3), q4, o, s'. split; [done|]. split; [lia|]. split; [|split; [done|]].
  - rewrite <- app_assoc, <- Eq2, app_assoc, <- Eq, <- app_assoc. f_equal.
    replace (Z.to_nat (reached o - i)) with (S (Z.to_nat (reached o - (i + 1)))) by lia.
    rewrite bytes_S. simpl. by rewrite Hd, Z.add_assoc.
  - rewrite fmap_app. by eapply sent_trans.
Qed.

(** The device takes a character after at most [spins] reads of its status,
    whatever it is doing. *)
Fixpoint ready_within (spins : nat) (h : hw) : Prop :=
  match spins with
  | O => False
  | S spins' => tx_ready (read_lsr h).1 = true \/ ready_within spins' (read_lsr h).2
  end.

Definition prompt (spins : nat) : Prop := forall h, ready_within spins h.

(** Does not panic, and returns as [P] says unless the device is too slow. *)
Definition runs {A} (spins : nat) (r : result ust A) (P : ust -> Prop) : Prop :=
  match r with Ret _ s' => P s' | Panic _ => False | Stuck _ => ~ prompt spins end.

Lemma runs_seq {A B} spins (m : M ust A) (k : A -> M ust B) s (P Q : ust -> Prop) :
  runs spins (m s) Q -> (forall a s', m s = Ret a s' -> Q s' -> runs spins (k a s') P) -> runs spins ((x <- m ;; k x) s) P.
Proof. unfold bind. destruct (m s) as [a s'|?|?] eqn:E; simpl; intros H Hk; try done. by apply Hk. Qed.

Lemma spin_run n spins s :
  (prompt spins -> ready_within n (dev s)) ->
  runs spins (uartputc_spin n s) (fun s' => exists h,
    s' = set_dev (read_lsr h).2 s /\ tx_ready (read_lsr h).1 = true /\ accepted h = accepted (dev s) /\
    waiting h = waiting (dev s)).
Proof.
  revert s. induction n as [|n IH]; intros s Hp; cbn [uartputc_spin]; [by intros ?%Hp|].
  unfold lsr, bind, gets, modify, ret. destruct (Z.land _ LSR_TX_IDLE =? 0) eqn:Ei.
  - destruct (lsr_same (dev s)) as [Ha Hw]. specialize (IH (set_dev (read_lsr (dev s)).2 s)).
    assert (Hp' : prompt spins -> ready_within n (read_lsr (dev s)).2).
    { intros H. destruct (Hp H) as [Ht|]; [|done]. unfold tx_ready in Ht. by rewrite Ei in Ht. }
    specialize (IH Hp'). destruct (uartputc_spin n _) as [[] s'|?|?]; simpl in *; [|done|done].
    destruct IH as (h & -> & Ht & Ea & Ew). exists h. split; [done|]. split; [done|]. split; congruence.
  - exists (dev s). split; [done|]. split; [|done]. unfold tx_ready. by rewrite Ei.
Qed.

Lemma uartputc_sync_run spins c s q :
  tx_rep s q -> panicked s = false ->
  runs spins (uartputc_sync spins c s) (fun s' => tx_rep s' q /\ sent s s' [(false, u8 c)]).
Proof.
  intros Hr Ep. unfold uartputc_sync, spin_if_panicked. unfold bind at 1 2, gets, id. rewrite Ep. unfold ret.
  eapply runs_seq; [apply spin_run; intros H; apply H|]. intros [] s1 _ (h & -> & Ht & Ea & Ew).
  destruct (thr_takes h (u8 c) Ht) as [Ea' Ew']. destruct Hr as [? ? ? ? Ha ?]. split; split; simpl; try done; try congruence.
  rewrite Ea', Ea, Ha, fmap_app. simpl. by rewrite app_assoc.
Qed.

Definition echoed (cs : list Z) : list (bool * Z) := (fun c => (false, u8 c)) <$> cs.

Lemma sync_all_run spins cs s q :
  tx_rep s q -> panicked s = false ->
  runs spins (sync_all spins cs s) (fun s' => tx_rep s' q /\ sent s s' (echoed cs)).
Proof.
  revert s. induction cs as [|c cs IH]; intros s Hr Ep; cbn [sync_all].
  - split; [done|apply sent_nil].
  - eapply runs_seq; [by apply uartputc_sync_run|]. intros [] s1 _ [Hr1 Hn1].
    specialize (IH s1 Hr1). rewrite (n_pan _ _ _ Hn1) in IH. specialize (IH Ep).
    destruct (sync_all spins cs s1) as [[] s'|?|?]; simpl in *; [|done|done]. destruct IH as [Hr2 Hn2].
    split; [done|]. exact (sent_trans _ _ _ _ _ Hn1 Hn2).
Qed.

(** ** Input *)

(** Typing [cs]: the lines it leaves, and the echo. *)
Definition type_all (cs : list Z) (l : lines) : lines := foldl (fun l c => type_char c l) l cs.
Fixpoint echo_all (cs : list Z) (l : lines) : list Z :=
  match cs with [] => [] | c :: cs' => echo_char c l ++ echo_all cs' (type_char c l) end.

Lemma uartgetc_run s q :
  tx_rep s q -> exists s', tx_rep s' q /\ thr_log s' = thr_log s /\ panicked s' = panicked s /\ ucon s' = ucon s /\
    match waiting (dev s) with
    | [] => uartgetc s = Ret (-1) s' /\ waiting (dev s') = []
    | c :: cs => uartgetc s = Ret c s' /\ waiting (dev s') = cs
    end.
Proof.
  intros Hr. pose proof (lsr_rx (dev s)) as Hx. destruct (lsr_same (dev s)) as [Ea Ew].
  unfold uartgetc, lsr, bind, gets, modify, ret. rewrite Hx. destruct (waiting (dev s)) as [|c cs] eqn:Ec.
  - rewrite bool_decide_eq_true_2 by done. exists (set_dev (read_lsr (dev s)).2 s). by split; [apply tx_lsr|].
  - rewrite bool_decide_eq_false_2 by done. cbn [negb set_dev dev].
    destruct (rhr_take (read_lsr (dev s)).2 c cs) as (-> & E2 & E3); [done|].
    exists (set_dev (read_rhr (read_lsr (dev s)).2).2 s). split; [|by split_and!]. destruct Hr as [? ? ? ? Ha ?]. split; simpl; try done. by rewrite E3, Ea.
Qed.

Lemma console_char_run spins c s q l :
  tx_rep s q -> panicked s = false -> con_rep (con (ucon s)) l -> 0 <= c < 256 ->
  runs spins (console_char spins c s) (fun s' => tx_rep s' q /\ thr_log s' = thr_log s ++ echoed (echo_char c l) /\
    waiting (dev s') = waiting (dev s) /\ panicked s' = false /\ con_rep (con (ucon s')) (type_char c l)).
Proof.
  intros Hr Hp Hc Hch. unfold console_char. rewrite bind_gets. cbv beta. unfold id.
  destruct (console_step c l (ucon s) Hc Hch) as (k & -> & Hk). unfold modify at 1, bind at 1.
  rewrite (ty_echo _ _ _ _ _ Hk), drop_app_length.
  pose proof (sync_all_run spins (echo_char c l) (set_ucon k s) q) as H.
  destruct (sync_all _ _ _) as [[] s'|?|?]; [|apply H; by destruct Hr..]. destruct H as [Hr' [Hl Hw Hpa Hco]]; [by destruct Hr|done|].
  simpl in *. split_and!; try done; [congruence|]. rewrite Hco. apply Hk.
Qed.

Lemma uartintr_loop_run fuel spins cs s q l :
  tx_rep s q -> panicked s = false -> con_rep (con (ucon s)) l -> waiting (dev s) = cs -> (length cs <= fuel)%nat ->
  runs spins (uartintr_loop fuel spins s) (fun s' => tx_rep s' q /\ thr_log s' = thr_log s ++ echoed (echo_all cs l) /\
    waiting (dev s') = [] /\ panicked s' = false /\ con_rep (con (ucon s')) (type_all cs l)).
Proof.
  revert cs s l. induction fuel as [|fuel IH]; intros cs s l Hr Hp Hc Hw Hf; cbn [uartintr_loop];
    destruct (uartgetc_run s q Hr) as (s1 & Hr1 & Hl1 & Hp1 & Hu1 & H); rewrite Hw in H; destruct cs as [|c cs].
  1,3: destruct H as [E Hw1]; unfold bind; rewrite E; simpl; rewrite app_nil_r, Hu1; by split_and!; congruence.
  1: simpl in Hf; lia.
  destruct H as [E Hw1]. unfold bind at 1. rewrite E. assert (0 <= c < 256) by (apply (bytes_waiting (dev s)); rewrite Hw; set_solver).
  replace (c =? -1) with false by (symmetry; apply Z.eqb_neq; lia). rewrite <- Hu1 in Hc.
  eapply runs_seq; [apply console_char_run; by try congruence|]. intros [] s2 _ (Hr2 & Hl2 & Hw2 & Hp2 & Hc2).
  specialize (IH cs s2 _ Hr2 Hp2 Hc2). rewrite Hw2 in IH. specialize (IH Hw1 ltac:(simpl in Hf; lia)).
  destruct (uartintr_loop fuel spins s2) as [[] s'|?|?]; simpl in *; [|done|done]. destruct IH as (Hr' & Hl' & ?).
  split; [done|]. split; [|done]. rewrite Hl', Hl2, Hl1. unfold echoed. by rewrite fmap_app, app_assoc.
Qed.

(** The handler of the interrupt. *)
Lemma uartintr_run fuel spins s q l :
  tx_rep s q -> panicked s = false -> con_rep (con (ucon s)) l -> (length (waiting (dev s)) <= fuel)%nat ->
  runs spins (uartintr fuel spins s) (fun s' => exists q1 q2, q = q1 ++ q2 /\ tx_rep s' q2 /\
    thr_log s' = thr_log s ++ echoed (echo_all (waiting (dev s)) l) ++ ((true,.) <$> q1) /\
    waiting (dev s') = [] /\ panicked s' = false /\ con_rep (con (ucon s')) (type_all (waiting (dev s)) l)).
Proof.
  intros Hr Hp Hc Hf. unfold uartintr. eapply runs_seq; [by eapply uartintr_loop_run|].
  intros [] s1 _ (Hr1 & Hl1 & Hw1 & Hp1 & Hc1). destruct (uartstart_run s1 q Hr1) as (q1 & q2 & s' & Eq & E & Hr2 & [Hl Hw Hpa Hco]).
  rewrite E. exists q1, q2. split; [done|]. split; [done|]. rewrite Hl, Hl1, Hw, Hpa, Hco, app_assoc. by split_and!.
Qed.
End queue.

(** ** The driver at work *)

Section machine.
Context `{D : Uart} {L : UartLaws} {U : UserMem} {UL : UserMemLaws} (a0 : list Z).

(** The driver, and the bytes that the writes to the console have given it.  A
    write runs until it returns or sleeps; printf and the echo send characters
    past the buffer; the device interrupts, receives, and becomes ready as it
    likes, but takes nothing by itself. *)
Inductive ustep : ust * list Z -> ust * list Z -> Prop :=
| us_write s g ud m src n i o s' :
    0 <= src -> 0 <= i <= n -> src + n < 2 ^ 64 -> panicked s = false ->
    consolewrite ud m src n i s = Ret o s' ->
    ustep (s, g) (s', g ++ (u8 <$> bytes m (src + i) (Z.to_nat (reached o - i))))
| us_sync s g spins c s' : uartputc_sync spins c s = Ret tt s' -> ustep (s, g) (s', g)
| us_intr s g fuel spins s' :
    (length (waiting (dev s)) <= fuel)%nat -> panicked s = false -> uartintr fuel spins s = Ret tt s' -> ustep (s, g) (s', g)
| us_read s g killed ud target dst n o k :
    writable ud dst n -> 0 <= n <= target -> target < 2 ^ 31 -> 0 <= dst -> dst + n < 2 ^ 64 ->
    consoleread killed ud target dst n (ucon s) = Ret o k -> ustep (s, g) (set_ucon k s, g)
| us_device s g h : accepted h = accepted (dev s) -> ustep (s, g) (set_dev h s, g).

Definition uart_init (h : hw) (c : cst) : ust := mkust (fun _ => 0) 0 0 h false false [] c.

(** The bytes of the log that came from the buffer. *)
Definition buffered (log : list (bool * Z)) : list Z := (filter (fun x => x.1 = true) log).*2.

Lemma buffered_app l1 l2 : buffered (l1 ++ l2) = buffered l1 ++ buffered l2.
Proof. unfold buffered. by rewrite filter_app, fmap_app. Qed.
Lemma buffered_true q : buffered ((true,.) <$> q) = q.
Proof. unfold buffered. induction q as [|c q IH]; [done|]. rewrite fmap_cons, filter_cons_True, fmap_cons, IH by done. done. Qed.
Lemma buffered_echoed q : buffered (echoed q) = [].
Proof. unfold buffered, echoed. induction q as [|c q IH]; [done|]. rewrite fmap_cons, filter_cons_False by done. done. Qed.

Definition uinv (x : ust * list Z) : Prop :=
  exists q l, tx_rep a0 x.1 q /\ x.2 = buffered (thr_log x.1) ++ q /\ con_rep (con (ucon x.1)) l.

Lemma ustep_inv x y : uinv x -> ustep x y -> uinv y.
Proof.
  intros (q & l & Hr & Hg & Hc) Hs. destruct Hs as [s g ud m src n i o s' Hsrc Hi Hov Hp E|s g spins c s' E|s g fuel spins s' Hf Hp E
    |s g killed ud target dst n o k Hw Hn Ht Hd Hov E|s g h Eh]; simpl in *.
  - destruct (consolewrite_run a0 ud m src n _ i s q Hr Hp Hsrc Hi Hov eq_refl) as (q1 & q2 & o' & s2 & E2 & Ho & Eq & Hr2 & Hn).
    unfold consolewrite in E. rewrite E2 in E. injection E as -> ->. exists q2, l. simpl. split; [done|].
    rewrite (n_log _ _ _ Hn), (n_con _ _ _ Hn), buffered_app, buffered_true. split; [|done].
    by rewrite <- app_assoc, <- Eq, app_assoc, Hg.
  - assert (Hp : panicked s = false). { destruct (panicked s) eqn:Hp; [|done]. unfold uartputc_sync, spin_if_panicked, bind, gets, id in E. by rewrite Hp in E. }
    pose proof (uartputc_sync_run a0 spins c s q Hr Hp) as H. rewrite E in H. destruct H as [Hr2 Hn]. exists q, l. simpl.
    rewrite (n_log _ _ _ Hn), (n_con _ _ _ Hn), buffered_app. change (buffered [(false, u8 c)]) with (@nil Z). by rewrite app_nil_r.
  - pose proof (uartintr_run a0 fuel spins s q l Hr Hp Hc Hf) as H. rewrite E in H.
    destruct H as (q1 & q2 & -> & Hr2 & Hl & _ & _ & Hc2). exists q2. eexists. simpl. split; [done|]. split; [|exact Hc2].
    by rewrite Hl, !buffered_app, buffered_echoed, buffered_true, Hg, app_assoc.
  - destruct l as [ready edit]. pose proof (consoleread_run killed ud target (Z.to_nat n) dst ready edit (ucon s) Hc) as H.
    rewrite Z2Nat.id in H by lia. destruct H as [k' H]; [done|lia..|]. destruct (take_line _ _ _) as [[bs rest] fin].
    destruct H as (E2 & Hc2 & _). unfold consoleread in E. rewrite E2 in E. injection E as <- <-.
    exists q, (rest, edit). split; [by destruct Hr|]. done.
  - exists q, l. split; [destruct Hr; by split; simpl; rewrite ?Eh|]. done.
Qed.


(** On a device that takes a character after at most [spins] reads of
    its status, the interrupt handler returns; it has read every byte that waited
    and typed it on the console, which is left as the line discipline says, with
    the echo sent in the same order before it sends the bytes [q1] from the head of
    the transmit buffer. *)
Theorem uartintr_correct spins s q l :
  prompt spins -> tx_rep a0 s q -> panicked s = false -> con_rep (con (ucon s)) l ->
  exists q1 q2 s', uartintr (length (waiting (dev s))) spins s = Ret tt s' /\ q = q1 ++ q2 /\ tx_rep a0 s' q2 /\
    thr_log s' = thr_log s ++ echoed (echo_all (waiting (dev s)) l) ++ ((true,.) <$> q1) /\
    waiting (dev s') = [] /\ con_rep (con (ucon s')) (type_all (waiting (dev s)) l).
Proof.
  intros Hpr Hr Hp Hc. pose proof (uartintr_run a0 (length (waiting (dev s))) spins s q l Hr Hp Hc (le_n _)) as H.
  destruct (uartintr _ _ _) as [[] s'|?|?]; [|done|done]. destruct H as (q1 & q2 & Eq & Hr2 & Hl & Hw & _ & Hc2).
  exists q1, q2, s'. by split_and!.
Qed.
End machine.

(** ** Concrete runs *)

(** A device that is always ready: what it accepted and what waits. *)
#[local] Instance fast : Uart := {
  hw := list Z * list Z;
  read_lsr h := (if decide (h.2 = []) then 32 else 33, h);
  read_rhr h := (u8 (hd 0 h.2), (h.1, tl h.2));
  read_isr h := h;
  write_thr c h := (h.1 ++ [c], h.2);
  accepted h := h.1;
  waiting h := u8 <$> h.2
}.
#[local] Instance fast_laws : UartLaws.
Proof.
  split; simpl; try done.
  - by intros [a [|c w]].
  - intros [a [|c' w]] c q; [done|]. by intros [= <- <-].
  - intros h c (x & -> & _)%list_elem_of_fmap. apply u8_range.
Qed.

#[local] Instance flat_uart : UserMem := {
  ucopyout m dst src n := (fun a => if (dst <=? a) && (a <? dst + n) then src (a - dst) else m a, true);
  ucopyin m src n d := (fun i => if (0 <=? i) && (i <? n) then m (src + i) else d i, true)
}.
#[local] Instance flat_uart_laws : UserMemLaws.
Proof. split; simpl; intros ? ? ? ? ? [= <-] ?; done. Qed.

Definition idle_dev (q : list Z) : @hw fast := ([], q).

(** A write of two bytes, which the device takes at once. *)
Lemma uart_run_ok : exists s', consolewrite true (fun a => a mod 256) 1000 2 0 (uart_init (idle_dev []) con_hi) = Ret (Wrote 2) s'.
Proof. eexists. vm_compute. reflexivity. Qed.


(** The carriage return that ends the line "i". *)
Lemma uartintr_correct_witness :
  let s := uart_init (idle_dev [CR]) con_hi in
  exists q1 q2 s', uartintr 1 1 s = Ret tt s' /\ [] = q1 ++ q2 /\ tx_rep [] s' q2 /\
    thr_log s' = [] ++ echoed [LF] ++ ((true,.) <$> q1) /\ waiting (dev s') = [] /\
    con_rep (con (ucon s')) ([104; LF; 105; LF], []).
Proof.
  intros s. apply (uartintr_correct [] 1 s [] ([104; LF], [105])); [|by split|done|exact con_hi_rep].
  intros [a w]. left. simpl. by destruct (decide (w = [])).
Defined.
