(* ===== verification/Virtio.v ===== *)
(** kernel/virtio_disk.c: the driver of the virtio disk.

    The driver and the device share the descriptors, the two rings, the request
    headers, the status bytes and the data of the buffers.  An address that the
    driver puts in a descriptor is one of [addr].  The code between two sleeps runs
    under vdisk_lock and is one step; [woken] lists the channels it wakes.

    The device is not part of the sources.  It is a parameter of the machine: a
    relation between its private state and the shared state, of which
    [VirtioDevice] says what section 2.6 and 5.2 of the virtio specification say:
    it takes the heads of chains from the available ring, carries out each
    well-formed request it took, in any order, reports success and adds the head to
    the used ring. *)

From stdpp Require Import gmap.
From S2P Require Import Prelude Ring.
Open Scope Z_scope.

Definition NUM : Z := 8.
Definition BLOCK : Z := 1024.
Definition VRING_DESC_F_NEXT : Z := 1.
Definition VRING_DESC_F_WRITE : Z := 2.
Definition VIRTIO_BLK_T_IN : Z := 0.
Definition VIRTIO_BLK_T_OUT : Z := 1.

Inductive addr : Type := ANull | AOp (i : Z) | AData (b : Z) | AStatus (i : Z).

Record virtq_desc : Type := mkdesc { d_addr : addr; d_len : Z; d_flags : Z; d_next : Z }.
Record virtio_blk_req : Type := mkreq { r_type : Z; r_reserved : Z; r_sector : Z }.
Record buf : Type := mkbuf { b_blockno : Z; b_data : Z -> Z; b_disk : Z }.

Inductive chan : Type := CFree | CBuf (b : Z).
#[export] Instance chan_eq_dec : EqDecision chan.
Proof. solve_decision. Defined.

(** [platter] are the bytes of the disk. *)
Record vst : Type := mkvst {
  desc : Z -> virtq_desc; avail_idx : Z; avail_ring : Z -> Z; used_idx : Z; used_ring : Z -> Z;
  free : Z -> bool; seen_idx : Z; info_b : Z -> option Z; info_status : Z -> Z; ops : Z -> virtio_blk_req;
  bufs : Z -> buf; platter : Z -> Z; woken : list chan
}.

(** ** The driver *)

Definition set_desc (i : Z) (d : virtq_desc) : M vst unit := modify (fun s =>
  mkvst (upd (desc s) i d) (avail_idx s) (avail_ring s) (used_idx s) (used_ring s) (free s) (seen_idx s) (info_b s)
        (info_status s) (ops s) (bufs s) (platter s) (woken s)).
Definition set_free (i : Z) (v : bool) : M vst unit := modify (fun s =>
  mkvst (desc s) (avail_idx s) (avail_ring s) (used_idx s) (used_ring s) (upd (free s) i v) (seen_idx s) (info_b s)
        (info_status s) (ops s) (bufs s) (platter s) (woken s)).
Definition set_op (i : Z) (r : virtio_blk_req) : M vst unit := modify (fun s =>
  mkvst (desc s) (avail_idx s) (avail_ring s) (used_idx s) (used_ring s) (free s) (seen_idx s) (info_b s)
        (info_status s) (upd (ops s) i r) (bufs s) (platter s) (woken s)).
Definition set_status (i v : Z) : M vst unit := modify (fun s =>
  mkvst (desc s) (avail_idx s) (avail_ring s) (used_idx s) (used_ring s) (free s) (seen_idx s) (info_b s)
        (upd (info_status s) i v) (ops s) (bufs s) (platter s) (woken s)).
Definition set_info (i : Z) (b : option Z) : M vst unit := modify (fun s =>
  mkvst (desc s) (avail_idx s) (avail_ring s) (used_idx s) (used_ring s) (free s) (seen_idx s) (upd (info_b s) i b)
        (info_status s) (ops s) (bufs s) (platter s) (woken s)).
Definition set_disk (b v : Z) : M vst unit := modify (fun s =>
  mkvst (desc s) (avail_idx s) (avail_ring s) (used_idx s) (used_ring s) (free s) (seen_idx s) (info_b s)
        (info_status s) (ops s) (upd (bufs s) b (mkbuf (b_blockno (bufs s b)) (b_data (bufs s b)) v)) (platter s) (woken s)).
Definition set_avail (i : Z) (r : Z -> Z) : M vst unit := modify (fun s =>
  mkvst (desc s) i r (used_idx s) (used_ring s) (free s) (seen_idx s) (info_b s)
        (info_status s) (ops s) (bufs s) (platter s) (woken s)).
Definition set_seen (i : Z) : M vst unit := modify (fun s =>
  mkvst (desc s) (avail_idx s) (avail_ring s) (used_idx s) (used_ring s) (free s) i (info_b s)
        (info_status s) (ops s) (bufs s) (platter s) (woken s)).
Definition wakeup (c : chan) : M vst unit := modify (fun s =>
  mkvst (desc s) (avail_idx s) (avail_ring s) (used_idx s) (used_ring s) (free s) (seen_idx s) (info_b s)
        (info_status s) (ops s) (bufs s) (platter s) (woken s ++ [c])).

Fixpoint alloc_desc_loop (n : nat) (i : Z) : M vst Z :=
  match n with
  | O => ret (-1)
  | S n' => s <- gets id ;; if free s i then set_free i false ;; ret i else alloc_desc_loop n' (i + 1)
  end.
Definition alloc_desc : M vst Z := alloc_desc_loop (Z.to_nat NUM) 0.

Definition free_desc (i : Z) : M vst unit :=
  if NUM <=? i then panic "free_desc 1" else
  s <- gets id ;;
  if free s i then panic "free_desc 2" else
  set_desc i (mkdesc ANull 0 0 0) ;;
  set_free i true ;;
  wakeup CFree.

Fixpoint free_chain_loop (fuel : nat) (i : Z) : M vst unit :=
  match fuel with
  | O => stuck "free_chain: out of fuel"
  | S fuel' =>
      s <- gets id ;;
      let flag := d_flags (desc s i) in
      let nxt := d_next (desc s i) in
      free_desc i ;;
      if negb (Z.land flag VRING_DESC_F_NEXT =? 0) then free_chain_loop fuel' nxt else ret tt
  end.
Definition free_chain (i : Z) : M vst unit := free_chain_loop (Z.to_nat NUM) i.

(** [idx] holds the descriptors found so far. *)
Fixpoint alloc3_loop (n : nat) (idx : list Z) : M vst (option (list Z)) :=
  match n with
  | O => ret (Some idx)
  | S n' =>
      i <- alloc_desc ;;
      if i <? 0 then for_each idx free_desc ;; ret None
      else alloc3_loop n' (idx ++ [i])
  end.
Definition alloc3_desc : M vst (option (list Z)) := alloc3_loop 3 [].

Inductive vout : Type := SleepFree | SleepBuf (i0 : Z) | Finished.

(** The part of virtio_disk_rw from the second loop on. *)
Definition virtio_disk_wait (b i0 : Z) : M vst vout :=
  s <- gets id ;;
  if b_disk (bufs s b) =? 1 then ret (SleepBuf i0) else
  set_info i0 None ;;
  free_chain i0 ;;
  ret Finished.

Definition virtio_disk_rw (b : Z) (write : bool) : M vst vout :=
  s0 <- gets id ;;
  let sector := u32 (b_blockno (bufs s0 b) * (BLOCK / 512)) in
  r <- alloc3_desc ;;
  match r with
  | Some [i0; i1; i2] =>
      set_op i0 (mkreq (if write then VIRTIO_BLK_T_OUT else VIRTIO_BLK_T_IN) 0 sector) ;;
      set_desc i0 (mkdesc (AOp i0) 16 VRING_DESC_F_NEXT i1) ;;
      set_desc i1 (mkdesc (AData b) BLOCK (Z.lor (if write then 0 else VRING_DESC_F_WRITE) VRING_DESC_F_NEXT) i2) ;;
      set_status i0 255 ;;
      set_desc i2 (mkdesc (AStatus i0) 1 VRING_DESC_F_WRITE 0) ;;
      set_disk b 1 ;;
      set_info i0 (Some b) ;;
      s <- gets id ;;
      set_avail (avail_idx s) (upd (avail_ring s) (avail_idx s mod NUM) i0) ;;
      s <- gets id ;;
      set_avail (u16 (avail_idx s + 1)) (avail_ring s) ;;
      virtio_disk_wait b i0
  | _ => ret SleepFree
  end.

Fixpoint intr_loop (fuel : nat) : M vst unit :=
  s <- gets id ;;
  if seen_idx s =? used_idx s then ret tt else
  match fuel with
  | O => stuck "virtio_disk_intr: out of fuel"
  | S fuel' =>
      let id := used_ring s (seen_idx s mod NUM) in
      if negb (info_status s id =? 0) then panic "virtio_disk_intr status" else
      match info_b s id with
      | None => stuck "virtio_disk_intr: null pointer"
      | Some b =>
          set_disk b 0 ;;
          wakeup (CBuf b) ;;
          set_seen (u16 (seen_idx s + 1)) ;;
          intr_loop fuel'
      end
  end.

(** Each round moves the driver's index towards the device's. *)
Definition virtio_disk_intr : M vst unit :=
  s <- gets id ;; intr_loop (Z.to_nat (u16 (used_idx s - seen_idx s))).

(** ** The device *)

(** The chain at [h] is a request to write ([write]) or read the block of [b],
    whose header is [op] and whose status goes to [st]. *)
Record chain (s : vst) (h op b st : Z) (write : bool) : Prop := {
  ch_head : d_addr (desc s h) = AOp op /\ d_len (desc s h) = 16 /\
    Z.testbit (d_flags (desc s h)) 0 = true /\ Z.testbit (d_flags (desc s h)) 1 = false;
  ch_data : let i1 := d_next (desc s h) in
    d_addr (desc s i1) = AData b /\ d_len (desc s i1) = BLOCK /\
    Z.testbit (d_flags (desc s i1)) 0 = true /\ Z.testbit (d_flags (desc s i1)) 1 = negb write;
  ch_status : let i2 := d_next (desc s (d_next (desc s h))) in
    d_addr (desc s i2) = AStatus st /\ d_len (desc s i2) = 1 /\
    Z.testbit (d_flags (desc s i2)) 0 = false /\ Z.testbit (d_flags (desc s i2)) 1 = true;
  ch_op : r_type (ops s op) = if write then VIRTIO_BLK_T_OUT else VIRTIO_BLK_T_IN
}.

(** The [BLOCK] bytes from [off] on are those of [data]. *)
Definition overlay (p : Z -> Z) (off : Z) (data : Z -> Z) : Z -> Z :=
  fun a => if (off <=? a) && (a <? off + BLOCK) then data (a - off) else p a.

(** A request carried out with success. *)
Definition do_request (s : vst) (h op b st : Z) (write : bool) : vst :=
  let off := r_sector (ops s op) * 512 in
  mkvst (desc s) (avail_idx s) (avail_ring s) (u16 (used_idx s + 1)) (upd (used_ring s) (used_idx s mod NUM) h)
    (free s) (seen_idx s) (info_b s) (upd (info_status s) st 0) (ops s)
    (if write then bufs s else
       upd (bufs s) b (mkbuf (b_blockno (bufs s b)) (overlay (b_data (bufs s b)) 0 (fun k => platter s (off + k))) (b_disk (bufs s b))))
    (if write then overlay (platter s) off (b_data (bufs s b)) else platter s) (woken s).

(** [taken] are the chains that the device has taken and not finished, [position]
    is the entry of the available ring that it looks at next. *)
Class VirtioDevice : Type := {
  dpriv : Type;
  taken : dpriv -> list Z;
  position : dpriv -> Z;
  dstep : dpriv * vst -> dpriv * vst -> Prop
}.

Section device.
Context {V : VirtioDevice}.

Definition fetches (d : dpriv) (s : vst) (d' : dpriv) (s' : vst) : Prop :=
  s' = s /\ position d <> avail_idx s /\ position d' = u16 (position d + 1) /\
  taken d' ≡ₚ avail_ring s (position d mod NUM) :: taken d.

Definition finishes (d : dpriv) (s : vst) (d' : dpriv) (s' : vst) : Prop :=
  exists h, taken d ≡ₚ h :: taken d' /\ position d' = position d /\
    forall op b st write, chain s h op b st write -> s' = do_request s h op b st write.
End device.

Class VirtioLaws `{V : VirtioDevice} : Prop :=
  device_law : forall d s d' s', dstep (d, s) (d', s') -> fetches d s d' s' \/ finishes d s d' s'.

(** ** The machine *)

(** A process in virtio_disk_rw that looks for descriptors, or whose request has
    the head [i0]. *)
Inductive vthread : Type := VTry (b : Z) (write : bool) | VWait (b : Z) (write : bool) (i0 : Z).

Definition buf_of (t : vthread) : Z := match t with VTry b _ | VWait b _ _ => b end.
Definition chan_of (t : vthread) : chan := match t with VTry _ _ => CFree | VWait b _ _ => CBuf b end.

Definition wake_one (ws : list chan) (x : vthread * bool) : vthread * bool :=
  (x.1, x.2 && negb (bool_decide (chan_of x.1 ∈ ws))).
Definition wake (ws : list chan) (T : gmap Z (vthread * bool)) : gmap Z (vthread * bool) := wake_one ws <$> T.

Definition quiet (s : vst) : vst :=
  mkvst (desc s) (avail_idx s) (avail_ring s) (used_idx s) (used_ring s) (free s) (seen_idx s) (info_b s)
        (info_status s) (ops s) (bufs s) (platter s) [].

(** The process after a run: asleep, or gone. *)
Definition after (o : vout) (p b : Z) (write : bool) (T : gmap Z (vthread * bool)) : gmap Z (vthread * bool) :=
  match o with
  | SleepFree => <[p := (VTry b write, true)]> T
  | SleepBuf i0 => <[p := (VWait b write i0, true)]> T
  | Finished => delete p T
  end.

Section machine.
Context {V : VirtioDevice}.

Record vmach : Type := mkvm { vv : vst; vd : dpriv; vthr : gmap Z (vthread * bool) }.

Definition in_use (T : gmap Z (vthread * bool)) (b : Z) : Prop := exists p t a, T !! p = Some (t, a) /\ buf_of t = b.

(** The caller of virtio_disk_rw owns the buffer, which no other process uses
    meanwhile. *)
Inductive vstep : vmach -> vmach -> Prop :=
| vs_call s d T p b write :
    T !! p = None -> ~ in_use T b -> 0 <= b_blockno (bufs s b) < 2 ^ 31 ->
    vstep (mkvm s d T) (mkvm s d (<[p := (VTry b write, false)]> T))
| vs_rw s d T p b write o s' :
    T !! p = Some (VTry b write, false) -> virtio_disk_rw b write s = Ret o s' ->
    vstep (mkvm s d T) (mkvm (quiet s') d (after o p b write (wake (woken s') T)))
| vs_wait s d T p b write i0 o s' :
    T !! p = Some (VWait b write i0, false) -> virtio_disk_wait b i0 s = Ret o s' ->
    vstep (mkvm s d T) (mkvm (quiet s') d (after o p b write (wake (woken s') T)))
| vs_intr s d T s' :
    virtio_disk_intr s = Ret tt s' -> vstep (mkvm s d T) (mkvm (quiet s') d (wake (woken s') T))
| vs_device s d T s' d' : dstep (d, s) (d', s') -> vstep (mkvm s d T) (mkvm s' d' T)
| vs_buf s d T b blk data :
    ~ in_use T b ->
    vstep (mkvm s d T)
      (mkvm (mkvst (desc s) (avail_idx s) (avail_ring s) (used_idx s) (used_ring s) (free s) (seen_idx s) (info_b s)
               (info_status s) (ops s) (upd (bufs s) b (mkbuf blk data 0)) (platter s) (woken s)) d T).

(** What virtio_disk_init leaves in memory. *)
Definition vinit (bs : Z -> buf) (disk : Z -> Z) : vst :=
  mkvst (fun _ => mkdesc ANull 0 0 0) 0 (fun _ => 0) 0 (fun _ => 0) (fun i => (0 <=? i) && (i <? NUM)) 0 (fun _ => None)
        (fun _ => 0) (fun _ => mkreq 0 0 0) bs disk [].
End machine.

(** ** The abstract disk *)

(** A process asks for a transfer, the transfer happens at once, the process goes
    on. *)
Inductive athread : Type := AReq (b : Z) (write : bool) | ADone (b : Z).

Record ast : Type := mkast { a_disk : Z -> Z; a_buf : Z -> Z * (Z -> Z); a_thr : gmap Z athread }.

Definition a_buf_of (t : athread) : Z := match t with AReq b _ | ADone b => b end.
Definition a_free (T : gmap Z athread) (b : Z) : Prop := forall p t, T !! p = Some t -> a_buf_of t <> b.

Inductive astep : ast -> ast -> Prop :=
| as_call D B T p b write : T !! p = None -> a_free T b -> astep (mkast D B T) (mkast D B (<[p := AReq b write]> T))
| as_write D B T p b :
    T !! p = Some (AReq b true) ->
    astep (mkast D B T) (mkast (overlay D ((B b).1 * BLOCK) (B b).2) B (<[p := ADone b]> T))
| as_read D B T p b :
    T !! p = Some (AReq b false) ->
    astep (mkast D B T)
      (mkast D (upd B b ((B b).1, overlay (B b).2 0 (fun k => D ((B b).1 * BLOCK + k)))) (<[p := ADone b]> T))
| as_return D B T p b : T !! p = Some (ADone b) -> astep (mkast D B T) (mkast D B (delete p T))
| as_buf D B T b blk data : a_free T b -> astep (mkast D B T) (mkast D (upd B b (blk, data)) T).

(** A transfer has happened once its status is 0. *)
Definition abs_thread (s : vst) (t : vthread) : athread :=
  match t with
  | VTry b write => AReq b write
  | VWait b write i0 => if info_status s i0 =? 0 then ADone b else AReq b write
  end.
