(* ===== verification/VirtioInv.v ===== *)
(** The invariant of the disk driver, and what each step of the machine of
    Virtio.v does. *)

From stdpp Require Import gmap.
From S2P Require Import Prelude Ring Virtio.
Open Scope Z_scope.

(** ** The effect of the driver's routines *)

Definition in_range (i : Z) : Prop := 0 <= i < NUM.

Definition with_free (f : Z -> bool) (s : vst) : vst :=
  mkvst (desc s) (avail_idx s) (avail_ring s) (used_idx s) (used_ring s) f (seen_idx s) (info_b s)
        (info_status s) (ops s) (bufs s) (platter s) (woken s).

Lemma alloc_desc_loop_run n i s :
  (exists j, i <= j < i + Z.of_nat n /\ free s j = true /\
     alloc_desc_loop n i s = Ret j (with_free (upd (free s) j false) s)) \/
  ((forall j, i <= j < i + Z.of_nat n -> free s j = false) /\ alloc_desc_loop n i s = Ret (-1) s).
Proof.
  revert i. induction n as [|n IH]; intros i; cbn [alloc_desc_loop]; [right; split; [lia|done]|].
  rewrite bind_gets. cbv beta. unfold id. destruct (free s i) eqn:E.
  - left. exists i. split; [lia|]. done.
  - destruct (IH (i + 1)) as [(j & Hj & Ej & Er)|[Hj Er]]; rewrite Er.
    + left. exists j. split; [lia|]. done.
    + right. split; [|done]. intros j ?. destruct (decide (j = i)) as [->|]; [done|]. apply Hj. lia.
Qed.

Lemma alloc_desc_run s :
  (exists j, in_range j /\ free s j = true /\ alloc_desc s = Ret j (with_free (upd (free s) j false) s)) \/
  ((forall j, in_range j -> free s j = false) /\ alloc_desc s = Ret (-1) s).
Proof. apply (alloc_desc_loop_run (Z.to_nat NUM) 0 s). Qed.

(** free_desc of a descriptor in use. *)
Definition fd (i : Z) (s : vst) : vst :=
  mkvst (upd (desc s) i (mkdesc ANull 0 0 0)) (avail_idx s) (avail_ring s) (used_idx s) (used_ring s) (upd (free s) i true)
        (seen_idx s) (info_b s) (info_status s) (ops s) (bufs s) (platter s) (woken s ++ [CFree]).

Lemma free_desc_run i s : in_range i -> free s i = false -> free_desc i s = Ret tt (fd i s).
Proof.
  intros Hi Ef. unfold free_desc. destruct (Z.leb_spec NUM i); [unfold in_range in Hi; lia|].
  rewrite bind_gets. cbv beta. unfold id. by rewrite Ef.
Qed.

(** A failed allocation gives back what it took: only the contents of free
    descriptors may differ. *)
Record gave_back (s s' : vst) : Prop := {
  g_free : forall i, free s' i = free s i;
  g_desc : forall i, free s i = false -> desc s' i = desc s i;
  g_rest : avail_idx s' = avail_idx s /\ avail_ring s' = avail_ring s /\ used_idx s' = used_idx s /\
    used_ring s' = used_ring s /\ seen_idx s' = seen_idx s /\ info_b s' = info_b s /\ info_status s' = info_status s /\
    ops s' = ops s /\ bufs s' = bufs s /\ platter s' = platter s;
  g_woken : forall c, c ∈ woken s' -> c ∈ woken s \/ c = CFree
}.

Definition take3 (i j k : Z) (s : vst) : vst := with_free (upd (upd (upd (free s) i false) j false) k false) s.

Lemma upd_true_back (f : Z -> bool) i j : f i = true -> upd (upd f i false) i true j = f j.
Proof. intros. rewrite !upd_case. repeat case_decide; congruence. Qed.

Ltac upds := repeat first [rewrite upd_case in * | case_decide]; try congruence.

(** Three distinct free descriptors. *)
Definition trio (s : vst) (i j k : Z) : Prop :=
  in_range i /\ in_range j /\ in_range k /\ i <> j /\ i <> k /\ j <> k /\
  free s i = true /\ free s j = true /\ free s k = true.

Lemma alloc3_run s :
  exists r s', alloc3_desc s = Ret r s' /\
    ((exists i j k, r = Some [i; j; k] /\ s' = take3 i j k s /\ trio s i j k) \/
     (r = None /\ gave_back s s' /\ forall i j k, ~ trio s i j k)).
Proof.
  unfold alloc3_desc. cbn [alloc3_loop]. unfold bind at 1.
  destruct (alloc_desc_run s) as [(i & Hi & Ei & ->)|[Hno ->]].
  2:{ exists None, s. split; [done|]. right. split; [done|]. split; [split; naive_solver|].
      intros i j k (Hi & _ & _ & _ & _ & _ & E & _). by rewrite Hno in E. }
  pose proof Hi as [Hi0 _]. replace (i <? 0) with false by (symmetry; apply Z.ltb_ge; lia). unfold bind at 1. set (s1 := with_free _ s).
  destruct (alloc_desc_run s1) as [(j & Hj & Ej & ->)|[Hno ->]].
  2:{ exists None, (fd i s1). change (-1 <? 0) with true. cbn [app for_each]. unfold bind.
      rewrite (free_desc_run i s1) by (done || by subst s1; cbn; rewrite upd_eq).
      split; [done|]. right. split; [done|]. split; [split; [| |done|]; subst s1; cbn|].
      - intros x. by apply upd_true_back.
      - intros x Hx. upds.
      - set_solver.
      - intros x y z (Hx & Hy & Hz & ? & ? & ? & Ex & Ey & Ez).
        pose proof (Hno x Hx) as Hn1. pose proof (Hno y Hy) as Hn2. subst s1. cbn in Hn1, Hn2. upds. }
  assert (Hij : j <> i) by (intros ->; subst s1; cbn in Ej; by rewrite upd_eq in Ej).
  assert (Ej' : free s j = true) by (subst s1; cbn in Ej; by rewrite upd_ne in Ej).
  pose proof Hj as [Hj0 _]. replace (j <? 0) with false by (symmetry; apply Z.ltb_ge; lia). unfold bind at 1. set (s2 := with_free _ s1).
  destruct (alloc_desc_run s2) as [(k & Hk & Ek & ->)|[Hno ->]].
  - pose proof Hk as [Hk0 _]. replace (k <? 0) with false by (symmetry; apply Z.ltb_ge; lia). eexists _, _. split; [done|]. left.
    subst s2 s1. cbn in Ek. exists i, j, k. split; [done|]. split; [done|]. unfold trio. upds. by split_and!.
  - exists None, (fd j (fd i s2)). change (-1 <? 0) with true. cbn [app for_each]. unfold bind.
    rewrite (free_desc_run i s2) by (done || by subst s2 s1; cbn; upds).
    rewrite (free_desc_run j (fd i s2)) by (done || by subst s2 s1; cbn; upds).
    split; [done|]. right. split; [done|]. split; [split; [| |done|]; subst s2 s1; cbn|].
    + intros x. upds.
    + intros x Hx. upds.
    + set_solver.
    + intros x y z (Hx & Hy & Hz & ? & ? & ? & Ex & Ey & Ez).
      pose proof (Hno x Hx) as Hn1. pose proof (Hno y Hy) as Hn2. pose proof (Hno z Hz) as Hn3. subst s2 s1. cbn in Hn1, Hn2, Hn3. upds.
Qed.

(** Runs a change of the state, and reads what was written. *)
Ltac vs := cbn [desc avail_idx avail_ring used_idx used_ring free seen_idx info_b info_status ops bufs platter woken].
Ltac vrun := unfold set_op, set_desc, set_status, set_disk, set_info, set_avail, set_seen, wakeup; rewrite bind_modify; vs.

(** The state once a request is handed to the device. *)
Definition blk_type (write : bool) : Z := if write then VIRTIO_BLK_T_OUT else VIRTIO_BLK_T_IN.
Definition head_desc (i0 i1 : Z) : virtq_desc := mkdesc (AOp i0) 16 VRING_DESC_F_NEXT i1.
Definition data_desc (b : Z) (write : bool) (i2 : Z) : virtq_desc :=
  mkdesc (AData b) BLOCK (Z.lor (if write then 0 else VRING_DESC_F_WRITE) VRING_DESC_F_NEXT) i2.
Definition status_desc (i0 : Z) : virtq_desc := mkdesc (AStatus i0) 1 VRING_DESC_F_WRITE 0.
Definition with_disk (b v : Z) (B : Z -> buf) : Z -> buf := upd B b (mkbuf (b_blockno (B b)) (b_data (B b)) v).

Definition submit (b : Z) (write : bool) (i j k : Z) (s : vst) : vst :=
  mkvst (upd (upd (upd (desc s) i (head_desc i j)) j (data_desc b write k)) k (status_desc i))
    (u16 (avail_idx s + 1)) (upd (avail_ring s) (avail_idx s mod NUM) i) (used_idx s) (used_ring s)
    (upd (upd (upd (free s) i false) j false) k false) (seen_idx s) (upd (info_b s) i (Some b))
    (upd (info_status s) i 255) (upd (ops s) i (mkreq (blk_type write) 0 (u32 (b_blockno (bufs s b) * 2))))
    (with_disk b 1 (bufs s)) (platter s) (woken s).

Lemma virtio_disk_rw_run b write s :
  exists o s', virtio_disk_rw b write s = Ret o s' /\
    ((exists i j k, o = SleepBuf i /\ s' = submit b write i j k s /\ trio s i j k) \/
     (o = SleepFree /\ gave_back s s' /\ forall i j k, ~ trio s i j k)).
Proof.
  unfold virtio_disk_rw. rewrite bind_gets. cbv beta zeta. unfold bind at 1, id at 1.
  destruct (alloc3_run s) as (r & s' & -> & [(i & j & k & -> & -> & Ht)|(-> & Hg & Hno)]).
  - eexists _, _. split; [|left; exists i, j, k; split; [reflexivity|split; [reflexivity|done]]].
    unfold take3, with_free, submit, with_disk. destruct s. vs. do 7 vrun.
    do 2 (rewrite bind_gets; cbv beta; unfold id; vrun). unfold virtio_disk_wait. rewrite bind_gets. cbv beta. unfold id. vs.
    rewrite upd_eq. reflexivity.
  - exists SleepFree, s'. split; [done|]. by right.
Qed.

(** The state once a request is over. *)
Definition retire (i j k : Z) (s : vst) : vst :=
  mkvst (upd (upd (upd (desc s) i (mkdesc ANull 0 0 0)) j (mkdesc ANull 0 0 0)) k (mkdesc ANull 0 0 0)) (avail_idx s) (avail_ring s)
    (used_idx s) (used_ring s) (upd (upd (upd (free s) i true) j true) k true) (seen_idx s) (upd (info_b s) i None) (info_status s)
    (ops s) (bufs s) (platter s) (((woken s ++ [CFree]) ++ [CFree]) ++ [CFree]).

(** The descriptors of a request in the hands of the device; the request. *)
Definition chain_at (s : vst) (b : Z) (write : bool) (i j k : Z) : Prop :=
  i <> j /\ i <> k /\ j <> k /\ (forall x, x = i \/ x = j \/ x = k -> in_range x /\ free s x = false) /\
  desc s i = head_desc i j /\ desc s j = data_desc b write k /\ desc s k = status_desc i.
Definition req_at (s : vst) (b : Z) (write : bool) (i j k : Z) : Prop :=
  chain_at s b write i j k /\ ops s i = mkreq (blk_type write) 0 (b_blockno (bufs s b) * 2) /\ info_b s i = Some b.

Lemma free_chain_next fuel i s :
  in_range i -> free s i = false ->
  free_chain_loop (S fuel) i s =
    (if negb (Z.land (d_flags (desc s i)) VRING_DESC_F_NEXT =? 0) then free_chain_loop fuel (d_next (desc s i)) else ret tt) (fd i s).
Proof. intros Hi Hf. cbn [free_chain_loop]. rewrite bind_gets. cbv beta zeta. unfold bind, id. by rewrite free_desc_run. Qed.

Lemma free_chain_run b write i j k s : chain_at s b write i j k -> free_chain i s = Ret tt (fd k (fd j (fd i s))).
Proof.
  intros (Hij & Hik & Hjk & Hr & Di & Dj & Dk). unfold free_chain. change (Z.to_nat NUM) with 8%nat.
  rewrite free_chain_next, Di by (apply Hr; tauto). cbn [head_desc d_flags d_next]. change (negb _) with true. cbv iota.
  assert (Ej : desc (fd i s) j = data_desc b write k) by (cbn; by rewrite upd_ne).
  rewrite free_chain_next, Ej; [|apply Hr; tauto|cbn; rewrite upd_ne by done; apply Hr; tauto]. cbn [data_desc d_flags d_next].
  assert (Ek : desc (fd j (fd i s)) k = status_desc i) by (cbn; by rewrite !upd_ne by done).
  destruct write; (change (negb _) with true; cbv iota;
    rewrite free_chain_next, Ek; [done|apply Hr; tauto|cbn; rewrite !upd_ne by done; apply Hr; tauto]).
Qed.

Lemma virtio_disk_wait_run b write i j k s :
  req_at s b write i j k ->
  (b_disk (bufs s b) = 1 /\ virtio_disk_wait b i s = Ret (SleepBuf i) s) \/
  (b_disk (bufs s b) <> 1 /\ virtio_disk_wait b i s = Ret Finished (retire i j k s)).
Proof.
  intros [Hc _]. unfold virtio_disk_wait. rewrite bind_gets. cbv beta. unfold id.
  destruct (Z.eqb_spec (b_disk (bufs s b)) 1) as [E|E]; [by left|]. right. split; [done|]. vrun. unfold bind.
  set (s1 := mkvst _ _ _ _ _ _ _ _ _ _ _ _ _). by rewrite (free_chain_run b write i j k s1 Hc).
Qed.

(** One completion is acknowledged. *)
Definition ack (b : Z) (s : vst) : vst :=
  mkvst (desc s) (avail_idx s) (avail_ring s) (used_idx s) (used_ring s) (free s) (u16 (seen_idx s + 1)) (info_b s)
        (info_status s) (ops s) (with_disk b 0 (bufs s)) (platter s) (woken s ++ [CBuf b]).

Lemma intr_loop_next fuel s h b :
  seen_idx s <> used_idx s -> used_ring s (seen_idx s mod NUM) = h -> info_status s h = 0 -> info_b s h = Some b ->
  intr_loop (S fuel) s = intr_loop fuel (ack b s).
Proof.
  intros Hne Hh Hs Hb. cbn [intr_loop]. rewrite bind_gets. cbv beta zeta. unfold id. destruct (Z.eqb_spec (seen_idx s) (used_idx s)); [done|].
  rewrite Hh, Hs, Hb. cbn [negb Z.eqb]. destruct s. by do 3 vrun.
Qed.

(** ** The invariant *)

(** The descriptors in use are those of the requests, each of one request. *)
Record owns (s : vst) (K : gmap Z vthread) : Prop := {
  o_req : forall p b w i, K !! p = Some (VWait b w i) -> exists j k, req_at s b w i j k;
  o_own : forall x, in_range x -> free s x = false -> exists p b w i j k,
    K !! p = Some (VWait b w i) /\ req_at s b w i j k /\ (x = i \/ x = j \/ x = k);
  o_disj : forall p b w i j k p' b' w' i' j' k' x, p <> p' ->
    K !! p = Some (VWait b w i) -> K !! p' = Some (VWait b' w' i') -> req_at s b w i j k -> req_at s b' w' i' j' k' ->
    (x = i \/ x = j \/ x = k) -> ~ (x = i' \/ x = j' \/ x = k')
}.

(** Where a request is: with the device, completed, or acknowledged. *)
Inductive phase (s : vst) (b i : Z) (QP R : list Z) : Prop :=
| ph_device : i ∈ QP -> info_status s i = 255 -> b_disk (bufs s b) = 1 -> phase s b i QP R
| ph_used : i ∈ R -> info_status s i = 0 -> b_disk (bufs s b) = 1 -> phase s b i QP R
| ph_done : i ∉ QP -> i ∉ R -> info_status s i = 0 -> b_disk (bufs s b) = 0 -> phase s b i QP R.

(** [pos] and [P] are the device's position in the available ring and the requests
    it has taken, [Q] those it has not seen yet, [R] those whose completion the
    driver has not seen yet. *)
Record core (s : vst) (pos : Z) (P : list Z) (K : gmap Z vthread) (Q R : list Z) : Prop := {
  i_owns : owns s K;
  i_blk : forall p t, K !! p = Some t -> 0 <= b_blockno (bufs s (buf_of t)) < 2 ^ 31;
  i_buf : forall p p' t t', p <> p' -> K !! p = Some t -> K !! p' = Some t' -> buf_of t <> buf_of t';
  i_avail : 0 <= pos < 2 ^ 16 /\ avail_idx s = u16 (pos + Z.of_nat (length Q)) /\ ring NUM (avail_ring s) pos Q;
  i_used : 0 <= seen_idx s < 2 ^ 16 /\ used_idx s = u16 (seen_idx s + Z.of_nat (length R)) /\ ring NUM (used_ring s) (seen_idx s) R;
  i_nodup : NoDup (Q ++ P ++ R);
  i_heads : forall h, h ∈ Q ++ P ++ R -> exists p b w, K !! p = Some (VWait b w h);
  i_phase : forall p b w i, K !! p = Some (VWait b w i) -> phase s b i (Q ++ P) R
}.

Lemma length_heads (l : list Z) : NoDup l -> (forall h, h ∈ l -> in_range h) -> Z.of_nat (length l) <= NUM.
Proof.
  intros Hn Hr. assert (Hs : l ⊆ seqZ 0 NUM). { intros h Hh. apply elem_of_seqZ. specialize (Hr h Hh). unfold in_range in Hr. lia. }
  pose proof (submseteq_length _ _ (NoDup_submseteq _ _ Hn Hs)) as H. rewrite length_seqZ in H. unfold NUM in *. lia.
Qed.

(** A request is the same while its descriptors, its header and the block number
    of its buffer are. *)
Lemma req_same s s' b w i j k :
  req_at s b w i j k ->
  (forall x, x = i \/ x = j \/ x = k -> desc s' x = desc s x /\ free s' x = free s x) ->
  ops s' i = ops s i -> info_b s' i = info_b s i -> b_blockno (bufs s' b) = b_blockno (bufs s b) ->
  req_at s' b w i j k.
Proof.
  intros ((Hij & Hik & Hjk & Hr & Di & Dj & Dk) & Ho & Hb) Hs Eo Ei Eb. split; [|rewrite Eo, Ei, Eb; done].
  destruct (Hs i) as [Ei1 _], (Hs j) as [Ej1 _], (Hs k) as [Ek1 _]; [tauto..|]. unfold chain_at. rewrite Ei1, Ej1, Ek1. split_and!; try done.
  intros x Hx. destruct (Hs x Hx) as [_ ->]. by apply Hr.
Qed.

(** The descriptors of a request follow from its head. *)
Lemma req_det s b w i j k b' w' j' k' : req_at s b w i j k -> req_at s b' w' i j' k' -> j = j' /\ k = k'.
Proof.
  intros ((_ & _ & _ & _ & Di & Dj & _) & _) ((_ & _ & _ & _ & Di' & Dj' & _) & _). rewrite Di in Di'. injection Di' as <-.
  rewrite Dj in Dj'. injection Dj' as _ _ <-. done.
Qed.

Lemma req_chain s b w i j k : req_at s b w i j k -> chain s i i b i w.
Proof.
  intros ((_ & _ & _ & _ & Di & Dj & Dk) & Ho & _). split; cbv zeta; rewrite ?Di; cbn [head_desc d_next]; rewrite ?Dj;
    cbn [data_desc d_next]; rewrite ?Dk, ?Ho; try done; by destruct w.
Qed.

(** Two requests with one head are one. *)
Lemma owns_head s K p p' b b' w w' i :
  owns s K -> K !! p = Some (VWait b w i) -> K !! p' = Some (VWait b' w' i) -> p = p'.
Proof.
  intros H Hp Hp'. destruct (decide (p = p')) as [|Hne]; [done|]. destruct (o_req _ _ H _ _ _ _ Hp) as (j & k & Hr).
  destruct (o_req _ _ H _ _ _ _ Hp') as (j' & k' & Hr'). exfalso.
  apply (o_disj _ _ H _ _ _ _ _ _ _ _ _ _ _ _ i Hne Hp Hp' Hr Hr'); tauto.
Qed.

Lemma owns_head_range s K p b w i : owns s K -> K !! p = Some (VWait b w i) -> in_range i.
Proof. intros H Hp. destruct (o_req _ _ H _ _ _ _ Hp) as (j & k & (_ & _ & _ & Hr & _) & _). apply Hr. tauto. Qed.

Lemma core_range s pos P K Q R h : core s pos P K Q R -> h ∈ Q ++ P ++ R -> in_range h.
Proof. intros H Hh. destruct (i_heads _ _ _ _ _ _ H h Hh) as (p & b & w & Hp). eapply owns_head_range; [apply H|done]. Qed.

Lemma owns_same s s' K :
  owns s K ->
  (forall p b w i j k, K !! p = Some (VWait b w i) -> req_at s b w i j k -> req_at s' b w i j k) ->
  (forall x, in_range x -> free s' x = false -> free s x = false) ->
  owns s' K.
Proof.
  intros H Hr Hf. assert (Hback : forall p b w i j k, K !! p = Some (VWait b w i) -> req_at s' b w i j k -> req_at s b w i j k).
  { intros p b w i j k Hp Hs. destruct (o_req _ _ H _ _ _ _ Hp) as (j' & k' & Hs').
    by destruct (req_det _ _ _ _ _ _ _ _ _ _ Hs (Hr _ _ _ _ _ _ Hp Hs')) as [<- <-]. }
  split.
  - intros p b w i Hp. destruct (o_req _ _ H _ _ _ _ Hp) as (j & k & Hs). exists j, k. by eapply Hr.
  - intros x Hx Hfx. destruct (o_own _ _ H x Hx (Hf x Hx Hfx)) as (p & b & w & i & j & k & Hp & Hs & Hin).
    exists p, b, w, i, j, k. split; [done|]. split; [by eapply Hr|done].
  - intros p b w i j k p' b' w' i' j' k' x Hne Hp Hp' Hs Hs'. eapply (o_disj _ _ H); eauto.
Qed.

(** A new request. *)
Lemma owns_submit s K p b w i j k :
  owns s K -> K !! p = Some (VTry b w) -> 0 <= b_blockno (bufs s b) < 2 ^ 31 -> trio s i j k ->
  (forall p' t', p' <> p -> K !! p' = Some t' -> buf_of t' <> b) ->
  req_at (submit b w i j k s) b w i j k /\ owns (submit b w i j k s) (<[p := VWait b w i]> K).
Proof.
  intros H Hp Hb (Ri & Rj & Rk & Hij & Hik & Hjk & Fi & Fj & Fk) Hbuf.
  assert (Hnew : req_at (submit b w i j k s) b w i j k).
  { split; [|split; simpl; rewrite ?upd_eq; [|done]].
    - split_and!; try done; simpl; [|upds..]. intros x Hx. destruct Hx as [-> | [-> | ->]]; (split; [done|upds]).
    - f_equal. unfold with_disk. rewrite upd_eq. simpl. apply u32_small. lia. }
  split; [done|].
  assert (Hin : forall x b' w' i' j' k', req_at s b' w' i' j' k' -> x = i' \/ x = j' \/ x = k' -> x <> i /\ x <> j /\ x <> k).
  { intros x b' w' i' j' k' ((_ & _ & _ & Hr & _) & _) Hx. destruct (Hr x Hx) as [_ Hfx]. split_and!; intros ->; congruence. }
  assert (Hold : forall p' b' w' i' j' k', p' <> p -> K !! p' = Some (VWait b' w' i') -> req_at s b' w' i' j' k' ->
    req_at (submit b w i j k s) b' w' i' j' k').
  { intros p' b' w' i' j' k' Hne Hp' Hs. eapply req_same; [exact Hs|..]; simpl.
    - intros x Hx. destruct (Hin x _ _ _ _ _ Hs Hx) as (? & ? & ?). by rewrite !upd_ne.
    - destruct (Hin i' _ _ _ _ _ Hs) as (? & _); [tauto|]. by rewrite upd_ne.
    - destruct (Hin i' _ _ _ _ _ Hs) as (? & _); [tauto|]. by rewrite upd_ne.
    - unfold with_disk. by rewrite upd_ne by (apply (Hbuf p' _ Hne Hp')). }
  assert (Hback : forall p' b' w' i' j' k', p' <> p -> K !! p' = Some (VWait b' w' i') ->
    req_at (submit b w i j k s) b' w' i' j' k' -> req_at s b' w' i' j' k').
  { intros p' b' w' i' j' k' Hne Hp' Hs. destruct (o_req _ _ H _ _ _ _ Hp') as (j1 & k1 & Hs').
    by destruct (req_det _ _ _ _ _ _ _ _ _ _ Hs (Hold _ _ _ _ _ _ Hne Hp' Hs')) as [<- <-]. }
  split.
  - intros p' b' w' i' [[<- [= <- <- <-]]|[Hne Hp']]%lookup_insert_Some; [by exists j, k|].
    destruct (o_req _ _ H _ _ _ _ Hp') as (j1 & k1 & Hs). exists j1, k1. by eapply Hold.
  - intros x Hx Hfx. destruct (decide (x = i \/ x = j \/ x = k)) as [Hd|Hd].
    { exists p, b, w, i, j, k. by rewrite lookup_insert_eq. }
    destruct (o_own _ _ H x Hx) as (p' & b' & w' & i' & j' & k' & Hp' & Hs & Hxi).
    { simpl in Hfx. rewrite !upd_ne in Hfx by tauto. done. }
    assert (p' <> p) by (intros ->; congruence). exists p', b', w', i', j', k'. rewrite lookup_insert_ne by done.
    split; [done|]. split; [by eapply Hold|done].
  - intros p1 b1 w1 i1 j1 k1 p2 b2 w2 i2 j2 k2 x Hne [[<- [= <- <- <-]]|[Hn1 Hp1]]%lookup_insert_Some
      [[<- [= <- <- <-]]|[Hn2 Hp2]]%lookup_insert_Some Hs1 Hs2 Hx1 Hx2; [done|..|].
    + destruct (req_det _ _ _ _ _ _ _ _ _ _ Hs1 Hnew) as [-> ->].
      destruct (Hin x _ _ _ _ _ (Hback _ _ _ _ _ _ (not_eq_sym Hn2) Hp2 Hs2) Hx2) as (? & ? & ?). tauto.
    + destruct (req_det _ _ _ _ _ _ _ _ _ _ Hs2 Hnew) as [-> ->].
      destruct (Hin x _ _ _ _ _ (Hback _ _ _ _ _ _ (not_eq_sym Hn1) Hp1 Hs1) Hx1) as (? & ? & ?). tauto.
    + eapply (o_disj _ _ H p1 _ _ _ _ _ p2); eauto.
Qed.

(** A request that is over. *)
Lemma owns_retire s K p b w i j k :
  owns s K -> K !! p = Some (VWait b w i) -> req_at s b w i j k -> owns (retire i j k s) (delete p K).
Proof.
  intros H Hp Hr.
  assert (Hin : forall x p' b' w' i' j' k', p' <> p -> K !! p' = Some (VWait b' w' i') -> req_at s b' w' i' j' k' ->
    x = i' \/ x = j' \/ x = k' -> x <> i /\ x <> j /\ x <> k).
  { intros x p' b' w' i' j' k' Hne Hp' Hs Hx. pose proof (o_disj _ _ H _ _ _ _ _ _ _ _ _ _ _ _ x Hne Hp' Hp Hs Hr Hx). tauto. }
  assert (Hold : forall p' b' w' i' j' k', p' <> p -> K !! p' = Some (VWait b' w' i') -> req_at s b' w' i' j' k' ->
    req_at (retire i j k s) b' w' i' j' k').
  { intros p' b' w' i' j' k' Hne Hp' Hs. eapply req_same; [exact Hs|..]; simpl; [|done| |done].
    - intros x Hx. destruct (Hin x _ _ _ _ _ _ Hne Hp' Hs Hx) as (? & ? & ?). by rewrite !upd_ne.
    - destruct (Hin i' _ _ _ _ _ _ Hne Hp' Hs) as (? & _); [tauto|]. by rewrite upd_ne. }
  assert (Hback : forall p' b' w' i' j' k', p' <> p -> K !! p' = Some (VWait b' w' i') ->
    req_at (retire i j k s) b' w' i' j' k' -> req_at s b' w' i' j' k').
  { intros p' b' w' i' j' k' Hne Hp' Hs. destruct (o_req _ _ H _ _ _ _ Hp') as (j1 & k1 & Hs').
    by destruct (req_det _ _ _ _ _ _ _ _ _ _ Hs (Hold _ _ _ _ _ _ Hne Hp' Hs')) as [<- <-]. }
  split.
  - intros p' b' w' i' [Hne Hp']%lookup_delete_Some.
    destruct (o_req _ _ H _ _ _ _ Hp') as (j1 & k1 & Hs). exists j1, k1. eapply Hold; eauto.
  - intros x Hx Hfx. simpl in Hfx. assert (Hd : x <> i /\ x <> j /\ x <> k) by (split_and!; intros ->; upds).
    rewrite !upd_ne in Hfx by tauto. destruct (o_own _ _ H x Hx Hfx) as (p' & b' & w' & i' & j' & k' & Hp' & Hs & Hxi).
    assert (p' <> p). { intros ->. assert (b' = b /\ w' = w /\ i' = i) as (-> & -> & ->) by by rewrite Hp in Hp'; injection Hp'.
      destruct (req_det _ _ _ _ _ _ _ _ _ _ Hs Hr) as [-> ->]. tauto. }
    exists p', b', w', i', j', k'. rewrite lookup_delete_ne by done. split; [done|]. split; [by eapply Hold|done].
  - intros p1 b1 w1 i1 j1 k1 p2 b2 w2 i2 j2 k2 x Hne [Hn1 Hp1]%lookup_delete_Some [Hn2 Hp2]%lookup_delete_Some Hs1 Hs2.
    eapply (o_disj _ _ H p1 _ _ _ _ _ p2); eauto.
Qed.

(** ** Every step keeps the invariant *)

Lemma core_call s pos P K Q R p b w :
  core s pos P K Q R -> K !! p = None -> 0 <= b_blockno (bufs s b) < 2 ^ 31 ->
  (forall p' t', K !! p' = Some t' -> buf_of t' <> b) -> core s pos P (<[p := VTry b w]> K) Q R.
Proof.
  intros [Ho Hb Hd Ha Hu Hn Hh Hp] Hk Hblk Hfree.
  assert (Hlook : forall p' b' w' i', <[p := VTry b w]> K !! p' = Some (VWait b' w' i') <-> K !! p' = Some (VWait b' w' i')).
  { intros p' b' w' i'. destruct (decide (p' = p)) as [-> | Hne]; [rewrite lookup_insert_eq; split; congruence|by rewrite lookup_insert_ne]. }
  split; try done.
  - destruct Ho as [H1 H2 H3]. split.
    + intros p' b' w' i' Hp'%Hlook. by eapply H1.
    + intros x Hx Hf. destruct (H2 x Hx Hf) as (p' & b' & w' & i' & j' & k' & ? & ?). exists p', b', w', i', j', k'. by rewrite Hlook.
    + intros p1 b1 w1 i1 j1 k1 p2 b2 w2 i2 j2 k2 x Hne H4%Hlook H5%Hlook. by eapply H3.
  - intros p' t [[<- <-]|[_ Hp']]%lookup_insert_Some; [done|]. by eapply Hb.
  - intros p1 p2 t1 t2 Hne [[<- <-]|[_ H1]]%lookup_insert_Some [[<- <-]|[_ H2]]%lookup_insert_Some; [done| | |by eapply Hd].
    + intros E. by apply (Hfree _ _ H2).
    + by apply (Hfree _ _ H1).
  - intros h Hin. destruct (Hh h Hin) as (p' & b' & w' & ?). exists p', b', w'. by rewrite Hlook.
  - intros p' b' w' i' Hp'%Hlook. by eapply Hp.
Qed.

Lemma core_back s s' pos P K Q R : core s pos P K Q R -> gave_back s s' -> core s' pos P K Q R.
Proof.
  intros [Ho Hb Hd Ha Hu Hn Hh Hp] [Hf Hde (E1 & E2 & E3 & E4 & E5 & E6 & E7 & E8 & E9 & E10) _].
  split; rewrite ?E1, ?E2, ?E3, ?E4, ?E5, ?E9; try done.
  - eapply owns_same; [done| |by intros x _; rewrite Hf]. intros p b w i j k _ Hs. eapply req_same; [done|..]; rewrite ?E8, ?E6, ?E9; try done.
    intros x Hx. destruct Hs as [(_ & _ & _ & Hr & _) _]. destruct (Hr x Hx) as [_ Hfx]. by rewrite Hde, Hf.
  - intros p b w i Hpi. destruct (Hp p b w i Hpi); [apply ph_device|apply ph_used|apply ph_done]; rewrite ?E7, ?E9; done.
Qed.

(** What a request means for the others: their status and their buffers stay. *)
Lemma phase_same s s' b i QP R :
  phase s b i QP R -> info_status s' i = info_status s i -> b_disk (bufs s' b) = b_disk (bufs s b) -> phase s' b i QP R.
Proof. intros H E1 E2. destruct H; [apply ph_device|apply ph_used|apply ph_done]; congruence. Qed.

Lemma core_submit s pos P K Q R p b w i j k :
  core s pos P K Q R -> K !! p = Some (VTry b w) -> trio s i j k ->
  core (submit b w i j k s) pos P (<[p := VWait b w i]> K) (Q ++ [i]) R.
Proof.
  intros Hc Hk Ht. pose proof Hc as [Ho Hb Hd (Ha1 & Ha2 & Ha3) Hu Hn Hh Hp].
  assert (Hbuf : forall p' t', p' <> p -> K !! p' = Some t' -> buf_of t' <> b) by (intros p' t' Hne Hp'; by apply (Hd p' p _ _ Hne Hp' Hk)).
  assert (Hb' : 0 <= b_blockno (bufs s b) < 2 ^ 31) by apply (Hb p _ Hk).
  destruct (owns_submit _ _ _ _ _ _ _ _ Ho Hk Hb' Ht Hbuf) as [_ Ho'].
  assert (Hfresh : i ∉ Q ++ P ++ R).
  { intros Hin. destruct (Hh i Hin) as (p' & b' & w' & Hp'). destruct (o_req _ _ Ho _ _ _ _ Hp') as (j' & k' & (_ & _ & _ & Hr & _) & _).
    destruct (Hr i) as [_ Hf]; [tauto|]. destruct Ht as (_ & _ & _ & _ & _ & _ & Hfi & _). congruence. }
  assert (Hperm : (Q ++ [i]) ++ P ++ R ≡ₚ i :: Q ++ P ++ R) by (rewrite <- app_assoc; simpl; symmetry; apply Permutation_middle).
  assert (Hnod : NoDup ((Q ++ [i]) ++ P ++ R)) by (rewrite Hperm; by constructor).
  assert (Hlen : Z.of_nat (length Q) < NUM).
  { assert (Hq : NoDup (Q ++ [i])) by (apply NoDup_app in Hnod; tauto). pose proof (length_heads _ Hq) as Hl. rewrite length_app in Hl.
    simpl in Hl. cut (Z.of_nat (length Q + 1) <= NUM); [lia|]. apply Hl. intros h Hin. apply elem_of_app in Hin as [Hin| ->%list_elem_of_singleton].
    - apply (core_range _ _ _ _ _ _ h Hc). set_solver. - apply Ht. }
  split; try done.
  - intros p' t [[<- <-]|[Hne Hp']]%lookup_insert_Some; simpl; unfold with_disk; [rewrite upd_eq; exact Hb'|].
    rewrite upd_ne by (by eapply Hbuf). by eapply Hb.
  - intros p1 p2 t1 t2 Hne [[<- <-]|[Hn1 H1]]%lookup_insert_Some [[<- <-]|[Hn2 H2]]%lookup_insert_Some; [done| | |exact (Hd p1 p2 t1 t2 Hne H1 H2)].
    + exact (not_eq_sym (Hbuf p2 t2 (not_eq_sym Hn2) H2)).
    + exact (Hbuf p1 t1 (not_eq_sym Hn1) H1).
  - split; [done|]. cbn [submit avail_idx avail_ring]. rewrite Ha2. split; [rewrite length_app; simpl; unfold u16; dlia|].
    unfold NUM, u16. rewrite Z.mod_mod_divide by (by exists (2 ^ 13)). by apply ring_push.
  - intros h Hin. rewrite Hperm in Hin. apply elem_of_cons in Hin as [-> | Hin]; [exists p, b, w; by rewrite lookup_insert_eq|].
    destruct (Hh h Hin) as (p' & b' & w' & Hp'). exists p', b', w'. rewrite lookup_insert_ne; [done|]. congruence.
  - intros p' b' w' i' [[<- [= <- <- <-]]|[Hne Hp']]%lookup_insert_Some.
    + apply ph_device; simpl; unfold with_disk; rewrite ?upd_eq; [set_solver|done|done].
    + assert (Hi : i' <> i). { intros ->. destruct (o_req _ _ Ho _ _ _ _ Hp') as (j' & k' & (_ & _ & _ & Hr & _) & _).
        destruct (Hr i) as [_ Hf]; [tauto|]. destruct Ht as (_ & _ & _ & _ & _ & _ & Hfi & _). congruence. }
      apply (phase_same s); [|simpl; by rewrite upd_ne|simpl; unfold with_disk; by rewrite upd_ne by (by eapply (Hbuf _ _ (not_eq_sym Hne) Hp'))].
      destruct (Hp _ _ _ _ Hp'); [apply ph_device|apply ph_used|apply ph_done]; try done; set_solver.
Qed.

Lemma core_retire s pos P K Q R p b w i j k :
  core s pos P K Q R -> K !! p = Some (VWait b w i) -> req_at s b w i j k -> b_disk (bufs s b) <> 1 ->
  core (retire i j k s) pos P (delete p K) Q R.
Proof.
  intros [Ho Hb Hd Ha Hu Hn Hh Hp] Hk Hr Hdisk. split; try done.
  - by eapply owns_retire.
  - intros p' t [_ Hp']%lookup_delete_Some. by eapply Hb.
  - intros p1 p2 t1 t2 Hne [_ H1]%lookup_delete_Some [_ H2]%lookup_delete_Some. by eapply Hd.
  - intros h Hin. destruct (Hh h Hin) as (p' & b' & w' & Hp'). exists p', b', w'. rewrite lookup_delete_ne; [done|]. intros <-.
    rewrite Hk in Hp'. injection Hp' as <- <- <-. destruct (Hp _ _ _ _ Hk); [done|done|]. set_solver.
  - intros p' b' w' i' [Hne Hp']%lookup_delete_Some. by apply (phase_same s); [eapply Hp|..].
Qed.

(** The completion of [h] is acknowledged. *)
Lemma core_ack s pos P K Q h R p b w :
  core s pos P K Q (h :: R) -> K !! p = Some (VWait b w h) -> core (ack b s) pos P K Q R.
Proof.
  intros [Ho Hb Hd Ha (Hu1 & Hu2 & Hu3) Hn Hh Hp] Hk.
  assert (Hn' : NoDup (h :: Q ++ P ++ R)) by (rewrite 2!Permutation_middle; exact Hn).
  apply NoDup_cons in Hn' as [Hnot Hn'].
  assert (Hblk : forall c, b_blockno (bufs (ack b s) c) = b_blockno (bufs s c)).
  { intros c. simpl. unfold with_disk. rewrite upd_case. case_decide; by subst. }
  split; try done.
  - eapply owns_same; [done| |done]. intros p' b' w' i' j' k' _ Hs. by eapply req_same.
  - intros p' t Hp'. rewrite Hblk. by eapply Hb.
  - split; [apply Z.mod_pos_bound; lia|]. cbn [ack seen_idx used_idx used_ring]. split; [rewrite Hu2; simpl length; unfold u16; dlia|].
    eapply ring_index, ring_pop, Hu3. unfold u16, NUM. by rewrite Z.mod_mod_divide by (by exists (2 ^ 13)).
  - intros x Hx. apply Hh. set_solver.
  - intros p' b' w' i' Hp'. destruct (decide (p' = p)) as [-> | Hne].
    + rewrite Hk in Hp'. injection Hp' as <- <- <-. apply ph_done; [set_solver|set_solver| |simpl; unfold with_disk; by rewrite upd_eq].
      destruct (Hp _ _ _ _ Hk) as [Hin _ _|_ ? _|? ? ? _]; [set_solver|done|done].
    + assert (i' <> h) by (intros ->; apply Hne; by eapply owns_head). assert (b' <> b) by apply (Hd p' p _ _ Hne Hp' Hk).
      apply (phase_same s); [|done|simpl; unfold with_disk; by rewrite upd_ne].
      destruct (Hp _ _ _ _ Hp'); [apply ph_device|apply ph_used|apply ph_done]; try done; set_solver.
Qed.

(** The device takes the next request. *)
Lemma core_fetch s pos P K Q R P' :
  core s pos P K Q R -> pos <> avail_idx s -> P' ≡ₚ avail_ring s (pos mod NUM) :: P ->
  exists Q', Q = avail_ring s (pos mod NUM) :: Q' /\ core s (u16 (pos + 1)) P' K Q' R.
Proof.
  intros [Ho Hb Hd (Ha1 & Ha2 & Ha3) Hu Hn Hh Hp] Hne HP. destruct Q as [|h Q].
  { exfalso. apply Hne. rewrite Ha2. simpl. unfold u16. dlia. }
  pose proof (ring_head NUM _ _ _ _ Ha3) as E. rewrite E in *. exists Q. split; [done|].
  assert (Hperm : Q ++ P' ++ R ≡ₚ (h :: Q) ++ P ++ R) by (rewrite HP; simpl; symmetry; apply Permutation_middle).
  assert (Hperm2 : Q ++ P' ≡ₚ (h :: Q) ++ P) by (rewrite HP; symmetry; apply Permutation_middle).
  split; try done.
  - split; [apply Z.mod_pos_bound; lia|]. split; [rewrite Ha2; simpl length; unfold u16; dlia|].
    eapply ring_index, ring_pop, Ha3. unfold u16, NUM. by rewrite Z.mod_mod_divide by (by exists (2 ^ 13)).
  - by rewrite Hperm.
  - intros x. rewrite Hperm. apply Hh.
  - intros p b w i Hpi. destruct (Hp _ _ _ _ Hpi); [apply ph_device|apply ph_used|apply ph_done]; try done; by rewrite Hperm2.
Qed.

(** The device carries out the request at [h]. *)
Lemma core_finish s pos P K Q R P' p b w h :
  core s pos P K Q R -> P ≡ₚ h :: P' -> K !! p = Some (VWait b w h) ->
  core (do_request s h h b h w) pos P' K Q (R ++ [h]).
Proof.
  intros Hc HP Hk. pose proof Hc as [Ho Hb Hd Ha (Hu1 & Hu2 & Hu3) Hn Hh Hp].
  assert (Hperm : Q ++ P' ++ R ++ [h] ≡ₚ Q ++ P ++ R).
  { rewrite HP. f_equiv. rewrite app_assoc, Permutation_app_comm. done. }
  assert (Hn' : NoDup (Q ++ P' ++ R ++ [h])) by by rewrite Hperm.
  assert (Hlen : Z.of_nat (length R) < NUM).
  { assert (Hr : NoDup (R ++ [h])). { apply NoDup_app in Hn' as (_ & _ & Hn'). apply NoDup_app in Hn'. tauto. }
    pose proof (length_heads _ Hr) as Hl. rewrite length_app in Hl. simpl in Hl. cut (Z.of_nat (length R + 1) <= NUM); [lia|]. apply Hl.
    intros x Hx. apply (core_range _ _ _ _ _ _ x Hc). rewrite <- Hperm. set_solver. }
  assert (Hblk : forall c, b_blockno (bufs (do_request s h h b h w) c) = b_blockno (bufs s c) /\
                           b_disk (bufs (do_request s h h b h w) c) = b_disk (bufs s c)).
  { intros c. unfold do_request. cbn [bufs]. destruct w; [done|]. rewrite upd_case. case_decide; by subst. }
  split; try done.
  - eapply owns_same; [done| |done]. intros p' b' w' i' j' k' _ Hs. eapply req_same; try done. apply Hblk.
  - intros p' t Hp'. destruct (Hblk (buf_of t)) as [-> _]. by eapply Hb.
  - split; [done|]. cbn [do_request seen_idx used_idx used_ring]. rewrite Hu2. split; [rewrite length_app; simpl length; unfold u16; dlia|].
    unfold NUM, u16. rewrite Z.mod_mod_divide by (by exists (2 ^ 13)). by apply ring_push.
  - intros x. rewrite Hperm. apply Hh.
  - intros p' b' w' i' Hp'. destruct (Hblk b') as [_ Ed]. destruct (decide (p' = p)) as [-> | Hne].
    + rewrite Hk in Hp'. injection Hp' as <- <- <-. apply ph_used; [set_solver|simpl; by rewrite upd_eq|rewrite Ed].
      destruct (Hp _ _ _ _ Hk) as [_ _ ?|_ _ ?|Hq _ _ _]; [done|done|]. exfalso. apply Hq. rewrite HP. set_solver.
    + assert (i' <> h) by (intros ->; apply Hne; by eapply owns_head).
      apply (phase_same s); [|simpl; by rewrite upd_ne|done].
      destruct (Hp _ _ _ _ Hp') as [Hin|Hin|H1 H2]; [apply ph_device|apply ph_used|apply ph_done]; try done; rewrite ?HP in *; set_solver.
Qed.

(** The owner of a buffer that is not in use changes it. *)
Definition with_buf (b : Z) (v : buf) (s : vst) : vst :=
  mkvst (desc s) (avail_idx s) (avail_ring s) (used_idx s) (used_ring s) (free s) (seen_idx s) (info_b s)
        (info_status s) (ops s) (upd (bufs s) b v) (platter s) (woken s).

Lemma core_buf s pos P K Q R b v :
  core s pos P K Q R -> (forall p t, K !! p = Some t -> buf_of t <> b) -> core (with_buf b v s) pos P K Q R.
Proof.
  intros [Ho Hb Hd Ha Hu Hn Hh Hp] Hfree.
  assert (Hsame : forall p t, K !! p = Some t -> bufs (with_buf b v s) (buf_of t) = bufs s (buf_of t)).
  { intros p t Hp'. simpl. rewrite upd_ne; [done|]. by eapply Hfree. }
  split; try done.
  - eapply owns_same; [done| |done]. intros p' b' w' i' j' k' Hp' Hs. eapply req_same; try done. f_equal. apply (Hsame _ _ Hp').
  - intros p t Hp'. rewrite (Hsame _ _ Hp'). by eapply Hb.
  - intros p b' w i Hp'. apply (phase_same s); [by eapply Hp|done|]. f_equal. apply (Hsame _ _ Hp').
Qed.
