(* ===== verification/VirtioSafe.v ===== *)
(** The disk driver implements a disk whose transfers are atomic: in every
    interleaving of calls, interrupts and steps of the device no check of the driver
    fails, no descriptor is lost, no process sleeps without reason, and each call
    returns after its transfer has happened, once. *)

From stdpp Require Import gmap.
From S2P Require Import Prelude Ring Virtio VirtioInv.
Open Scope Z_scope.

(** ** Sleeping processes *)

(** Why a process sleeps. *)
Definition sleep_ok (s : vst) (t : vthread) : Prop :=
  match t with
  | VTry _ _ => forall i j k, ~ trio s i j k
  | VWait b _ _ => b_disk (bufs s b) = 1
  end.

Definition sleepers (s : vst) (T : gmap Z (vthread * bool)) : Prop :=
  forall p t, T !! p = Some (t, true) -> sleep_ok s t.

(** What a step does to the processes that it does not wake. *)
Record rely (s s' : vst) : Prop := {
  y_free : CFree ∉ woken s' -> forall x, free s' x = true -> free s x = true;
  y_disk : forall b, CBuf b ∉ woken s' -> b_disk (bufs s b) = 1 -> b_disk (bufs s' b) = 1
}.

Lemma sleepers_wake s s' T : sleepers s T -> rely s s' -> sleepers (quiet s') (wake (woken s') T).
Proof.
  intros H [Hf Hd] p t. unfold wake. rewrite lookup_fmap, fmap_Some. intros ([t0 a0] & Hp & E). unfold wake_one in E. simpl in E.
  injection E as -> E. symmetry in E. apply andb_prop in E as [-> Hn%negb_true_iff%bool_decide_eq_false]. specialize (H p t0 Hp).
  destruct t0 as [b w|b w i]; simpl in *; [|by apply Hd].
  intros x y z (Hx & Hy & Hz & ? & ? & ? & Fx & Fy & Fz). apply (H x y z). by split_and!; try apply Hf.
Qed.

Lemma threads_wake ws T : fst <$> wake ws T = fst <$> T.
Proof. unfold wake. rewrite <- map_fmap_compose. by apply map_fmap_ext. Qed.

Lemma threads_lookup (T : gmap Z (vthread * bool)) p t a : T !! p = Some (t, a) -> (fst <$> T) !! p = Some t.
Proof. intros H. by rewrite lookup_fmap, H. Qed.

Lemma threads_unused T b : ~ in_use T b -> forall p t, (fst <$> T) !! p = Some t -> buf_of t <> b.
Proof. intros H p t. rewrite lookup_fmap, fmap_Some. intros ([t0 a] & Hp & ->) <-. apply H. by exists p, t0, a. Qed.

Section safe.
Context {V : VirtioDevice} {L : VirtioLaws}.

Definition threads (c : vmach) : gmap Z vthread := fst <$> vthr c.

Definition inv (c : vmach) (Q R : list Z) : Prop :=
  core (vv c) (position (vd c)) (taken (vd c)) (threads c) Q R /\ sleepers (vv c) (vthr c) /\ woken (vv c) = [].

(** ** The interrupt handler *)

(** The contents of the disk and of the buffers, and which transfers have
    happened, are the same. *)
Record same_data (s s' : vst) : Prop := {
  m_status : info_status s' = info_status s;
  m_disk : platter s' = platter s;
  m_buf : forall b, b_blockno (bufs s' b) = b_blockno (bufs s b) /\ b_data (bufs s' b) = b_data (bufs s b)
}.

Lemma ack_data b s : same_data s (ack b s).
Proof. split; try done. intros c. simpl. unfold with_disk. rewrite upd_case. case_decide; by subst. Qed.

Lemma core_used_length s pos P K Q R : core s pos P K Q R -> Z.of_nat (length R) <= NUM.
Proof.
  intros Hc. apply length_heads; [|intros x Hx; apply (core_range _ _ _ _ _ _ x Hc); set_solver].
  pose proof (i_nodup _ _ _ _ _ _ Hc) as Hn. apply NoDup_app in Hn as (_ & _ & Hn). apply NoDup_app in Hn. tauto.
Qed.

Lemma intr_loop_run s pos P K Q R :
  core s pos P K Q R ->
  exists s', intr_loop (length R) s = Ret tt s' /\ core s' pos P K Q [] /\ same_data s s' /\ free s' = free s /\
    (forall b, CBuf b ∉ woken s' -> (CBuf b ∉ woken s) /\ (b_disk (bufs s b) = 1 -> b_disk (bufs s' b) = 1)).
Proof.
  revert s. induction R as [|h R IH]; intros s Hc.
  - pose proof (i_used _ _ _ _ _ _ Hc) as (Hr & Hu & _). exists s. split; [|by split_and!]. simpl. rewrite bind_gets. cbv beta. unfold id.
    destruct (Z.eqb_spec (seen_idx s) (used_idx s)) as [|Hne]; [done|]. exfalso. apply Hne. rewrite Hu. simpl. unfold u16. dlia.
  - destruct (i_heads _ _ _ _ _ _ Hc h) as (p & b & w & Hk); [set_solver|].
    pose proof (core_ack _ _ _ _ _ _ _ _ _ _ Hc Hk) as Hc'. pose proof (core_range _ _ _ _ _ _ h Hc ltac:(set_solver)) as Hrange.
    pose proof (i_used _ _ _ _ _ _ Hc) as (Hr & Hu & Hring). destruct (o_req _ _ (i_owns _ _ _ _ _ _ Hc) _ _ _ _ Hk) as (j & k & _ & _ & Hinfo).
    pose proof (core_used_length _ _ _ _ _ _ Hc) as Hlen.
    assert (Hst : info_status s h = 0).
    { destruct (i_phase _ _ _ _ _ _ Hc _ _ _ _ Hk) as [Hin _ _|_ ? _|? ? ? _]; [|done|done]. exfalso.
      pose proof (i_nodup _ _ _ _ _ _ Hc) as Hn. rewrite app_assoc in Hn. apply NoDup_app in Hn as (_ & Hn & _). apply (Hn h Hin). set_solver. }
    cbn [length]. rewrite (intr_loop_next _ _ h b); [|intros E|by apply (ring_head NUM) in Hring|done|done].
    2:{ rewrite Hu in E. unfold u16, NUM in *. simpl length in *. dlia. }
    destruct (IH _ Hc') as (s' & -> & Hc2 & [D1 D2 D3] & Hf & Hw). exists s'. split; [done|]. split; [done|].
    destruct (ack_data b s) as [E1 E2 E3]. split; [split; [congruence|congruence|]|split; [done|]].
    + intros x. destruct (D3 x) as [-> ->]. apply E3.
    + intros x Hx. destruct (Hw x Hx) as [Hw1 Hw2]. simpl in Hw1, Hw2. split; [set_solver|].
      intros Hd. apply Hw2. unfold with_disk. rewrite upd_ne; [done|]. set_solver.
Qed.

Lemma intr_run s pos P K Q R :
  core s pos P K Q R ->
  exists s', virtio_disk_intr s = Ret tt s' /\ core s' pos P K Q [] /\ same_data s s' /\ rely s s'.
Proof.
  intros Hc. destruct (intr_loop_run _ _ _ _ _ _ Hc) as (s' & E & Hc' & Hd & Hf & Hw). exists s'. unfold virtio_disk_intr.
  rewrite bind_gets. cbv beta. unfold id. pose proof (i_used _ _ _ _ _ _ Hc) as (Hr & Hu & _).
  pose proof (core_used_length _ _ _ _ _ _ Hc) as Hlen.
  replace (Z.to_nat (u16 (used_idx s - seen_idx s))) with (length R); [|rewrite Hu; unfold u16, NUM in *; dlia].
  split; [done|]. split; [done|]. split; [done|]. split; [by rewrite Hf|]. intros b Hb. by apply Hw.
Qed.

(** ** The steps *)

(** The abstract disk of a state. *)
Record abs (c : vmach) (a : ast) : Prop := {
  b_disk_of : a_disk a = platter (vv c);
  b_buf_of : forall b, a_buf a b = (b_blockno (bufs (vv c) b), b_data (bufs (vv c) b));
  b_thr_of : a_thr a = abs_thread (vv c) <$> threads c
}.

(** The invariant holds after the step, and the abstract disk can follow it. *)
Definition good (c c' : vmach) : Prop :=
  (exists Q R, inv c' Q R) /\ forall a, abs c a -> exists a', rtc astep a a' /\ abs c' a'.

Lemma step_call s d T p b w Q R :
  inv (mkvm s d T) Q R -> T !! p = None -> ~ in_use T b -> 0 <= b_blockno (bufs s b) < 2 ^ 31 ->
  good (mkvm s d T) (mkvm s d (<[p := (VTry b w, false)]> T)).
Proof.
  intros (Hc & Hs & Hw) Hp Hu Hb. unfold threads in *. simpl in *. split.
  - exists Q, R. split_and!; [|simpl|done].
    + unfold threads. cbn [vthr vv vd]. rewrite fmap_insert. apply core_call; [done|by rewrite lookup_fmap, Hp|done|by apply threads_unused].
    + intros p' t [[_ [=]]|[_ Hp']]%lookup_insert_Some. by eapply Hs.
  - intros [D B AT] [Ed Eb Et]. cbn in *. subst. eexists. split.
    + apply rtc_once. apply (as_call _ _ _ p b w); [by rewrite !lookup_fmap, Hp|].
      intros p' t'. rewrite lookup_fmap, fmap_Some. intros (t & Ht & ->). pose proof (threads_unused _ _ Hu p' t Ht).
      destruct t as [b' w'|b' w' i']; simpl in *; [done|]. by destruct (_ =? _).
    + split; [done|done|]. unfold threads. cbn [vthr vv a_thr]. by rewrite !fmap_insert.
Qed.

(** A step that changes no data and no process is invisible. *)
Lemma abs_same s s' d d' T T' :
  same_data s s' -> fst <$> T' = fst <$> T -> forall a, abs (mkvm s d T) a -> exists a', rtc astep a a' /\ abs (mkvm s' d' T') a'.
Proof.
  intros [E1 E2 E3] Et a [Ad Ab At]. exists a. split; [apply rtc_refl|]. unfold threads in *. simpl in *.
  split; unfold threads; simpl; [congruence| |].
  - intros b. destruct (E3 b) as [-> ->]. apply Ab.
  - rewrite At, Et. apply map_fmap_ext. intros p [b w|b w i] _; simpl; [done|]. by rewrite E1.
Qed.

Lemma core_quiet s pos P K Q R : core s pos P K Q R -> core (quiet s) pos P K Q R.
Proof.
  intros [[H1 H2 H3] Hb Hd Ha Hu Hn Hh Hp]. split; try done. by intros p b w i Hi; destruct (Hp p b w i Hi); [apply ph_device|apply ph_used|apply ph_done].
Qed.

Lemma same_quiet s s' : same_data s s' -> same_data s (quiet s').
Proof. by intros []. Qed.

Lemma step_intr s d T s' Q R :
  inv (mkvm s d T) Q R -> virtio_disk_intr s = Ret tt s' -> good (mkvm s d T) (mkvm (quiet s') d (wake (woken s') T)).
Proof.
  intros (Hc & Hs & Hw) E. destruct (intr_run _ _ _ _ _ _ Hc) as (s2 & E2 & Hc2 & Hd & Hy). simpl in E2. rewrite E in E2. injection E2 as <-.
  split; [|by apply abs_same; [apply same_quiet|apply threads_wake]].
  exists Q, []. split_and!; [|by apply (sleepers_wake s)|done]. unfold threads. simpl. rewrite threads_wake. by apply core_quiet.
Qed.

Lemma gave_back_data s s' : gave_back s s' -> same_data s s' /\ (woken s = [] -> rely s s').
Proof.
  intros [Hf _ (_ & _ & _ & _ & _ & _ & E7 & _ & E9 & E10) Hw]. split; [split; rewrite ?E9; done|].
  intros _. split; [|by rewrite E9]. intros _ x. by rewrite Hf.
Qed.

Lemma trio_back s s' i j k : gave_back s s' -> trio (quiet s') i j k -> trio s i j k.
Proof. intros [Hf _ _ _]. unfold trio, quiet. cbn [free]. by rewrite !Hf. Qed.

Lemma threads_insert (T : gmap Z (vthread * bool)) p t a a' : T !! p = Some (t, a) -> fst <$> <[p := (t, a')]> T = fst <$> T.
Proof. intros H. rewrite fmap_insert. apply insert_id. by rewrite lookup_fmap, H. Qed.

Lemma wake_lookup ws T p t : T !! p = Some (t, false) -> wake ws T !! p = Some (t, false).
Proof. intros H. unfold wake. by rewrite lookup_fmap, H. Qed.

Lemma step_rw_fail s d T p b w s' Q R :
  inv (mkvm s d T) Q R -> T !! p = Some (VTry b w, false) -> gave_back s s' -> (forall i j k, ~ trio s i j k) ->
  good (mkvm s d T) (mkvm (quiet s') d (<[p := (VTry b w, true)]> (wake (woken s') T))).
Proof.
  intros (Hc & Hs & Hw) Hp Hg Hno. destruct (gave_back_data _ _ Hg) as [Hd Hy]. specialize (Hy Hw).
  assert (Et : fst <$> <[p := (VTry b w, true)]> (wake (woken s') T) = fst <$> T).
  { rewrite (threads_insert _ _ _ false), threads_wake; [done|by apply wake_lookup]. }
  split; [|by apply abs_same; [apply same_quiet|]]. exists Q, R. split_and!; [| |done]; simpl.
  - unfold threads. simpl. rewrite Et. by apply core_quiet, (core_back s).
  - intros p' t [[<- [= <-]]|[_ Hp']]%lookup_insert_Some; [|by eapply (sleepers_wake s)].
    simpl. intros i j k Ht. by eapply Hno, trio_back.
Qed.

Lemma step_rw_submit s d T p b w i j k Q R :
  inv (mkvm s d T) Q R -> T !! p = Some (VTry b w, false) -> trio s i j k ->
  good (mkvm s d T) (mkvm (quiet (submit b w i j k s)) d (<[p := (VWait b w i, true)]> (wake (woken s) T))).
Proof.
  intros (Hc & Hs & Hw) Hp Ht. simpl in *. pose proof (threads_lookup _ _ _ _ Hp) as Hk.
  assert (Et : fst <$> <[p := (VWait b w i, true)]> (wake (woken s) T) = <[p := VWait b w i]> (fst <$> T)) by by rewrite fmap_insert, threads_wake.
  assert (Hbuf : forall p' t', p' <> p -> (fst <$> T) !! p' = Some t' -> buf_of t' <> b).
  { intros p' t' Hne Hp'. exact (i_buf _ _ _ _ _ _ Hc p' p _ _ Hne Hp' Hk). }
  split.
  - exists (Q ++ [i]), R. split_and!; [| |done]; simpl.
    + unfold threads. simpl. rewrite Et. by apply core_quiet, core_submit.
    + intros p' t [[<- [= <-]]|[Hne Hp']]%lookup_insert_Some; [simpl; unfold with_disk; by rewrite upd_eq|].
      apply (sleepers_wake s (submit b w i j k s) T Hs) with (p := p'); [|exact Hp']. split.
      * intros _ x. simpl. upds.
      * intros x _ Hx. simpl. unfold with_disk. rewrite upd_case. by case_decide.
  - intros a [Ad Ab At]. simpl in *. exists a. split; [apply rtc_refl|]. split; simpl; [done| |].
    + intros x. rewrite Ab. unfold with_disk. rewrite upd_case. case_decide; by subst.
    + unfold threads in *. simpl in *. rewrite At, Et. apply map_eq. intros p'. rewrite !lookup_fmap. destruct (decide (p' = p)) as [-> | Hne].
      * rewrite lookup_insert_eq, Hp. simpl. by rewrite upd_eq.
      * rewrite lookup_insert_ne, lookup_fmap by done. destruct (T !! p') as [[[b' w'|b' w' i'] a']|] eqn:Hp'; [done| |done].
        simpl. rewrite upd_ne; [done|]. intros ->. pose proof (threads_lookup _ _ _ _ Hp') as Hk'.
        destruct (o_req _ _ (i_owns _ _ _ _ _ _ Hc) _ _ _ _ Hk') as (j' & k' & (_ & _ & _ & Hr & _) & _).
        destruct (Hr i) as [_ Hf]; [tauto|]. destruct Ht as (_ & _ & _ & _ & _ & _ & Hfi & _). congruence.
Qed.

Lemma step_wait_sleep s d T p b w i Q R :
  inv (mkvm s d T) Q R -> T !! p = Some (VWait b w i, false) -> b_disk (bufs s b) = 1 ->
  good (mkvm s d T) (mkvm (quiet s) d (<[p := (VWait b w i, true)]> (wake (woken s) T))).
Proof.
  intros (Hc & Hs & Hw) Hp Hd. simpl in *.
  assert (Et : fst <$> <[p := (VWait b w i, true)]> (wake (woken s) T) = fst <$> T).
  { rewrite (threads_insert _ _ _ false), threads_wake; [done|by apply wake_lookup]. }
  split; [|by apply abs_same; [split|]]. exists Q, R. split_and!; [| |done]; simpl.
  - unfold threads. simpl. rewrite Et. by apply core_quiet.
  - intros p' t [[<- [= <-]]|[_ Hp']]%lookup_insert_Some; [done|]. by eapply (sleepers_wake s).
Qed.

Lemma step_wait_finish s d T p b w i j k Q R :
  inv (mkvm s d T) Q R -> T !! p = Some (VWait b w i, false) -> req_at s b w i j k -> b_disk (bufs s b) <> 1 ->
  good (mkvm s d T) (mkvm (quiet (retire i j k s)) d (delete p (wake (woken (retire i j k s)) T))).
Proof.
  intros (Hc & Hs & Hw) Hp Hr Hd. simpl in Hc, Hs, Hw. pose proof (threads_lookup _ _ _ _ Hp) as Hk. split.
  - exists Q, R. split_and!; [| |done]; cbn [vv vd vthr].
    + unfold threads. cbn [vthr]. rewrite fmap_delete, threads_wake. by apply core_quiet, (core_retire _ _ _ _ _ _ _ b w).
    + intros p' t [_ Hp']%lookup_delete_Some. apply (sleepers_wake s (retire i j k s) T Hs) with (p := p'); [|exact Hp'].
      split; [simpl; set_solver|done].
  - intros [D B AT] [Ed Eb Et]. unfold threads in Et. cbn in Ed, Eb, Et. subst. eexists. split.
    + apply rtc_once. apply (as_return _ _ _ p b). rewrite !lookup_fmap, Hp. simpl.
      destruct (i_phase _ _ _ _ _ _ Hc _ _ _ _ Hk) as [_ _ ?|_ _ ?|_ _ -> _]; done.
    + split; [done|done|]. unfold threads. cbn [vthr vv a_thr]. rewrite !fmap_delete, threads_wake. apply f_equal.
      apply map_fmap_ext. by intros p' [b' w'|b' w' i'] _.
Qed.

(** The transfer happens when the device carries out the request. *)
Lemma step_finish s d T d' p b w h Q R :
  inv (mkvm s d T) Q R -> taken d ≡ₚ h :: taken d' -> position d' = position d -> (fst <$> T) !! p = Some (VWait b w h) ->
  good (mkvm s d T) (mkvm (do_request s h h b h w) d' T).
Proof.
  intros (Hc & Hs & Hw) HP Hpos Hk. simpl in Hc, Hs, Hw. unfold threads in Hc. simpl in Hc.
  pose proof (core_finish _ _ _ _ _ _ _ _ _ _ _ Hc HP Hk) as Hc'.
  assert (Hst : info_status s h = 255).
  { destruct (i_phase _ _ _ _ _ _ Hc _ _ _ _ Hk) as [_ ? _|Hr _ _|Hq _ _ _]; [done| |exfalso; apply Hq; rewrite HP; set_solver].
    exfalso. pose proof (i_nodup _ _ _ _ _ _ Hc) as Hn. rewrite app_assoc in Hn. apply NoDup_app in Hn as (_ & Hn & _).
    apply (Hn h); [rewrite HP; set_solver|done]. }
  destruct (o_req _ _ (i_owns _ _ _ _ _ _ Hc) _ _ _ _ Hk) as (j & k & _ & Hop & _). split.
  - exists Q, (R ++ [h]). split_and!; [|simpl|done]; cbn [vv vd]; [by rewrite Hpos|]. intros p' t Hp'. specialize (Hs p' t Hp').
    destruct t as [b' w'|b' w' i']; [exact Hs|]. cbn [sleep_ok do_request bufs] in *. destruct w; [done|]. rewrite upd_case. case_decide; by subst.
  - assert (Hthr : abs_thread (do_request s h h b h w) <$> (fst <$> T) = <[p := ADone b]> (abs_thread s <$> (fst <$> T))).
    { apply map_eq. intros p'. rewrite lookup_fmap. destruct (decide (p' = p)) as [-> | Hne].
      - rewrite Hk, lookup_insert_eq. simpl. by rewrite upd_eq.
      - rewrite lookup_insert_ne, (lookup_fmap (abs_thread s)) by done. destruct ((fst <$> T) !! p') as [[b' w'|b' w' i']|] eqn:Hp'; [done| |done].
        simpl. rewrite upd_ne; [done|]. intros ->. apply Hne. eapply owns_head; [apply Hc|done|done]. }
    assert (Hoff : r_sector (ops s h) * 512 = b_blockno (bufs s b) * BLOCK) by (rewrite Hop; unfold BLOCK; simpl; lia).
    assert (Hth : (abs_thread s <$> (fst <$> T)) !! p = Some (AReq b w)) by (rewrite lookup_fmap, Hk; simpl; by rewrite Hst).
    intros [D B AT] [Ed Eb Et]. unfold threads in Et. cbn in Ed, Eb, Et. subst. destruct w.
    + eexists. split; [apply rtc_once, (as_write _ _ _ p b Hth)|]. unfold do_request. split; cbn [a_disk a_buf a_thr vv platter bufs]; [|done|by rewrite <- Hthr].
      by rewrite Eb, Hoff.
    + eexists. split; [apply rtc_once, (as_read _ _ _ p b Hth)|]. unfold do_request. split; cbn [a_disk a_buf a_thr vv platter bufs]; [done| |by rewrite <- Hthr].
      intros x. rewrite !upd_case. case_decide; [subst|by rewrite Eb]. by rewrite Eb, Hoff.
Qed.

Lemma step_device s d T s' d' Q R :
  inv (mkvm s d T) Q R -> dstep (d, s) (d', s') -> good (mkvm s d T) (mkvm s' d' T).
Proof.
  intros Hi Hd. pose proof Hi as (Hc & Hs & Hw). simpl in Hc, Hs, Hw.
  destruct (device_law _ _ _ _ Hd) as [(-> & Hne & Hpos & HP)|(h & HP & Hpos & Hdo)].
  - destruct (core_fetch _ _ _ _ _ _ _ Hc Hne HP) as (Q' & _ & Hc'). split; [|by apply abs_same].
    exists Q', R. split_and!; [|done|done]. simpl. by rewrite Hpos.
  - destruct (i_heads _ _ _ _ _ _ Hc h) as (p & b & w & Hk); [rewrite HP; set_solver|].
    destruct (o_req _ _ (i_owns _ _ _ _ _ _ Hc) _ _ _ _ Hk) as (j & k & Hr).
    rewrite (Hdo _ _ _ _ (req_chain _ _ _ _ _ _ Hr)). by eapply step_finish.
Qed.

Lemma step_buf s d T b blk data Q R :
  inv (mkvm s d T) Q R -> ~ in_use T b -> good (mkvm s d T) (mkvm (with_buf b (mkbuf blk data 0) s) d T).
Proof.
  intros (Hc & Hs & Hw) Hu. simpl in *. pose proof (threads_unused _ _ Hu) as Hfree. split.
  - exists Q, R. split_and!; [by apply core_buf| |done]. simpl. intros p t Hp. specialize (Hs p t Hp).
    destruct t as [b' w'|b' w' i']; [done|]. simpl in *. rewrite upd_ne; [done|]. exact (Hfree _ _ (threads_lookup _ _ _ _ Hp)).
  - intros [D B AT] [Ed Eb Et]. unfold threads in Et. cbn in Ed, Eb, Et. subst. eexists. split.
    + apply rtc_once. apply (as_buf _ _ _ b blk data). intros p' t'. rewrite lookup_fmap, fmap_Some. intros (t & Ht & ->).
      pose proof (Hfree p' t Ht). destruct t as [b' w'|b' w' i']; simpl in *; [done|]. by destruct (_ =? _).
    + split; cbn; [done| |]; [|unfold threads; simpl; apply map_fmap_ext; by intros p' [b' w'|b' w' i'] _].
      intros x. rewrite !upd_case. by case_decide.
Qed.

Lemma step_good c c' Q R : inv c Q R -> vstep c c' -> good c c'.
Proof.
  intros Hi Hs. destruct Hs as [s d T p b w Hp Hu Hb|s d T p b w o s' Hp E|s d T p b w i o s' Hp E|s d T s' E|s d T s' d' Hd|s d T b blk data Hu].
  - by eapply step_call.
  - destruct (virtio_disk_rw_run b w s) as (o2 & s2 & E2 & [(i & j & k & -> & -> & Ht)|(-> & Hg & Hno)]); rewrite E in E2; injection E2 as -> ->.
    + exact (step_rw_submit _ _ _ _ _ _ _ _ _ _ _ Hi Hp Ht).
    + by eapply step_rw_fail.
  - destruct (o_req _ _ (i_owns _ _ _ _ _ _ (proj1 Hi)) _ _ _ _ (threads_lookup _ _ _ _ Hp)) as (j & k & Hr).
    destruct (virtio_disk_wait_run _ _ _ _ _ _ Hr) as [[Hd E2]|[Hd E2]]; simpl in E2; rewrite E in E2; injection E2 as -> ->.
    + exact (step_wait_sleep _ _ _ _ _ _ _ _ _ Hi Hp Hd).
    + exact (step_wait_finish _ _ _ _ _ _ _ _ _ _ _ Hi Hp Hr Hd).
  - by eapply step_intr.
  - by eapply step_device.
  - by eapply step_buf.
Qed.

(** ** What holds in every run *)

Section runs.
Context (bs : Z -> buf) (disk : Z -> Z) (d0 : dpriv) (Hpos : position d0 = 0) (Htak : taken d0 = []).

Lemma init_inv : inv (mkvm (vinit bs disk) d0 ∅) [] [].
Proof.
  split_and!; [|done|done]. unfold threads. simpl. rewrite Hpos, Htak, fmap_empty.
  assert (Hr : forall r : Z -> Z, 0 <= 0 < 2 ^ 16 /\ 0 = u16 (0 + 0) /\ ring NUM r 0 []) by (intros r; split_and!; [done..|apply ring_nil]).
  split; try done; [|constructor|set_solver].
  split; [done| |done]. intros x [H1 H2] Hf. simpl in Hf. destruct (Z.leb_spec 0 x), (Z.ltb_spec x NUM); done || lia.
Qed.

Lemma run_inv c : rtc vstep (mkvm (vinit bs disk) d0 ∅) c -> exists Q R, inv c Q R.
Proof.
  intros H. eapply (rtc_ind_r (fun c => exists Q R, inv c Q R)); [| |exact H].
  - exists [], []. apply init_inv.
  - intros x y _ Hxy (Q & R & Hi). by destruct (step_good _ _ _ _ Hi Hxy) as [? _].
Qed.



(** The [n]-th entry of a ring, before its end. *)
Definition entry (r : Z -> Z) (from to i : Z) : Prop := exists n, 0 <= n < u16 (to - from) /\ r ((from + n) mod NUM) = i.

Lemma ring_entry (r : Z -> Z) from to q i :
  0 <= from < 2 ^ 16 -> to = u16 (from + Z.of_nat (length q)) -> Z.of_nat (length q) <= NUM -> ring NUM r from q -> i ∈ q ->
  entry r from to i.
Proof.
  intros Hf -> Hl Hr (n & Hn)%list_elem_of_lookup. exists (Z.of_nat n). split; [|by apply Hr]. apply lookup_lt_Some in Hn.
  unfold u16, NUM in *. dlia.
Qed.

End runs.
End safe.

(** ** Concrete runs *)

(** A device that takes the requests one by one and carries out the one it took
    last first. *)
#[local] Instance lifo_disk : VirtioDevice := {
  dpriv := list Z * Z;
  taken d := d.1;
  position d := d.2;
  dstep x y :=
    (y.2 = x.2 /\ x.1.2 <> avail_idx x.2 /\ y.1 = (avail_ring x.2 (x.1.2 mod NUM) :: x.1.1, u16 (x.1.2 + 1))) \/
    (exists h, x.1 = (h :: y.1.1, y.1.2) /\
       forall op b st w, chain x.2 h op b st w -> y.2 = do_request x.2 h op b st w)
}.
#[local] Instance lifo_disk_laws : VirtioLaws.
Proof.
  intros [q n] s [q' n'] s'. simpl. intros [(-> & Hne & [= -> ->])|(h & [= -> ->] & Hd)]; [left|right]; simpl.
  - by split_and!.
  - by exists h.
Qed.

Definition demo_bufs : Z -> buf := fun b => mkbuf b (fun k => k mod 256) 0.
Definition demo_disk : Z -> Z := fun _ => 0.
Definition demo_idle : @dpriv lifo_disk := ([], 0).

(** Process 1 writes buffer 5 to block 5; its request is in the available ring. *)
Definition demo_sent : vst := submit 5 true 0 1 2 (vinit demo_bufs demo_disk).
Definition demo_asleep : gmap Z (vthread * bool) := <[1 := (VWait 5 true 0, true)]> (wake [] (<[1 := (VTry 5 true, false)]> ∅)).

Lemma demo_rw : virtio_disk_rw 5 true (vinit demo_bufs demo_disk) = Ret (SleepBuf 0) demo_sent.
Proof.
  destruct (virtio_disk_rw_run 5 true (vinit demo_bufs demo_disk)) as (o & s' & E & [(i & j & k & -> & -> & Ht)|(_ & _ & Hno)]).
  - rewrite E. assert (Ho : (fun r => match r with Ret (SleepBuf i) s' => (i, d_next (desc s' i), d_next (desc s' (d_next (desc s' i)))) | _ => (0, 0, 0) end)
      (virtio_disk_rw 5 true (vinit demo_bufs demo_disk)) = (0, 1, 2)) by (vm_compute; reflexivity).
    rewrite E in Ho. destruct Ht as (_ & _ & _ & Hij & Hik & Hjk & _). cbn [submit desc] in Ho.
    rewrite (upd_ne _ k i), (upd_ne _ j i), upd_eq in Ho by done. cbn [head_desc d_next] in Ho.
    rewrite (upd_ne _ k j), upd_eq in Ho by done. cbn [data_desc d_next] in Ho. by injection Ho as -> -> ->.
  - exfalso. by apply (Hno 0 1 2).
Qed.

Lemma demo_reach : rtc vstep (mkvm (vinit demo_bufs demo_disk) demo_idle ∅) (mkvm (quiet demo_sent) demo_idle demo_asleep).
Proof.
  eapply rtc_l.
  { apply (vs_call _ _ _ 1 5 true); [done|by intros (p & t & a & Hp & _)|done]. }
  eapply rtc_l; [|apply rtc_refl].
  exact (vs_rw _ _ _ 1 5 true (SleepBuf 0) demo_sent (lookup_insert_eq _ _ _) demo_rw).
Qed.

(** The device takes the request and carries it out. *)
Definition demo_taken : @dpriv lifo_disk := ([0], 1).
Definition demo_done : vmach := mkvm (do_request (quiet demo_sent) 0 0 5 0 true) (([], 1) : @dpriv lifo_disk) demo_asleep.

Lemma demo_done_reach : rtc vstep (mkvm (vinit demo_bufs demo_disk) demo_idle ∅) demo_done.
Proof.
  etrans; [apply demo_reach|]. eapply rtc_l; [apply (vs_device _ _ _ (quiet demo_sent) demo_taken); left; by split_and!|].
  eapply rtc_l; [|apply rtc_refl]. apply vs_device. right. exists 0. split; [done|]. intros op b st w [[H1 _] [H2 [_ [_ H4]]] [H3 _] _].
  cbn in H1, H2, H3, H4. injection H1 as <-. injection H2 as <-. injection H3 as <-. by destruct w.
Qed.



