(* ===== verification/Umalloc.v ===== *)
(** user/umalloc.c: the allocator of user programs.

    A header is a pair of a pointer and a size in units of a header, at an address
    that is a multiple of the unit; the list of free blocks is circular, ordered by
    address, and begins at [base], which lies below the heap.  The size of the
    process is [brk]; [grants] says which of the requests for more memory the kernel
    will satisfy.  Fuel bounds the rounds of the loops: one round of the list for
    free, two for malloc. *)

From stdpp Require Import sorting.
From S2P Require Import Prelude.
Open Scope Z_scope.

Definition UNIT : Z := 16.

Record umst : Type := mkum { ptr : Z -> Z; size : Z -> Z; freep : Z; brk : Z; grants : list bool }.

Definition set_ptr (a v : Z) : M umst unit := modify (fun s => mkum (upd (ptr s) a v) (size s) (freep s) (brk s) (grants s)).
Definition set_size (a v : Z) : M umst unit := modify (fun s => mkum (ptr s) (upd (size s) a (u32 v)) (freep s) (brk s) (grants s)).
Definition set_freep (v : Z) : M umst unit := modify (fun s => mkum (ptr s) (size s) v (brk s) (grants s)).

(** RAM is PHYSTOP - KERNBASE bytes: no process grows past it. *)
Definition RAM : Z := 134217728.

(** sys_sbrk: the old break, or -1 when the kernel has no memory to give.  A
    shrink below 0 wraps around, and uvmdealloc then leaves the process as it is. *)
Definition sbrk (n : Z) : M umst Z :=
  s <- gets id ;;
  if 0 <? n then
    if hd false (grants s) && (brk s + n <=? RAM)
    then modify (fun s => mkum (ptr s) (size s) (freep s) (brk s + n) (tl (grants s))) ;; ret (brk s)
    else modify (fun s => mkum (ptr s) (size s) (freep s) (brk s) (tl (grants s))) ;; ret (-1)
  else
    let new := u64 (brk s + n) in
    modify (fun s => mkum (ptr s) (size s) (freep s) (if brk s <=? new then brk s else new) (grants s)) ;; ret (brk s).

(** The loop of free: the place of [bp] in the list. *)
Fixpoint free_scan (fuel : nat) (bp p : Z) : M umst Z :=
  s <- gets id ;;
  if (p <? bp) && (bp <? ptr s p) then ret p else
  if (ptr s p <=? p) && ((p <? bp) || (bp <? ptr s p)) then ret p else
  match fuel with
  | O => stuck "free: out of fuel"
  | S fuel' => free_scan fuel' bp (ptr s p)
  end.

Definition free (fuel : nat) (ap : Z) : M umst unit :=
  let bp := ap - UNIT in
  s <- gets id ;;
  p <- free_scan fuel bp (freep s) ;;
  s <- gets id ;;
  (if bp + size s bp * UNIT =? ptr s p then
     set_size bp (size s bp + size s (ptr s p)) ;;
     set_ptr bp (ptr s (ptr s p))
   else set_ptr bp (ptr s p)) ;;
  s <- gets id ;;
  (if p + size s p * UNIT =? bp then
     set_size p (size s p + size s bp) ;;
     set_ptr p (ptr s bp)
   else set_ptr p bp) ;;
  set_freep p.

Definition morecore (fuel : nat) (nu : Z) : M umst Z :=
  let nu := if nu <? 4096 then 4096 else nu in
  p <- sbrk (i32 (nu * UNIT)) ;;
  if p =? -1 then ret 0 else
  set_size p nu ;;
  free fuel (p + UNIT) ;;
  gets freep.

(** The loop of malloc; [fuel] bounds the rounds, and the rounds of free. *)
Fixpoint malloc_loop (fuel0 fuel : nat) (nunits prevp p : Z) : M umst Z :=
  s <- gets id ;;
  if nunits <=? size s p then
    (if size s p =? nunits then set_ptr prevp (ptr s p) ;; set_freep prevp ;; ret (p + UNIT)
     else
       set_size p (size s p - nunits) ;;
       s <- gets id ;;
       let q := p + size s p * UNIT in
       set_size q nunits ;;
       set_freep prevp ;;
       ret (q + UNIT))
  else
  match fuel with
  | O => stuck "malloc: out of fuel"
  | S fuel' =>
      if p =? freep s then
        q <- morecore fuel0 nunits ;;
        if q =? 0 then ret 0 else s <- gets id ;; malloc_loop fuel0 fuel' nunits q (ptr s q)
      else malloc_loop fuel0 fuel' nunits p (ptr s p)
  end.

Definition malloc (base : Z) (fuel : nat) (nbytes : Z) : M umst Z :=
  let nunits := u32 ((nbytes + UNIT - 1) / UNIT + 1) in
  s <- gets id ;;
  when (freep s =? 0) (set_freep base ;; set_ptr base base ;; set_size base 0) ;;
  s <- gets id ;;
  malloc_loop fuel fuel nunits (freep s) (ptr s (freep s)).

(** ** The circular list *)

(** The pointers of [l] lead through [l] and on to [e]. *)
Fixpoint linked (f : Z -> Z) (l : list Z) (e : Z) : Prop :=
  match l with
  | [] => True
  | a :: l' => f a = hd e l' /\ linked f l' e
  end.

Lemma linked_app f l1 l2 e : linked f (l1 ++ l2) e <-> linked f l1 (hd e l2) /\ linked f l2 e.
Proof.
  induction l1 as [|a l1 IH]; simpl; [tauto|]. rewrite IH. destruct l1; simpl; [|tauto]. tauto.
Qed.

Lemma linked_upd f l e a v : a ∉ l -> linked (upd f a v) l e <-> linked f l e.
Proof.
  induction l as [|b l IH]; simpl; [done|]. intros Ha. rewrite upd_ne by set_solver. rewrite IH by set_solver. done.
Qed.

(** The list read from one of its elements on, and from after it. *)
Lemma linked_from f l p m base :
  hd p l = base -> linked f (l ++ p :: m) base -> linked f ((p :: m) ++ l) p.
Proof.
  intros Hb (Hl & Hm)%linked_app. apply linked_app. split; [|done]. by destruct l; simpl in *; subst.
Qed.

Lemma linked_after f l p m base :
  hd p l = base -> linked f (l ++ p :: m) base -> linked f (m ++ l ++ [p]) (f p) /\ f p = hd p (m ++ l).
Proof.
  intros Hb (Hl & Hm)%linked_app. destruct Hm as [Hp Hm].
  assert (E : f p = hd p (m ++ l)) by (rewrite Hp; destruct m; simpl; [by destruct l|done]).
  split; [|done]. rewrite app_assoc. apply linked_app. split; [|by simpl].
  apply linked_app. split; [|done]. by destruct l; simpl in *; subst.
Qed.

(** ** The heap *)

Definition sep (s : umst) (a b : Z) : Prop := a + size s a * UNIT <= b \/ b + size s b * UNIT <= a.

(** The units in the blocks [l]. *)
Definition units (s : umst) (l : list Z) : Z := foldr (fun a n => size s a + n) 0 l.

(** The free blocks are [fs], the blocks in use [A]; the heap starts at [lo]. *)
Record heap (base lo : Z) (s : umst) (fs A : list Z) : Prop := {
  h_base : 0 < base /\ base + UNIT <= lo /\ size s base = 0;
  h_brk : lo <= brk s <= RAM /\ brk s mod UNIT = 0;
  h_sorted : StronglySorted Z.lt fs;
  h_linked : linked (ptr s) (base :: fs) base;
  h_freep : freep s ∈ base :: fs;
  h_block : forall a, a ∈ fs ++ A -> lo <= a /\ a mod UNIT = 0 /\ 0 < size s a /\ a + size s a * UNIT <= brk s;
  h_nodup : NoDup (fs ++ A);
  h_sep : forall a b, a ∈ fs ++ A -> b ∈ fs ++ A -> a <> b -> sep s a b;
  h_units : units s (fs ++ A) * UNIT = brk s - lo
}.

(** No two free blocks touch. *)
Definition coalesced (s : umst) (fs : list Z) : Prop := forall a b, a ∈ fs -> b ∈ fs -> a + size s a * UNIT <> b.

Lemma units_app s l1 l2 : units s (l1 ++ l2) = units s l1 + units s l2.
Proof. unfold units. induction l1; simpl; lia. Qed.

Lemma units_perm s l1 l2 : l1 ≡ₚ l2 -> units s l1 = units s l2.
Proof. unfold units. induction 1; simpl; lia. Qed.

Lemma units_upd s s' l a v : (forall b, size s' b = upd (size s) a v b) -> a ∉ l -> units s' l = units s l.
Proof.
  intros H. unfold units. induction l as [|b l IH]; simpl; [done|]. intros Ha. rewrite H, upd_ne, IH by set_solver. done.
Qed.

Lemma sorted_split (l : list Z) bp :
  StronglySorted Z.lt l -> bp ∉ l -> exists l1 l2, l = l1 ++ l2 /\ (forall x, x ∈ l1 -> x < bp) /\ (forall x, x ∈ l2 -> bp < x).
Proof.
  induction 1 as [|a l Hs IH Ha]; intros Hn.
  - exists [], []. set_solver.
  - destruct (decide (a < bp)).
    + destruct IH as (l1 & l2 & -> & H1 & H2); [set_solver|]. exists (a :: l1), l2. split; [done|]. set_solver.
    + exists [], (a :: l). split; [done|]. split; [set_solver|]. rewrite Forall_forall in Ha. intros x [-> | Hx]%elem_of_cons.
      * assert (bp <> a) by set_solver. lia.
      * specialize (Ha x Hx). assert (bp <> a) by set_solver. lia.
Qed.

Lemma sorted_app (l1 l2 : list Z) :
  StronglySorted Z.lt (l1 ++ l2) <-> StronglySorted Z.lt l1 /\ StronglySorted Z.lt l2 /\ forall x y, x ∈ l1 -> y ∈ l2 -> x < y.
Proof.
  induction l1 as [|a l1 IH]; simpl.
  - split; [intros H; split; [constructor|]; set_solver|tauto].
  - split.
    + intros H. inversion H as [|? ? Hs Hf]; subst. apply IH in Hs as (H1 & H2 & H3). rewrite Forall_forall in Hf.
      split; [constructor; [done|]|split; [done|]]; [apply Forall_forall; intros x ?; apply Hf; set_solver|].
      intros x y [-> | Hx]%elem_of_cons Hy; [apply Hf; set_solver|by apply H3].
    + intros (H & H2 & H3). inversion H as [|? ? Hs Hf]; subst. rewrite Forall_forall in Hf. constructor.
      * apply IH. split; [done|]. split; [done|]. intros x y Hx Hy. apply H3; set_solver.
      * apply Forall_forall. intros x [Hx|Hx]%elem_of_app; [by apply Hf|]. apply H3; set_solver.
Qed.

(** Only the contents of the memory matter. *)
Record same_heap (s s' : umst) : Prop := {
  z_ptr : forall a, ptr s' a = ptr s a;
  z_size : forall a, size s' a = size s a;
  z_brk : brk s' = brk s
}.

Lemma linked_ext f g l e : (forall a, a ∈ l -> g a = f a) -> linked f l e -> linked g l e.
Proof.
  induction l as [|a l IH]; simpl; [done|]. intros H [Ha Hl]. split; [by rewrite H by set_solver|]. apply IH; [set_solver|done].
Qed.

Lemma units_ext s s' l : (forall a, a ∈ l -> size s' a = size s a) -> units s' l = units s l.
Proof. unfold units. induction l as [|a l IH]; simpl; [done|]. intros H. rewrite H, IH by set_solver. done. Qed.

(** Membership in lists made of known parts. *)
Ltac disj := solve [assumption | reflexivity | left; disj | right; disj].
Ltac els :=
  lazymatch goal with |- ?a <> ?b => let H := fresh in intros H; rewrite H in *; clear H | _ => idtac end;
  repeat first [rewrite list_elem_of_singleton in * | rewrite elem_of_nil in * | rewrite elem_of_app in * | rewrite elem_of_cons in * | rewrite not_elem_of_app in * | rewrite not_elem_of_cons in *];
  first [disj | tauto | intuition congruence].

(** A block in use goes to its place in the list. *)
Lemma heap_insert base lo s s' f1 f2 A A' bp l p :
  heap base lo s (f1 ++ f2) A -> A ≡ₚ bp :: A' -> base :: f1 = l ++ [p] ->
  (forall x, x ∈ f1 -> x < bp) -> (forall x, x ∈ f2 -> bp < x) ->
  (forall a, ptr s' a = upd (upd (ptr s) bp (hd base f2)) p bp a) -> (forall a, size s' a = size s a) -> brk s' = brk s -> freep s' = p ->
  heap base lo s' (f1 ++ bp :: f2) A'.
Proof.
  intros [(B1 & B2 & B3) Hbrk Hs Hl Hfp Hblk Hn Hsep Hu] HA Hp H1 H2 Eptr Esz Ebrk Efp.
  assert (Hperm : (f1 ++ bp :: f2) ++ A' ≡ₚ (f1 ++ f2) ++ A).
  { rewrite HA, <- !app_assoc. f_equiv. simpl. by rewrite Permutation_middle. }
  assert (Hbp : lo <= bp) by (apply Hblk; rewrite HA; els).
  assert (Hnew : bp ∉ base :: f1 ++ f2).
  { rewrite HA in Hn. apply NoDup_app in Hn as (_ & Hn & _). unfold UNIT in *. intros [? | Hin]%elem_of_cons; [lia|]. apply (Hn bp Hin). els. }
  assert (Hpin : p ∈ base :: f1) by (rewrite Hp; els). split.
  - rewrite Esz. done.
  - by rewrite Ebrk.
  - apply sorted_app in Hs as (S1 & S2 & S3). apply sorted_app. split; [done|]. split; [constructor; [done|by apply Forall_forall]|].
    intros x y Hx [-> | Hy]%elem_of_cons; [by apply H1|by apply S3].
  - assert (Hnd : NoDup (base :: f1 ++ f2)).
    { apply NoDup_app in Hn as (Hn & _). constructor; [|done]. intros Hin. destruct (Hblk base) as [? _]; [els|]. unfold UNIT in *. lia. }
    change (base :: f1 ++ f2) with ((base :: f1) ++ f2) in *. change (base :: f1 ++ bp :: f2) with ((base :: f1) ++ bp :: f2).
    rewrite Hp, <- app_assoc in Hl, Hnd, Hnew |- *. simpl in *.
    apply linked_app in Hl as [Hl1 Hl2]. apply NoDup_app in Hnd as (_ & Hd1 & [Hd2 _]%NoDup_cons). destruct Hl2 as [_ Hl2].
    apply linked_app. split; [|split; [|split]]; simpl.
    + eapply linked_ext; [|exact Hl1]. intros a Ha. rewrite Eptr, !upd_ne; [done|..]; [intros ->; apply Hnew; els|]. intros ->. apply (Hd1 p Ha). els.
    + by rewrite Eptr, upd_eq.
    + rewrite Eptr, upd_ne, upd_eq by (intros ->; apply Hnew; els). done.
    + eapply linked_ext; [|exact Hl2]. intros a Ha. rewrite Eptr, !upd_ne; [done|intros ->; apply Hnew; els|]. by intros ->.
  - rewrite Efp. els.
  - intros a. rewrite Hperm, Esz, Ebrk. apply Hblk.
  - by rewrite Hperm.
  - intros a b. rewrite Hperm. unfold sep. rewrite !Esz. apply Hsep.
  - rewrite Ebrk, <- Hu. f_equal. rewrite (units_perm _ _ _ Hperm). by apply units_ext.
Qed.

(** Two free blocks that touch become one. *)
Lemma heap_merge base lo s s' f1 f2 A a b :
  heap base lo s (f1 ++ a :: b :: f2) A -> a + size s a * UNIT = b ->
  (forall x, ptr s' x = upd (ptr s) a (ptr s b) x) -> (forall x, size s' x = upd (size s) a (size s a + size s b) x) -> brk s' = brk s ->
  freep s' ∈ base :: f1 ++ a :: f2 ->
  heap base lo s' (f1 ++ a :: f2) A.
Proof.
  intros [(B1 & B2 & B3) Hbrk Hs Hl Hfp Hblk Hn Hsep Hu] Hab Eptr Esz Ebrk Efp.
  assert (Ha : a ∈ (f1 ++ a :: b :: f2) ++ A) by els. assert (Hb : b ∈ (f1 ++ a :: b :: f2) ++ A) by els.
  destruct (Hblk a Ha) as (Ha1 & Ha2 & Ha3 & Ha4), (Hblk b Hb) as (Hb1 & Hb2 & Hb3 & Hb4).
  assert (Hperm : (f1 ++ a :: b :: f2) ++ A ≡ₚ a :: b :: (f1 ++ f2) ++ A).
  { rewrite <- !app_assoc. simpl. rewrite <- Permutation_middle. f_equiv. by rewrite <- Permutation_middle. }
  assert (Hperm2 : (f1 ++ a :: f2) ++ A ≡ₚ a :: (f1 ++ f2) ++ A) by (rewrite <- !app_assoc; simpl; by rewrite <- Permutation_middle).
  assert (Hn' := Hn). rewrite Hperm in Hn'. apply NoDup_cons in Hn' as [Hna Hn']. apply NoDup_cons in Hn' as [Hnb Hn'].
  assert (Hin : forall x, x ∈ (f1 ++ f2) ++ A -> x ∈ (f1 ++ a :: b :: f2) ++ A) by (intros x Hx; rewrite Hperm; els).
  assert (Hold : forall x, x ∈ (f1 ++ f2) ++ A -> size s' x = size s x) by (intros x Hx; rewrite Esz, upd_ne; [done|els]).
  assert (Hnew : size s' a = size s a + size s b) by by rewrite Esz, upd_eq. unfold UNIT in *. split.
  - rewrite Esz, upd_ne by lia. done.
  - by rewrite Ebrk.
  - apply sorted_app in Hs as (S1 & S2 & S3). apply sorted_app. inversion S2 as [|? ? S4 S5]; subst. inversion S4; subst.
    split; [done|]. split; [constructor; [done|]|intros x y Hx Hy; apply S3; els]. rewrite Forall_forall in *. intros x Hx. apply S5. els.
  - change (base :: f1 ++ a :: b :: f2) with ((base :: f1) ++ a :: b :: f2) in *. change (base :: f1 ++ a :: f2) with ((base :: f1) ++ a :: f2).
    apply linked_app in Hl as [Hl1 (_ & Hlb & Hl2)]. apply linked_app.
    assert (Hba : a <> base) by lia.
    split; [|split; [by rewrite Eptr, upd_eq|]]; (eapply linked_ext; [|eassumption]); intros x Hx; rewrite Eptr, upd_ne; try done; els.
  - done.
  - intros x. rewrite Hperm2. intros [-> | Hx]%elem_of_cons.
    + rewrite Hnew, Ebrk. unfold UNIT. split_and!; lia || done.
    + rewrite Hold, Ebrk by done. apply Hblk, Hin. done.
  - rewrite Hperm2. constructor; [|done]. els.
  - assert (Hax : forall x, x ∈ (f1 ++ f2) ++ A -> sep s' a x).
    { intros x Hx. unfold sep, UNIT. rewrite Hnew, (Hold x Hx). destruct (Hsep a x) as [?|?]; [done|by apply Hin|els| |unfold UNIT in *; lia].
      destruct (Hsep b x) as [?|?]; [done|by apply Hin|els| |]; unfold UNIT in *; [lia|]. destruct (Hblk x (Hin x Hx)) as (_ & _ & ? & _). lia. }
    intros x y. rewrite !Hperm2. intros [-> | Hx]%elem_of_cons [-> | Hy]%elem_of_cons Hne; [done|by apply Hax| |].
    + unfold sep. apply or_comm. by apply Hax.
    + unfold sep. rewrite !Hold by done. apply Hsep; [by apply Hin|by apply Hin|done].
  - rewrite Ebrk, <- Hu. f_equal. rewrite (units_perm _ _ _ Hperm), (units_perm _ _ _ Hperm2). unfold units at 1 2. cbn [foldr].
    fold (units s' ((f1 ++ f2) ++ A)). fold (units s ((f1 ++ f2) ++ A)). rewrite (units_ext s s') by done. lia.
Qed.

(** ** The scan of free *)

Definition stop (s : umst) (bp p : Z) : bool :=
  (p <? bp) && (bp <? ptr s p) || (ptr s p <=? p) && ((p <? bp) || (bp <? ptr s p)).

Lemma free_scan_run s bp p pre post e fuel :
  linked (ptr s) (pre ++ p :: post) e -> (forall q, q ∈ pre -> stop s bp q = false) -> stop s bp p = true ->
  (length pre <= fuel)%nat -> free_scan fuel bp (hd p pre) s = Ret p s.
Proof.
  intros Hl Hno Hp. revert pre Hl Hno. induction fuel as [|fuel IH]; intros pre Hl Hno Hf; destruct pre as [|q pre];
    [| simpl in Hf; lia | |]; cbn [hd free_scan]; rewrite bind_gets; cbv beta; unfold id.
  1,2: unfold stop in Hp; destruct (_ && _); [done|]; simpl in Hp; by rewrite Hp.
  assert (Hq := Hno q ltac:(left)). unfold stop in Hq. apply orb_false_iff in Hq as [-> ->].
  destruct Hl as [-> Hl]. replace (hd e (pre ++ p :: post)) with (hd p pre) by by destruct pre.
  apply IH; [done| |simpl in Hf; lia]. intros x Hx. apply Hno. by right.
Qed.

Section place.
Context (base lo : Z) (s : umst) (f1 f2 A : list Z) (bp p : Z) (l : list Z).
Context (Hh : heap base lo s (f1 ++ f2) A) (Hl : base :: f1 = l ++ [p]) (Hlo : lo <= bp).
Context (H1 : forall x, x ∈ f1 -> x < bp) (H2 : forall x, x ∈ f2 -> bp < x).

Lemma place_all : base :: f1 ++ f2 = l ++ p :: f2.
Proof. change (base :: f1 ++ f2) with ((base :: f1) ++ f2). by rewrite Hl, <- app_assoc. Qed.

Lemma place_base : base < bp.
Proof. pose proof (h_base _ _ _ _ _ Hh). unfold UNIT in *. lia. Qed.

Lemma place_sorted : StronglySorted Z.lt (l ++ p :: f2).
Proof.
  rewrite <- place_all. constructor; [apply Hh|]. apply Forall_forall. intros x Hx.
  destruct (h_block _ _ _ _ _ Hh x) as [? _]; [els|]. pose proof (h_base _ _ _ _ _ Hh). unfold UNIT in *. lia.
Qed.

Lemma place_below x : x ∈ l ++ [p] -> x < bp.
Proof. rewrite <- Hl. intros [-> | Hx]%elem_of_cons; [apply place_base|by apply H1]. Qed.

Lemma place_ptr : ptr s p = hd base f2.
Proof. pose proof (h_linked _ _ _ _ _ Hh) as H. rewrite place_all in H. apply linked_app in H as [_ [H _]]. done. Qed.

Lemma place_stop : stop s bp p = true.
Proof.
  assert (p < bp) by (apply place_below; els). unfold stop. rewrite place_ptr.
  pose proof place_sorted as Hs. rewrite <- place_all in Hs. clear Hh. destruct f2 as [|h f2']; simpl.
  - assert (base <= p). { inversion Hs as [|? ? _ Hf]; subst.
      assert (Hin : p ∈ base :: f1) by (rewrite Hl; els). apply elem_of_cons in Hin as [-> | Hin]; [lia|].
      rewrite Forall_forall in Hf. specialize (Hf p ltac:(els)). lia. }
    zcases; simpl; try done; lia.
  - assert (bp < h) by (apply H2; els). zcases; simpl; try done; lia.
Qed.

Lemma place_not_stop q : q ∈ l ++ f2 -> stop s bp q = false.
Proof.
  intros Hq. pose proof (h_linked _ _ _ _ _ Hh) as Hk. rewrite place_all in Hk. apply linked_app in Hk as [Hk1 [_ Hk2]].
  pose proof place_sorted as Hs. pose proof place_base as Hb. unfold stop. apply elem_of_app in Hq as [Hq|Hq].
  - pose proof (fun x Hx => place_below x Hx) as Hbelow. apply list_elem_of_split in Hq as (x & y & ->). apply linked_app in Hk1 as [_ [Hk1 _]]. simpl in Hk1.
    rewrite <- app_assoc in Hs. apply sorted_app in Hs as (_ & Hs & _). simpl in Hs. inversion Hs as [|? ? _ Hf]; subst.
    assert (Hn : ptr s q ∈ y ++ [p]) by (rewrite Hk1; destruct y; els). rewrite Forall_forall in Hf.
    assert (ptr s q < bp) by (apply Hbelow; els). assert (q < ptr s q) by (apply Hf; els). zcases; simpl; try done; lia.
  - pose proof (H2 q Hq) as Hlt. apply list_elem_of_split in Hq as (x & y & E). rewrite E in Hs, Hk2. apply linked_app in Hk2 as [_ [Hk2 _]].
    rewrite app_comm_cons, app_assoc in Hs. apply sorted_app in Hs as (_ & Hs & _). inversion Hs as [|? ? _ Hf]; subst. rewrite Forall_forall in Hf.
    destruct y as [|h y]; simpl in Hk2; [|assert (q < h) by (apply Hf; els)]; rewrite Hk2; zcases; simpl; try done; lia.
Qed.

Lemma free_scan_place fuel : (length (f1 ++ f2) < fuel)%nat -> free_scan fuel bp (freep s) s = Ret p s.
Proof.
  intros Hf. assert (Hlen : (length (f1 ++ f2) = length l + length f2)%nat).
  { pose proof (f_equal length place_all) as E. rewrite (length_app l) in E. simpl in E. lia. }
  pose proof (h_freep _ _ _ _ _ Hh) as Hfp. pose proof (h_linked _ _ _ _ _ Hh) as Hk. rewrite place_all in Hfp, Hk.
  assert (Hb : hd p l = base) by by destruct l; injection Hl.
  apply elem_of_app in Hfp as [Hfp|[Hfp|Hfp]%elem_of_cons].
  - apply list_elem_of_split in Hfp as (x & y & E). rewrite E in Hk, Hlen, Hb. rewrite (length_app x) in Hlen. simpl in Hlen.
    replace (freep s) with (hd p (freep s :: y)) by done. rewrite <- app_assoc in Hk. apply linked_app in Hk as [_ Hk].
    eapply (free_scan_run s bp p (freep s :: y) f2 base); [| |apply place_stop|simpl; lia].
    + exact Hk.
    + intros q Hq. apply place_not_stop. rewrite E. els.
  - rewrite Hfp. apply (free_scan_run s bp p [] f2 base); [apply linked_app in Hk as [_ Hk]; exact Hk|set_solver|apply place_stop|simpl; lia].
  - apply list_elem_of_split in Hfp as (x & y & E).
    assert (Hk' : linked (ptr s) ((freep s :: y) ++ l ++ [p]) (ptr s p)).
    { rewrite E in Hk. replace (l ++ p :: x ++ freep s :: y) with ((l ++ p :: x) ++ freep s :: y) in Hk by (rewrite <- app_assoc; done).
      apply linked_app in Hk as [Hk1 Hk2]. apply linked_app. split.
      - replace (hd (ptr s p) (l ++ [p])) with base by (destruct l; simpl in *; done). exact Hk2.
      - apply linked_app in Hk1 as [Hk1 _]. apply linked_app. split; [exact Hk1|done]. }
    replace (freep s) with (hd p ((freep s :: y) ++ l)) by done.
    eapply (free_scan_run s bp p ((freep s :: y) ++ l) [] (ptr s p)); [by rewrite <- app_assoc| |apply place_stop|].
    + intros q Hq. apply place_not_stop. rewrite E. els.
    + rewrite length_app. simpl. rewrite E, (length_app x) in Hlen. simpl in Hlen. rewrite E in Hf. lia.
Qed.
End place.

(** ** Free *)

(** The two tests of free, and the link from [p] to [bp]. *)
Definition join_up (p bp : Z) (s : umst) : umst :=
  if bp + size s bp * UNIT =? ptr s p
  then mkum (upd (ptr s) bp (ptr s (ptr s p))) (upd (size s) bp (u32 (size s bp + size s (ptr s p)))) (freep s) (brk s) (grants s)
  else mkum (upd (ptr s) bp (ptr s p)) (size s) (freep s) (brk s) (grants s).
Definition link (p bp : Z) (s : umst) : umst := mkum (upd (ptr s) p bp) (size s) p (brk s) (grants s).
Definition join_down (p bp : Z) (s : umst) : umst :=
  if p + size s p * UNIT =? bp
  then mkum (upd (ptr s) p (ptr s bp)) (upd (size s) p (u32 (size s p + size s bp))) p (brk s) (grants s)
  else link p bp s.

Lemma free_eq fuel bp p s :
  free_scan fuel bp (freep s) s = Ret p s -> free fuel (bp + UNIT) s = Ret tt (join_down p bp (join_up p bp s)).
Proof.
  intros E. unfold free. replace (bp + UNIT - UNIT) with bp by lia. rewrite bind_gets. cbv beta. unfold id. unfold bind at 1. rewrite E.
  rewrite bind_gets. cbv beta. unfold join_up. destruct (_ =? ptr s p); unfold bind, set_size, set_ptr, set_freep, modify, gets, join_down;
    cbn [ptr size freep brk grants]; by destruct (_ =? bp).
Qed.

Definition touch (s : umst) (a b : Z) : Prop := a + size s a * UNIT = b.
Definition inside (s : umst) (l : list Z) (x : Z) : Prop := exists a, a ∈ l /\ a <= x < a + size s a * UNIT.

(** What a merge does to the touching pairs and to the bytes. *)
Lemma merge_touch base lo s s' f1 f2 A a b x y :
  heap base lo s (f1 ++ a :: b :: f2) A -> touch s a b -> (forall x, size s' x = upd (size s) a (size s a + size s b) x) ->
  x ∈ f1 ++ a :: f2 -> y ∈ f1 ++ a :: f2 -> touch s' x y ->
  y <> b /\ exists x0, x0 ∈ f1 ++ a :: b :: f2 /\ touch s x0 y /\ (x0 = x \/ x = a /\ x0 = b).
Proof.
  intros Hh Hab Esz Hx Hy Ht. assert (Hyb : y <> b).
  { intros ->. pose proof (h_nodup _ _ _ _ _ Hh) as Hn. apply NoDup_app in Hn as (Hn & _).
    rewrite <- Permutation_middle in Hn. apply NoDup_cons in Hn as [Hn1 Hn2]. rewrite <- Permutation_middle in Hn2. apply NoDup_cons in Hn2 as [Hn2 _]. els. }
  split; [done|]. unfold touch in *. rewrite Esz, upd_case in Ht. case_decide.
  - subst x. exists b. split; [els|]. split; [|tauto]. unfold UNIT in *. lia.
  - exists x. split; [els|]. tauto.
Qed.

Lemma merge_inside base lo s s' f1 f2 A a b x :
  heap base lo s (f1 ++ a :: b :: f2) A -> touch s a b -> (forall x, size s' x = upd (size s) a (size s a + size s b) x) ->
  inside s' (f1 ++ a :: f2) x <-> inside s (f1 ++ a :: b :: f2) x.
Proof.
  intros Hh Hab Esz. pose proof (h_nodup _ _ _ _ _ Hh) as Hn. apply NoDup_app in Hn as (Hn & _).
  rewrite <- Permutation_middle in Hn. apply NoDup_cons in Hn as [Hna _].
  destruct (h_block _ _ _ _ _ Hh a) as (_ & _ & Ha & _); [els|]. destruct (h_block _ _ _ _ _ Hh b) as (_ & _ & Hb & _); [els|].
  unfold touch, inside, UNIT in *. split.
  - intros (c & Hc & Hr). rewrite Esz, upd_case in Hr. case_decide.
    + subst c. destruct (decide (x < b)); [exists a|exists b]; (split; [els|lia]).
    + exists c. split; [els|lia].
  - intros (c & Hc & Hr). destruct (decide (c = a \/ c = b)) as [[-> | ->]|Hd].
    + exists a. split; [els|]. rewrite Esz, upd_eq. lia.
    + exists a. split; [els|]. rewrite Esz, upd_eq. lia.
    + exists c. split; [els|]. rewrite Esz, upd_ne by tauto. lia.
Qed.

(** Two blocks fit in memory together. *)
Lemma heap_fit base lo s fs A a b : heap base lo s fs A -> a ∈ fs ++ A -> b ∈ fs ++ A -> touch s a b -> u32 (size s a + size s b) = size s a + size s b.
Proof.
  intros Hh Ha Hb Ht. destruct (h_block _ _ _ _ _ Hh a Ha) as (? & _ & ? & _). destruct (h_block _ _ _ _ _ Hh b Hb) as (_ & _ & ? & ?).
  pose proof (h_base _ _ _ _ _ Hh). pose proof (h_brk _ _ _ _ _ Hh). apply u32_small. unfold touch, UNIT, RAM in *. lia.
Qed.

(** What free does to the blocks. *)
Record freed (base lo : Z) (s s' : umst) (fs fs' A' : list Z) (bp : Z) : Prop := {
  fr_heap : heap base lo s' fs' A';
  fr_keep : forall a, a ∈ A' -> size s' a = size s a;
  fr_in : exists a, a ∈ fs' /\ a <= bp /\ bp + size s bp * UNIT <= a + size s' a * UNIT;
  fr_bytes : forall x, inside s' fs' x <-> inside s fs x \/ bp <= x < bp + size s bp * UNIT;
  fr_brk : brk s' = brk s /\ grants s' = grants s;
  fr_len : (length fs' <= S (length fs))%nat
}.

Section free.
Context (base lo : Z) (s : umst) (f1 f2 A A' : list Z) (bp p : Z) (l : list Z).
Context (Hh : heap base lo s (f1 ++ f2) A) (HA : A ≡ₚ bp :: A') (Hl : base :: f1 = l ++ [p]).
Context (H1 : forall x, x ∈ f1 -> x < bp) (H2 : forall x, x ∈ f2 -> bp < x).

Lemma bp_block : lo <= bp /\ bp mod UNIT = 0 /\ 0 < size s bp /\ bp + size s bp * UNIT <= brk s.
Proof. apply (h_block _ _ _ _ _ Hh). rewrite HA. els. Qed.

Lemma bp_not_in : bp ∉ base :: f1 ++ f2 ++ A'.
Proof.
  pose proof bp_block as (Hb & _). pose proof (h_base _ _ _ _ _ Hh) as (_ & Hbase & _). pose proof (h_nodup _ _ _ _ _ Hh) as Hn.
  rewrite HA, <- Permutation_middle in Hn. apply NoDup_cons in Hn as [Hn _]. rewrite <- app_assoc in Hn.
  intros [Hin|Hin]%elem_of_cons; [unfold UNIT in *; lia|done].
Qed.

Definition linked_up : umst := link p bp (mkum (upd (ptr s) bp (ptr s p)) (size s) (freep s) (brk s) (grants s)).

Lemma up_heap : heap base lo linked_up (f1 ++ bp :: f2) A'.
Proof.
  eapply (heap_insert base lo s _ f1 f2 A A' bp l p); try done. simpl. intros a.
  by rewrite (place_ptr base lo s f1 f2 A p l Hh Hl).
Qed.

(** Only neighbours touch. *)
Lemma up_touch x y :
  coalesced s (f1 ++ f2) -> x ∈ f1 ++ bp :: f2 -> y ∈ f1 ++ bp :: f2 -> touch linked_up x y ->
  (x = p /\ y = bp) \/ (x = bp /\ y = hd base f2).
Proof.
  intros Hc Hx Hy Ht. pose proof bp_block as (Hb & _ & Hs & _). pose proof bp_not_in as Hnot.
  pose proof (place_sorted base lo s f1 f2 A p l Hh Hl) as Hsort. pose proof (place_all base f1 f2 p l Hl) as Hall.
  unfold touch in Ht. simpl in Ht. destruct (decide (x = bp)) as [-> | Hxb].
  - right. split; [done|]. destruct (decide (y = bp)) as [-> | Hyb]; [unfold UNIT in *; lia|].
    assert (Hy2 : y ∈ f2). { apply elem_of_app in Hy as [Hy|[?|Hy]%elem_of_cons]; [|done|done]. specialize (H1 y Hy). unfold UNIT in *. lia. }
    apply sorted_app in Hsort as (_ & Hsort & _). inversion Hsort as [|? ? Hs2 _]; subst. clear Hsort. destruct f2 as [|n f2']; [by apply elem_of_nil in Hy2|].
    simpl. destruct (decide (bp + size s bp * UNIT = n)) as [|Hne]; [done|]. exfalso. apply elem_of_cons in Hy2 as [?|Hy2]; [done|].
    inversion Hs2 as [|? ? _ Hf]; subst. rewrite Forall_forall in Hf. specialize (Hf _ Hy2).
    assert (bp < n) by (apply H2; els). destruct (h_sep _ _ _ _ _ Hh bp n) as [?|?]; [rewrite HA; els|els|lia|lia|].
    destruct (h_block _ _ _ _ _ Hh n) as (_ & _ & ? & _); [els|]. unfold UNIT in *. lia.
  - assert (Hx' : x ∈ f1 ++ f2) by els. destruct (decide (y = bp)) as [-> | Hyb].
    2:{ exfalso. apply (Hc x y); [done|els|done]. }
    left. split; [|done]. destruct (h_block _ _ _ _ _ Hh x) as (_ & _ & Hsx & _); [els|].
    assert (Hx1 : x ∈ f1). { apply elem_of_app in Hx' as [?|Hx']; [done|]. specialize (H2 x Hx'). unfold UNIT in *. lia. }
    assert (Hxl : x ∈ l ++ [p]) by (rewrite <- Hl; els). apply elem_of_app in Hxl as [Hxl|?%list_elem_of_singleton]; [|done]. exfalso.
    apply sorted_app in Hsort as (_ & _ & Hlt). specialize (Hlt x p Hxl ltac:(left)).
    assert (Hpin : p ∈ f1). { assert (Hp : p ∈ base :: f1) by (rewrite Hl; els). apply elem_of_cons in Hp as [-> | ?]; [|done].
      destruct (h_block _ _ _ _ _ Hh x) as (? & _); [els|]. pose proof (h_base _ _ _ _ _ Hh). unfold UNIT in *. lia. }
    specialize (H1 p Hpin). destruct (h_sep _ _ _ _ _ Hh x p) as [?|?]; [els|els|lia|lia|].
    destruct (h_block _ _ _ _ _ Hh p) as (_ & _ & ? & _); [els|]. unfold UNIT in *. lia.
Qed.

(** After the first test. *)
Lemma join_up_run :
  exists f2', freed base lo s (link p bp (join_up p bp s)) (f1 ++ f2) (f1 ++ bp :: f2') A' bp /\
    bp ∈ f1 ++ bp :: f2' /\ size (join_up p bp s) p = size s p /\
    (coalesced s (f1 ++ f2) -> forall x y, x ∈ f1 ++ bp :: f2' -> y ∈ f1 ++ bp :: f2' ->
       touch (link p bp (join_up p bp s)) x y -> x = p /\ y = bp).
Proof.
  pose proof bp_block as (Hb & _ & Hs & _). pose proof bp_not_in as Hnot. pose proof up_heap as Hup. pose proof up_touch as Htouch.
  pose proof (place_ptr base lo s f1 f2 A p l Hh Hl) as Hptr.
  assert (Hpb : p <> bp) by (assert (Hp : p ∈ base :: f1) by (rewrite Hl; els); els).
  assert (Hin0 : forall x, inside linked_up (f1 ++ bp :: f2) x <-> inside s (f1 ++ f2) x \/ bp <= x < bp + size s bp * UNIT).
  { intros x. unfold inside. simpl. split.
    - intros (a & Ha & Hr). destruct (decide (a = bp)) as [-> |]; [tauto|]. left. exists a. split; [els|done].
    - intros [(a & Ha & Hr)|Hr]; [exists a|exists bp]; (split; [els|done]). }
  unfold join_up. destruct (Z.eqb_spec (bp + size s bp * UNIT) (ptr s p)) as [E|E].
  - rewrite Hptr in *. destruct f2 as [|n f2'] eqn:Ef.
    { simpl in E. pose proof (h_base _ _ _ _ _ Hh) as (_ & ? & _). unfold UNIT in *. lia. }
    simpl in E. exists f2'.
    assert (Hn : n <> bp /\ n <> p). { specialize (H2 n ltac:(left)). assert (p < bp); [|lia].
      apply (place_below base lo s f1 (n :: f2') A bp p l Hh Hl Hb H1). els. }
    destruct Hn as [Hnb Hnp]. simpl hd. rewrite (heap_fit _ _ _ _ _ bp n Hh) by (try rewrite HA; els || exact E).
    assert (Et : touch linked_up bp n) by exact E.
    set (s2 := link _ _ _). assert (Esz : forall x, size s2 x = upd (size linked_up) bp (size linked_up bp + size linked_up n) x) by done.
    assert (Hh2 : heap base lo s2 (f1 ++ bp :: f2') A').
    { eapply (heap_merge base lo linked_up); [exact Hup|exact Et| |done|done|].
      - intros x. simpl. rewrite !upd_case. repeat case_decide; congruence.
      - simpl. assert (Hp : p ∈ base :: f1) by (rewrite Hl; els). els. }
    split_and!; [split; try done|els|simpl; by rewrite upd_ne|].
    + intros a Ha. simpl. rewrite upd_ne; [done|els].
    + exists bp. split; [els|]. split; [lia|]. simpl. rewrite upd_eq. destruct (h_block _ _ _ _ _ Hh n) as (_ & _ & ? & _); [els|]. unfold UNIT. lia.
    + intros x. rewrite <- Hin0. by eapply merge_inside.
    + rewrite !length_app. simpl. lia.
    + intros Hc x y Hx Hy Ht. destruct (merge_touch _ _ _ _ _ _ _ _ _ x y Hup Et Esz Hx Hy Ht) as (Hyn & x0 & Hx0 & Ht0 & Hor).
      destruct (Htouch x0 y Hc) as [[-> ->]|[_ ->]]; [done|els|done| |done]. split; [|done]. destruct Hor as [?|[_ ?]]; congruence.
  - exists f2. split_and!; [split; try done|els|done|].
    + exists bp. split; [els|]. simpl. lia.
    + rewrite !length_app. simpl. lia.
    + intros Hc x y Hx Hy Ht. destruct (Htouch x y Hc Hx Hy Ht) as [?|[-> ->]]; [done|]. exfalso. apply E. rewrite Hptr. exact Ht.
Qed.
End free.

Lemma free_run base lo s fs A A' bp fuel :
  heap base lo s fs A -> A ≡ₚ bp :: A' -> (length fs < fuel)%nat ->
  exists s' fs', free fuel (bp + UNIT) s = Ret tt s' /\ freed base lo s s' fs fs' A' bp /\ (coalesced s fs -> coalesced s' fs').
Proof.
  intros Hh HA Hf. assert (Hbp : bp ∉ fs).
  { pose proof (h_nodup _ _ _ _ _ Hh) as Hn. rewrite HA in Hn. apply NoDup_app in Hn as (_ & Hn & _). intros Hin. apply (Hn bp Hin). els. }
  destruct (sorted_split fs bp (h_sorted _ _ _ _ _ Hh) Hbp) as (f1 & f2 & -> & H1 & H2).
  destruct (exists_last (l := base :: f1)) as (l & p & Hl); [done|].
  destruct (bp_block base lo s f1 f2 A A' bp Hh HA) as (Hlo & _).
  rewrite (free_eq fuel bp p); [|by eapply (free_scan_place base lo s f1 f2 A bp p l)].
  destruct (join_up_run base lo s f1 f2 A A' bp p l Hh HA Hl H1 H2) as (f2' & [Hh2 Hk Hin Hby Hbrk Hlen] & Hbin & Ep & Hto).
  unfold join_down. destruct (Z.eqb_spec (p + size (join_up p bp s) p * UNIT) bp) as [E|E].
  - rewrite Ep in E. assert (Hpf : p ∈ base :: f1) by (rewrite Hl; els). apply elem_of_cons in Hpf as [-> | Hpf].
    { exfalso. pose proof (h_base _ _ _ _ _ Hh) as (_ & ? & Hz). rewrite Hz in E. unfold UNIT in *. lia. }
    assert (Hg : exists g, f1 = g ++ [p]).
    { destruct l as [|b0 l]; [by injection Hl as _ ->; apply elem_of_nil in Hpf|]. injection Hl as _ ->. by exists l. }
    destruct Hg as [g ->]. rewrite <- app_assoc in Hh2, Hby, Hto, Hin. cbn [app] in Hh2, Hby, Hto, Hin.
    set (sL := link p bp (join_up p bp s)) in *. assert (Et : touch sL p bp) by (unfold touch; simpl; by rewrite Ep).
    eexists. exists (g ++ p :: f2'). split; [done|]. assert (Ef : u32 (size sL p + size sL bp) = size sL p + size sL bp) by (eapply heap_fit; [exact Hh2|els|els|exact Et]).
    change (size sL) with (size (join_up p bp s)) in Ef. rewrite Ef. set (s3 := mkum _ _ _ _ _). assert (Esz : forall x, size s3 x = upd (size sL) p (size sL p + size sL bp) x) by done.
    assert (Hpb : p <> bp) by (intros ->; by specialize (H1 bp Hpf); lia).
    assert (HpA : p ∉ A').
    { pose proof (h_nodup _ _ _ _ _ Hh) as Hn. apply NoDup_app in Hn as (_ & Hn & _). intros HpA. apply (Hn p); [els|]. rewrite HA. els. }
    split; [split|].
    + eapply (heap_merge base lo sL); [exact Hh2|exact Et| |done|done|simpl; els]. intros x. simpl. rewrite !upd_case. repeat case_decide; congruence.
    + intros a Ha. rewrite Esz, upd_ne by (intros ->; done). by apply Hk.
    + destruct (h_block _ _ _ _ _ Hh2 p) as (_ & _ & Hp0 & _); [els|].
      destruct Hin as (a & Ha & Ha1 & Ha2). destruct (decide (a = p \/ a = bp)) as [Hd|Hd].
      * exists p. split; [els|]. rewrite Esz, upd_eq. unfold touch, UNIT in *. destruct (h_block _ _ _ _ _ Hh2 bp) as (_ & _ & ? & _); [els|].
        destruct Hd as [-> | ->]; lia.
      * exists a. split; [els|]. rewrite Esz, upd_ne by tauto. done.
    + intros x. rewrite <- Hby. by eapply merge_inside.
    + exact Hbrk.
    + rewrite !length_app in *. simpl in *. lia.
    + intros Hc x y Hx Hy Ht. destruct (merge_touch _ _ _ _ _ _ _ _ _ x y Hh2 Et Esz Hx Hy Ht) as (Hyn & x0 & Hx0 & Ht0 & _).
      rewrite <- app_assoc in Hc. destruct (Hto Hc x0 y) as [_ ->]; [rewrite <- app_assoc; exact Hx0|els|exact Ht0|done].
  - eexists. exists (f1 ++ bp :: f2'). split; [done|]. split; [done|]. intros Hc x y Hx Hy Ht.
    destruct (Hto Hc x y Hx Hy Ht) as [-> ->]. apply E. exact Ht.
Qed.

(** ** Malloc *)

(** A block of exactly the right size leaves the list. *)
Lemma heap_unlink base lo s s' f1 f2 A x pv k :
  heap base lo s (f1 ++ x :: f2) A -> base :: f1 = k ++ [pv] ->
  (forall a, ptr s' a = upd (ptr s) pv (ptr s x) a) -> (forall a, size s' a = size s a) -> brk s' = brk s -> freep s' = pv ->
  heap base lo s' (f1 ++ f2) (x :: A).
Proof.
  intros [(B1 & B2 & B3) Hbrk Hs Hl Hfp Hblk Hn Hsep Hu] Hk Eptr Esz Ebrk Efp.
  assert (Hperm : (f1 ++ f2) ++ x :: A ≡ₚ (f1 ++ x :: f2) ++ A).
  { rewrite <- !app_assoc. f_equiv. simpl. by rewrite <- Permutation_middle. }
  assert (Hnd : NoDup (base :: f1 ++ x :: f2)).
  { apply NoDup_app in Hn as (Hn & _). constructor; [|done]. intros Hin. destruct (Hblk base) as [? _]; [els|]. unfold UNIT in *. lia. }
  split.
  - by rewrite Esz.
  - by rewrite Ebrk.
  - apply sorted_app in Hs as (S1 & S2 & S3). apply sorted_app. inversion S2; subst. split; [done|]. split; [done|].
    intros a b Ha Hb. apply S3; els.
  - change (base :: f1 ++ x :: f2) with ((base :: f1) ++ x :: f2) in *. change (base :: f1 ++ f2) with ((base :: f1) ++ f2).
    rewrite Hk, <- app_assoc in Hl, Hnd |- *. simpl in *. apply linked_app in Hl as [Hl1 (Hl2 & Hx & Hl3)].
    apply NoDup_app in Hnd as (_ & Hd1 & [Hd2 _]%NoDup_cons). apply linked_app. split; [|split].
    + eapply linked_ext; [|exact Hl1]. intros a Ha. rewrite Eptr, upd_ne; [done|]. intros ->. apply (Hd1 pv Ha). els.
    + rewrite Eptr, upd_eq. done.
    + eapply linked_ext; [|exact Hl3]. intros a Ha. rewrite Eptr, upd_ne; [done|]. intros ->. els.
  - rewrite Efp. assert (Hin : pv ∈ base :: f1) by (rewrite Hk; els). els.
  - intros a. rewrite Hperm, Esz, Ebrk. apply Hblk.
  - by rewrite Hperm.
  - intros a b. rewrite !Hperm. unfold sep. rewrite !Esz. apply Hsep.
  - rewrite Ebrk, <- Hu. f_equal. rewrite (units_perm _ _ _ Hperm). by apply units_ext.
Qed.

(** The tail of a larger block is cut off. *)
Lemma heap_carve base lo s s' fs A x n :
  heap base lo s fs A -> x ∈ fs -> 0 < n < size s x -> let q := x + (size s x - n) * UNIT in
  (forall a, ptr s' a = ptr s a) -> (forall a, size s' a = upd (upd (size s) x (size s x - n)) q n a) -> brk s' = brk s -> freep s' ∈ base :: fs ->
  heap base lo s' fs (q :: A) /\ q ∉ base :: fs ++ A.
Proof.
  intros [(B1 & B2 & B3) Hbrk Hs Hl Hfp Hblk Hn Hsep Hu] Hx Hsz q Eptr Esz Ebrk Efp.
  destruct (Hblk x) as (X1 & X2 & X3 & X4); [els|]. unfold UNIT in *.
  assert (Hq : q ∉ base :: fs ++ A).
  { intros [E|Hin]%elem_of_cons; [lia|]. destruct (decide (q = x)) as [|Hne]; [lia|].
    destruct (Hblk q Hin) as (_ & _ & ? & _). destruct (Hsep q x) as [?|?]; [done|els|done|unfold UNIT in *; lia..]. }
  assert (Hqx : q <> x) by lia. split; [|done].
  assert (Hother : forall a, a ∈ fs ++ A -> a <> x -> size s' a = size s a).
  { intros a Ha Hne. rewrite Esz, !upd_ne; [done|done|]. intros ->. els. }
  assert (Ex : size s' x = size s x - n) by (rewrite Esz, upd_ne, upd_eq; done). assert (Eq : size s' q = n) by by rewrite Esz, upd_eq.
  assert (Hperm : fs ++ q :: A ≡ₚ q :: fs ++ A) by (symmetry; apply Permutation_middle).
  assert (Hsub : forall a, a ∈ fs ++ A -> size s' a <= size s a /\ 0 < size s' a).
  { intros a Ha. destruct (decide (a = x)) as [-> |]; [rewrite Ex; lia|]. rewrite Hother by done. split; [lia|apply Hblk; els]. }
  split.
  - rewrite Esz, !upd_ne by (lia || els). done.
  - by rewrite Ebrk.
  - done.
  - eapply linked_ext; [|exact Hl]. done.
  - done.
  - intros a. rewrite Hperm. intros [-> | Ha]%elem_of_cons.
    + rewrite Eq, Ebrk. unfold q, UNIT. split; [lia|]. split; [rewrite Z.mod_add by lia; done|lia].
    + destruct (Hblk a Ha) as (? & ? & ? & ?). destruct (Hsub a Ha). rewrite Ebrk. unfold UNIT. split_and!; try done; lia.
  - rewrite Hperm. constructor; [els|done].
  - assert (Hqa : forall a, a ∈ fs ++ A -> sep s' q a).
    { intros a Ha. unfold sep, UNIT. rewrite Eq. destruct (decide (a = x)) as [-> | Hne]; [rewrite Ex; lia|]. rewrite Hother by done.
      destruct (Hsep a x) as [?|?]; [done|els|done|unfold UNIT in *; lia..]. }
    intros a b. rewrite !Hperm. intros [-> | Ha]%elem_of_cons [-> | Hb]%elem_of_cons Hne; [done|by apply Hqa| |].
    + unfold sep. apply or_comm. by apply Hqa.
    + destruct (Hsub a Ha), (Hsub b Hb). destruct (Hsep a b) as [?|?]; [done|done|done|..]; unfold sep, UNIT in *; lia.
  - rewrite Ebrk, <- Hu. f_equal. rewrite (units_perm _ _ _ Hperm). apply list_elem_of_split in Hx as (g1 & g2 & ->).
    assert (Hp2 : (g1 ++ x :: g2) ++ A ≡ₚ x :: (g1 ++ g2) ++ A) by (rewrite <- !app_assoc; simpl; by rewrite <- Permutation_middle).
    rewrite (units_perm s _ _ Hp2). unfold units. cbn [foldr]. fold (units s' ((g1 ++ x :: g2) ++ A)). rewrite (units_perm s' _ _ Hp2). unfold units. cbn [foldr].
    fold (units s' ((g1 ++ g2) ++ A)). fold (units s ((g1 ++ g2) ++ A)). rewrite Hp2 in Hn. apply NoDup_cons in Hn as [Hn _].
    rewrite (units_ext s s'); [lia|]. intros a Ha. apply Hother; [els|]. intros ->. done.
Qed.

(** The heap grows. *)
Lemma heap_grow base lo s s' fs A nu :
  heap base lo s fs A -> 0 < nu -> brk s' = brk s + nu * UNIT -> brk s' <= RAM -> (forall a, ptr s' a = ptr s a) ->
  (forall a, size s' a = upd (size s) (brk s) nu a) -> freep s' = freep s ->
  heap base lo s' fs (brk s :: A) /\ brk s ∉ base :: fs ++ A.
Proof.
  intros [(B1 & B2 & B3) (Hb1 & Hb2) Hs Hl Hfp Hblk Hn Hsep Hu] Hnu Ebrk Hram Eptr Esz Efp. unfold UNIT in *.
  assert (Hnew : brk s ∉ base :: fs ++ A).
  { intros [E|Hin]%elem_of_cons; [lia|]. destruct (Hblk _ Hin) as (_ & _ & ? & ?). lia. }
  assert (Hperm : fs ++ brk s :: A ≡ₚ brk s :: fs ++ A) by (symmetry; apply Permutation_middle).
  assert (Hold : forall a, a ∈ base :: fs ++ A -> size s' a = size s a) by (intros a Ha; rewrite Esz, upd_ne; [done|]; intros ->; done).
  assert (Enew : size s' (brk s) = nu) by by rewrite Esz, upd_eq. split; [split|done].
  - rewrite Hold by els. done.
  - split; [lia|]. rewrite Ebrk, Z.mod_add by (unfold UNIT; lia). done.
  - done.
  - eapply linked_ext; [|exact Hl]. done.
  - by rewrite Efp.
  - intros a. rewrite Hperm. intros [-> | Ha]%elem_of_cons; unfold UNIT; [rewrite Enew; split_and!; lia || done|].
    rewrite Hold by els. destruct (Hblk a Ha) as (? & ? & ? & ?). split_and!; lia || done.
  - rewrite Hperm. constructor; [els|done].
  - assert (Hq : forall a, a ∈ fs ++ A -> sep s' (brk s) a).
    { intros a Ha. right. rewrite Hold by els. apply (Hblk a Ha). }
    intros a b. rewrite !Hperm. intros [-> | Ha]%elem_of_cons [-> | Hb]%elem_of_cons Hne; [done|by apply Hq| |].
    + unfold sep. apply or_comm. by apply Hq.
    + unfold sep. rewrite !Hold by els. by apply Hsep.
  - rewrite (units_perm _ _ _ Hperm). unfold units. cbn [foldr]. fold (units s' (fs ++ A)). rewrite Enew, (units_ext s s'); [unfold UNIT; lia|].
    intros a Ha. apply Hold. els.
Qed.

(** A block [r - UNIT] of [n] units was taken from the free ones. *)
Record got (base lo : Z) (s s' : umst) (fs fs' A : list Z) (n r : Z) : Prop := {
  gt_heap : heap base lo s' fs' (r - UNIT :: A);
  gt_size : size s' (r - UNIT) = n;
  gt_keep : forall a, a ∈ A -> size s' a = size s a;
  gt_coal : coalesced s fs -> coalesced s' fs';
  gt_brk : brk s' = brk s
}.

Lemma malloc_take base lo s fs A fuel0 fuel n prevp x :
  heap base lo s fs A -> 0 < n <= size s x -> x ∈ base :: fs -> prevp ∈ base :: fs -> ptr s prevp = x ->
  exists r s' fs', malloc_loop fuel0 fuel n prevp x s = Ret r s' /\ got base lo s s' fs fs' A n r.
Proof.
  intros Hh Hn Hx Hpv Hptr. pose proof (h_base _ _ _ _ _ Hh) as (Hb0 & Hb1 & Hb2). pose proof (h_brk _ _ _ _ _ Hh) as [Hbk _].
  assert (Hxf : x ∈ fs) by (apply elem_of_cons in Hx as [-> | ?]; [lia|done]). clear Hx.
  destruct (h_block _ _ _ _ _ Hh x) as (X1 & X2 & X3 & X4); [els|].
  assert (Eloop : forall r, malloc_loop fuel0 fuel n prevp x s = r <->
    (if size s x =? n then set_ptr prevp (ptr s x) ;; set_freep prevp ;; ret (x + UNIT)
     else set_size x (size s x - n) ;; s0 <- gets id ;; let q := x + size s0 x * UNIT in set_size q n ;; set_freep prevp ;; ret (q + UNIT)) s = r).
  { intros r. destruct fuel; cbn [malloc_loop]; rewrite bind_gets; cbv beta; unfold id at 1; replace (n <=? size s x) with true by (symmetry; apply Z.leb_le; lia); done. }
  destruct (Z.eqb_spec (size s x) n) as [E|E].
  - apply list_elem_of_split in Hpv as (k & m & Ek). pose proof (h_linked _ _ _ _ _ Hh) as Hl. rewrite Ek in Hl. apply linked_app in Hl as [_ [Hl _]].
    assert (Hm : exists m', m = x :: m'). { rewrite Hptr in Hl. destruct m as [|y m']; simpl in Hl; [unfold UNIT in *; lia|]. subst. by exists m'. }
    destruct Hm as [m' ->]. assert (Hf1 : exists f1, base :: f1 = k ++ [prevp] /\ fs = f1 ++ x :: m').
    { destruct k as [|b0 k]; injection Ek as <- ->; [by exists []|]. exists (k ++ [prevp]). by rewrite <- app_assoc. }
    destruct Hf1 as (f1 & Hk & ->). eexists _, _, (f1 ++ m'). split; [apply Eloop; reflexivity|].
    replace (x + UNIT - UNIT) with x by lia. split; replace (x + UNIT - UNIT) with x by lia; try done.
    + eapply heap_unlink; [exact Hh|exact Hk|..]; done.
    + intros Hc a b Ha Hb'. simpl. apply Hc; els.
  - assert (Hu1 : u32 (size s x - n) = size s x - n) by (apply u32_small; unfold UNIT, RAM in *; lia).
    assert (Hu2 : u32 n = n) by (apply u32_small; unfold UNIT, RAM in *; lia).
    set (q := x + (size s x - n) * UNIT). eexists (q + UNIT), (mkum (ptr s) (upd (upd (size s) x (size s x - n)) q n) prevp (brk s) (grants s)), fs.
    split. { apply Eloop. unfold set_size, set_freep, bind, modify, gets, ret, id. cbn [ptr size freep brk grants]. rewrite upd_eq, Hu1, Hu2. done. }
    set (s' := mkum _ _ _ _ _).
    destruct (heap_carve base lo s s' fs A x n Hh Hxf) as [Hh' Hq]; [lia|done|done|done|simpl; done|].
    fold q in Hh', Hq. split; replace (q + UNIT - UNIT) with q by lia; try done.
    + simpl. by rewrite upd_eq.
    + intros a Ha. simpl. pose proof (h_nodup _ _ _ _ _ Hh) as Hnd. apply NoDup_app in Hnd as (_ & Hnd & _).
      rewrite !upd_ne; [done| |]; intros ->; [by apply (Hnd x)|]. els.
    + intros Hc a b Ha Hb'. simpl. rewrite (upd_ne _ q a) by (intros ->; els). rewrite upd_case. case_decide; [|by apply Hc].
      subst a. fold q. intros E2. rewrite E2 in Hq. els.
Qed.

(** The rounds that find no block large enough. *)
Lemma malloc_scan s fuel0 fuel n prevp x pre post e :
  linked (ptr s) (pre ++ x :: post) e -> (forall q, q ∈ pre -> size s q < n /\ q <> freep s) -> (length pre <= fuel)%nat ->
  malloc_loop fuel0 fuel n prevp (hd x pre) s = malloc_loop fuel0 (fuel - length pre) n (List.last pre prevp) x s.
Proof.
  revert fuel prevp. induction pre as [|q pre IH]; intros fuel prevp Hl Hq Hf; [cbn [hd length List.last]; by rewrite Nat.sub_0_r|].
  destruct fuel as [|fuel]; [simpl in Hf; lia|]. destruct Hl as [Hp Hl]. destruct (Hq q) as [Hsz Hfp]; [left|].
  cbn [hd malloc_loop]. rewrite bind_gets. cbv beta. unfold id. replace (n <=? size s q) with false by (symmetry; apply Z.leb_gt; lia).
  replace (q =? freep s) with false by (symmetry; by apply Z.eqb_neq). rewrite Hp.
  replace (hd e (pre ++ x :: post)) with (hd x pre) by by destruct pre.
  rewrite (IH fuel q Hl) by (simpl in Hf; set_solver || lia). simpl. f_equal. destruct pre; [done|]. simpl. clear. revert z.
  induction pre as [|y pre IH]; intros z; [done|]. apply IH.
Qed.

Lemma first_large s n l :
  (exists pre x post, l = pre ++ x :: post /\ n <= size s x /\ forall q, q ∈ pre -> size s q < n) \/ (forall x, x ∈ l -> size s x < n).
Proof.
  induction l as [|a l IH]; [right; set_solver|]. destruct (decide (n <= size s a)) as [Ha|Ha].
  - left. exists [], a, l. split; [done|]. split; [done|]. set_solver.
  - destruct IH as [(pre & x & post & -> & Hx & Hpre)|Hall].
    + left. exists (a :: pre), x, post. split; [done|]. split; [done|]. intros q [-> | Hq]%elem_of_cons; [lia|by apply Hpre].
    + right. intros x [-> | Hx]%elem_of_cons; [lia|by apply Hall].
Qed.

(** The circle seen from [freep]: what malloc visits, in order. *)
Lemma circle base lo s fs A :
  heap base lo s fs A -> exists c, c ++ [freep s] ≡ₚ base :: fs /\ linked (ptr s) (freep s :: c ++ [freep s]) (ptr s (freep s)) /\
    ptr s (freep s) = hd (freep s) c /\ freep s ∉ c.
Proof.
  intros Hh. pose proof (h_freep _ _ _ _ _ Hh) as Hf. pose proof (h_linked _ _ _ _ _ Hh) as Hl.
  assert (Hnd : NoDup (base :: fs)).
  { pose proof (h_nodup _ _ _ _ _ Hh) as Hn. apply NoDup_app in Hn as (Hn & _). constructor; [|done]. intros Hin.
    destruct (h_block _ _ _ _ _ Hh base) as [? _]; [els|]. pose proof (h_base _ _ _ _ _ Hh). unfold UNIT in *. lia. }
  apply list_elem_of_split in Hf as (l & m & E). rewrite E in Hl.
  destruct (linked_after (ptr s) l (freep s) m base) as [H1 H2]; [by destruct l; injection E|done|].
  exists (m ++ l). assert (Hp : (m ++ l) ++ [freep s] ≡ₚ base :: fs).
  { rewrite E, <- app_assoc, Permutation_app_comm, <- app_assoc. done. }
  split; [done|]. rewrite app_assoc in H1. split; [split; [|exact H1]|split; [done|]].
  - rewrite H2. by destruct (m ++ l).
  - rewrite <- Hp in Hnd. apply NoDup_app in Hnd as (_ & Hnd & _). intros Hin. apply (Hnd _ Hin). els.
Qed.

Lemma last_app_eq {B} (l : list B) d : l <> [] -> exists k, d :: l = k ++ [List.last l d].
Proof.
  intros Hl. destruct (exists_last Hl) as (k & y & ->). exists (d :: k). by rewrite List.last_last.
Qed.

Lemma malloc_found base lo s fs A fuel0 fuel n :
  heap base lo s fs A -> 0 < n -> (exists x, x ∈ fs /\ n <= size s x) -> (length fs <= fuel)%nat ->
  exists r s' fs', malloc_loop fuel0 fuel n (freep s) (ptr s (freep s)) s = Ret r s' /\ got base lo s s' fs fs' A n r.
Proof.
  intros Hh Hn (x0 & Hx0 & Hsz0) Hf. destruct (circle _ _ _ _ _ Hh) as (c & Hp & Hl & Eh & Hnot).
  destruct (first_large s n (c ++ [freep s])) as [(pre & x & post & Ec & Hx & Hpre)|Hall].
  2:{ exfalso. specialize (Hall x0). rewrite Hp in Hall. specialize (Hall ltac:(els)). lia. }
  assert (Hpf : freep s ∉ pre).
  { intros Hin. assert (Hnd : NoDup (c ++ [freep s])).
    { rewrite Hp. pose proof (h_nodup _ _ _ _ _ Hh) as Hnd. apply NoDup_app in Hnd as (Hnd & _). constructor; [|done]. intros Hb.
      destruct (h_block _ _ _ _ _ Hh base) as [? _]; [els|]. pose proof (h_base _ _ _ _ _ Hh). unfold UNIT in *. lia. }
    rewrite Ec in Hnd. apply NoDup_app in Hnd as (_ & Hnd & _). apply (Hnd _ Hin).
    assert (Hlast : last (pre ++ x :: post) = Some (freep s)) by (rewrite <- Ec; apply last_snoc). rewrite last_app_cons in Hlast.
    by apply last_Some_elem_of in Hlast. }
  rewrite Ec in Hl, Hp. assert (Hlen : (length (pre ++ x :: post) = S (length fs))%nat) by by rewrite Hp.
  rewrite length_app in Hlen. simpl in Hlen.
  replace (ptr s (freep s)) with (hd x pre).
  2:{ destruct Hl as [-> _]. by destruct pre. }
  rewrite (malloc_scan s fuel0 fuel n (freep s) x pre post (ptr s (freep s))); [|by destruct Hl|intros q Hq; split; [by apply Hpre|]; intros ->; done|lia].
  assert (Hk : exists k, freep s :: pre = k ++ [List.last pre (freep s)]).
  { destruct pre as [|y pre']; [by exists []|]. by apply last_app_eq. }
  destruct Hk as [k Hk]. eapply malloc_take; [exact Hh|lia| | |].
  - rewrite <- Hp. els.
  - assert (Hin : List.last pre (freep s) ∈ freep s :: pre) by (rewrite Hk; els). apply elem_of_cons in Hin as [-> | Hin]; [apply Hh|]. rewrite <- Hp. els.
  - change (freep s :: pre ++ x :: post) with ((freep s :: pre) ++ x :: post) in Hl. rewrite Hk, <- app_assoc in Hl.
    apply linked_app in Hl as [_ [Hl _]]. exact Hl.
Qed.

Lemma malloc_none base lo s fs A fuel0 fuel n :
  heap base lo s fs A -> 0 < n -> (forall x, x ∈ fs -> size s x < n) -> (length fs <= fuel)%nat ->
  malloc_loop fuel0 (S fuel) n (freep s) (ptr s (freep s)) s =
    (q <- morecore fuel0 n ;; if q =? 0 then ret 0 else s <- gets id ;; malloc_loop fuel0 (fuel - length fs) n q (ptr s q)) s.
Proof.
  intros Hh Hn Hall Hf. destruct (circle _ _ _ _ _ Hh) as (c & Hp & Hl & Eh & Hnot). pose proof (h_base _ _ _ _ _ Hh) as (_ & _ & Hb).
  assert (Hlen : (length (c ++ [freep s]) = S (length fs))%nat) by by rewrite Hp. rewrite length_app in Hlen. simpl in Hlen.
  assert (Hsmall : forall q, q ∈ c ++ [freep s] -> size s q < n).
  { intros q. rewrite Hp. intros [-> | Hq]%elem_of_cons; [lia|by apply Hall]. }
  rewrite Eh. rewrite (malloc_scan s fuel0 (S fuel) n (freep s) (freep s) c [] (ptr s (freep s))); [|by destruct Hl| |lia].
  2:{ intros q Hq. split; [apply Hsmall; els|]. intros ->. done. }
  replace (S fuel - length c)%nat with (S (fuel - length fs)) by lia. cbn [malloc_loop]. rewrite bind_gets. cbv beta. unfold id.
  replace (n <=? size s (freep s)) with false by (symmetry; apply Z.leb_gt; apply Hsmall; els). by rewrite Z.eqb_refl.
Qed.

Lemma heap_grants base lo s fs A g :
  heap base lo s fs A -> heap base lo (mkum (ptr s) (size s) (freep s) (brk s) g) fs A.
Proof. by intros []. Qed.

(** The kernel gives [n] more bytes. *)
Definition granted (s : umst) (n : Z) : bool := hd false (grants s) && (brk s + n <=? RAM).

Lemma sbrk_run n s :
  0 < n -> sbrk n s = if granted s n then Ret (brk s) (mkum (ptr s) (size s) (freep s) (brk s + n) (tl (grants s)))
                      else Ret (-1) (mkum (ptr s) (size s) (freep s) (brk s) (tl (grants s))).
Proof.
  intros Hn. unfold sbrk, granted. rewrite bind_gets. cbv beta. unfold id. replace (0 <? n) with true by (symmetry; apply Z.ltb_lt; lia).
  by destruct (_ && _).
Qed.

Lemma morecore_run base lo s fs A fuel nu :
  heap base lo s fs A -> 0 < nu < 2 ^ 27 -> (length fs < fuel)%nat ->
  let n := Z.max nu 4096 in
  if granted s (n * UNIT) then
    exists s' fs', morecore fuel nu s = Ret (freep s') s' /\ heap base lo s' fs' A /\ (coalesced s fs -> coalesced s' fs') /\
      (forall a, a ∈ A -> size s' a = size s a) /\ (exists x, x ∈ fs' /\ nu <= size s' x) /\ (length fs' <= S (length fs))%nat /\ 0 < freep s'
  else morecore fuel nu s = Ret 0 (mkum (ptr s) (size s) (freep s) (brk s) (tl (grants s))).
Proof.
  intros Hh Hnu Hf n. assert (En : (if nu <? 4096 then 4096 else nu) = n) by (unfold n; zcases; lia). unfold morecore. rewrite En.
  assert (Hn : 4096 <= n < 2 ^ 27) by (unfold n; lia). rewrite (i32_small (n * UNIT)) by (unfold UNIT; lia).
  pose proof (h_brk _ _ _ _ _ Hh) as [Hb _]. pose proof (h_base _ _ _ _ _ Hh) as (Hb0 & Hb1 & _).
  assert (Esb : forall B (k : Z -> M umst B), (p <- sbrk (n * UNIT) ;; k p) s = if granted s (n * UNIT)
    then k (brk s) (mkum (ptr s) (size s) (freep s) (brk s + n * UNIT) (tl (grants s))) else k (-1) (mkum (ptr s) (size s) (freep s) (brk s) (tl (grants s)))).
  { intros B k. unfold bind. rewrite sbrk_run by (unfold UNIT; lia). by destruct (granted s _). }
  rewrite Esb. destruct (granted s (n * UNIT)) eqn:Eg; [|done]. apply andb_prop in Eg as [_ Eg%Z.leb_le].
  replace (brk s =? -1) with false by (symmetry; apply Z.eqb_neq; unfold UNIT in *; lia).
  unfold set_size. rewrite bind_modify. cbn [ptr size freep brk grants]. rewrite (u32_small n) by lia.
  set (s1 := mkum _ _ _ _ _). destruct (heap_grow base lo s s1 fs A n Hh) as [Hh1 Hnew]; try done; [lia|].
  destruct (free_run base lo s1 fs (brk s :: A) A (brk s) fuel Hh1) as (s' & fs' & E & [Hh' Hk Hin Hby Hbk Hlen] & Hc); [done|done|].
  exists s', fs'. unfold bind. rewrite E. split; [done|]. split; [done|]. split_and!.
  - intros Hc0. apply Hc. intros a b Ha Hb'. simpl. rewrite upd_ne by (intros ->; els). by apply Hc0.
  - intros a Ha. rewrite Hk by done. simpl. rewrite upd_ne; [done|]. intros ->. els.
  - destruct Hin as (a & Ha & Ha1 & Ha2). exists a. split; [done|]. simpl in Ha2. rewrite upd_eq in Ha2. unfold UNIT in *. lia.
  - done.
  - pose proof (h_freep _ _ _ _ _ Hh') as Hfp. apply elem_of_cons in Hfp as [-> | Hfp]; [lia|].
    destruct (h_block _ _ _ _ _ Hh' (freep s')) as [? _]; [els|]. unfold UNIT in *. lia.
Qed.

(** The first call initializes the list. *)
Definition started (base lo : Z) (s : umst) (fs A : list Z) : Prop :=
  heap base lo s fs A \/
  (freep s = 0 /\ fs = [] /\ A = [] /\ brk s = lo /\ 0 < base /\ base + UNIT <= lo /\ lo <= RAM /\ lo mod UNIT = 0).

Definition first (base : Z) (s : umst) : umst :=
  if freep s =? 0 then mkum (upd (ptr s) base base) (upd (size s) base 0) base (brk s) (grants s) else s.

Lemma first_run base lo s fs A :
  started base lo s fs A -> heap base lo (first base s) fs A /\ (forall a, a ∈ fs ++ A -> size (first base s) a = size s a) /\
    grants (first base s) = grants s /\ brk (first base s) = brk s.
Proof.
  unfold first. intros [Hh|(Hf & -> & -> & Hb & H0 & H1 & H2 & H3)].
  - pose proof (h_freep _ _ _ _ _ Hh) as Hfp. pose proof (h_base _ _ _ _ _ Hh) as (Hb0 & Hb1 & _).
    replace (freep s =? 0) with false; [done|]. symmetry. apply Z.eqb_neq. apply elem_of_cons in Hfp as [-> | Hfp]; [lia|].
    destruct (h_block _ _ _ _ _ Hh (freep s)) as [? _]; [els|]. unfold UNIT in *. lia.
  - rewrite Hf. simpl. split; [|split; [set_solver|done]]. split; simpl; rewrite ?upd_eq; try done.
    + rewrite Hb. split; [lia|done].
    + constructor.
    + left.
    + set_solver.
    + constructor.
    + set_solver.
    + lia.
Qed.

(** The units that malloc needs for [nbytes] bytes. *)
Definition nunits (nbytes : Z) : Z := (nbytes + UNIT - 1) / UNIT + 1.

(** C25: with any free list, from the first call on, malloc returns after at
    most two rounds of the list.  It returns 0 only when no free block is large
    enough and the kernel has no memory to give, and then changes nothing; else the
    block is aligned, has room for [nbytes] bytes and lies in the heap apart from
    every block in use and every free one; blocks in use keep their place and size,
    free blocks never touch, and free blocks and blocks in use fill the heap. *)
Theorem malloc_correct base lo s fs A fuel nbytes :
  started base lo s fs A -> coalesced s fs -> 0 <= nbytes < 2 ^ 31 - 32 -> (2 * length fs + 3 <= fuel)%nat ->
  exists r s' fs', malloc base fuel nbytes s = Ret r s' /\ coalesced s' fs' /\ (forall a, a ∈ A -> size s' a = size s a) /\
    ((r = 0 /\ fs' = fs /\ heap base lo s' fs A /\ (forall a, a ∈ fs -> size s a < nunits nbytes) /\
        granted s (Z.max (nunits nbytes) 4096 * UNIT) = false) \/
     (0 < r /\ r mod UNIT = 0 /\ nbytes <= (size s' (r - UNIT) - 1) * UNIT /\ heap base lo s' fs' (r - UNIT :: A))).
Proof.
  intros Hst Hco Hnb Hf. destruct (first_run _ _ _ _ _ Hst) as (Hh & Hsz & Eg & Eb). set (s0 := first base s) in *.
  assert (Hn : 0 < nunits nbytes < 2 ^ 27 /\ nbytes <= (nunits nbytes - 1) * UNIT) by (unfold nunits, UNIT; dlia). destruct Hn as [Hn Hroom].
  assert (Hco0 : coalesced s0 fs). { intros a b Ha Hb. rewrite Hsz by els. by apply Hco. }
  assert (E : malloc base fuel nbytes s = malloc_loop fuel fuel (nunits nbytes) (freep s0) (ptr s0 (freep s0)) s0).
  { unfold malloc, s0, first. fold (nunits nbytes). rewrite (u32_small (nunits nbytes)) by lia. rewrite bind_gets. cbv beta. unfold id.
    by destruct (freep s =? 0). }
  assert (Hdone : forall s1 fs1 s' fs' r, heap base lo s1 fs1 A -> coalesced s1 fs1 -> (forall a, a ∈ A -> size s1 a = size s a) ->
    got base lo s1 s' fs1 fs' A (nunits nbytes) r -> coalesced s' fs' /\ (forall a, a ∈ A -> size s' a = size s a) /\
      0 < r /\ r mod UNIT = 0 /\ nbytes <= (size s' (r - UNIT) - 1) * UNIT /\ heap base lo s' fs' (r - UNIT :: A)).
  { intros s1 fs1 s' fs' r Hh1 Hc1 Hk1 [G1 G2 G3 G4 G5]. destruct (h_block _ _ _ _ _ G1 (r - UNIT)) as (R1 & R2 & _ & _); [els|].
    pose proof (h_base _ _ _ _ _ G1). split_and!; [by apply G4|intros a Ha; rewrite G3 by done; by apply Hk1| | |by rewrite G2|done]; unfold UNIT in *; [lia|dlia]. }
  rewrite E. destruct (first_large s0 (nunits nbytes) fs) as [(pre & x & post & Ef & Hx & _)|Hall].
  - destruct (malloc_found base lo s0 fs A fuel fuel (nunits nbytes) Hh) as (r & s' & fs' & -> & Hg); [lia|exists x; split; [rewrite Ef; els|done]|lia|].
    exists r, s', fs'. split; [done|]. destruct (Hdone s0 fs s' fs' r Hh Hco0) as (? & ? & ?); [intros a Ha; apply Hsz; els|done|tauto].
  - destruct fuel as [|fuel]; [lia|]. rewrite (malloc_none base lo s0 fs A) by (done || lia). unfold bind at 1.
    pose proof (morecore_run base lo s0 fs A (S fuel) (nunits nbytes) Hh Hn ltac:(lia)) as Hm. cbv zeta in Hm.
    assert (Egr : granted s0 (Z.max (nunits nbytes) 4096 * UNIT) = granted s (Z.max (nunits nbytes) 4096 * UNIT)) by (unfold granted; by rewrite Eg, Eb).
    rewrite Egr in Hm. destruct (granted s _) eqn:Hgr.
    + destruct Hm as (s1 & fs1 & -> & Hh1 & Hc1 & Hk1 & Hbig & Hlen & Hfp). replace (freep s1 =? 0) with false by (symmetry; apply Z.eqb_neq; lia).
      rewrite bind_gets. cbv beta. unfold id.
      destruct (malloc_found base lo s1 fs1 A (S fuel) (fuel - length fs) (nunits nbytes) Hh1) as (r & s' & fs' & -> & Hg); [lia|done|lia|].
      exists r, s', fs'. split; [done|]. destruct (Hdone s1 fs1 s' fs' r Hh1) as (? & ? & ?); [by apply Hc1| |done|tauto].
      intros a Ha. rewrite Hk1 by done. apply Hsz. els.
    + rewrite Hm. eexists 0, _, fs. split; [done|]. split; [done|]. split; [intros a Ha; apply Hsz; els|]. left. split_and!; try done; [by apply heap_grants|].
      intros a Ha. rewrite <- (Hsz a) by els. by apply Hall.
Qed.

(** C26: freeing a block in use, wherever the list is being looked at, adds its
    bytes to the free ones and nothing else; it is joined with the free blocks before
    and after it, so that free blocks never touch; the blocks still in use keep their
    place and size, and the search for its place goes around the list at most once. *)
Theorem free_correct base lo s fs A A' bp fuel :
  heap base lo s fs A -> coalesced s fs -> A ≡ₚ bp :: A' -> (length fs < fuel)%nat ->
  exists s' fs', free fuel (bp + UNIT) s = Ret tt s' /\ heap base lo s' fs' A' /\ coalesced s' fs' /\
    (forall a, a ∈ A' -> size s' a = size s a) /\
    (forall x, inside s' fs' x <-> inside s fs x \/ bp <= x < bp + size s bp * UNIT).
Proof.
  intros Hh Hc HA Hf. destruct (free_run base lo s fs A A' bp fuel Hh HA Hf) as (s' & fs' & E & [H1 H2 _ H4 _ _] & H5).
  exists s', fs'. split_and!; try done. by apply H5.
Qed.

(** ** Concrete runs *)

(** A process that has not called malloc yet. *)
Definition um_fresh : umst := mkum (fun _ => 0) (fun _ => 0) 0 4096 [true].

Lemma malloc_correct_witness :
  started 1000 4096 um_fresh [] [] /\
  exists r s' fs', malloc 1000 3 100 um_fresh = Ret r s' /\ coalesced s' fs' /\
    0 < r /\ r mod UNIT = 0 /\ 100 <= (size s' (r - UNIT) - 1) * UNIT /\ heap 1000 4096 s' fs' [r - UNIT].
Proof.
  assert (Hst : started 1000 4096 um_fresh [] []) by (right; unfold RAM, UNIT; simpl; split_and!; done || lia). split; [exact Hst|].
  destruct (malloc_correct 1000 4096 um_fresh [] [] 3 100 Hst) as (r & s' & fs' & E & Hc & _ & [(_ & _ & _ & _ & Hg)|Hr]);
    [intros a b Ha; set_solver|lia|simpl; lia|done|].
  exists r, s', fs'. split; [exact E|]. split; [exact Hc|exact Hr].
Defined.

(** A free block of 10 units, followed by one in use of 5 units. *)
Definition um_two : umst :=
  mkum (fun a => if a =? 1000 then 4096 else 1000) (fun a => if a =? 4096 then 10 else if a =? 4256 then 5 else 0) 1000 4336 [].

Lemma um_two_heap : heap 1000 4096 um_two [4096] [4256].
Proof.
  unfold UNIT, RAM. split; simpl; try (split_and!; done || lia).
  - repeat constructor.
  - set_solver.
  - intros a [-> | [-> | []%elem_of_nil]%elem_of_cons]%elem_of_cons; unfold UNIT; split_and!; done || lia.
  - repeat constructor; set_solver.
  - intros a b [-> | [-> | []%elem_of_nil]%elem_of_cons]%elem_of_cons [-> | [-> | []%elem_of_nil]%elem_of_cons]%elem_of_cons Hne; try done;
      unfold sep, UNIT; simpl; lia.
  - unfold UNIT. lia.
Qed.

Lemma free_correct_witness :
  exists s' fs', free 2 (4256 + UNIT) um_two = Ret tt s' /\ heap 1000 4096 s' fs' [] /\ coalesced s' fs' /\ size s' 4096 = 15.
Proof.
  destruct (free_correct 1000 4096 um_two [4096] [4256] [] 4256 2 um_two_heap) as (s' & fs' & E & Hh & Hc & _); [|done|simpl; lia|].
  - intros a b ->%list_elem_of_singleton ->%list_elem_of_singleton. done.
  - exists s', fs'. split; [exact E|]. split; [exact Hh|]. split; [exact Hc|]. vm_compute in E. by injection E as <-.
Defined.

(** A request of 2^31 - 16 bytes makes morecore ask sbrk for a negative number of
    bytes; the process does not grow, and malloc returns a block past its end. *)
Lemma malloc_negative_sbrk :
  match malloc 1000 3 (2 ^ 31 - 16) um_fresh with Ret r s' => r = 4112 /\ brk s' = 4096 /\ size s' 4096 = 2 ^ 27 | _ => False end.
Proof. vm_compute. done. Qed.
