(* ===== verification/File.v ===== *)
(** kernel/file.c, and the system calls of kernel/sysfile.c and the parts of fork
    and exit of kernel/proc.c that deal with open files.

    Each process runs a handler, a [prog]: a tree of atomic actions.  An action is
    what the code does under ftable.lock or a lock below it, or on the fields of its
    own process; actions of different processes interleave.  What the inode layer
    and the copies to user memory answer is an input of the action.  The tables of
    descriptors live in the slots of the process table and survive a process; the
    begin_op and end_op around iput, and the locks of inodes, are not part of this
    machine. *)

From stdpp Require Import gmap.
From S2P Require Import Prelude Riscv.
Open Scope Z_scope.

Inductive ftype : Type := FD_NONE | FD_PIPE | FD_INODE | FD_DEVICE.
#[export] Instance ftype_eq_dec : EqDecision ftype.
Proof. solve_decision. Defined.

Record file : Type := mkfile {
  f_type : ftype; f_ref : Z; f_readable : bool; f_writable : bool; f_pipe : Z; f_ip : Z; f_off : Z; f_major : Z
}.

Definition set_ref (v : Z) (f : file) : file :=
  mkfile (f_type f) v (f_readable f) (f_writable f) (f_pipe f) (f_ip f) (f_off f) (f_major f).
Definition set_none (f : file) : file :=
  mkfile FD_NONE 0 (f_readable f) (f_writable f) (f_pipe f) (f_ip f) (f_off f) (f_major f).
Definition set_off (v : Z) (f : file) : file :=
  mkfile (f_type f) (f_ref f) (f_readable f) (f_writable f) (f_pipe f) (f_ip f) v (f_major f).

(** What namei or create found: the inode, whether it is a device, a directory or
    a file, and its device number. *)
Inductive itype : Type := T_DIR | T_FILE | T_DEVICE.
#[export] Instance itype_eq_dec : EqDecision itype.
Proof. solve_decision. Defined.
Record found : Type := mkfound { fo_ip : Z; fo_type : itype; fo_major : Z }.

(** ** Programs *)

Inductive act : Type -> Type :=
| Filealloc : act (option Z)
| Filedup (f : Z) : act unit
| Drop (f : Z) : act (option file)
| GetFile (f : Z) : act file
| PutFile (f : Z) (g : file -> file) : act unit
| Advance (f r : Z) : act unit
| Pipenew : act (option Z)
| Pipeclose (pi : Z) (writable : bool) : act unit
| Lookup : act (option found)
| Idup (ip : Z) : act unit
| Iput (ip : Z) : act unit
| Answer : act Z
| GetFd (fd : Z) : act (option Z)
| SetFd (fd : Z) (f : option Z) : act unit
| GetCwd : act (option Z)
| SetCwd (ip : option Z) : act unit
| Allocproc : act (option Z)
| Freeproc (np : Z) : act unit
| SetChild (np fd : Z) (f : option Z) : act unit
| SetChildCwd (np : Z) (ip : option Z) : act unit
| Runnable (np : Z) : act unit.

Inductive prog (A : Type) : Type :=
| Done (a : A)
| Oops (msg : string)
| Act (R : Type) (a : act R) (k : R -> prog A).
Arguments Done {A} a.
Arguments Oops {A} msg.
Arguments Act {A R} a k.

Fixpoint pbind {A B} (p : prog A) (k : A -> prog B) : prog B :=
  match p with
  | Done a => k a
  | Oops msg => Oops msg
  | Act a k' => Act a (fun r => pbind (k' r) k)
  end.

Declare Scope prog_scope.
Delimit Scope prog_scope with prog.
Notation "x <~ a ; k" := (Act a (fun x => k)) (at level 100, a at next level, right associativity) : prog_scope.
Notation "a ;~ k" := (Act a (fun _ => k)) (at level 100, right associativity) : prog_scope.
Notation "x <- p ; k" := (pbind p (fun x => k)) (at level 100, p at next level, right associativity) : prog_scope.
Local Open Scope prog_scope.

(** ** file.c *)

Definition fileclose (f : Z) : prog unit :=
  r <~ Drop f ;
  match r with
  | None => Done tt
  | Some ff =>
      match f_type ff with
      | FD_PIPE => Pipeclose (f_pipe ff) (f_writable ff) ;~ Done tt
      | FD_INODE | FD_DEVICE => Iput (f_ip ff) ;~ Done tt
      | FD_NONE => Done tt
      end
  end.

Definition filestat (f : Z) : prog Z :=
  ff <~ GetFile f ;
  match f_type ff with
  | FD_INODE | FD_DEVICE => r <~ Answer ; Done (if r <? 0 then -1 else 0)
  | _ => Done (-1)
  end.

(** [devsw] says which devices can be read and written. *)
Definition fileread (devsw : Z -> bool) (f n : Z) : prog Z :=
  ff <~ GetFile f ;
  if negb (f_readable ff) then Done (-1) else
  match f_type ff with
  | FD_PIPE => r <~ Answer ; Done r
  | FD_DEVICE =>
      if (f_major ff <? 0) || (NDEV <=? f_major ff) || negb (devsw (f_major ff)) then Done (-1) else r <~ Answer ; Done r
  | FD_INODE => r <~ Answer ; if 0 <? r then Advance f r ;~ Done r else Done r
  | FD_NONE => Oops "fileread"
  end.

Definition MAXWRITE : Z := Eval cbv in ((MAXOPBLOCKS - 1 - 1 - 2) / 2) * 1024.

Fixpoint filewrite_loop (fuel : nat) (f n i : Z) : prog Z :=
  if negb (i <? n) then Done (if i =? n then n else -1) else
  match fuel with
  | O => Oops "filewrite: out of fuel"
  | S fuel' =>
      let n1 := if MAXWRITE <? n - i then MAXWRITE else n - i in
      r <~ Answer ;
      let next := if negb (r =? n1) then Done (if i =? n then n else -1) else filewrite_loop fuel' f n (i + r) in
      if 0 <? r then Advance f r ;~ next else next
  end.

Definition filewrite (devsw : Z -> bool) (f n : Z) : prog Z :=
  ff <~ GetFile f ;
  if negb (f_writable ff) then Done (-1) else
  match f_type ff with
  | FD_PIPE => r <~ Answer ; Done r
  | FD_DEVICE =>
      if (f_major ff <? 0) || (NDEV <=? f_major ff) || negb (devsw (f_major ff)) then Done (-1) else r <~ Answer ; Done r
  | FD_INODE => filewrite_loop (Z.to_nat n) f n 0
  | FD_NONE => Oops "filewrite"
  end.

(** ** pipe.c *)

Definition pipe_end (pi : Z) (writable : bool) (g : file) : file :=
  mkfile FD_PIPE (f_ref g) (negb writable) writable pi (f_ip g) (f_off g) (f_major g).

Definition pipealloc : prog (option (Z * Z)) :=
  f0 <~ Filealloc ;
  match f0 with
  | None => Done None
  | Some f0 =>
      f1 <~ Filealloc ;
      match f1 with
      | None => _ <- fileclose f0 ; Done None
      | Some f1 =>
          pi <~ Pipenew ;
          match pi with
          | None => _ <- fileclose f0 ; _ <- fileclose f1 ; Done None
          | Some pi => PutFile f0 (pipe_end pi false) ;~ PutFile f1 (pipe_end pi true) ;~ Done (Some (f0, f1))
          end
      end
  end.

(** ** sysfile.c *)

Definition argfd (fd : Z) : prog (option Z) :=
  if (fd <? 0) || (NOFILE <=? fd) then Done None else f <~ GetFd fd ; Done f.

Fixpoint fdalloc_loop (n : nat) (fd f : Z) : prog Z :=
  match n with
  | O => Done (-1)
  | S n' => g <~ GetFd fd ; match g with None => SetFd fd (Some f) ;~ Done fd | Some _ => fdalloc_loop n' (fd + 1) f end
  end.
Definition fdalloc (f : Z) : prog Z := fdalloc_loop (Z.to_nat NOFILE) 0 f.

Definition sys_dup (fd : Z) : prog Z :=
  f <- argfd fd ;
  match f with
  | None => Done (-1)
  | Some f => fd <- fdalloc f ; if fd <? 0 then Done (-1) else Filedup f ;~ Done fd
  end.

Definition sys_read (devsw : Z -> bool) (fd n : Z) : prog Z :=
  f <- argfd fd ; match f with None => Done (-1) | Some f => fileread devsw f n end.
Definition sys_write (devsw : Z -> bool) (fd n : Z) : prog Z :=
  f <- argfd fd ; match f with None => Done (-1) | Some f => filewrite devsw f n end.
Definition sys_fstat (fd : Z) : prog Z :=
  f <- argfd fd ; match f with None => Done (-1) | Some f => filestat f end.

Definition sys_close (fd : Z) : prog Z :=
  f <- argfd fd ;
  match f with
  | None => Done (-1)
  | Some f => SetFd fd None ;~ _ <- fileclose f ; Done 0
  end.

Definition O_WRONLY : Z := 1.
Definition O_RDWR : Z := 2.
Definition O_CREATE : Z := 512.
Definition flag (omode m : Z) : bool := negb (Z.land omode m =? 0).

Definition opened (ip : found) (omode : Z) (g : file) : file :=
  mkfile (if decide (fo_type ip = T_DEVICE) then FD_DEVICE else FD_INODE) (f_ref g) (negb (flag omode O_WRONLY))
    (flag omode O_WRONLY || flag omode O_RDWR) (f_pipe g) (fo_ip ip)
    (if decide (fo_type ip = T_DEVICE) then f_off g else 0)
    (if decide (fo_type ip = T_DEVICE) then fo_major ip else f_major g).

Definition sys_open (omode : Z) : prog Z :=
  ip <~ Lookup ;
  match ip with
  | None => Done (-1)
  | Some ip =>
      if negb (flag omode O_CREATE) && bool_decide (fo_type ip = T_DIR) && negb (omode =? 0) then Iput (fo_ip ip) ;~ Done (-1) else
      if bool_decide (fo_type ip = T_DEVICE) && ((fo_major ip <? 0) || (NDEV <=? fo_major ip)) then Iput (fo_ip ip) ;~ Done (-1) else
      f <~ Filealloc ;
      match f with
      | None => Iput (fo_ip ip) ;~ Done (-1)
      | Some f =>
          fd <- fdalloc f ;
          if fd <? 0 then _ <- fileclose f ; Iput (fo_ip ip) ;~ Done (-1)
          else PutFile f (opened ip omode) ;~ Done fd
      end
  end.

Definition sys_chdir : prog Z :=
  ip <~ Lookup ;
  match ip with
  | None => Done (-1)
  | Some ip =>
      if negb (bool_decide (fo_type ip = T_DIR)) then Iput (fo_ip ip) ;~ Done (-1) else
      c <~ GetCwd ;
      match c with
      | None => Oops "sys_chdir: no current directory"
      | Some c => Iput c ;~ SetCwd (Some (fo_ip ip)) ;~ Done 0
      end
  end.

Definition sys_pipe : prog Z :=
  r <- pipealloc ;
  match r with
  | None => Done (-1)
  | Some (rf, wf) =>
      fd0 <- fdalloc rf ;
      if fd0 <? 0 then _ <- fileclose rf ; _ <- fileclose wf ; Done (-1) else
      fd1 <- fdalloc wf ;
      if fd1 <? 0 then SetFd fd0 None ;~ _ <- fileclose rf ; _ <- fileclose wf ; Done (-1) else
      ok <~ Answer ;
      if ok <? 0 then SetFd fd0 None ;~ SetFd fd1 None ;~ _ <- fileclose rf ; _ <- fileclose wf ; Done (-1)
      else Done 0
  end.

(** ** proc.c *)

Fixpoint fork_files (n : nat) (np i : Z) : prog unit :=
  match n with
  | O => Done tt
  | S n' =>
      f <~ GetFd i ;
      match f with
      | Some f => Filedup f ;~ SetChild np i (Some f) ;~ fork_files n' np (i + 1)
      | None => fork_files n' np (i + 1)
      end
  end.

(** [pid] is that of the child. *)
Definition fork (pid : Z) : prog Z :=
  np <~ Allocproc ;
  match np with
  | None => Done (-1)
  | Some np =>
      copied <~ Answer ;
      if copied <? 0 then Freeproc np ;~ Done (-1) else
      _ <- fork_files (Z.to_nat NOFILE) np 0 ;
      c <~ GetCwd ;
      match c with
      | None => Oops "fork: no current directory"
      | Some c => Idup c ;~ SetChildCwd np (Some c) ;~ Runnable np ;~ Done pid
      end
  end.

Fixpoint exit_files (n : nat) (fd : Z) : prog unit :=
  match n with
  | O => Done tt
  | S n' =>
      f <~ GetFd fd ;
      match f with
      | Some f => _ <- fileclose f ; SetFd fd None ;~ exit_files n' (fd + 1)
      | None => exit_files n' (fd + 1)
      end
  end.

Definition exit : prog Z :=
  _ <- exit_files (Z.to_nat NOFILE) 0 ;
  c <~ GetCwd ;
  match c with
  | None => Oops "exit: no current directory"
  | Some c => Iput c ;~ SetCwd None ;~ Done 0
  end.

(** ** The machine *)

Inductive pstat : Type := Idle | Run (exiting : bool) (q : prog Z) | Embryo (parent : Z).

(** [pipes] holds readopen and writeopen of the pipes in use, [irefs] the counts of
    the inodes; [ofile] and [cwds] belong to the slots of the process table. *)
Record fsys : Type := mkfsys {
  ftab : Z -> file; pipes : Z -> option (bool * bool); irefs : Z -> Z;
  ofile : Z -> Z -> option Z; cwds : Z -> option Z; procs : gmap Z pstat
}.

Definition set_ftab (v : Z -> file) (s : fsys) : fsys := mkfsys v (pipes s) (irefs s) (ofile s) (cwds s) (procs s).
Definition set_pipes (v : Z -> option (bool * bool)) (s : fsys) : fsys := mkfsys (ftab s) v (irefs s) (ofile s) (cwds s) (procs s).
Definition set_irefs (v : Z -> Z) (s : fsys) : fsys := mkfsys (ftab s) (pipes s) v (ofile s) (cwds s) (procs s).
Definition set_ofile (p fd : Z) (v : option Z) (s : fsys) : fsys :=
  mkfsys (ftab s) (pipes s) (irefs s) (upd (ofile s) p (upd (ofile s p) fd v)) (cwds s) (procs s).
Definition set_cwds (p : Z) (v : option Z) (s : fsys) : fsys :=
  mkfsys (ftab s) (pipes s) (irefs s) (ofile s) (upd (cwds s) p v) (procs s).
Definition set_procs (v : gmap Z pstat) (s : fsys) : fsys := mkfsys (ftab s) (pipes s) (irefs s) (ofile s) (cwds s) v.

(** What the other parts of the kernel answer. *)
Record input : Type := mkinput { in_z : Z; in_opt : option Z; in_found : option found }.

Fixpoint filealloc_loop (n : nat) (f : Z) : M fsys (option Z) :=
  match n with
  | O => ret None
  | S n' =>
      (s <- gets id ;;
       if f_ref (ftab s f) =? 0 then modify (set_ftab (upd (ftab s) f (set_ref 1 (ftab s f)))) ;; ret (Some f)
       else filealloc_loop n' (f + 1))%xv6
  end.

Definition filedup (f : Z) : M fsys unit :=
  (s <- gets id ;;
   if f_ref (ftab s f) <? 1 then panic "filedup" else
   modify (set_ftab (upd (ftab s) f (set_ref (f_ref (ftab s f) + 1) (ftab s f)))))%xv6.

(** The part of fileclose under ftable.lock: the last close returns a copy. *)
Definition drop_ref (f : Z) : M fsys (option file) :=
  (s <- gets id ;;
   if f_ref (ftab s f) <? 1 then panic "fileclose" else
   if 0 <? f_ref (ftab s f) - 1 then modify (set_ftab (upd (ftab s) f (set_ref (f_ref (ftab s f) - 1) (ftab s f)))) ;; ret None
   else modify (set_ftab (upd (ftab s) f (set_none (ftab s f)))) ;; ret (Some (set_ref 0 (ftab s f))))%xv6.

(** pipeclose frees the pipe when both ends are closed. *)
Definition pipe_shut (pi : Z) (writable : bool) : M fsys unit :=
  (s <- gets id ;;
   match pipes s pi with
   | None => stuck "pipeclose: the pipe is gone"
   | Some (r, w) =>
       let '(r, w) := if writable then (r, false) else (false, w) in
       modify (set_pipes (upd (pipes s) pi (if negb r && negb w then None else Some (r, w))))
   end)%xv6.

Definition iput_ref (ip : Z) : M fsys unit :=
  (s <- gets id ;;
   if irefs s ip <? 1 then stuck "iput: no reference" else modify (set_irefs (upd (irefs s) ip (irefs s ip - 1))))%xv6.
Definition iget_ref (ip : Z) : M fsys unit := (s <- gets id ;; modify (set_irefs (upd (irefs s) ip (irefs s ip + 1))))%xv6.

Definition exec {R} (a : act R) (p : Z) (i : input) : M fsys R :=
  match a in act R return M fsys R with
  | Filealloc => filealloc_loop (Z.to_nat NFILE) 0
  | Filedup f => filedup f
  | Drop f => drop_ref f
  | GetFile f => gets (fun s => ftab s f)
  | PutFile f g => modify (fun s => set_ftab (upd (ftab s) f (g (ftab s f))) s)
  | Advance f r => modify (fun s => set_ftab (upd (ftab s) f (set_off (u32 (f_off (ftab s f) + r)) (ftab s f))) s)
  | Pipenew =>
      match in_opt i with
      | None => ret None
      | Some pi => (modify (fun s => set_pipes (upd (pipes s) pi (Some (true, true))) s) ;; ret (Some pi))%xv6
      end
  | Pipeclose pi w => pipe_shut pi w
  | Lookup =>
      match in_found i with None => ret None | Some x => (iget_ref (fo_ip x) ;; ret (Some x))%xv6 end
  | Idup ip => iget_ref ip
  | Iput ip => iput_ref ip
  | Answer => ret (in_z i)
  | GetFd fd => gets (fun s => ofile s p fd)
  | SetFd fd f => modify (set_ofile p fd f)
  | GetCwd => gets (fun s => cwds s p)
  | SetCwd ip => modify (set_cwds p ip)
  | Allocproc =>
      match in_opt i with
      | None => ret None
      | Some np => (modify (fun s => set_procs (<[np := Embryo p]> (procs s)) s) ;; ret (Some np))%xv6
      end
  | Freeproc np => modify (fun s => set_procs (delete np (procs s)) s)
  | SetChild np fd f => modify (set_ofile np fd f)
  | SetChildCwd np ip => modify (set_cwds np ip)
  | Runnable np => modify (fun s => set_procs (<[np := Idle]> (procs s)) s)
  end.

(** kalloc and allocproc hand out what is not in use. *)
Definition valid {R} (a : act R) (i : input) (s : fsys) : Prop :=
  match a with
  | Pipenew => forall pi, in_opt i = Some pi -> pipes s pi = None
  | Allocproc => forall np, in_opt i = Some np -> procs s !! np = None
  | _ => True
  end.

Inductive handler : Type :=
| HDup (fd : Z) | HRead (fd n : Z) | HWrite (fd n : Z) | HFstat (fd : Z) | HClose (fd : Z) | HOpen (omode : Z)
| HChdir | HPipe | HFork (pid : Z) | HExit.

Definition body (devsw : Z -> bool) (h : handler) : prog Z :=
  match h with
  | HDup fd => sys_dup fd | HRead fd n => sys_read devsw fd n | HWrite fd n => sys_write devsw fd n
  | HFstat fd => sys_fstat fd | HClose fd => sys_close fd | HOpen omode => sys_open omode
  | HChdir => sys_chdir | HPipe => sys_pipe | HFork pid => fork pid | HExit => exit
  end.
Definition is_exit (h : handler) : bool := match h with HExit => true | _ => false end.

(** The first process, initproc, does not exit: exit would panic. *)
Inductive step (devsw : Z -> bool) : fsys -> fsys -> Prop :=
| st_call s p h :
    procs s !! p = Some Idle -> (is_exit h = true -> p <> 0) -> step devsw s (set_procs (<[p := Run (is_exit h) (body devsw h)]> (procs s)) s)
| st_act s p e R (a : act R) k i r s' :
    procs s !! p = Some (Run e (Act a k)) -> valid a i s -> exec a p i s = Ret r s' ->
    step devsw s (set_procs (<[p := Run e (k r)]> (procs s')) s')
| st_return s p v :
    procs s !! p = Some (Run false (Done v)) -> step devsw s (set_procs (<[p := Idle]> (procs s)) s)
| st_exited s p v :
    procs s !! p = Some (Run true (Done v)) -> step devsw s (set_procs (delete p (procs s)) s).

(** The first process, in the root directory, with no open file. *)
Definition boot (files : Z -> file) (root : Z) : fsys :=
  mkfsys (fun f => set_none (files f)) (fun _ => None) (upd (fun _ => 0) root 1) (fun _ _ => None) (upd (fun _ => None) 0 (Some root))
         {[0 := Idle]}.
