(* ===== verification/FileInv.v ===== *)
(** Ownership of references: a logic for the handlers of File.v.

    A reference to a file, to an end of a pipe or to an inode is a resource.  [wp]
    says that a handler run by a process that owns the resources [o] passes every
    check and ends with the resources its postcondition says, whatever the other
    processes do; [glob] relates the counts in memory to the resources of all
    processes. *)

From stdpp Require Import gmap.
From S2P Require Import Prelude Riscv File.
Open Scope Z_scope.

(** ** Resources *)

(** [RFresh f]: [f] was allocated and is not yet set up. *)
Inductive res : Type := RFile (f : Z) | RFresh (f : Z) | REnd (pi : Z) (w : bool) | RIno (ip : Z).
#[export] Instance res_eq_dec : EqDecision res.
Proof. solve_decision. Defined.

Definition cnt (r : res) (l : list res) : Z := Z.of_nat (length (filter (fun x => x = r) l)).

Lemma cnt_nil r : cnt r [] = 0.
Proof. done. Qed.
Lemma cnt_app r l1 l2 : cnt r (l1 ++ l2) = cnt r l1 + cnt r l2.
Proof. unfold cnt. rewrite filter_app, length_app. lia. Qed.
Lemma cnt_cons r x l : cnt r (x :: l) = (if decide (x = r) then 1 else 0) + cnt r l.
Proof. unfold cnt. rewrite filter_cons. destruct (decide (x = r)); simpl; lia. Qed.
Lemma cnt_perm r l1 l2 : l1 ≡ₚ l2 -> cnt r l1 = cnt r l2.
Proof. intros H. unfold cnt. by rewrite H. Qed.
Lemma cnt_pos r l : 0 <= cnt r l.
Proof. unfold cnt. lia. Qed.
Lemma cnt_in r l : r ∈ l <-> 0 < cnt r l.
Proof.
  induction l as [|x l IH]; [rewrite cnt_nil, elem_of_nil; lia|]. rewrite elem_of_cons, IH, cnt_cons. pose proof (cnt_pos r l).
  destruct (decide (x = r)); [split; [lia|auto]|]. split; [intros [?|?]; [congruence|lia]|intros; right; lia].
Qed.
Lemma cnt_not_in r l : r ∉ l -> cnt r l = 0.
Proof. rewrite cnt_in. pose proof (cnt_pos r l). lia. Qed.
#[export] Instance cnt_proper r : Proper ((≡ₚ) ==> eq) (cnt r).
Proof. intros l1 l2. apply cnt_perm. Qed.

(** What an entry of the table of files owns; the entries that a descriptor may
    refer to. *)
Definition entry (f : file) : list res :=
  match f_type f with
  | FD_NONE => []
  | FD_PIPE => [REnd (f_pipe f) (f_writable f)]
  | FD_INODE | FD_DEVICE => [RIno (f_ip f)]
  end.

Definition typed (f : file) : Prop :=
  f_type f <> FD_NONE /\ (f_type f = FD_PIPE -> f_readable f = negb (f_writable f)) /\
  (f_type f = FD_DEVICE -> 0 <= f_major f < NDEV).

Definition table (ft : Z -> file) : list res := concat ((fun f => entry (ft f)) <$> seqZ 0 NFILE).

Lemma table_upd ft f :
  0 <= f < NFILE -> exists rest, table ft ≡ₚ entry (ft f) ++ rest /\ forall g, table (upd ft f g) ≡ₚ entry g ++ rest.
Proof.
  intros Hf. unfold table. assert (Hin : f ∈ seqZ 0 NFILE) by (apply elem_of_seqZ; lia).
  assert (Hnd : NoDup (seqZ 0 NFILE)) by apply NoDup_seqZ. apply list_elem_of_split in Hin as (l1 & l2 & E). rewrite E in Hnd |- *.
  apply NoDup_app in Hnd as (_ & H1 & [H2 _]%NoDup_cons).
  exists (concat ((fun f => entry (ft f)) <$> (l1 ++ l2))).
  assert (Hp : forall h : Z -> list res, concat (h <$> l1 ++ f :: l2) ≡ₚ h f ++ concat (h <$> l1 ++ l2)).
  { intros h. rewrite !fmap_app, fmap_cons, !concat_app. simpl. rewrite Permutation_app_swap_app. done. }
  split; [apply (Hp (fun f => entry (ft f)))|]. intros g. rewrite (Hp (fun x => entry (upd ft f g x))), upd_eq. f_equiv.
  assert (E2 : (fun x => entry (upd ft f g x)) <$> l1 ++ l2 = (fun f => entry (ft f)) <$> l1 ++ l2); [|by rewrite E2].
  apply list_fmap_ext. intros i x Hx. rewrite upd_ne; [done|].
  intros ->. apply list_elem_of_lookup_2 in Hx. apply elem_of_app in Hx as [Hx|Hx]; [apply (H1 _ Hx); left|done].
Qed.

(** No entry owns a reference to a file. *)
Lemma table_file ft r : r ∈ table ft -> (forall f, r <> RFile f) /\ (forall f, r <> RFresh f).
Proof.
  unfold table. intros (l & (f & -> & _)%list_elem_of_In%list_elem_of_fmap & Hr%list_elem_of_In)%list_elem_of_In%in_concat.
  unfold entry in Hr. destruct (f_type (ft f)); set_solver.
Qed.

(** ** Memory and resources *)

Definition is_open (s : fsys) (pi : Z) (w : bool) : bool :=
  match pipes s pi with None => false | Some (r, w') => if w then w' else r end.

(** What concerns one file. *)
Record file_ok (ft : Z -> file) (T : list res) (f : Z) : Prop := {
  o_ref : 0 <= f < NFILE -> f_ref (ft f) = cnt (RFile f) T + cnt (RFresh f) T;
  o_range : 0 < cnt (RFile f) T + cnt (RFresh f) T -> 0 <= f < NFILE;
  o_fresh : 0 < cnt (RFresh f) T -> cnt (RFresh f) T = 1 /\ cnt (RFile f) T = 0 /\ f_type (ft f) = FD_NONE;
  o_typed : 0 < cnt (RFile f) T -> typed (ft f);
  o_free : 0 <= f < NFILE -> f_ref (ft f) = 0 -> f_type (ft f) = FD_NONE
}.

(** [T] are the resources of all processes. *)
Record glob (s : fsys) (T : list res) : Prop := {
  g_file : forall f, file_ok (ftab s) T f;
  g_end : forall pi w, cnt (REnd pi w) (T ++ table (ftab s)) = if is_open s pi w then 1 else 0;
  g_both : forall pi, pipes s pi <> Some (false, false);
  g_ino : forall ip, irefs s ip = cnt (RIno ip) (T ++ table (ftab s))
}.

Lemma glob_perm s T T' : T ≡ₚ T' -> glob s T -> glob s T'.
Proof.
  intros E [H1 H2 H3 H4]. split; [|intros; by rewrite <- E|done|intros; by rewrite <- E].
  intros f. destruct (H1 f). split; intros; rewrite <- ?E in *; eauto.
Qed.

(** Only the three global tables matter. *)
Lemma glob_same s s' T : ftab s' = ftab s -> pipes s' = pipes s -> irefs s' = irefs s -> glob s T -> glob s' T.
Proof. intros E1 E2 E3 []. split; unfold is_open in *; rewrite ?E1, ?E2, ?E3 in *; done. Qed.

(** One entry changes, and the resources on it. *)
Lemma glob_file s T T' f g :
  glob s T -> 0 <= f < NFILE -> file_ok (upd (ftab s) f g) T' f ->
  (forall f', f' <> f -> cnt (RFile f') T' = cnt (RFile f') T /\ cnt (RFresh f') T' = cnt (RFresh f') T) ->
  (forall pi w, cnt (REnd pi w) (T' ++ entry g) = cnt (REnd pi w) (T ++ entry (ftab s f))) ->
  (forall ip, cnt (RIno ip) (T' ++ entry g) = cnt (RIno ip) (T ++ entry (ftab s f))) ->
  glob (set_ftab (upd (ftab s) f g) s) T'.
Proof.
  intros [H1 H2 H3 H4] Hf Hok Hoth He Hi. destruct (table_upd (ftab s) f Hf) as (rest & Ht & Ht'). specialize (Ht' g). split; simpl.
  - intros f'. destruct (decide (f' = f)) as [-> | Hne]; [done|]. destruct (Hoth f' Hne) as [E1 E2]. destruct (H1 f') as [O1 O2 O3 O4 O5].
    split; rewrite ?E1, ?E2, ?upd_ne by done; done.
  - intros pi w. specialize (H2 pi w). specialize (He pi w). unfold is_open in *. simpl. rewrite <- H2, Ht, Ht', !app_assoc, !cnt_app in *. lia.
  - done.
  - intros ip. specialize (H4 ip). specialize (Hi ip). rewrite H4, Ht, Ht', !app_assoc, !cnt_app in *. lia.
Qed.

(** Counts the resources at the head of a list. *)
Ltac cnts := intros; repeat first [rewrite cnt_app in * | rewrite cnt_cons in * | rewrite cnt_nil in *]; repeat case_decide; simplify_eq; split_and?; try done; try lia.

Lemma entry_ref v f : entry (set_ref v f) = entry f.
Proof. by destruct f. Qed.

Lemma entry_file g f : cnt (RFile f) (entry g) = 0 /\ cnt (RFresh f) (entry g) = 0.
Proof. unfold entry. destruct (f_type g); cnts. Qed.

Lemma glob_alloc s T f :
  glob s T -> 0 <= f < NFILE -> f_ref (ftab s f) = 0 ->
  glob (set_ftab (upd (ftab s) f (set_ref 1 (ftab s f))) s) (RFresh f :: T).
Proof.
  intros H Hf E. destruct (g_file _ _ H f) as [O1 O2 O3 O4 O5]. pose proof (cnt_pos (RFile f) T). pose proof (cnt_pos (RFresh f) T).
  rewrite E in O1. specialize (O1 Hf). apply (glob_file _ T); [done|done| |rewrite ?entry_ref; cnts..].
  split; rewrite ?upd_eq; simpl; rewrite ?cnt_cons; repeat case_decide; simplify_eq; intros; try lia. split_and!; try lia. by apply O5.
Qed.

Lemma glob_dup s T f :
  glob s T -> RFile f ∈ T ->
  0 < f_ref (ftab s f) /\ glob (set_ftab (upd (ftab s) f (set_ref (f_ref (ftab s f) + 1) (ftab s f))) s) (RFile f :: T).
Proof.
  intros H Hin%cnt_in. destruct (g_file _ _ H f) as [O1 O2 O3 O4 O5]. pose proof (cnt_pos (RFresh f) T). assert (Hf : 0 <= f < NFILE) by (apply O2; lia).
  specialize (O1 Hf). split; [lia|]. apply (glob_file _ T); [done|done| |rewrite ?entry_ref; cnts..].
  split; rewrite ?upd_eq; simpl; rewrite ?cnt_cons; repeat case_decide; simplify_eq; intros; first [lia | by apply O4 | destruct O3; lia].
Qed.

(** A reference that is not the last. *)
Lemma glob_drop s T f :
  glob s (RFile f :: T) -> 0 < f_ref (ftab s f) - 1 ->
  glob (set_ftab (upd (ftab s) f (set_ref (f_ref (ftab s f) - 1) (ftab s f))) s) T.
Proof.
  intros H Hr. destruct (g_file _ _ H f) as [O1 O2 O3 O4 O5]. revert O1 O2 O3 O4. rewrite !cnt_cons. repeat case_decide; simplify_eq. intros O1 O2 O3 O4.
  pose proof (cnt_pos (RFile f) T). pose proof (cnt_pos (RFresh f) T). assert (Hf : 0 <= f < NFILE) by (apply O2; lia). specialize (O1 Hf).
  apply (glob_file _ (RFile f :: T)); [done|done| |rewrite ?entry_ref; cnts..].
  split; rewrite ?upd_eq; simpl; intros; first [lia | apply O4; lia | destruct O3; lia].
Qed.

(** The last reference: what the entry owned goes to the process. *)
Lemma glob_last s T f r :
  glob s (r :: T) -> r = RFile f \/ r = RFresh f -> ~ 0 < f_ref (ftab s f) - 1 ->
  f_ref (ftab s f) = 1 /\ glob (set_ftab (upd (ftab s) f (set_none (ftab s f))) s) (entry (ftab s f) ++ T).
Proof.
  intros H Hr Hl. destruct (g_file _ _ H f) as [O1 O2 O3 O4 O5]. pose proof (cnt_pos (RFile f) T). pose proof (cnt_pos (RFresh f) T).
  assert (Hsum : cnt (RFile f) (r :: T) + cnt (RFresh f) (r :: T) = 1 + cnt (RFile f) T + cnt (RFresh f) T).
  { destruct Hr as [-> | ->]; cnts. }
  assert (Hf : 0 <= f < NFILE) by (apply O2; lia). specialize (O1 Hf).
  pose proof (entry_file (ftab s f)) as He.
  split; [lia|]. apply (glob_file _ (r :: T)); [done|done| |..].
  - destruct (He f) as [E1 E2]. split; rewrite ?upd_eq, ?cnt_app, ?E1, ?E2; simpl; intros; lia || done.
  - intros f' Hne. destruct (He f') as [E1 E2]. rewrite !cnt_app, E1, E2. destruct Hr as [-> | ->]; cnts.
  - change (entry (set_none _)) with (@nil res). destruct Hr as [-> | ->]; cnts.
  - change (entry (set_none _)) with (@nil res). destruct Hr as [-> | ->]; cnts.
Qed.

(** A fresh file is set up. *)
Lemma glob_put s T f (h : file -> file) e :
  glob s (RFresh f :: e ++ T) -> entry (h (ftab s f)) = e -> typed (h (ftab s f)) -> f_ref (h (ftab s f)) = f_ref (ftab s f) ->
  glob (set_ftab (upd (ftab s) f (h (ftab s f))) s) (RFile f :: T).
Proof.
  intros H <- Ht Er. destruct (g_file _ _ H f) as [O1 O2 O3 O4 O5]. set (g := h (ftab s f)) in *.
  pose proof (entry_file g) as He.
  destruct (He f) as [E1 E2]. revert O1 O2 O3 O4. rewrite !cnt_cons, !cnt_app, E1, E2. repeat case_decide; simplify_eq. intros O1 O2 O3 O4.
  pose proof (cnt_pos (RFile f) T). pose proof (cnt_pos (RFresh f) T). assert (Hf : 0 <= f < NFILE) by (apply O2; lia). specialize (O1 Hf).
  destruct O3 as (O3 & O3' & O3''); [lia|].
  apply (glob_file _ (RFresh f :: entry g ++ T)); [done|done| |..].
  - split; rewrite ?upd_eq, ?cnt_cons; repeat case_decide; simplify_eq; intros; try lia; done.
  - intros f' Hne. destruct (He f') as [E3 E4]. rewrite !cnt_cons, !cnt_app, E3, E4. cnts.
  - assert (En : entry (ftab s f) = []) by (unfold entry; by rewrite O3''). rewrite En. cnts.
  - assert (En : entry (ftab s f) = []) by (unfold entry; by rewrite O3''). rewrite En. cnts.
Qed.

(** The offset changes. *)
Lemma glob_off s T f v : glob s T -> RFile f ∈ T -> glob (set_ftab (upd (ftab s) f (set_off v (ftab s f))) s) T.
Proof.
  intros H Hin%cnt_in. destruct (g_file _ _ H f) as [O1 O2 O3 O4 O5]. pose proof (cnt_pos (RFresh f) T).
  apply (glob_file _ T); [done|apply O2; lia| |done|done|done]. split; rewrite ?upd_eq; done.
Qed.

(** A new pipe, and the close of an end. *)
Lemma file_ok_other ft T T' f :
  (forall f, cnt (RFile f) T' = cnt (RFile f) T /\ cnt (RFresh f) T' = cnt (RFresh f) T) -> file_ok ft T f -> file_ok ft T' f.
Proof. intros E []. destruct (E f) as [E1 E2]. split; rewrite ?E1, ?E2; done. Qed.

Lemma glob_pipenew s T pi :
  glob s T -> pipes s pi = None -> glob (set_pipes (upd (pipes s) pi (Some (true, true))) s) (REnd pi false :: REnd pi true :: T).
Proof.
  intros [H1 H2 H3 H4] E. split; simpl.
  - intros f. eapply file_ok_other; [|apply H1]. cnts.
  - intros pi' w. specialize (H2 pi' w). unfold is_open in *. simpl. rewrite upd_case. case_decide as Hd; [|revert H2; by cnts].
    subst. rewrite E in H2. revert H2. destruct w; cnts.
  - intros pi'. rewrite upd_case. case_decide; [done|apply H3].
  - intros ip. rewrite H4. cnts.
Qed.

Lemma glob_pipeclose s T pi w :
  glob s (REnd pi w :: T) -> exists s', pipe_shut pi w s = Ret tt s' /\ glob s' T /\
    ofile s' = ofile s /\ cwds s' = cwds s /\ procs s' = procs s.
Proof.
  intros [H1 H2 H3 H4]. pose proof (H2 pi w) as Hw. unfold is_open in Hw. revert Hw. cnts.
  pose proof (cnt_pos (REnd pi w) T). pose proof (cnt_pos (REnd pi w) (table (ftab s))).
  unfold pipe_shut. rewrite bind_gets. cbv beta. unfold id. destruct (pipes s pi) as [[r w0]|] eqn:Ep; [|lia].
  exists (set_pipes (upd (pipes s) pi (let '(r', w') := if w then (r, false) else (false, w0) in
    if negb r' && negb w' then None else Some (r', w'))) s).
  split; [by destruct w|]. split; [|done]. split; simpl.
  - intros f. eapply file_ok_other; [|apply H1]. cnts.
  - intros pi' w'. specialize (H2 pi' w'). unfold is_open in *. simpl. rewrite upd_case. case_decide as Hd.
    + subst. rewrite Ep in H2. revert H2. destruct r, w0, w, w'; simpl; cnts.
    + revert H2. cnts.
  - intros pi'. rewrite upd_case. case_decide; [|apply H3]. destruct w, r, w0; done.
  - intros ip. rewrite H4. cnts.
Qed.

Lemma glob_iget s T ip : glob s T -> glob (set_irefs (upd (irefs s) ip (irefs s ip + 1)) s) (RIno ip :: T).
Proof.
  intros [H1 H2 H3 H4]. split; simpl.
  - intros f. eapply file_ok_other; [|apply H1]. cnts.
  - intros pi w. specialize (H2 pi w). unfold is_open in *. simpl. rewrite <- H2. cnts.
  - done.
  - intros ip'. rewrite upd_case. cnts; rewrite H4, cnt_app; lia.
Qed.

Lemma glob_iput s T ip :
  glob s (RIno ip :: T) -> 0 < irefs s ip /\ glob (set_irefs (upd (irefs s) ip (irefs s ip - 1)) s) T.
Proof.
  intros [H1 H2 H3 H4]. assert (Hp : 0 < irefs s ip). { rewrite H4. pose proof (cnt_pos (RIno ip) (T ++ table (ftab s))). revert H. cnts. }
  split; [done|]. split; simpl.
  - intros f. eapply file_ok_other; [|apply H1]. cnts.
  - intros pi w. specialize (H2 pi w). unfold is_open in *. simpl. rewrite <- H2. cnts.
  - done.
  - intros ip'. rewrite upd_case. specialize (H4 ip'). revert H4. cnts.
Qed.

(** ** The logic of handlers *)

(** The descriptors and the current directory of a process, and of the child it is
    creating. *)
Record loc : Type := mkloc { l_fds : Z -> option Z; l_cwd : option Z; l_child : option (Z * (Z -> option Z) * option Z) }.

Definition tabres (t : Z -> option Z) : list res := RFile <$> omap t (seqZ 0 NOFILE).
Definition cwdres (c : option Z) : list res := match c with Some ip => [RIno ip] | None => [] end.

Definition assn : Type := loc -> list res -> Prop.

Definition pre {R} (a : act R) : (R -> assn) -> assn :=
  match a in act R return (R -> assn) -> assn with
  | Filealloc => fun W l o => W None l o /\ forall f, W (Some f) l (RFresh f :: o)
  | Filedup f => fun W l o => RFile f ∈ o /\ W tt l (RFile f :: o)
  | Drop f => fun W l o => exists o',
      (o ≡ₚ RFile f :: o' /\ W None l o' /\ forall ff, typed ff -> W (Some ff) l (entry ff ++ o')) \/
      (o ≡ₚ RFresh f :: o' /\ forall ff, f_type ff = FD_NONE -> W (Some ff) l o')
  | GetFile f => fun W l o => RFile f ∈ o /\ forall ff, typed ff -> W ff l o
  | PutFile f h => fun W l o => exists e o', o ≡ₚ RFresh f :: e ++ o' /\
      (forall g, entry (h g) = e /\ typed (h g) /\ f_ref (h g) = f_ref g) /\ W tt l (RFile f :: o')
  | Advance f r => fun W l o => RFile f ∈ o /\ W tt l o
  | Pipenew => fun W l o => W None l o /\ forall pi, W (Some pi) l (REnd pi false :: REnd pi true :: o)
  | Pipeclose pi w => fun W l o => exists o', o ≡ₚ REnd pi w :: o' /\ W tt l o'
  | Lookup => fun W l o => W None l o /\ forall x, W (Some x) l (RIno (fo_ip x) :: o)
  | Idup ip => fun W l o => RIno ip ∈ o /\ W tt l (RIno ip :: o)
  | Iput ip => fun W l o => exists o', o ≡ₚ RIno ip :: o' /\ W tt l o'
  | Answer => fun W l o => forall r, W r l o
  | GetFd fd => fun W l o => W (l_fds l fd) l o
  | SetFd fd v => fun W l o => W tt (mkloc (upd (l_fds l) fd v) (l_cwd l) (l_child l)) o
  | GetCwd => fun W l o => W (l_cwd l) l o
  | SetCwd v => fun W l o => W tt (mkloc (l_fds l) v (l_child l)) o
  | Allocproc => fun W l o => l_child l = None /\ W None l o /\
      forall np, W (Some np) (mkloc (l_fds l) (l_cwd l) (Some (np, fun _ => None, None))) o
  | Freeproc np => fun W l o => (exists t, l_child l = Some (np, t, None) /\ forall fd, t fd = None) /\
      W tt (mkloc (l_fds l) (l_cwd l) None) o
  | SetChild np fd v => fun W l o => exists t c, l_child l = Some (np, t, c) /\
      W tt (mkloc (l_fds l) (l_cwd l) (Some (np, upd t fd v, c))) o
  | SetChildCwd np v => fun W l o => exists t c, l_child l = Some (np, t, c) /\
      W tt (mkloc (l_fds l) (l_cwd l) (Some (np, t, v))) o
  | Runnable np => fun W l o => exists t ip o', l_child l = Some (np, t, Some ip) /\
      (forall fd, ~ 0 <= fd < NOFILE -> t fd = None) /\ o ≡ₚ tabres t ++ RIno ip :: o' /\
      W tt (mkloc (l_fds l) (l_cwd l) None) o'
  end.

Fixpoint wp {A} (p : prog A) (Q : A -> assn) : assn :=
  match p with
  | Done a => Q a
  | Oops _ => fun _ _ => False
  | Act a k => pre a (fun r => wp (k r) Q)
  end.

Lemma pre_mono {R} (a : act R) (W W' : R -> assn) l o :
  (forall r l o, W r l o -> W' r l o) -> pre a W l o -> pre a W' l o.
Proof. intros H. destruct a; simpl; naive_solver. Qed.

Lemma wp_mono {A} (p : prog A) (Q Q' : A -> assn) l o :
  (forall a l o, Q a l o -> Q' a l o) -> wp p Q l o -> wp p Q' l o.
Proof.
  intros H. revert l o. induction p as [a|m|R a k IH]; intros l o; simpl; [apply H|done|]. apply pre_mono. intros r l' o'. apply IH.
Qed.

Lemma wp_bind {A B} (p : prog A) (k : A -> prog B) (Q : B -> assn) l o :
  wp p (fun a => wp (k a) Q) l o -> wp (pbind p k) Q l o.
Proof.
  revert l o. induction p as [a|m|R a k' IH]; intros l o; simpl; [done|done|]. apply pre_mono. intros r l' o'. apply IH.
Qed.
