(* ===== verification/FileSafe.v ===== *)
(** Every handler of File.v keeps the ownership of references, and with it: no check
    of the table of files fails in any interleaving, the counts are exact, and every
    descriptor refers to an entry that is set up. *)

From stdpp Require Import gmap.
From S2P Require Import Prelude Riscv File FileInv.
Open Scope Z_scope.

(** ** Descriptors *)

Lemma omap_same {A B} (f g : A -> option B) (l : list A) : (forall x, x ∈ l -> f x = g x) -> omap f l = omap g l.
Proof.
  induction l as [|a l IH]; intros H; [done|]. cbn. rewrite (H a) by left. by rewrite (IH (fun x Hx => H x (list_elem_of_further _ _ _ Hx))).
Qed.

Lemma tabres_ext t t' : (forall fd, t' fd = t fd) -> tabres t' = tabres t.
Proof. intros E. unfold tabres. f_equal. by apply omap_same. Qed.

Definition fdres (v : option Z) : list res := match v with Some f => [RFile f] | None => [] end.

Lemma tabres_upd t fd :
  0 <= fd < NOFILE -> exists rest, forall v, tabres (upd t fd v) ≡ₚ fdres v ++ rest.
Proof.
  intros Hf. assert (Hin : fd ∈ seqZ 0 NOFILE) by (apply elem_of_seqZ; lia). assert (Hnd : NoDup (seqZ 0 NOFILE)) by apply NoDup_seqZ.
  apply list_elem_of_split in Hin as (l1 & l2 & E). rewrite E in Hnd. apply NoDup_app in Hnd as (_ & H1 & [H2 _]%NoDup_cons).
  exists (RFile <$> omap t (l1 ++ l2)). intros v. unfold tabres. rewrite E, !omap_app.
  assert (Hsame : forall l : list Z, fd ∉ l -> omap (upd t fd v) l = omap t l).
  { intros l Hl. apply omap_same. intros x Hx. rewrite upd_ne; [done|]. intros ->. done. }
  rewrite (Hsame l1) by (intros Hx; apply (H1 _ Hx); left).
  assert (Ec : omap (upd t fd v) (fd :: l2) = option_list v ++ omap t l2).
  { rewrite <- (Hsame l2) by done. cbn. rewrite upd_eq. by destruct v. }
  rewrite Ec, !fmap_app. destruct v as [f|]; simpl; [|done]. by rewrite <- Permutation_middle.
Qed.

Lemma tabres_set t fd v : 0 <= fd < NOFILE -> fdres (t fd) ++ tabres (upd t fd v) ≡ₚ fdres v ++ tabres t.
Proof.
  intros Hf. destruct (tabres_upd t fd Hf) as [rest H]. rewrite H, <- (tabres_ext t (upd t fd (t fd))), H, !app_assoc; [|intros x; rewrite upd_case; by case_decide; subst].
  f_equiv. apply Permutation_app_comm.
Qed.

Lemma tabres_add t fd f : 0 <= fd < NOFILE -> t fd = None -> tabres (upd t fd (Some f)) ≡ₚ RFile f :: tabres t.
Proof. intros Hf E. pose proof (tabres_set t fd (Some f) Hf) as H. by rewrite E in H. Qed.

Lemma tabres_remove t fd f : 0 <= fd < NOFILE -> t fd = Some f -> tabres t ≡ₚ RFile f :: tabres (upd t fd None).
Proof. intros Hf E. pose proof (tabres_set t fd None Hf) as H. by rewrite E in H. Qed.

Lemma tabres_none t : (forall fd, t fd = None) -> tabres t = [].
Proof. intros H. unfold tabres. rewrite (omap_same t (fun _ => None)) by done. by vm_compute. Qed.

Lemma tabres_in t fd f : 0 <= fd < NOFILE -> t fd = Some f -> RFile f ∈ tabres t.
Proof. intros Hf E. rewrite (tabres_remove t fd f Hf E). left. Qed.

(** ** The order of resources does not matter *)

Definition closed {A} (Q : A -> assn) : Prop := forall a l o o', o ≡ₚ o' -> Q a l o -> Q a l o'.

Lemma pre_perm {R} (a : act R) (W : R -> assn) l o o' : closed W -> o ≡ₚ o' -> pre a W l o -> pre a W l o'.
Proof.
  intros HW E. assert (HW' : forall r l x, W r l (x ++ o) -> W r l (x ++ o')) by (intros r l' x; apply HW; by rewrite E).
  assert (HW0 : forall r l, W r l o -> W r l o') by (intros r l'; by apply HW).
  destruct a; simpl.
  - intros [H1 H2]. split; [by apply HW0|]. intros x. apply (HW' _ _ [_]), H2.
  - intros [H1 H2]. split; [by rewrite <- E|]. by apply (HW' _ _ [_]).
  - by setoid_rewrite E.
  - intros [H1 H2]. split; [by rewrite <- E|]. intros ff Hf. by apply HW0, H2.
  - by setoid_rewrite E.
  - intros [H1 H2]. split; [by rewrite <- E|]. by apply HW0.
  - intros [H1 H2]. split; [by apply HW0|]. intros x. apply (HW' _ _ [_; _]), H2.
  - by setoid_rewrite E.
  - intros [H1 H2]. split; [by apply HW0|]. intros x. apply (HW' _ _ [_]), H2.
  - intros [H1 H2]. split; [by rewrite <- E|]. by apply (HW' _ _ [_]).
  - by setoid_rewrite E.
  - intros H r. by apply HW0.
  - by apply HW0.
  - by apply HW0.
  - by apply HW0.
  - by apply HW0.
  - intros (H1 & H2 & H3). split; [done|]. split; [by apply HW0|]. intros np. by apply HW0.
  - intros [H1 H2]. split; [done|]. by apply HW0.
  - intros (t & c & H1 & H2). exists t, c. split; [done|]. by apply HW0.
  - intros (t & c & H1 & H2). exists t, c. split; [done|]. by apply HW0.
  - by setoid_rewrite E.
Qed.

Lemma wp_perm {A} (p : prog A) (Q : A -> assn) : closed Q -> forall l o o', o ≡ₚ o' -> wp p Q l o -> wp p Q l o'.
Proof.
  intros HQ. induction p as [a|m|R a k IH]; intros l o o' E; simpl; [by apply HQ|done|]. apply pre_perm; [|done]. intros r l' o1 o2. apply IH.
Qed.

(** Closing a file gives up the reference, and only that. *)
Lemma wp_fileclose f l o o' (Q : unit -> assn) :
  closed Q -> o ≡ₚ RFile f :: o' \/ o ≡ₚ RFresh f :: o' -> Q tt l o' -> wp (fileclose f) Q l o.
Proof.
  intros HQ Ho H. simpl. exists o'. destruct Ho as [Ho|Ho]; [left|right]; (split; [done|]).
  - split; [done|]. intros ff (Hn & _). unfold entry. destruct (f_type ff); [done|..]; simpl; exists o'; done.
  - intros ff ->. done.
Qed.

(** ** System calls *)

(** Between system calls a process owns what its descriptors and its current
    directory refer to; after exit it owns nothing. *)
Definition idle (l : loc) (o : list res) : Prop :=
  l_child l = None /\ (forall fd, ~ 0 <= fd < NOFILE -> l_fds l fd = None) /\
  exists ip, l_cwd l = Some ip /\ o ≡ₚ tabres (l_fds l) ++ [RIno ip].
Definition gone (l : loc) (o : list res) : Prop :=
  l_child l = None /\ (forall fd, l_fds l fd = None) /\ l_cwd l = None /\ o ≡ₚ [].

Definition with_fd (fd : Z) (v : option Z) (l : loc) : loc := mkloc (upd (l_fds l) fd v) (l_cwd l) (l_child l).

Lemma closed_idle {A} : closed (fun _ : A => idle).
Proof. intros _ l o o' E (H1 & H2 & ip & H3 & H4). split; [done|]. split; [done|]. exists ip. by rewrite <- E. Qed.

Lemma wp_fdalloc_loop n fd f l o (Q : Z -> assn) :
  0 <= fd -> fd + Z.of_nat n = NOFILE -> Q (-1) l o ->
  (forall fd, 0 <= fd < NOFILE -> l_fds l fd = None -> Q fd (with_fd fd (Some f) l) o) -> wp (fdalloc_loop n fd f) Q l o.
Proof.
  revert fd. induction n as [|n IH]; intros fd Hfd Hn H1 H2; simpl; [done|]. destruct (l_fds l fd) eqn:E.
  - apply IH; [lia|lia|done|done].
  - apply H2; [lia|done].
Qed.

Lemma wp_fdalloc f l o (Q : Z -> assn) :
  Q (-1) l o -> (forall fd, 0 <= fd < NOFILE -> l_fds l fd = None -> Q fd (with_fd fd (Some f) l) o) -> wp (fdalloc f) Q l o.
Proof. intros. by apply wp_fdalloc_loop. Qed.

Lemma wp_argfd fd l o (Q : option Z -> assn) :
  Q None l o -> (forall f, 0 <= fd < NOFILE -> l_fds l fd = Some f -> Q (Some f) l o) -> wp (argfd fd) Q l o.
Proof.
  intros H1 H2. unfold argfd. destruct (Z.ltb_spec fd 0), (Z.leb_spec NOFILE fd); simpl; try done. destruct (l_fds l fd) eqn:E; [|done]. by apply H2.
Qed.

Lemma idle_add fd f l o :
  idle l o -> 0 <= fd < NOFILE -> l_fds l fd = None -> idle (with_fd fd (Some f) l) (RFile f :: o).
Proof.
  intros (H1 & H2 & ip & H3 & H4) Hf E. split; [done|]. split; [intros x Hx; simpl; rewrite upd_ne; [by apply H2|lia]|].
  exists ip. split; [done|]. simpl. by rewrite tabres_add, H4.
Qed.

Lemma idle_remove fd f l o :
  idle l o -> 0 <= fd < NOFILE -> l_fds l fd = Some f -> exists o', o ≡ₚ RFile f :: o' /\ idle (with_fd fd None l) o'.
Proof.
  intros (H1 & H2 & ip & H3 & H4) Hf E. exists (tabres (upd (l_fds l) fd None) ++ [RIno ip]). split.
  - by rewrite H4, (tabres_remove _ fd f).
  - split; [done|]. split; [intros x Hx; simpl; rewrite upd_ne; [by apply H2|lia]|]. by exists ip.
Qed.

Lemma idle_in fd f l o : idle l o -> 0 <= fd < NOFILE -> l_fds l fd = Some f -> RFile f ∈ o.
Proof. intros (_ & _ & ip & _ & ->) Hf E. apply elem_of_app. left. by eapply tabres_in. Qed.

Lemma dup_ok fd l o : idle l o -> wp (sys_dup fd) (fun _ => idle) l o.
Proof.
  intros Hi. apply wp_bind, wp_argfd; [done|]. intros f Hf E. apply wp_bind, wp_fdalloc; [done|]. intros fd' Hf' E'.
  destruct (Z.ltb_spec fd' 0); [lia|]. simpl. split; [exact (idle_in _ _ _ _ Hi Hf E)|]. by apply idle_add.
Qed.

Lemma close_ok fd l o : idle l o -> wp (sys_close fd) (fun _ => idle) l o.
Proof.
  intros Hi. apply wp_bind, wp_argfd; [done|]. intros f Hf E. destruct (idle_remove _ _ _ _ Hi Hf E) as (o' & Ho & Hi').
  cbn [wp pre]. apply wp_bind. eapply wp_fileclose; [apply closed_idle|by left|done].
Qed.

Lemma read_ok dv fd n l o : idle l o -> wp (sys_read dv fd n) (fun _ => idle) l o.
Proof.
  intros Hi. apply wp_bind, wp_argfd; [done|]. intros f Hf E. pose proof (idle_in _ _ _ _ Hi Hf E) as Hin.
  split; [done|]. intros ff (Ht & _). destruct (f_readable ff); [|done]. simpl. destruct (f_type ff); [done|by intros r| |].
  - intros r. by destruct (0 <? r).
  - destruct (_ || _); [done|by intros r].
Qed.

Lemma filewrite_loop_ok fuel f n i l o :
  idle l o -> RFile f ∈ o -> n - i <= Z.of_nat fuel -> wp (filewrite_loop fuel f n i) (fun _ => idle) l o.
Proof.
  revert i. induction fuel as [|fuel IH]; intros i Hi Hin Hf; cbn [filewrite_loop]; destruct (Z.ltb_spec i n); cbn [negb]; try done; [lia|].
  intros r. set (n1 := if MAXWRITE <? n - i then MAXWRITE else n - i). assert (0 < n1) by (unfold n1, MAXWRITE; destruct (Z.ltb_spec 3072 (n - i)); lia).
  assert (Hnext : wp (if negb (r =? n1) then Done (if i =? n then n else -1) else filewrite_loop fuel f n (i + r)) (fun _ => idle) l o).
  { destruct (Z.eqb_spec r n1); cbn [negb]; [|done]. apply IH; [done|done|lia]. }
  destruct (0 <? r); [|done]. by split.
Qed.

Lemma write_ok dv fd n l o : idle l o -> wp (sys_write dv fd n) (fun _ => idle) l o.
Proof.
  intros Hi. apply wp_bind, wp_argfd; [done|]. intros f Hf E. pose proof (idle_in _ _ _ _ Hi Hf E) as Hin.
  split; [done|]. intros ff (Ht & _). destruct (f_writable ff); [|done]. simpl. destruct (f_type ff); [done|by intros r| |].
  - apply filewrite_loop_ok; [done|done|lia].
  - destruct (_ || _); [done|by intros r].
Qed.

Lemma fstat_ok fd l o : idle l o -> wp (sys_fstat fd) (fun _ => idle) l o.
Proof.
  intros Hi. apply wp_bind, wp_argfd; [done|]. intros f Hf E. split; [exact (idle_in _ _ _ _ Hi Hf E)|]. intros ff _. destruct (f_type ff); simpl; done || by intros r.
Qed.

(** Lists with the same resources. *)
Lemma perm_cnt l l' : (forall r, cnt r l = cnt r l') -> l ≡ₚ l'.
Proof.
  revert l'. induction l as [|x l IH]; intros l' H.
  - destruct l' as [|y l']; [done|]. specialize (H y). rewrite cnt_nil, cnt_cons, decide_True in H by done. pose proof (cnt_pos y l'). lia.
  - assert (Hx : x ∈ l') by (apply cnt_in; rewrite <- H, cnt_cons, decide_True by done; pose proof (cnt_pos x l); lia).
    apply elem_of_Permutation in Hx as [l'' E]. rewrite E. f_equiv. apply IH. intros r. specialize (H r). rewrite (cnt_perm _ _ _ E), !cnt_cons in H. lia.
Qed.
Ltac perm := apply perm_cnt; let r := fresh "r" in intros r; repeat first [rewrite cnt_app | rewrite cnt_cons | rewrite cnt_nil]; lia.

Lemma opened_ok ip omode g :
  (bool_decide (fo_type ip = T_DEVICE) && ((fo_major ip <? 0) || (NDEV <=? fo_major ip))) = false ->
  entry (opened ip omode g) = [RIno (fo_ip ip)] /\ typed (opened ip omode g) /\ f_ref (opened ip omode g) = f_ref g.
Proof.
  intros H. unfold entry, typed, opened. simpl. destruct (decide (fo_type ip = T_DEVICE)) as [E|E]; split_and!; try done.
  intros _. rewrite bool_decide_eq_true_2 in H by done. simpl in H. apply orb_false_iff in H as [?%Z.ltb_ge ?%Z.leb_gt]. lia.
Qed.

Lemma open_ok omode l o : idle l o -> wp (sys_open omode) (fun _ => idle) l o.
Proof.
  intros Hi. split; [done|]. intros ip. assert (Hput : wp (Iput (fo_ip ip) ;~ Done (-1))%prog (fun _ => idle) l (RIno (fo_ip ip) :: o)) by by exists o.
  destruct (_ && negb (omode =? 0)); [done|]. destruct (_ && (_ || _)) eqn:Ed; [done|]. split; [done|]. intros f.
  apply wp_bind, wp_fdalloc.
  - change (-1 <? 0) with true. apply wp_bind. eapply wp_fileclose; [|by right|done]. intros _ l' o1 o2 E. apply wp_perm; [apply closed_idle|done].
  - intros fd Hf En. destruct (Z.ltb_spec fd 0); [lia|]. exists [RIno (fo_ip ip)], o. split; [perm|]. split; [intros g; by apply opened_ok|]. by apply idle_add.
Qed.

Lemma chdir_ok l o : idle l o -> wp sys_chdir (fun _ => idle) l o.
Proof.
  intros Hi. split; [done|]. intros ip. destruct (bool_decide _); [|by exists o]. destruct Hi as (H1 & H2 & c & H3 & H4). simpl. rewrite H3.
  exists (tabres (l_fds l) ++ [RIno (fo_ip ip)]). rewrite H4. split; [perm|]. split; [done|]. split; [done|]. by exists (fo_ip ip).
Qed.

Lemma wp_pipealloc l o (Q : option (Z * Z) -> assn) :
  closed Q -> Q None l o -> (forall f0 f1, Q (Some (f0, f1)) l (RFile f0 :: RFile f1 :: o)) -> wp pipealloc Q l o.
Proof.
  intros HQ H1 H2. split; [done|]. intros f0. split.
  - apply wp_bind. eapply wp_fileclose; [|by right|done]. intros _ l' o1 o2. apply HQ.
  - intros f1. split.
    + apply wp_bind. eapply (wp_fileclose f0 _ _ (RFresh f1 :: o)); [|right; perm|].
      * intros _ l' o1 o2 E. apply wp_perm; done.
      * apply wp_bind. eapply wp_fileclose; [|by right|done]. intros _ l' o1 o2. apply HQ.
    + intros pi. exists [REnd pi false], (REnd pi true :: RFresh f1 :: o). split; [perm|]. split; [done|].
      exists [REnd pi true], (RFile f0 :: o). split; [perm|]. split; [done|]. eapply HQ; [|apply H2]. perm.
Qed.

Lemma idle_same l l' o :
  (forall fd, l_fds l' fd = l_fds l fd) -> l_cwd l' = l_cwd l -> l_child l' = l_child l -> idle l o -> idle l' o.
Proof.
  intros Ex Ec Eh (H1 & H2 & ip & H3 & H4). split; [congruence|]. split; [intros x Hx; rewrite Ex; by apply H2|].
  exists ip. split; [congruence|]. by rewrite (tabres_ext (l_fds l)).
Qed.

Lemma pipe_ok l o : idle l o -> wp sys_pipe (fun _ => idle) l o.
Proof.
  intros Hi. assert (Hcl : forall l' o1 f0 f1, idle l' o1 -> wp (_ <- fileclose f0 ; _ <- fileclose f1 ; Done (-1))%prog (fun _ => idle) l' (RFile f0 :: RFile f1 :: o1)).
  { intros l' o1 f0 f1 H. apply wp_bind. eapply wp_fileclose; [intros _ l2 o2 o3 E; apply wp_perm; [apply closed_idle|done]|by left|].
    apply wp_bind. eapply wp_fileclose; [apply closed_idle|by left|done]. }
  apply wp_bind, wp_pipealloc; [|done|].
  { intros a l' o1 o2 E. apply wp_perm; [apply closed_idle|done]. }
  intros f0 f1. apply wp_bind, wp_fdalloc; [by apply Hcl|]. intros fd0 Hf0 E0. destruct (Z.ltb_spec fd0 0); [lia|].
  apply wp_bind, wp_fdalloc.
  - change (-1 <? 0) with true. cbn [wp pre]. apply Hcl. apply (idle_same l); [|done|done|done]. intros x. simpl. rewrite !upd_case. repeat case_decide; congruence.
  - intros fd1 Hf1 E1. simpl in E1. rewrite upd_case in E1. case_decide; [done|]. destruct (Z.ltb_spec fd1 0); [lia|]. intros ok. destruct (ok <? 0).
    + cbn [wp pre]. apply Hcl. apply (idle_same l); [|done|done|done]. intros x. simpl. rewrite !upd_case. repeat case_decide; congruence.
    + simpl. eapply closed_idle; [exact 0|apply perm_swap|]. apply idle_add; [by apply idle_add|done|]. simpl. by rewrite upd_ne.
Qed.

(** The part of a table below [i]. *)
Definition below (i : Z) (t : Z -> option Z) : Z -> option Z := fun fd => if fd <? i then t fd else None.

Lemma tabres_below t i :
  0 <= i < NOFILE -> tabres (below (i + 1) t) ≡ₚ fdres (t i) ++ tabres (below i t).
Proof.
  intros Hi. rewrite <- (tabres_set (below i t) i (t i)) by done. unfold below at 2. rewrite Z.ltb_irrefl. simpl.
  rewrite (tabres_ext (upd (below i t) i (t i))); [done|]. intros fd. rewrite upd_case. unfold below. case_decide as E.
  - subst. destruct (Z.ltb_spec i (i + 1)); [done|lia].
  - destruct (Z.ltb_spec fd (i + 1)), (Z.ltb_spec fd i); try done; lia.
Qed.

Lemma wp_fork_files n np i l t o (Q : unit -> assn) :
  closed Q -> 0 <= i -> i + Z.of_nat n = NOFILE -> l_child l = Some (np, t, None) -> (forall fd, t fd = below i (l_fds l) fd) ->
  (forall fd f, 0 <= fd < NOFILE -> l_fds l fd = Some f -> RFile f ∈ o) ->
  (forall t', (forall fd, t' fd = below NOFILE (l_fds l) fd) ->
     Q tt (mkloc (l_fds l) (l_cwd l) (Some (np, t', None))) (tabres (below NOFILE (l_fds l)) ++ o)) ->
  wp (fork_files n np i) Q l (tabres (below i (l_fds l)) ++ o).
Proof.
  intros HQ. revert i l t. induction n as [|n IH]; intros i l t Hi Hn Hc Ht Hin H; cbn [fork_files].
  - replace i with NOFILE in * by lia. destruct l. simpl in *. subst. by apply H.
  - cbn [wp pre]. pose proof (tabres_below (l_fds l) i ltac:(lia)) as Hb.
    assert (Hlt : forall fd v, upd t i v fd = if decide (fd = i) then v else below i (l_fds l) fd) by (intros fd v; rewrite upd_case, Ht; done).
    assert (Hbel : forall fd, fd <> i -> below (i + 1) (l_fds l) fd = below i (l_fds l) fd).
    { intros fd Hne. unfold below. destruct (Z.ltb_spec fd (i + 1)), (Z.ltb_spec fd i); try done; lia. }
    assert (Heq : below (i + 1) (l_fds l) i = l_fds l i) by (unfold below; destruct (Z.ltb_spec i (i + 1)); [done|lia]).
    destruct (l_fds l i) as [f|] eqn:E; simpl in Hb.
    + split; [apply elem_of_app; right; apply (Hin i); [lia|done]|]. exists t, None. split; [done|].
      eapply wp_perm; [done| |apply (IH (i + 1) (mkloc (l_fds l) (l_cwd l) (Some (np, upd t i (Some f), None))) (upd t i (Some f)))]; simpl; try done; [by rewrite Hb|lia|lia|].
      intros fd. rewrite Hlt. case_decide; [by subst|by rewrite Hbel].
    + eapply wp_perm; [done| |apply (IH (i + 1) l t)]; try done; [by rewrite Hb|lia|lia|].
      intros fd. rewrite Ht. destruct (decide (fd = i)) as [-> |]; [|by rewrite Hbel]. rewrite Heq. unfold below. by rewrite Z.ltb_irrefl.
Qed.

Lemma tabres_all t : tabres (below NOFILE t) = tabres t.
Proof. reflexivity. Qed.

Lemma fork_ok pid l o : idle l o -> wp (fork pid) (fun _ => idle) l o.
Proof.
  intros Hi. pose proof Hi as (H1 & H2 & c & H3 & H4). split; [done|]. split; [done|]. intros np copied. destruct (copied <? 0).
  { split; [by eexists|]. by apply (idle_same l). }
  apply wp_bind. set (l1 := mkloc _ _ _).
  assert (Hz : tabres (below 0 (l_fds l1)) = []).
  { apply tabres_none. intros fd. unfold below. destruct (Z.ltb_spec fd 0); [|done]. apply H2. lia. }
  pose proof (wp_fork_files (Z.to_nat NOFILE) np 0 l1 (fun _ => None) o) as Hw. rewrite Hz in Hw. apply Hw; try done.
  - intros a l' o1 o2 E. apply wp_perm; [apply closed_idle|done].
  - intros fd. unfold below. simpl. destruct (Z.ltb_spec fd 0); [|done]. symmetry. apply H2. lia.
  - intros fd f Hf E. by eapply idle_in.
  - intros t' Ht'. cbn [wp pre l_cwd]. change (l_cwd l1) with (l_cwd l). rewrite H3.
    split; [apply elem_of_app; right; rewrite H4; apply elem_of_app; right; left|]. exists t', None. split; [done|]. exists t', c, o. split; [done|]. split_and!.
    + intros fd Hf. rewrite Ht'. unfold below. destruct (fd <? NOFILE); [|done]. by apply H2.
    + rewrite (tabres_ext _ t' Ht'), !tabres_all. change (l_fds l1) with (l_fds l). perm.
    + by apply (idle_same l).
Qed.

Lemma wp_exit_files n fd l o c (Q : unit -> assn) :
  closed Q -> 0 <= fd -> fd + Z.of_nat n = NOFILE -> (forall x, x < fd -> l_fds l x = None) -> (forall x, ~ 0 <= x < NOFILE -> l_fds l x = None) ->
  o ≡ₚ tabres (l_fds l) ++ c -> (forall t, (forall x, t x = None) -> Q tt (mkloc t (l_cwd l) (l_child l)) c) ->
  wp (exit_files n fd) Q l o.
Proof.
  intros HQ. revert fd l o. induction n as [|n IH]; intros fd l o Hfd Hn Hlow Hout Ho H; cbn [exit_files].
  - assert (Hall : forall x, l_fds l x = None) by (intros x; destruct (decide (x < fd)); [by apply Hlow|apply Hout; lia]).
    simpl. eapply HQ; [|destruct l; by apply H]. rewrite Ho, tabres_none; done.
  - cbn [wp pre]. destruct (l_fds l fd) as [f|] eqn:E.
    + apply wp_bind. eapply (wp_fileclose f _ _ (tabres (upd (l_fds l) fd None) ++ c)).
      * intros _ l' o1 o2 Ep. apply pre_perm; [intros r l2 o3 o4; by apply wp_perm|done].
      * left. rewrite Ho, (tabres_remove _ fd f) by (done || lia). done.
      * cbn [wp pre]. apply IH; simpl; try done; [lia|lia| |].
        -- intros x Hx. rewrite upd_case. case_decide; [done|]. apply Hlow. lia.
        -- intros x Hx. rewrite upd_case. case_decide; [done|]. by apply Hout.
    + apply IH; try done; [lia|lia|]. intros x Hx. destruct (decide (x = fd)) as [-> |]; [done|]. apply Hlow. lia.
Qed.

Lemma exit_ok l o : idle l o -> wp exit (fun _ => gone) l o.
Proof.
  intros (H1 & H2 & c & H3 & H4). apply wp_bind. apply (wp_exit_files _ _ _ _ [RIno c]); try done.
  - intros a l' o1 o2 E. apply wp_perm; [|done]. intros b l2 o3 o4 E2 (G1 & G2 & G3 & G4). split_and!; try done. by rewrite <- E2.
  - intros x Hx. apply H2. lia.
  - intros t Ht. cbn [wp pre l_cwd]. rewrite H3. exists []. split; [done|]. split_and!; done.
Qed.

(** Every handler is safe, and leaves its process with what its tables refer to. *)
Lemma body_ok dv h l o : idle l o -> wp (body dv h) (fun _ => if is_exit h then gone else idle) l o.
Proof.
  intros Hi. destruct h; simpl is_exit; cbn [body]; [by apply dup_ok|by apply read_ok|by apply write_ok|by apply fstat_ok|by apply close_ok|by apply open_ok
    |by apply chdir_ok|by apply pipe_ok|by apply fork_ok|by apply exit_ok].
Qed.

(** ** The machine keeps the ownership *)

Definition owned (L : gmap Z (list res)) : list res := concat (map_to_list L).*2.

Lemma owned_at L p o : L !! p = Some o -> owned L ≡ₚ o ++ owned (delete p L).
Proof. intros H. unfold owned. by rewrite <- (map_to_list_delete _ _ _ H). Qed.

Lemma owned_insert L p o : owned (<[p := o]> L) ≡ₚ o ++ owned (delete p L).
Proof. rewrite (owned_at _ p o) by apply lookup_insert_eq. by rewrite delete_insert_eq. Qed.

Definition child_ok (c : fsys) (p : Z) (ch : option (Z * (Z -> option Z) * option Z)) : Prop :=
  match ch with
  | None => True
  | Some (np, t, cw) => procs c !! np = Some (Embryo p) /\ (forall fd, t fd = ofile c np fd) /\ cw = cwds c np
  end.

Definition post (exiting : bool) : Z -> assn := fun _ => if exiting then gone else idle.

Definition proc_ok (c : fsys) (p : Z) (st : pstat) (o : list res) : Prop :=
  match st with
  | Idle => idle (mkloc (ofile c p) (cwds c p) None) o
  | Run e q => exists ch, wp q (post e) (mkloc (ofile c p) (cwds c p) ch) o /\ child_ok c p ch
  | Embryo _ => o = []
  end.

Record inv (c : fsys) (L : gmap Z (list res)) : Prop := {
  v_glob : glob c (owned L);
  v_dom : forall p, L !! p = None <-> procs c !! p = None;
  v_ok : forall p st o, procs c !! p = Some st -> L !! p = Some o -> proc_ok c p st o;
  v_unused : forall p, procs c !! p = None -> (forall fd, ofile c p fd = None) /\ cwds c p = None
}.

Lemma inv_at c L p st : inv c L -> procs c !! p = Some st -> exists o, L !! p = Some o /\ proc_ok c p st o.
Proof.
  intros H Hp. destruct (L !! p) as [o|] eqn:E; [|apply (v_dom _ _ H) in E; congruence]. exists o. split; [done|]. by eapply v_ok.
Qed.

(** The other processes do not notice. *)
Lemma proc_frame c c' q st o :
  proc_ok c q st o -> ofile c' q = ofile c q -> cwds c' q = cwds c q ->
  (forall np, procs c !! np = Some (Embryo q) -> procs c' !! np = Some (Embryo q) /\ ofile c' np = ofile c np /\ cwds c' np = cwds c np) ->
  proc_ok c' q st o.
Proof.
  intros H E1 E2 Hc. destruct st as [|e k|pa]; simpl in *; rewrite ?E1, ?E2; [done| |done].
  destruct H as (ch & Hw & Hch). exists ch. split; [done|]. destruct ch as [[[np t] cw]|]; [|done]. simpl in *.
  destruct Hch as (Hp & Ht & ->). destruct (Hc np Hp) as (? & E & ->). split_and!; try done. intros fd. by rewrite E.
Qed.

(** An action on the tables of files, pipes and inodes. *)
Definition is_global {R} (a : act R) : bool :=
  match a with
  | GetFd _ | SetFd _ _ | GetCwd | SetCwd _ | Allocproc | Freeproc _ | SetChild _ _ _ | SetChildCwd _ _ | Runnable _ => false
  | _ => true
  end.

Lemma filealloc_run n f s T :
  glob s T -> 0 <= f -> f + Z.of_nat n = NFILE ->
  exists r s', filealloc_loop n f s = Ret r s' /\ ofile s' = ofile s /\ cwds s' = cwds s /\ procs s' = procs s /\
    match r with None => s' = s | Some f => glob s' (RFresh f :: T) end.
Proof.
  revert f. induction n as [|n IH]; intros f Hg Hf Hn; cbn [filealloc_loop]; [by exists None, s|].
  rewrite bind_gets. cbv beta. unfold id. destruct (Z.eqb_spec (f_ref (ftab s f)) 0) as [E|E].
  - eexists (Some f), _. split; [done|]. split_and!; try done. apply glob_alloc; [done|lia|done].
  - apply IH; [done|lia|lia].
Qed.

Lemma drop_run s T o o' f :
  glob s (o ++ T) -> o ≡ₚ RFile f :: o' \/ o ≡ₚ RFresh f :: o' ->
  exists r s', drop_ref f s = Ret r s' /\ ofile s' = ofile s /\ cwds s' = cwds s /\ procs s' = procs s /\
    match r with
    | None => glob s' (o' ++ T) /\ o ≡ₚ RFile f :: o'
    | Some ff => glob s' ((entry ff ++ o') ++ T) /\ (o ≡ₚ RFile f :: o' -> typed ff) /\ (o ≡ₚ RFresh f :: o' -> f_type ff = FD_NONE)
    end.
Proof.
  intros Hg Ho. unfold drop_ref. rewrite bind_gets. cbv beta. unfold id.
  assert (Hg' : exists r, (r = RFile f \/ r = RFresh f) /\ o ≡ₚ r :: o' /\ glob s (r :: o' ++ T)).
  { destruct Ho as [Ho|Ho]; eexists; (split; [|split; [exact Ho|by eapply glob_perm; [|exact Hg]; rewrite Ho]]); tauto. }
  destruct Hg' as (r & Hr & Er & Hg'). destruct (g_file _ _ Hg' f) as [O1 O2 O3 O4 O5].
  pose proof (cnt_pos (RFile f) (o' ++ T)). pose proof (cnt_pos (RFresh f) (o' ++ T)).
  assert (Hsum : cnt (RFile f) (r :: o' ++ T) + cnt (RFresh f) (r :: o' ++ T) = 1 + cnt (RFile f) (o' ++ T) + cnt (RFresh f) (o' ++ T)).
  { destruct Hr as [-> | ->]; rewrite !cnt_cons; repeat case_decide; simplify_eq; lia. }
  assert (Hf : 0 <= f < NFILE) by (apply O2; lia). specialize (O1 Hf). destruct (Z.ltb_spec (f_ref (ftab s f)) 1); [lia|].
  destruct (Z.ltb_spec 0 (f_ref (ftab s f) - 1)) as [Hm|Hm].
  - eexists None, _. split; [done|]. split_and!; try done; destruct Hr as [-> | ->]; try done.
    + by apply glob_drop.
    + exfalso. destruct O3 as (O3 & O3' & _); [rewrite cnt_cons, decide_True by done; lia|]. lia.
    + exfalso. destruct O3 as (O3 & O3' & _); [rewrite cnt_cons, decide_True by done; lia|]. lia.
  - destruct (glob_last s (o' ++ T) f r Hg' Hr ltac:(lia)) as [_ Hg2]. eexists (Some _), _. split; [done|]. split_and!; try done.
    + by rewrite <- app_assoc.
    + intros Ho1. assert (Hin : 0 < cnt (RFile f) (r :: o' ++ T)).
      { apply cnt_in. change (r :: o' ++ T) with ((r :: o') ++ T). rewrite <- Er, Ho1. apply elem_of_app. left. left. }
      destruct (O4 Hin) as (? & ? & ?). by split_and!.
    + intros Ho1. apply O3. apply cnt_in. change (r :: o' ++ T) with ((r :: o') ++ T). rewrite <- Er, Ho1. apply elem_of_app. left. left.
Qed.

Lemma in_frame r (o T : list res) : r ∈ o -> r ∈ o ++ T.
Proof. intros. apply elem_of_app. by left. Qed.

Lemma global_act {R} (a : act R) p i s (W : R -> assn) l o T :
  is_global a = true -> closed W -> pre a W l o -> glob s (o ++ T) -> valid a i s ->
  exists r s' o', exec a p i s = Ret r s' /\ W r l o' /\ glob s' (o' ++ T) /\ ofile s' = ofile s /\ cwds s' = cwds s /\ procs s' = procs s.
Proof.
  intros Hglob HW Hpre Hg Hv. destruct a; try done; cbn [exec pre valid] in *.
  - destruct Hpre as [H1 H2]. destruct (filealloc_run (Z.to_nat NFILE) 0 s _ Hg) as (r & s' & E & E1 & E2 & E3 & Hr); [lia|done|].
    destruct r as [f|]; [exists (Some f), s', (RFresh f :: o)|subst; exists None, s, o]; by split_and!.
  - destruct Hpre as [H1 H2]. destruct (glob_dup _ _ f Hg (in_frame _ _ _ H1)) as [Hr Hg']. unfold filedup. rewrite bind_gets. cbv beta. unfold id.
    destruct (Z.ltb_spec (f_ref (ftab s f)) 1); [lia|]. eexists tt, _, (RFile f :: o). split; [done|]. by split_and!.
  - destruct Hpre as (o' & Ho). assert (Hor : o ≡ₚ RFile f :: o' \/ o ≡ₚ RFresh f :: o') by tauto.
    destruct (drop_run _ _ _ _ _ Hg Hor) as (r & s' & E & E1 & E2 & E3 & Hr). exists r, s'. destruct r as [ff|].
    + destruct Hr as (Hg' & Ht1 & Ht2). destruct Ho as [(Ho & _ & H2)|(Ho & H2)].
      * exists (entry ff ++ o'). split; [done|]. split_and!; try done. by apply H2, Ht1.
      * assert (En : entry ff = []) by (unfold entry; by rewrite (Ht2 Ho)). exists o'. rewrite En in Hg'. split; [done|]. split_and!; try done. by apply H2, Ht2.
    + destruct Hr as [Hg' Ho']. exists o'. split; [done|]. split_and!; try done. destruct Ho as [(_ & H1 & _)|(Ho & _)]; [done|].
      exfalso. assert (RFresh f ∈ o ++ T) as Hfr%cnt_in by (apply in_frame; rewrite Ho; left).
      assert (RFile f ∈ o ++ T) as Hfi%cnt_in by (apply in_frame; rewrite Ho'; left).
      destruct (g_file _ _ Hg f) as [_ _ O3 _ _]. destruct (O3 Hfr) as (_ & ? & _). lia.
  - destruct Hpre as [H1 H2]. eexists _, s, o. split; [done|]. split_and!; try done. apply H2.
    apply (g_file _ _ Hg f), cnt_in, in_frame, H1.
  - destruct Hpre as (e & o' & Ho & Hh & H2). destruct (Hh (ftab s f)) as (E1 & E2 & E3). eexists tt, _, (RFile f :: o').
    split; [done|]. split_and!; try done. simpl. eapply glob_put; [|exact E1|done|done]. eapply glob_perm; [|exact Hg]. rewrite Ho. simpl. by rewrite app_assoc.
  - destruct Hpre as [H1 H2]. eexists tt, _, o. split; [done|]. split_and!; try done. apply glob_off; [done|by apply in_frame].
  - destruct Hpre as [H1 H2]. destruct (in_opt i) as [pi|]; [|by exists None, s, o].
    eexists (Some pi), _, (REnd pi false :: REnd pi true :: o). split; [done|]. split_and!; try done. by apply glob_pipenew, Hv.
  - destruct Hpre as (o' & Ho & H2). destruct (glob_pipeclose s (o' ++ T) pi writable) as (s' & E & Hg' & E1 & E2 & E3).
    { eapply glob_perm; [|exact Hg]. by rewrite Ho. }
    exists tt, s', o'. by split_and!.
  - destruct Hpre as [H1 H2]. destruct (in_found i) as [x|]; [|by exists None, s, o].
    eexists (Some x), _, (RIno (fo_ip x) :: o). split; [done|]. split_and!; try done. simpl. by apply glob_iget.
  - destruct Hpre as [H1 H2]. eexists tt, _, (RIno ip :: o). split; [done|]. split_and!; try done. simpl. by apply glob_iget.
  - destruct Hpre as (o' & Ho & H2). destruct (glob_iput s (o' ++ T) ip) as [Hp Hg'].
    { eapply glob_perm; [|exact Hg]. by rewrite Ho. }
    unfold iput_ref. rewrite bind_gets. cbv beta. unfold id. destruct (Z.ltb_spec (irefs s ip) 1); [lia|].
    eexists tt, _, o'. split; [done|]. by split_and!.
  - exists (in_z i), s, o. by split_and!.
Qed.

(** A step of [p] in which the slots other than that of [p] and of its child stay. *)
Lemma inv_step c c' L L' p :
  inv c L -> (forall pa, procs c !! p <> Some (Embryo pa)) -> glob c' (owned L') ->
  (forall q, procs c' !! q = Some (Embryo p) -> procs c !! q = None \/ procs c !! q = Some (Embryo p)) ->
  (forall q, q <> p -> procs c !! q <> Some (Embryo p) -> procs c' !! q <> Some (Embryo p) ->
     procs c' !! q = procs c !! q /\ L' !! q = L !! q /\ ofile c' q = ofile c q /\ cwds c' q = cwds c q) ->
  (forall q, q = p \/ procs c !! q = Some (Embryo p) \/ procs c' !! q = Some (Embryo p) ->
     match procs c' !! q with
     | None => L' !! q = None /\ (forall fd, ofile c' q fd = None) /\ cwds c' q = None
     | Some st => exists o, L' !! q = Some o /\ proc_ok c' q st o
     end) ->
  inv c' L'.
Proof.
  intros H Hp Hg Hnew Hoth Hme.
  assert (Hcase : forall q, (q = p \/ procs c !! q = Some (Embryo p) \/ procs c' !! q = Some (Embryo p)) \/
    (q <> p /\ procs c !! q <> Some (Embryo p) /\ procs c' !! q <> Some (Embryo p))).
  { assert (Hdec : forall (x : option pstat) k, {x = Some (Embryo k)} + {x <> Some (Embryo k)}).
    { intros [[|e q|k']|] k; try (right; congruence). destruct (decide (k' = k)) as [-> |]; [by left|right; congruence]. }
    intros q. destruct (decide (q = p)), (Hdec (procs c !! q) p), (Hdec (procs c' !! q) p); tauto. }
  split; [done|..].
  - intros q. destruct (Hcase q) as [Hq|(H1 & H2 & H3)].
    + specialize (Hme q Hq). destruct (procs c' !! q) as [st|]; [|tauto]. destruct Hme as (o & E & _). split; [congruence|done].
    + destruct (Hoth q H1 H2 H3) as (-> & -> & _). apply H.
  - intros q st o Es Eo. destruct (Hcase q) as [Hq|(H1 & H2 & H3)].
    + specialize (Hme q Hq). rewrite Es in Hme. destruct Hme as (o' & E & Hok). congruence.
    + destruct (Hoth q H1 H2 H3) as (E1 & E2 & E3 & E4). rewrite E1 in Es. rewrite E2 in Eo.
      eapply proc_frame; [by eapply (v_ok _ _ H)|done|done|]. intros np Hnp.
      assert (np <> p) by (intros ->; by apply (Hp q)). assert (Hne : Embryo q <> Embryo p) by congruence.
      assert (N1 : procs c !! np <> Some (Embryo p)) by congruence.
      destruct (Hoth np) as (E5 & _ & ? & ?); [done|done| |by rewrite E5].
      intros Hq. destruct (Hnew np Hq); congruence.
  - intros q Eq. destruct (Hcase q) as [Hq|(H1 & H2 & H3)].
    + specialize (Hme q Hq). rewrite Eq in Hme. tauto.
    + destruct (Hoth q H1 H2 H3) as (E1 & E2 & E3 & E4). rewrite E1 in Eq. destruct (v_unused _ _ H q Eq) as [V1 V2].
      rewrite E3, E4. done.
Qed.

(** A step of [p] that creates and releases no process. *)
Lemma inv_self c c' L p st o o' st' :
  inv c L -> procs c !! p = Some st -> (forall pa, st <> Embryo pa) -> (forall pa, st' <> Embryo pa) -> L !! p = Some o ->
  glob c' (o' ++ owned (delete p L)) -> procs c' = <[p := st']> (procs c) ->
  (forall q, q <> p -> procs c !! q <> Some (Embryo p) -> ofile c' q = ofile c q /\ cwds c' q = cwds c q) ->
  proc_ok c' p st' o' -> inv c' (<[p := o']> L).
Proof.
  intros H Hp Hst Hst' Ho Hg Hpr Hoth Hok.
  assert (Hsame : forall q, q <> p -> procs c' !! q = procs c !! q) by (intros; by rewrite Hpr, lookup_insert_ne).
  eapply (inv_step c c' L _ p); [done|intros pa; congruence|by eapply glob_perm; [symmetry; apply owned_insert|]| | |].
  - intros q. rewrite Hpr. intros [[_ E]|[_ E]]%lookup_insert_Some; [by apply Hst' in E|tauto].
  - intros q Hq Hn _. rewrite lookup_insert_ne by done. split; [by apply Hsame|]. split; [done|]. by apply Hoth.
  - intros q Hq. destruct (decide (q = p)) as [-> | Hne]; [rewrite Hpr, !lookup_insert_eq; eauto|].
    rewrite (Hsame q Hne), lookup_insert_ne by done. destruct Hq as [?|Hq]; [done|]. rewrite (Hsame q Hne) in Hq.
    assert (Hq' : procs c !! q = Some (Embryo p)) by tauto. rewrite Hq'.
    destruct (inv_at _ _ _ _ H Hq') as (oq & E & Eq). exists oq. by split.
Qed.

Lemma closed_post e : closed (post e).
Proof.
  intros a l o o' E. unfold post. destruct e; [|by apply (closed_idle (A := Z) a)].
  intros (H1 & H2 & H3 & H4). split_and!; try done. by rewrite <- E.
Qed.

Lemma inv_embryo c L p np : inv c L -> procs c !! np = Some (Embryo p) -> L !! np = Some [].
Proof. intros H Hn. destruct (inv_at _ _ _ _ H Hn) as (o & E & Eo). simpl in Eo. by rewrite E, Eo. Qed.

(** The child a process is creating is not another process. *)
Lemma embryo_ne c p np st : procs c !! p = Some st -> (forall pa, st <> Embryo pa) -> procs c !! np = Some (Embryo p) -> np <> p.
Proof. intros Hp Hst Hn ->. rewrite Hp in Hn. inversion Hn as [E]. by apply Hst in E. Qed.

Definition goes {R} (p : Z) (e : bool) (k : R -> prog Z) (r : R) (s : fsys) : fsys := set_procs (<[p := Run e (k r)]> (procs s)) s.

Section Local.
Context (c : fsys) (L : gmap Z (list res)) (p : Z) (e : bool) (q q' : prog Z) (o : list res).
Context (H : inv c L) (Hp : procs c !! p = Some (Run e q)) (Ho : L !! p = Some o).

Lemma self_glob : glob c (o ++ owned (delete p L)).
Proof. eapply glob_perm; [by apply owned_at|apply H]. Qed.

(** Allocproc takes an unused slot, whose table is empty. *)
Lemma alloc_step np :
  procs c !! np = None ->
  wp q' (post e) (mkloc (ofile c p) (cwds c p) (Some (np, fun _ => None, None))) o ->
  inv (set_procs (<[p := Run e q']> (<[np := Embryo p]> (procs c))) c) (<[np := []]> L).
Proof.
  intros Hn Hw. assert (Hne : np <> p) by congruence. destruct (v_unused _ _ H np Hn) as [V1 V2].
  eapply (inv_step c _ L _ p); [done|congruence| | | |]; simpl.
  - eapply glob_perm; [symmetry; apply owned_insert|]. rewrite delete_id by (by apply (v_dom _ _ H)).
    eapply glob_same; [| | |apply H]; done.
  - intros i. rewrite !lookup_insert_Some. intros [[_ ?]|(_ & [[<- _]|[_ ?]])]; [congruence|tauto|tauto].
  - intros i Hi Hn1 Hn2. rewrite lookup_insert_ne in Hn2 |- * by done.
    destruct (decide (i = np)) as [-> | Hi2]; [rewrite lookup_insert_eq in Hn2; congruence|]. by rewrite !lookup_insert_ne.
  - intros i Hi. destruct (decide (i = p)) as [-> | Hip].
    + rewrite lookup_insert_eq. exists o. rewrite lookup_insert_ne by done. split; [done|]. eexists. split; [exact Hw|]. simpl.
      rewrite lookup_insert_ne, lookup_insert_eq by done. split_and!; done.
    + rewrite lookup_insert_ne in Hi |- * by done. destruct (decide (i = np)) as [-> | Hin]; [rewrite !lookup_insert_eq; by exists []|].
      rewrite !lookup_insert_ne in Hi by done. rewrite !lookup_insert_ne by done. assert (Hi' : procs c !! i = Some (Embryo p)) by tauto.
      rewrite Hi'. exists []. split; [exact (inv_embryo c L p i H Hi')|done].
Qed.

(** The slot of the child is released, its table empty. *)
Lemma free_step np :
  procs c !! np = Some (Embryo p) -> (forall fd, ofile c np fd = None) -> cwds c np = None ->
  wp q' (post e) (mkloc (ofile c p) (cwds c p) None) o ->
  inv (set_procs (<[p := Run e q']> (delete np (procs c))) c) (delete np L).
Proof.
  intros Hn V1 V2 Hw. assert (Hne : np <> p) by congruence.
  eapply (inv_step c _ L _ p); [done|congruence| | | |]; simpl.
  - eapply glob_same; [| | |eapply glob_perm; [|apply H]]; try done. by rewrite (owned_at L np [] (inv_embryo c L p np H Hn)).
  - intros i. rewrite lookup_insert_Some, lookup_delete_Some. intros [[_ ?]|(_ & _ & ?)]; [congruence|tauto].
  - intros i Hi Hn1 Hn2. assert (i <> np) by congruence. by rewrite lookup_insert_ne, !lookup_delete_ne.
  - intros i Hi. destruct (decide (i = p)) as [-> | Hip].
    + rewrite lookup_insert_eq. exists o. rewrite lookup_delete_ne by done. split; [done|]. by exists None.
    + rewrite lookup_insert_ne in Hi |- * by done. destruct (decide (i = np)) as [-> | Hin]; [by rewrite !lookup_delete_eq|].
      rewrite !lookup_delete_ne in Hi by done. rewrite !lookup_delete_ne by done. assert (Hi' : procs c !! i = Some (Embryo p)) by tauto.
      rewrite Hi'. exists []. split; [exact (inv_embryo c L p i H Hi')|done].
Qed.

(** The child becomes runnable: it takes over the references of its table. *)
Lemma runnable_step np ip o' :
  procs c !! np = Some (Embryo p) -> (forall fd, ~ 0 <= fd < NOFILE -> ofile c np fd = None) -> cwds c np = Some ip ->
  o ≡ₚ tabres (ofile c np) ++ RIno ip :: o' -> wp q' (post e) (mkloc (ofile c p) (cwds c p) None) o' ->
  inv (set_procs (<[p := Run e q']> (<[np := Idle]> (procs c))) c) (<[np := tabres (ofile c np) ++ [RIno ip]]> (<[p := o']> L)).
Proof.
  intros Hn V1 V2 Eo Hw. assert (Hne : np <> p) by congruence. pose proof (inv_embryo c L p np H Hn) as En.
  eapply (inv_step c _ L _ p); [done|congruence| | | |]; simpl.
  - eapply glob_same; [| | |eapply glob_perm; [|apply self_glob]]; try done.
    rewrite owned_insert, delete_insert_ne, owned_insert by done. rewrite (owned_at (delete p L) np []) by by rewrite lookup_delete_ne.
    rewrite Eo, delete_delete, <- !app_assoc. done.
  - intros i. rewrite !lookup_insert_Some. intros [[_ ?]|(_ & [[_ ?]|[_ ?]])]; [congruence|congruence|tauto].
  - intros i Hi Hn1 Hn2. assert (i <> np) by congruence. by rewrite !lookup_insert_ne.
  - intros i Hi. destruct (decide (i = p)) as [-> | Hip].
    + rewrite lookup_insert_eq. exists o'. rewrite lookup_insert_ne, lookup_insert_eq by done. split; [done|]. by exists None.
    + rewrite lookup_insert_ne in Hi |- * by done. destruct (decide (i = np)) as [-> | Hin].
      * rewrite !lookup_insert_eq. eexists. split; [done|]. split_and!; try done. by exists ip.
      * rewrite !lookup_insert_ne in Hi by done. rewrite !lookup_insert_ne by done. assert (Hi' : procs c !! i = Some (Embryo p)) by tauto.
        rewrite Hi'. exists []. split; [exact (inv_embryo c L p i H Hi')|done].
Qed.

(** The process changes its own slot, or that of its child. *)
Lemma self_step tb cw ch :
  (forall i, i <> p -> procs c !! i <> Some (Embryo p) -> tb i = ofile c i /\ cw i = cwds c i) ->
  (forall np t w, ch = Some (np, t, w) -> procs c !! np = Some (Embryo p) /\ (forall fd, t fd = tb np fd) /\ w = cw np) ->
  wp q' (post e) (mkloc (tb p) (cw p) ch) o ->
  inv (mkfsys (ftab c) (pipes c) (irefs c) tb cw (<[p := Run e q']> (procs c))) (<[p := o]> L).
Proof.
  intros H1 H2 Hw. eapply (inv_self c _ L p (Run e q) o); try done; try (intros; congruence).
  { by apply (glob_same c); [..|apply self_glob]. }
  exists ch. split; [done|]. destruct ch as [[[np t] w]|]; [|done]. destruct (H2 np t w) as (E & ? & ?); [done|].
  assert (np <> p) by congruence. simpl. by rewrite lookup_insert_ne.
Qed.
End Local.

Lemma global_step {R} (a : act R) k c L p e i :
  is_global a = true -> inv c L -> procs c !! p = Some (Run e (Act a k)) -> valid a i c ->
  exists r c' L', exec a p i c = Ret r c' /\ inv (goes p e k r c') L'.
Proof.
  intros Ha H Hp Hv. destruct (inv_at _ _ _ _ H Hp) as (o & Ho & ch & Hw & Hch). cbn [wp] in Hw.
  assert (Hcl : closed (fun r => wp (k r) (post e))) by (intros r l x x'; apply wp_perm, closed_post).
  destruct (global_act a p i c _ _ o _ Ha Hcl Hw (self_glob _ _ _ _ H Ho) Hv) as (r & s' & o' & E & Hw' & Hg & E1 & E2 & E3).
  exists r, s', (<[p := o']> L). split; [done|]. eapply (inv_self c (goes p e k r s') L p (Run e (Act a k)) o o' (Run e (k r))); try done; simpl.
  - by apply (glob_same s').
  - by rewrite E3.
  - by rewrite E1, E2.
  - exists ch. simpl. rewrite E1, E2. split; [done|]. destruct ch as [[[np t] w]|]; [|done]. simpl in *. rewrite E1, E2, E3.
    destruct Hch as (Hn & ? & ?). assert (np <> p) by congruence. by rewrite lookup_insert_ne.
Qed.

Lemma local_step {R} (a : act R) k c L p e i :
  is_global a = false -> inv c L -> procs c !! p = Some (Run e (Act a k)) -> valid a i c ->
  exists r c' L', exec a p i c = Ret r c' /\ inv (goes p e k r c') L'.
Proof.
  intros Ha H Hp Hv. destruct (inv_at _ _ _ _ H Hp) as (o & Ho & ch & Hw & Hch). cbn [wp] in Hw.
  assert (Hself : forall r tb cw ch',
    (forall i, i <> p -> procs c !! i <> Some (Embryo p) -> tb i = ofile c i /\ cw i = cwds c i) ->
    (forall np t w, ch' = Some (np, t, w) -> procs c !! np = Some (Embryo p) /\ (forall fd, t fd = tb np fd) /\ w = cw np) ->
    wp (k r) (post e) (mkloc (tb p) (cw p) ch') o ->
    exists L', inv (goes p e k r (mkfsys (ftab c) (pipes c) (irefs c) tb cw (procs c))) L').
  { intros r tb cw ch' H1 H2 H3. exists (<[p := o]> L). exact (self_step c L p e _ (k r) o H Hp Ho tb cw ch' H1 H2 H3). }
  assert (Hch0 : forall np t w, ch = Some (np, t, w) -> procs c !! np = Some (Embryo p) /\ (forall fd, t fd = ofile c np fd) /\ w = cwds c np)
    by (intros np t w ->; done).
  destruct a; try done; cbn [pre exec valid l_fds l_cwd l_child] in *.
  - eexists _, c. destruct (Hself (ofile c p fd) (ofile c) (cwds c) ch) as [L' HL]; try done. exists L'. split; [done|]. by destruct c.
  - destruct (Hself tt (upd (ofile c) p (upd (ofile c p) fd f)) (cwds c) ch) as [L' HL].
    + intros j Hj _. by rewrite upd_ne.
    + intros np t w Ech. destruct (Hch0 _ _ _ Ech) as (E & ? & ?). assert (np <> p) by congruence. by rewrite upd_ne.
    + by rewrite upd_eq.
    + exists tt, (set_ofile p fd f c), L'. by split.
  - eexists _, c. destruct (Hself (cwds c p) (ofile c) (cwds c) ch) as [L' HL]; try done. exists L'. split; [done|]. by destruct c.
  - destruct (Hself tt (ofile c) (upd (cwds c) p ip) ch) as [L' HL].
    + intros j Hj _. by rewrite upd_ne.
    + intros np t w Ech. destruct (Hch0 _ _ _ Ech) as (E & ? & ?). assert (np <> p) by congruence. by rewrite upd_ne.
    + by rewrite upd_eq.
    + exists tt, (set_cwds p ip c), L'. by split.
  - destruct Hw as (-> & H1 & H2). destruct (in_opt i) as [np|].
    + eexists (Some np), _, _. split; [done|]. exact (alloc_step c L p e _ _ o H Hp Ho np (Hv np eq_refl) (H2 np)).
    + destruct (Hself None (ofile c) (cwds c) None) as [L' HL]; try done. exists None, c, L'. split; [done|]. by destruct c.
  - destruct Hw as ((t & -> & Ht) & Hw). destruct Hch as (Hn & E1 & E2). eexists tt, _, _. split; [done|].
    exact (free_step c L p e _ _ o H Hp Ho np Hn (fun fd => eq_trans (eq_sym (E1 fd)) (Ht fd)) (eq_sym E2) Hw).
  - destruct Hw as (t & w & -> & Hw). destruct Hch as (Hn & E1 & E2). assert (Hne : np <> p) by congruence.
    destruct (Hself tt (upd (ofile c) np (upd (ofile c np) fd f)) (cwds c) (Some (np, upd t fd f, w))) as [L' HL].
    + intros j _ Hj. rewrite upd_ne; [done|congruence].
    + intros ??? [= <- <- <-]. split_and!; try done. intros fd'. rewrite upd_eq, !upd_case. by rewrite E1.
    + by rewrite upd_ne.
    + exists tt, (set_ofile np fd f c), L'. by split.
  - destruct Hw as (t & w & -> & Hw). destruct Hch as (Hn & E1 & E2). assert (Hne : np <> p) by congruence.
    destruct (Hself tt (ofile c) (upd (cwds c) np ip) (Some (np, t, ip))) as [L' HL].
    + intros j _ Hj. rewrite upd_ne; [done|congruence].
    + intros ??? [= <- <- <-]. by rewrite upd_eq.
    + by rewrite upd_ne.
    + exists tt, (set_cwds np ip c), L'. by split.
  - destruct Hw as (t & ip & o' & -> & Ht & Eo & Hw). destruct Hch as (Hn & E1 & E2). rewrite (tabres_ext (ofile c np) t E1) in Eo.
    eexists tt, _, _. split; [done|]. eapply (runnable_step c L p e _ _ o H Hp Ho np ip o'); try done.
    intros fd Hfd. rewrite <- E1. by apply Ht.
Qed.

Lemma step_inv dv c c' L : step dv c c' -> inv c L -> exists L', inv c' L'.
Proof.
  intros Hs H. destruct Hs as [s p h Hp _|s p e R a k i r s' Hp Hv E|s p v Hp|s p v Hp].
  - destruct (inv_at _ _ _ _ H Hp) as (o & Ho & Hok). exists (<[p := o]> L). eapply (inv_self s _ L p Idle o o (Run _ _)); try done.
    + apply (glob_same s); try done. by apply self_glob.
    + exists None. split; [|done]. by apply body_ok.
  - destruct (is_global a) eqn:Ha; [destruct (global_step a k s L p e i Ha H Hp Hv) as (r' & s2 & L' & E' & H')
      |destruct (local_step a k s L p e i Ha H Hp Hv) as (r' & s2 & L' & E' & H')]; rewrite E in E'; injection E' as <- <-; by exists L'.
  - destruct (inv_at _ _ _ _ H Hp) as (o & Ho & ch & Hok & Hch). exists (<[p := o]> L). eapply (inv_self s _ L p _ o o Idle); try done.
    + apply (glob_same s); try done. by apply self_glob.
    + destruct Hok as (Hc & H1 & H2). simpl in Hc. by subst ch.
  - destruct (inv_at _ _ _ _ H Hp) as (o & Ho & ch & (Hc & H1 & H2 & H3) & Hch). simpl in *.
    exists (delete p L). eapply (inv_step s _ L _ p); [done|congruence| | | |]; simpl.
    + apply (glob_same s); try done. eapply glob_perm; [|by apply self_glob]. by rewrite H3.
    + intros q. rewrite lookup_delete_Some. tauto.
    + intros q Hq _ _. by rewrite !lookup_delete_ne.
    + intros q Hq. destruct (decide (q = p)) as [-> | Hne]; [by rewrite !lookup_delete_eq|]. rewrite lookup_delete_ne in Hq by done.
      rewrite !lookup_delete_ne by done. assert (Hq' : procs s !! q = Some (Embryo p)) by tauto. rewrite Hq'.
      exists []. split; [exact (inv_embryo s L p q H Hq')|done].
Qed.

Lemma boot_inv files root : inv (boot files root) {[0 := [RIno root]]}.
Proof.
  assert (Ht : table (ftab (boot files root)) = []) by (unfold table; by induction (seqZ 0 NFILE)).
  assert (Ho : owned {[0 := [RIno root]]} = [RIno root]) by (unfold owned; by rewrite map_to_list_singleton).
  split; rewrite ?Ho.
  - split; [|intros pi w; by rewrite Ht|done|].
    + intros f. split; [done|cnts..|done].
    + intros ip. rewrite Ht. simpl. rewrite upd_case. cnts.
  - intros p. simpl. rewrite !lookup_singleton_None. done.
  - intros p st o. simpl. rewrite !lookup_singleton_Some. intros [<- <-] [_ <-]. split_and!; try done. cbn [l_cwd l_fds]. exists root.
    split; [simpl; by rewrite upd_eq|]. by rewrite tabres_none.
  - intros p. simpl. rewrite lookup_singleton_None. intros Hp. split; [done|]. by rewrite upd_ne.
Qed.

Lemma reach_inv dv files root s : rtc (step dv) (boot files root) s -> exists L, inv s L.
Proof.
  intros H. assert (Hi : exists L, inv (boot files root) L) by (eexists; apply boot_inv).
  induction H as [|s1 s2 s3 H12 H23 IH]; [done|]. destruct Hi as [L HL]. apply IH. by eapply step_inv.
Qed.

(** ** The claims *)

(** The references the processes hold when none is in the kernel. *)
Definition held (s : fsys) : list res :=
  concat ((fun p => tabres (ofile s p) ++ cwdres (cwds s p)) <$> (map_to_list (procs s)).*1).

Lemma owned_held (m : gmap Z pstat) (h : Z -> list res) L :
  (forall p, L !! p = None <-> m !! p = None) -> (forall p o, L !! p = Some o -> o ≡ₚ h p) ->
  owned L ≡ₚ concat (h <$> (map_to_list m).*1).
Proof.
  revert L. induction m as [|p st m Hp IH] using map_ind; intros L Hd Ho.
  - assert (L = ∅) as -> by (apply map_eq; intros p; rewrite lookup_empty; by apply Hd, lookup_empty). done.
  - destruct (L !! p) as [o|] eqn:E; [|apply Hd in E; by rewrite lookup_insert_eq in E].
    rewrite (owned_at _ _ _ E), (Ho _ _ E), (map_to_list_insert _ _ _ Hp). simpl. f_equiv. apply IH.
    + intros q. destruct (decide (q = p)) as [-> | Hne]; [by rewrite lookup_delete_eq|].
      rewrite lookup_delete_ne, Hd, lookup_insert_ne by done. done.
    + intros q o' [_ Hq]%lookup_delete_Some. by apply Ho.
Qed.

(** C11: in every reachable state of the machine, whatever the processes call, whatever
    the inode layer and the copies to user memory answer and in whatever order the
    processes run (the first process never exits), no handler has reached a panic or used a current directory it does
    not have, and its next action runs to its end: filedup and fileclose find a
    reference, pipeclose an open pipe, iput a counted inode. *)
Theorem file_no_panic dv files root s p e q :
  rtc (step dv) (boot files root) s -> procs s !! p = Some (Run e q) ->
  (forall msg, q <> Oops msg) /\
  forall R (a : act R) k i, q = Act a k -> valid a i s -> exists r s', exec a p i s = Ret r s'.
Proof.
  intros [L H]%reach_inv Hp. split.
  - intros msg ->. by destruct (inv_at _ _ _ _ H Hp) as (o & Ho & ch & Hw & _).
  - intros R a k i -> Hv. destruct (is_global a) eqn:Ha; [destruct (global_step a k s L p e i Ha H Hp Hv) as (r & s' & L' & E & _)
      |destruct (local_step a k s L p e i Ha H Hp Hv) as (r & s' & L' & E & _)]; eauto.
Qed.

(** C12: whenever no process is in the kernel, the count of every entry of the
    table of files is the number of descriptors that refer to it, and an entry with
    count 0 is free; an end of a pipe is open exactly when one entry refers to it, and
    a pipe with both ends closed is released; the count of every inode is the number
    of current directories and entries that refer to it. *)
Theorem file_refcount dv files root s :
  rtc (step dv) (boot files root) s -> (forall p st, procs s !! p = Some st -> st = Idle) ->
  (forall f, 0 <= f < NFILE -> f_ref (ftab s f) = cnt (RFile f) (held s) /\ (f_ref (ftab s f) = 0 -> f_type (ftab s f) = FD_NONE)) /\
  (forall pi w, cnt (REnd pi w) (table (ftab s)) = if is_open s pi w then 1 else 0) /\
  (forall pi, pipes s pi <> Some (false, false)) /\
  (forall ip, irefs s ip = cnt (RIno ip) (held s) + cnt (RIno ip) (table (ftab s))).
Proof.
  intros [L H]%reach_inv Hq. assert (Ho : owned L ≡ₚ held s).
  { apply (owned_held (procs s)); [apply H|]. intros p o Hp. destruct (procs s !! p) as [st|] eqn:Est; [|apply (v_dom _ _ H) in Est; congruence].
    assert (Hok := v_ok _ _ H p st o Est Hp). rewrite (Hq p st Est) in Hok. destruct Hok as (_ & _ & ip & Ec & Er). cbn [l_cwd l_fds] in *. by rewrite Ec. }
  destruct (glob_perm _ _ _ Ho (v_glob _ _ H)) as [G1 G2 G3 G4].
  assert (Hno : forall r, (forall f, r <> RFile f) -> (forall ip, r <> RIno ip) -> cnt r (held s) = 0).
  { intros r N1 N2. apply cnt_not_in. unfold held. intros (l & (p & -> & _)%list_elem_of_In%list_elem_of_fmap & Hr%list_elem_of_In)%list_elem_of_In%in_concat.
    apply elem_of_app in Hr as [(f & Hf & _)%list_elem_of_fmap|Hr]; [by apply N1 in Hf|].
    destruct (cwds s p) as [ip|]; simpl in Hr; [apply list_elem_of_singleton in Hr; by apply N2 in Hr|by apply elem_of_nil in Hr]. }
  split_and!.
  - intros f Hf. destruct (G1 f) as [O1 _ _ _ O5]. split; [|by apply O5]. rewrite (O1 Hf), (Hno (RFresh f)); [lia|done|done].
  - intros pi w. rewrite <- G2, cnt_app, Hno; [lia|done|done].
  - done.
  - intros ip. by rewrite G4, cnt_app.
Qed.

(** C13: a process that runs user code has a current directory, and every descriptor
    it has is in range and refers to an entry in range, with a positive count, that
    is set up: a pipe open for exactly one of reading and writing, an inode, or a
    device with a valid number; a slot with no process has no descriptor. *)
Theorem fd_typed dv files root s p :
  rtc (step dv) (boot files root) s ->
  match procs s !! p with
  | Some Idle =>
      (exists ip, cwds s p = Some ip /\ 0 < irefs s ip) /\
      forall fd f, ofile s p fd = Some f -> 0 <= fd < NOFILE /\ 0 <= f < NFILE /\ 0 < f_ref (ftab s f) /\ typed (ftab s f)
  | None => cwds s p = None /\ forall fd, ofile s p fd = None
  | _ => True
  end.
Proof.
  intros [L H]%reach_inv. destruct (procs s !! p) as [[| |]|] eqn:Hp; try done; [|by destruct (v_unused _ _ H p Hp)].
  destruct (inv_at _ _ _ _ H Hp) as (o & Ho & _ & Hout & ip & Ec & Er). cbn [l_fds l_cwd] in *.
  pose proof (self_glob _ _ _ _ H Ho) as Hg. split.
  - exists ip. split; [done|]. rewrite (g_ino _ _ Hg ip). apply cnt_in. do 2 apply in_frame. rewrite Er. apply elem_of_app. right. left.
  - intros fd f Hf. assert (Hfd : 0 <= fd < NOFILE). { destruct (decide (0 <= fd < NOFILE)) as [|Hn]; [done|]. rewrite (Hout fd Hn) in Hf. done. }
    assert (Hin : 0 < cnt (RFile f) (o ++ owned (delete p L))).
    { apply cnt_in, in_frame. rewrite Er. apply in_frame. by eapply tabres_in. }
    destruct (g_file _ _ Hg f) as [O1 O2 _ O4 _]. pose proof (cnt_pos (RFresh f) (o ++ owned (delete p L))).
    assert (Hr : 0 <= f < NFILE) by (apply O2; lia). specialize (O1 Hr). split_and!; try lia; apply Hfd || by apply O4.
Qed.

(** ** Runs *)

Definition validb {R} (a : act R) (i : input) (s : fsys) : bool :=
  match a, in_opt i with
  | Pipenew, Some pi => bool_decide (pipes s pi = None)
  | Allocproc, Some np => match procs s !! np with None => true | Some _ => false end
  | _, _ => true
  end.

(** [p] runs on its own, every action with the input [i]. *)
Fixpoint drive (n : nat) (p : Z) (i : input) (s : fsys) : fsys :=
  match n with
  | O => s
  | S n' =>
      match procs s !! p with
      | Some (Run e (Act a k)) =>
          if validb a i s then match exec a p i s with Ret r s' => drive n' p i (goes p e k r s') | _ => s end else s
      | Some (Run false (Done _)) => drive n' p i (set_procs (<[p := Idle]> (procs s)) s)
      | Some (Run true (Done _)) => drive n' p i (set_procs (delete p (procs s)) s)
      | _ => s
      end
  end.
Definition call (dv : Z -> bool) (n : nat) (p : Z) (h : handler) (i : input) (s : fsys) : fsys :=
  drive n p i (set_procs (<[p := Run (is_exit h) (body dv h)]> (procs s)) s).

Lemma validb_ok {R} (a : act R) i s : validb a i s = true -> valid a i s.
Proof.
  destruct a; try done; simpl; destruct (in_opt i); try done; [intros Hb%bool_decide_eq_true pi [= <-]; done|].
  intros Hb np [= <-]. by destruct (procs s !! z).
Qed.

Lemma drive_steps dv n p i s : rtc (step dv) s (drive n p i s).
Proof.
  revert s. induction n as [|n IH]; intros s; [done|]. cbn [drive]. destruct (procs s !! p) as [[|e [v|m|R a k]|]|] eqn:Hp; try done.
  - destruct e; (eapply rtc_l; [|apply IH]); [by eapply st_exited|by eapply st_return].
  - by destruct e.
  - assert (Hs : rtc (step dv) s (if validb a i s then match exec a p i s with Ret r s' => drive n p i (goes p e k r s') | _ => s end else s));
      [|by destruct e].
    destruct (validb a i s) eqn:Hv; [|done]. destruct (exec a p i s) eqn:E; try done.
    eapply rtc_l; [|apply IH]. eapply st_act; [done|by apply validb_ok|done].
Qed.

Lemma call_steps dv n p h i s :
  procs s !! p = Some Idle -> (is_exit h = true -> p <> 0) -> rtc (step dv) s (call dv n p h i s).
Proof. intros Hp Hi. eapply rtc_l; [by apply st_call|apply drive_steps]. Qed.

Module Demo.
Definition f0 : file := mkfile FD_NONE 0 false false 0 0 0 0.
Definition dv : Z -> bool := fun _ => true.
Definition start : fsys := boot (fun _ => f0) 7.
(** The first process makes a pipe and forks; the child exits. *)
Definition s1 : fsys := call dv 100 0 HPipe (mkinput 0 (Some 5) None) start.
Definition s2 : fsys := call dv 200 0 (HFork 2) (mkinput 0 (Some 3) None) s1.
Definition s3 : fsys := call dv 200 3 HExit (mkinput 0 None None) s2.
(** In the middle of the fork. *)
Definition s1' : fsys := call dv 3 0 (HFork 2) (mkinput 0 (Some 3) None) s1.

Lemma s1_reach : rtc (step dv) start s1.
Proof. apply call_steps; [reflexivity|done]. Qed.
Lemma s2_reach : rtc (step dv) start s2.
Proof. etrans; [apply s1_reach|]. apply call_steps; [vm_compute; reflexivity|done]. Qed.
Lemma s3_reach : rtc (step dv) start s3.
Proof. etrans; [apply s2_reach|]. apply call_steps; [vm_compute; reflexivity|done]. Qed.
Lemma s1'_reach : rtc (step dv) start s1'.
Proof. etrans; [apply s1_reach|]. apply call_steps; [vm_compute; reflexivity|done]. Qed.
Lemma s3_procs : procs s3 = {[0 := Idle]}.
Proof. vm_compute. reflexivity. Qed.
Lemma s2_refs : f_ref (ftab s2 0) = 2 /\ f_ref (ftab s2 1) = 2 /\ irefs s2 7 = 2 /\ ofile s2 3 1 = Some 1.
Proof. vm_compute. done. Qed.
Lemma s2_idle : procs s2 !! 3 = Some Idle.
Proof. vm_compute. reflexivity. Qed.
Lemma s1'_procs : exists q, procs s1' !! 0 = Some (Run false q) /\ exists k, q = Act (Filedup 0) k.
Proof. eexists. split; [vm_compute; reflexivity|]. eexists. reflexivity. Qed.

Lemma file_no_panic_witness : exists s', exec (Filedup 0) 0 (mkinput 0 None None) s1' = Ret tt s'.
Proof.
  destruct s1'_procs as (q & Hp & k & Hq). destruct (file_no_panic dv (fun _ => f0) 7 s1' 0 false q s1'_reach Hp) as [_ H].
  destruct (H _ (Filedup 0) k (mkinput 0 None None) Hq I) as ([] & s' & E). exists s'. exact E.
Defined.

Lemma file_refcount_witness : f_ref (ftab s3 0) = cnt (RFile 0) (held s3) /\ f_ref (ftab s3 0) = 1 /\ irefs s3 7 = 1.
Proof.
  assert (Hq : forall p st, procs s3 !! p = Some st -> st = Idle).
  { intros p st. rewrite s3_procs. intros [_ <-]%lookup_singleton_Some. done. }
  destruct (file_refcount dv (fun _ => f0) 7 s3 s3_reach Hq) as (H & _). split; [apply H; done|]. vm_compute. done.
Defined.

Lemma fd_typed_witness : 0 < f_ref (ftab s2 1) /\ typed (ftab s2 1).
Proof.
  pose proof (fd_typed dv (fun _ => f0) 7 s2 3 s2_reach) as H. rewrite s2_idle in H. destruct H as [_ H].
  destruct (H 1 1) as (_ & _ & H1 & H2); [exact (proj2 (proj2 (proj2 s2_refs)))|]. by split.
Defined.
End Demo.
